(* ===== verification/_CoqProject ===== *)
-Q . S2P
Prelude.v
Hoare.v
Ethernet.v
Packet.v
Teds.v
Crypto.v
Buffer.v
Shared.v
Observer.v
Mailbox.v
Random.v
Logger.v
Shm.v
ShmProps.v
ShmRing.v
RingCalls.v
SysV.v
SysVProps.v
SysVTraffic.v
SysVLocks.v
Clock.v
Calendar.v
Debug.v
Ptp.v
Group.v
Nic.v
Lifecycle.v
Monitor.v
Protocol.v
ProtocolLemmas.v
ProtocolProps.v
Communicator.v
EndToEnd.v
Control.v
SmartData.v
TedsHandler.v
Component.v
ComponentLife.v
Exchange.v
Boot.v
ShmSafe.v
HandlerSafe.v
Safety.v
ReceiveSafe.v
CommSafe.v
Vehicle.v
ComponentSafe.v
