(* ===== verification/Prelude.v ===== *)
(** * A vehicle's communication API, in Rocq

    The program under [src/source/] connects the components of a vehicle, and
    vehicles and roadside units with each other.  A vehicle is a set of
    processes around one System V shared-memory block: a gateway, which also
    owns a raw Ethernet socket, and components (sensors and actuators), each
    with a communicator listening on a port and on the types of data it
    subscribed to.  A message goes down from a communicator through the protocol
    and a network interface (NIC) to an engine, and up again through the
    observers of each layer; the gateway forwards broadcasts to the network,
    verifies what arrives with a session key and hands it to its vehicle.  The
    protocol also runs clock synchronisation (slave gateways, master roadside
    units) and group membership (members, one leader per quadrant).

    ** Conventions

    [Prelude] fixes the computations.  A call of the code is [M S E A]: it
    takes a state [S], gives an [outcome] (return, exception, blocked,
    undefined behaviour, [std::terminate]), the new state and the effects [E]
    in order.  As in C++, an exception keeps the changes made before it.
    Machine integers are [Z] with [u8] ... [u64], [i32], [i64] written where the
    code converts; sizes that the code subtracts wrap as they do there.  Memory
    is a list of bytes, and a read or write outside the object is [Undefined].
    The target is little-endian.  Clock readings, random draws, the results of
    system calls and the contents of memory that is never initialised are
    arguments.  Where a loop is cut into turns, a turn is one definition and
    the theorems say what any number of turns does.

    ** Files, from the bottom up

    - [Ethernet], [Packet], [Teds]: addresses, frames and wire formats
      ([definitions/*.hpp], [groups/group_payload.hpp]), with the lemmas that a
      field read back is the field written; TEDS types and units.
    - [Crypto]: [crypto/*].  [ICryptoProvider] is a record of operations, its
      laws the class [MacLaws]; the protocol's theorems are proved against the
      class and [xor_mac_laws] provides the XOR provider's instance.
    - [Buffer]: the reference-counted [Buffer<T>] of [definitions/buffer.hpp];
      [Shared]: its atomic count between threads, a release cut after the
      decrement.
    - [Observer]: [api/observer/*]: subjects, semaphore, queue.  The subject that
      notifies by value reads its vectors again after each call; while observers
      leave them alone it is the loop over the vectors ([value_notify_eq]).
    - [Mailbox]: the semaphore and the list of a communicator again, with [v],
      [p], [queue_incoming_buffer] and [receive] cut at every lock, shared
      access and wait, and interleaved between any number of threads, spurious
      wake-ups included.  [mailbox_inv] is proved by rule induction; the queue
      of [Observer] is its specification.
    - [Random]: the standard library's Mersenne Twister engines and the two
      functions that keep one per thread ([crypto/crypto_utils.hpp],
      [utils/random.cpp]).
    - [Logger]: [utils/logger.cpp], threads interleaved at the lock and the
      writes, against a list of lines; [utils/profiler.cpp].
    - [Shm], [ShmProps]: [engines/smh_engine.hpp], every operation of the
      engine as one atomic call on the shared block and the semaphores.
      [wait_slot]'s fuel is one more than the tokens in the semaphore it waits
      on, which [shm_send_backpressure] shows to be enough.
    - [ShmRing]: the same ring with [send], [receive_zerocopy] and
      [release_frame] cut at their shared accesses and interleaved ([step]);
      [ring_inv] is the invariant proved by rule induction, [log] the abstract
      specification.  Memory is sequentially consistent.
    - [RingCalls]: the two models of the ring together: a relation between the
      shared block of [Shm] and the state of [ShmRing], and each call of the
      engine as a run of one thread of the ring.
    - [SysV]: the engine's calls once more, with what the kernel keeps for
      [SEM_UNDO]: a sum per process and semaphore, its limits (parameters), and
      the end of a process, which undoes its sums.  [SysVProps] is the
      simulation by [Shm] while the limits have room, [SysVTraffic] what the
      signals of messages do to the limits, [SysVLocks] the locks when a process
      is killed between two system calls.
    - [Clock], [Ptp], [Group]: [utils/clock.hpp], [ptp/*], [groups/*].  A
      handler is a computation on its own state whose effects are the calls it
      makes ([call]).  The leader's monitor is cut where it releases its mutex;
      its eviction loop has one round of fuel per client and one more.
    - [Calendar], [Debug]: what is printed: times ([utils/clock.hpp], with the
      calendar of [localtime_r]) and frames and bits ([utils/
      protocol_utils.cpp], the [print_bits]).
    - [Nic]: [api/network/nic.hpp] and [engines/raw_socket_engine.hpp]; the
      class [Engine] is what a NIC uses of its engine, with one instance each.
      The upcall to the protocol is a section variable.
    - [Lifecycle]: the socket's constructor and destructor over the answers of
      the system calls, and the threads of a NIC and of the synchronisation
      timer ([ptp/ptp_timer_thread.hpp]) interleaved with the thread that stops
      them: a system is the list of its next states, and a measure bounds how
      often it moves ([runs_bounded], [runs_rest]).
    - [Monitor]: the leader's monitor as a thread, with its mutex and condition
      variable, interleaved with heartbeats, time and its stopping, on the
      leader of [Group].
    - [Protocol]: [api/network/protocol.hpp], the state of one process
      ([pstate]) and every operation on it; [ProtocolLemmas] and
      [ProtocolProps] hold the frame predicate [carries] and the theorems.
    - [Communicator]: [api/network/communicator.hpp], [definitions/message.hpp],
      and the class [Comm] the handlers use.
    - [EndToEnd]: messages from a communicator to a communicator.
    - [Control]: [api/network/control_envelope.hpp], [definitions/
      latency_test.hpp], [handlers/latency_test_handler.hpp].
    - [SmartData]: [vm/vehicle/smartdata/*], and [float] as its 32 bits.
    - [TedsHandler], [Component]: [handlers/teds_handler.hpp] over the class
      [IComponentBridge], which [vm/vehicle/components/component.hpp]
      implements; a [component] is a process with its handlers.
    - [ComponentLife]: the threads of a component as state machines, interleaved
      with its construction, its destruction and the messages that arrive.
    - [Exchange]: an interest and its answer, through every layer between two
      components.
    - [Boot]: [start_car.cpp], [start_roadside_unit.cpp], [gateway.hpp].

    - [Hoare]: triples for [M S E A] that exclude undefined behaviour, with
      their rules, the hint database [keeps] and the tactic [keep].  [ShmSafe],
      [HandlerSafe], [Safety], [ReceiveSafe], [CommSafe] use them, layer by
      layer: what a well-formed memory, leader, process and communicator is,
      and that each operation keeps it.
    - [Vehicle]: the operations of a process as one type ([op]), and a vehicle
      as processes that start, leave, are killed and interleave their operations
      over one shared memory ([vstep]).
    - [ComponentSafe]: the same for a component: the turns of its threads as one
      type ([turn]), interleaved with its NIC's thread and with what other
      processes do to the memory ([cstep]), from its constructor on.

    ** What the theorems show

    Type safety: in a well-formed process no operation runs into undefined
    behaviour ([process_type_safe]), so a vehicle never does, however its
    processes interleave, whatever packets arrive and whichever process is
    killed between two operations ([vehicle_safe]).  A
    process is well formed ([proc_ok]) when frames have their sizes, every
    queued buffer is a live view of a slot with a complete frame and is queued
    once, at most one communicator listens per port and per type, and a gateway
    has its handlers; the operations' conditions ([op_ok]) are that arguments
    have their types, that a communicator is used while it lives, that nobody
    listens twice, and that no queue holds 2^31 - 1 buffers.  A component does
    run into undefined behaviour, and [component_runs_safe] says exactly when:
    on messages it reads without a look at their size, and when it is asked for
    a value before the first sample ([misread]).

    Delivery: a message sent locally, or by a gateway, or broadcast from a
    component of one vehicle to a component of another arrives with its type,
    time, payload and source ([local_message_delivered],
    [network_message_delivered], [broadcast_reaches_other_vehicle]), by port or
    by subscribed type ([route]); an interest broadcast by an actuator is
    answered by the sensor's value in the actuator ([interest_answered]); forged and wrongly keyed frames do not
    ([forged_frame_dropped], [different_keys_dropped]).  The ring: views stay
    intact under any interleaving when frames are released in order
    ([ring_views_intact]), and the ring then refines a bounded broadcast log
    ([ring_refines_log]); the calls that the other theorems take as atomic are
    runs of it ([calls_are_ring_runs]); a send delivers or waits ([shm_send_delivers],
    [shm_send_backpressure]).  With [SEM_UNDO] the calls do the same as long as
    the kernel's limits have room ([calls_within_limits]); the signals use that
    room up ([traffic_ends]) and the end of a process moves them
    ([exit_moves_signals]), while the locks, taken and given back by the same
    process, come back ([locks_survive_kills]).  Synchronisation: the clock error is bounded by
    the asymmetry of the delays ([ptp_exchange_accuracy]).  Membership: the
    leader's maps stay consistent and exactly the expired clients go
    ([heartbeat_renews], [monitor_evicts_expired]).  Components: the response
    interval serves every subscriber ([interval_serves_subscribers]), values
    and pings make the round trip.  Data structures: the nearby table is a set,
    subjects are registration lists, counts are owners.

    Threads: a communicator's queue is FIFO and loses no wake-up under any
    interleaving ([mailbox_refines_queue], [mailbox_delivers]); the log is a
    sequence of whole lines ([log_refines_lines]); a shared buffer is freed once
    and not early ([shared_buffer_safe]); the membership monitor keeps the
    leader consistent and evicts in time ([monitor_thread_safe],
    [monitor_keeps_up]), except for the race of [monitor_heartbeat_race], which
    these exclude by [no_renewal]; threads draw session keys
    from engines of their own ([session_keys_of_threads]).  Stopping: the
    external NIC and the timer always stop ([raw_nic_stops], [timer_stops]),
    the internal NIC unless its thread sleeps ([shm_nic_stops]), and the socket
    is owned or closed ([raw_socket_owns]); a component's destructor never
    returns, and how its threads may end the process is known
    ([component_ends]).  Text: times and dumps read back
    ([clock_text_roundtrip], [dumps_read_back]).

    Other theorems state what goes wrong where the code allows it: the key a
    leader hands out, unauthenticated and short system frames, leaked buffers,
    lost wake-ups, releases out of order, late clients, slaves that wait for
    ever, sensors that end when they are asked again, control messages that are
    too short.

    ** Not modelled

    Weak memory (the fences are taken to give sequential consistency) and
    interleavings inside an operation other than the ring's, the mailbox's, the
    log's, the monitor's, the buffers' and those of stopping threads; kills
    inside an operation in [Vehicle] (in [SysVLocks] they come between system
    calls); how long sleeps last;
    what the programs print on the way, other than the texts above; the buffer
    of an output stream; the algorithm of [uniform_int_distribution], which the
    standard leaves open and is a parameter; a time zone's rules, of which the
    offset is a parameter.  [shmget], [shmat], [sendto] and the calls that set
    up a socket appear through their results only.  [smartdata/smart_data.hpp]
    declares type names only. *)
From stdpp Require Export base numbers strings sets gmap list_numbers list.
#[export] Set Default Goal Selector "!".

Declare Scope api_scope.
Delimit Scope api_scope with api.
Open Scope Z_scope.

(** ** Machine-width integers

    An unsigned w-bit C++ integer is a [Z] in [0, 2^w); the conversions wrap as
    the language prescribes.  Signed conversions follow the two's complement
    representation of the compilers the Makefile names. *)

Definition u8 (z : Z) : Z := z `mod` 2 ^ 8.
Definition u16 (z : Z) : Z := z `mod` 2 ^ 16.
Definition u32 (z : Z) : Z := z `mod` 2 ^ 32.
Definition u64 (z : Z) : Z := z `mod` 2 ^ 64.
Definition i64 (z : Z) : Z :=
  if decide (z `mod` 2 ^ 64 < 2 ^ 63) then z `mod` 2 ^ 64 else z `mod` 2 ^ 64 - 2 ^ 64.
Definition i32 (z : Z) : Z :=
  if decide (z `mod` 2 ^ 32 < 2 ^ 31) then z `mod` 2 ^ 32 else z `mod` 2 ^ 32 - 2 ^ 32.

Definition is_u (w z : Z) : Prop := 0 ≤ z < 2 ^ w.

Lemma u8_small z : is_u 8 z → u8 z = z.
Proof. intros ?. by apply Z.mod_small. Qed.
Lemma u16_small z : is_u 16 z → u16 z = z.
Proof. intros ?. by apply Z.mod_small. Qed.
Lemma u32_small z : is_u 32 z → u32 z = z.
Proof. intros ?. by apply Z.mod_small. Qed.
Lemma u64_small z : is_u 64 z → u64 z = z.
Proof. intros ?. by apply Z.mod_small. Qed.
Lemma u64_bound z : is_u 64 (u64 z).
Proof. apply Z.mod_pos_bound. lia. Qed.
Lemma u32_bound z : is_u 32 (u32 z).
Proof. apply Z.mod_pos_bound. lia. Qed.
Lemma u16_bound z : is_u 16 (u16 z).
Proof. apply Z.mod_pos_bound. lia. Qed.
Lemma i64_small z : -2 ^ 63 ≤ z < 2 ^ 63 → i64 z = z.
Proof.
  intros ?. unfold i64. destruct (decide (0 ≤ z)).
  - rewrite Z.mod_small by lia. case_decide; lia.
  - replace (z `mod` 2 ^ 64) with (z + 2 ^ 64).
    + case_decide; lia.
    + apply (Z.mod_unique _ _ (-1)); lia.
Qed.

Lemma i32_small z : 0 ≤ z < 2 ^ 31 → i32 z = z.
Proof. intros ?. unfold i32. rewrite Z.mod_small by lia. case_decide; lia. Qed.

(** ** Outcomes

    What a call of the modelled code can do: return, throw a
    [std::runtime_error] with its message, block (a semaphore or a spin lock
    whose condition does not hold), run into undefined behaviour, or end the
    process through [std::terminate]. *)

Inductive outcome (A : Type) : Type :=
  | Ret (a : A)
  | Throw (msg : string)
  | Blocked
  | Undefined
  | Terminate.
Arguments Ret {A} a.
Arguments Throw {A} msg.
Arguments Blocked {A}.
Arguments Undefined {A}.
Arguments Terminate {A}.

(** A stateful computation: it threads a state [S], appends effects [E] the
    outside world sees (in order), and ends in an outcome.  As in C++, an
    exception keeps the state changes made before it. *)

Definition M (S E A : Type) : Type := S → outcome A * S * list E.

#[export] Instance M_ret S E : MRet (M S E) := λ A a s, (Ret a, s, []).
#[export] Instance M_bind S E : MBind (M S E) := λ A B f m s,
  match m s with
  | (Ret a, s', es) =>
      match f a s' with (o, s'', es') => (o, s'', es ++ es') end
  | (Throw e, s', es) => (Throw e, s', es)
  | (Blocked, s', es) => (Blocked, s', es)
  | (Undefined, s', es) => (Undefined, s', es)
  | (Terminate, s', es) => (Terminate, s', es)
  end.

Definition get {S E} : M S E S := λ s, (Ret s, s, []).
Definition put {S E} (s : S) : M S E unit := λ _, (Ret tt, s, []).
Definition modify {S E} (f : S → S) : M S E unit := λ s, (Ret tt, f s, []).
Definition gets {S E A} (f : S → A) : M S E A := λ s, (Ret (f s), s, []).
Definition emit {S E} (e : E) : M S E unit := λ s, (Ret tt, s, [e]).
Definition throw {S E A} (msg : string) : M S E A := λ s, (Throw msg, s, []).
Definition blocked {S E A} : M S E A := λ s, (Blocked, s, []).
Definition undefined {S E A} : M S E A := λ s, (Undefined, s, []).
Definition terminate {S E A} : M S E A := λ s, (Terminate, s, []).

(** [try { m } catch (const std::exception&) { h }] *)
Definition try_catch {S E A} (m : M S E A) (h : string → M S E A) : M S E A := λ s,
  match m s with
  | (Throw e, s', es) => match h e s' with (o, s'', es') => (o, s'', es ++ es') end
  | r => r
  end.

(** Run a computation on a part of a larger state. *)
Definition zoom {S T E A} (view : S → T) (upd : T → S → S) (m : M T E A) : M S E A := λ s,
  match m (view s) with (o, t, es) => (o, upd t s, es) end.

(** Read an optional value; [None] stands for an access outside the object. *)
Definition checked {S E A} (o : option A) : M S E A :=
  match o with Some a => mret a | None => undefined end.

Lemma bind_ret_l {S E A B} (a : A) (f : A → M S E B) s :
  (mret a ≫= f) s = f a s.
Proof. unfold mbind, M_bind, mret, M_ret. by destruct (f a s) as [[??]?]. Qed.

Lemma bind_run {S E A B} (m : M S E A) (f : A → M S E B) s a s' es :
  m s = (Ret a, s', es) →
  (m ≫= f) s = match f a s' with (o, s'', es') => (o, s'', es ++ es') end.
Proof. intros Hm. unfold mbind, M_bind. by rewrite Hm. Qed.

Lemma bind_assoc {S E A B D} (m : M S E A) (f : A → M S E B) (g : B → M S E D) st :
  ((m ≫= f) ≫= g) st = (m ≫= λ x, f x ≫= g) st.
Proof.
  unfold mbind, M_bind. destruct (m st) as [[[a|e| | |] st'] es]; try done.
  destruct (f a st') as [[[b|e| | |] st''] es']; try done.
  destruct (g b st'') as [[? ?] ?]. by rewrite app_assoc.
Qed.

Lemma bind_ext {S E A B} (m : M S E A) (f g : A → M S E B) st :
  (∀ a st', f a st' = g a st') → (m ≫= f) st = (m ≫= g) st.
Proof.
  intros Hfg. unfold mbind, M_bind. destruct (m st) as [[[a|e| | |] st'] es]; try done.
  by rewrite Hfg.
Qed.

Lemma bind_pure {S E A B} (m : M S E A) (f : A → M S E B) s a s' :
  m s = (Ret a, s', []) → (m ≫= f) s = f a s'.
Proof. intros Hm. unfold mbind, M_bind. rewrite Hm. by destruct (f a s') as [[??]?]. Qed.

Lemma bind_get {S E B} (f : S → M S E B) s : (get ≫= f) s = f s s.
Proof. by apply bind_pure. Qed.
Lemma bind_gets {S E A B} (g : S → A) (f : A → M S E B) s : (gets g ≫= f) s = f (g s) s.
Proof. by apply bind_pure. Qed.
Lemma bind_put {S E B} t (f : unit → M S E B) s : (put t ≫= f) s = f tt t.
Proof. by apply bind_pure. Qed.
Lemma bind_modify {S E B} g (f : unit → M S E B) s : (modify g ≫= f) s = f tt (g s).
Proof. by apply bind_pure. Qed.
Lemma bind_checked {S E A B} (a : A) (f : A → M S E B) s : (checked (Some a) ≫= f) s = f a s.
Proof. by apply bind_pure. Qed.
Lemma bind_blocked {S E A B} (f : A → M S E B) s : (blocked ≫= f) s = (Blocked, s, []).
Proof. done. Qed.
Lemma bind_throw {S E A B} e (f : A → M S E B) s : (throw e ≫= f) s = (Throw e, s, []).
Proof. done. Qed.

(** Run the elementary computations at the head of a program. *)
Ltac mstep := repeat first
  [ rewrite bind_ret_l | rewrite bind_get | rewrite bind_gets | rewrite bind_put
  | rewrite bind_modify | rewrite bind_checked | rewrite bind_assoc ]; cbv beta.

(** ** Bytes and memory

    A region of memory is a [list Z] of bytes.  The target (RISC-V) and the
    build hosts are little-endian, so an n-byte integer in memory is its
    little-endian expansion. *)

Abbreviation byte_ok b := (0 ≤ b < 2 ^ 8).
Abbreviation bytes_ok := (Forall (λ b : Z, 0 ≤ b < 2 ^ 8)).

Definition lebytes (n : nat) (z : Z) : list Z := Z_to_little_endian (Z.of_nat n) 8 z.
Definition leval (bs : list Z) : Z := little_endian_to_Z 8 bs.

(** [memcpy] out of memory: [len] bytes at [off], if they lie inside. *)
Definition slice {A} (off len : nat) (mem : list A) : list A := take len (drop off mem).
Definition read_mem {A} (off len : nat) (mem : list A) : option (list A) :=
  if decide (off + len ≤ length mem)%nat then Some (slice off len mem) else None.

(** [memcpy] into memory: overwrite [length bs] bytes at [off]. *)
Definition splice {A} (off : nat) (bs mem : list A) : list A :=
  take off mem ++ bs ++ drop (off + length bs) mem.

Lemma length_lebytes n z : length (lebytes n z) = n.
Proof.
  unfold lebytes. pose proof (length_Z_to_little_endian (Z.of_nat n) 8 z). lia.
Qed.

Lemma lebytes_ok n z : bytes_ok (lebytes n z).
Proof. apply Z_to_little_endian_bound; lia. Qed.

Lemma leval_lebytes n z : leval (lebytes n z) = z `mod` 2 ^ (Z.of_nat n * 8).
Proof. apply little_endian_to_Z_to_little_endian; lia. Qed.

Lemma leval_small n z : is_u (Z.of_nat n * 8) z → leval (lebytes n z) = z.
Proof. intros ?. rewrite leval_lebytes. by apply Z.mod_small. Qed.

Lemma lebytes_leval bs : bytes_ok bs → lebytes (length bs) (leval bs) = bs.
Proof. intros ?. by apply Z_to_little_endian_to_Z. Qed.

Lemma leval_bound bs : bytes_ok bs → is_u (Z.of_nat (length bs) * 8) (leval bs).
Proof. intros ?. by apply little_endian_to_Z_bound. Qed.

Lemma leval_nil : leval [] = 0.
Proof. done. Qed.

Lemma leval_cons b bs : byte_ok b → leval (b :: bs) = b + 256 * leval bs.
Proof.
  intros Hb. unfold leval; simpl. set (v := little_endian_to_Z 8 bs).
  assert (Z.land b (v ≪ 8) = 0) as Hl.
  { apply Z.bits_inj'. intros n Hn. rewrite Z.land_spec, Z.bits_0.
    destruct (decide (n < 8)).
    - rewrite Z.shiftl_spec_low by done. by destruct (Z.testbit b n).
    - rewrite <- (Z.mod_small b (2 ^ 8)) by done. by rewrite Z.mod_pow2_bits_high by lia. }
  rewrite <- Z.lxor_lor, <- Z.add_nocarry_lxor by done.
  rewrite Z.shiftl_mul_pow2 by lia. lia.
Qed.

Lemma lebytes_byte b : byte_ok b → lebytes 1 b = [b].
Proof.
  intros Hb. pose proof (length_lebytes 1 b) as Hl. pose proof (lebytes_ok 1 b) as Hok.
  pose proof (leval_small 1 b Hb) as Hv. destruct (lebytes 1 b) as [|x [|]]; try done.
  apply Forall_cons_1 in Hok as [Hx _]. rewrite leval_cons, leval_nil in Hv by done.
  f_equal. lia.
Qed.

Lemma leval_inj bs1 bs2 :
  bytes_ok bs1 → bytes_ok bs2 → length bs1 = length bs2 → leval bs1 = leval bs2 → bs1 = bs2.
Proof. intros H1 H2 Hl He. rewrite <- (lebytes_leval bs1), <- (lebytes_leval bs2) by done. congruence. Qed.

Lemma length_slice {A} off len (mem : list A) :
  (off + len ≤ length mem)%nat → length (slice off len mem) = len.
Proof. intros ?. unfold slice. rewrite length_take, length_drop. lia. Qed.

Lemma length_splice {A} off (bs mem : list A) :
  (off + length bs ≤ length mem)%nat → length (splice off bs mem) = length mem.
Proof.
  intros ?. unfold splice. rewrite !length_app, length_take, length_drop. lia.
Qed.

Lemma slice_ok off len (l : list Z) : bytes_ok l → bytes_ok (slice off len l).
Proof. intros ?. unfold slice. by apply Forall_take, Forall_drop. Qed.

Lemma slice_splice_eq {A} off (bs mem : list A) :
  (off ≤ length mem)%nat → slice off (length bs) (splice off bs mem) = bs.
Proof.
  intros ?. unfold slice, splice. rewrite drop_app_length' by (rewrite length_take; lia).
  by rewrite take_app_length.
Qed.

Lemma take_app_eq {A} n (l k : list A) : length l = n → take n (l ++ k) = l.
Proof. intros <-. apply take_app_length. Qed.

Lemma drop_app_eq {A} n (l k : list A) : length l = n → drop n (l ++ k) = k.
Proof. intros <-. apply drop_app_length. Qed.

Lemma slice_app_skip {A} off len (l k : list A) :
  length l = off → slice off len (l ++ k) = take len k.
Proof. intros <-. unfold slice. by rewrite drop_app_length. Qed.

Lemma read_mem_in {A} off len (mem : list A) :
  (off + len ≤ length mem)%nat → read_mem off len mem = Some (slice off len mem).
Proof. intros ?. unfold read_mem. by rewrite decide_True by lia. Qed.

Lemma read_mem_out {A} off len (mem : list A) :
  (length mem < off + len)%nat → read_mem off len mem = None.
Proof. intros ?. unfold read_mem. by rewrite decide_False by lia. Qed.

(** ** Bitwise reasoning *)

(** Equality of integers bit by bit. *)
Ltac bitwise :=
  apply Z.bits_inj'; intros ? ?;
  rewrite ?Z.land_spec, ?Z.lor_spec, ?Z.lxor_spec, ?Z.ldiff_spec.

Lemma lxor_bound w a b : 0 ≤ w → is_u w a → is_u w b → is_u w (Z.lxor a b).
Proof.
  intros Hw Ha Hb. unfold is_u in *. split.
  - apply Z.lxor_nonneg. lia.
  - destruct (decide (Z.lxor a b = 0)) as [->|Hne]; [lia|].
    assert (0 < Z.lxor a b) by (pose proof (Z.lxor_nonneg a b); lia).
    apply Z.log2_lt_pow2; [lia|].
    pose proof (Z.log2_lxor a b ltac:(lia) ltac:(lia)) as Hl.
    assert (∀ c, 0 ≤ c < 2 ^ w → Z.log2 c < w ∨ (c = 0)) as Hlog.
    { intros c ?. destruct (decide (c = 0)); [by right|left]. apply Z.log2_lt_pow2; lia. }
    destruct (decide (w = 0)) as [->|]; [|destruct (Hlog a), (Hlog b); subst; simpl in *; lia].
    assert (a = 0) by lia. assert (b = 0) by lia. subst. done.
Qed.

Lemma lxor_cancel_l a b c : Z.lxor a b = Z.lxor a c → b = c.
Proof.
  intros H. rewrite <- (Z.lxor_0_l b), <- (Z.lxor_0_l c), <- (Z.lxor_nilpotent a).
  by rewrite !Z.lxor_assoc, H.
Qed.

Lemma lxor_cancel_r a b c : Z.lxor b a = Z.lxor c a → b = c.
Proof. rewrite !(Z.lxor_comm _ a). apply lxor_cancel_l. Qed.

(** ** Hints and tactics shared by the components *)

Create HintDb api discriminated.
#[export] Hint Resolve u64_bound u32_bound u16_bound lebytes_ok slice_ok : api.
#[export] Hint Resolve Forall_app_2 : api.

(** Split a conjunction of concrete facts and evaluate each. *)
Ltac eval_witness := repeat split; vm_compute; first [reflexivity | congruence | lia].

(** Case on the conditionals of the code, outermost first. *)
Ltac code_cases := repeat (case_decide || case_match); simplify_eq; try done.

(** Unfold a monadic computation applied to a state. *)
Ltac run_m :=
  unfold mbind, M_bind, mret, M_ret, get, put, modify, gets, emit, throw, blocked, undefined,
    checked, zoom in *; simpl.
