(* ===== verification/Hoare.v ===== *)
(** A program logic for the computations [M S E A]: a triple excludes undefined
    behaviour and bounds the state after a return, the state after any other
    end, and the effects. *)
From S2P Require Import Prelude.

(** From a state in [P], [m] does not run into undefined behaviour; a value it
    returns and the state are in [Q]; any other end leaves the state in [X];
    every effect is in [F]. *)
Definition triple {S E A} (F : E → Prop) (P : S → Prop) (m : M S E A) (Q : A → S → Prop)
    (X : S → Prop) : Prop :=
  ∀ s, P s → match m s with
             | (o, s', es) =>
                 Forall F es ∧
                 match o with Ret a => Q a s' | Undefined => False | _ => X s' end
             end.

(** [m] keeps the invariant [I], however it ends. *)
Abbreviation keeps F I m := (triple F I m (λ _, I) I).
(** It also returns values in [Q] only. *)
Abbreviation yields F I m Q := (triple F I m (λ a s, I s ∧ Q a) I).

Section rules.
Context {S E : Type} (F : E → Prop).
Implicit Types (P I X : S → Prop).

Lemma triple_conseq {A} P P' (m : M S E A) Q Q' X X' :
  triple F P' m Q' X' → (∀ s, P s → P' s) → (∀ a s, Q' a s → Q a s) → (∀ s, X' s → X s) →
  triple F P m Q X.
Proof.
  intros Hm HP HQ HX s Hs. specialize (Hm s (HP s Hs)).
  destruct (m s) as [[o s'] es]. destruct Hm as [Hes Ho]. split; [done|]. destruct o; auto.
Qed.

(** The state at the start, fixed. *)
Lemma triple_at {A} P (m : M S E A) Q X :
  (∀ s, P s → triple F (λ s', s' = s) m Q X) → triple F P m Q X.
Proof. intros Hm s Hs. by apply (Hm s Hs). Qed.

Lemma triple_bind {A B} P (m : M S E A) (f : A → M S E B) R Q X :
  triple F P m R X → (∀ a, triple F (R a) (f a) Q X) → triple F P (m ≫= f) Q X.
Proof.
  intros Hm Hf s Hs. specialize (Hm s Hs). unfold mbind, M_bind.
  destruct (m s) as [[o s'] es]. destruct Hm as [Hes Ho]. destruct o as [a|e| | |]; try done.
  specialize (Hf a s' Ho). destruct (f a s') as [[o' s''] es']. destruct Hf as [Hes' Ho'].
  split; [by apply Forall_app|done].
Qed.

Lemma triple_ret {A} P (a : A) (Q : A → S → Prop) X : (∀ s, P s → Q a s) → triple F P (mret a) Q X.
Proof. intros HQ s Hs. split; [constructor|]. by apply HQ. Qed.
Lemma triple_get P (Q : S → S → Prop) X : (∀ s, P s → Q s s) → triple F P get Q X.
Proof. intros HQ s Hs. split; [constructor|]. by apply HQ. Qed.
Lemma triple_gets {A} P (g : S → A) (Q : A → S → Prop) X :
  (∀ s, P s → Q (g s) s) → triple F P (gets g) Q X.
Proof. intros HQ s Hs. split; [constructor|]. by apply HQ. Qed.
Lemma triple_put P t (Q : unit → S → Prop) X : (∀ s, P s → Q tt t) → triple F P (put t) Q X.
Proof. intros HQ s Hs. split; [constructor|]. by eapply HQ. Qed.
Lemma triple_modify P g (Q : unit → S → Prop) X : (∀ s, P s → Q tt (g s)) → triple F P (modify g) Q X.
Proof. intros HQ s Hs. split; [constructor|]. by apply HQ. Qed.
Lemma triple_emit P e (Q : unit → S → Prop) X : F e → (∀ s, P s → Q tt s) → triple F P (emit e) Q X.
Proof. intros He HQ s Hs. split; [by repeat constructor|]. by apply HQ. Qed.
Lemma triple_throw {A} P e (Q : A → S → Prop) X : (∀ s, P s → X s) → triple F P (throw e) Q X.
Proof. intros HX s Hs. split; [constructor|]. by apply HX. Qed.
Lemma triple_blocked {A} P (Q : A → S → Prop) X : (∀ s, P s → X s) → triple F P blocked Q X.
Proof. intros HX s Hs. split; [constructor|]. by apply HX. Qed.
Lemma triple_terminate {A} P (Q : A → S → Prop) X : (∀ s, P s → X s) → triple F P terminate Q X.
Proof. intros HX s Hs. split; [constructor|]. by apply HX. Qed.
Lemma triple_checked {A} P (o : option A) (Q : A → S → Prop) X :
  (∀ s, P s → ∃ a, o = Some a ∧ Q a s) → triple F P (checked o) Q X.
Proof. intros Ho s Hs. destruct (Ho s Hs) as (a & -> & HQ). split; [constructor|done]. Qed.

Lemma triple_try {A} P (m : M S E A) (h : string → M S E A) Q X :
  triple F P m Q X → (∀ e, triple F X (h e) Q X) → triple F P (try_catch m h) Q X.
Proof.
  intros Hm Hh s Hs. specialize (Hm s Hs). unfold try_catch.
  destruct (m s) as [[o s'] es]. destruct Hm as [Hes Ho]. destruct o as [a|e| | |]; try done.
  specialize (Hh e s' Ho). destruct (h e s') as [[o' s''] es']. destruct Hh as [Hes' Ho'].
  split; [by apply Forall_app|done].
Qed.

(** Running on a part of the state: what holds of the part, and what putting a
    new part back needs. *)
Lemma triple_zoom {T A} (view : S → T) (upd : T → S → S) P (m : M T E A) Q X PT QT XT :
  triple F PT m QT XT → (∀ s, P s → PT (view s)) →
  (∀ s a t, P s → QT a t → Q a (upd t s)) → (∀ s t, P s → XT t → X (upd t s)) →
  triple F P (zoom view upd m) Q X.
Proof.
  intros Hm HP HQ HX s Hs. specialize (Hm (view s) (HP s Hs)). unfold zoom.
  destruct (m (view s)) as [[o t] es]. destruct Hm as [Hes Ho]. split; [done|]. destruct o; eauto.
Qed.

(** A computation whose result is known. *)
Lemma triple_run {A} P (m : M S E A) (Q : A → S → Prop) X :
  (∀ s, P s → ∃ a s' es, m s = (Ret a, s', es) ∧ Forall F es ∧ Q a s') → triple F P m Q X.
Proof. intros Hm s Hs. by destruct (Hm s Hs) as (a & s' & es & -> & Hes & HQ). Qed.

(** ** Invariants *)

Lemma keeps_bind {A B} I (m : M S E A) (f : A → M S E B) :
  keeps F I m → (∀ a, keeps F I (f a)) → keeps F I (m ≫= f).
Proof. apply triple_bind. Qed.

Lemma keeps_at {A} P (m : M S E A) Q X s : triple F P m Q X → P s → triple F (λ s', s' = s) m Q X.
Proof. by intros Hm Hs ? ->; apply Hm. Qed.

Lemma yields_bind {A B} I (m : M S E A) (f : A → M S E B) (Q : A → Prop) (R : B → S → Prop) :
  yields F I m Q → (∀ a, Q a → triple F I (f a) R I) → triple F I (m ≫= f) R I.
Proof.
  intros Hm Hf. eapply triple_bind; [exact Hm|]. intros a s [Hs Ha]. by apply (Hf a Ha).
Qed.

(** The last step may leave the invariant. *)
Lemma triple_seq {A B} I (m : M S E A) (f : A → M S E B) (R : B → S → Prop) X :
  keeps F I m → (∀ s, I s → X s) → (∀ a, triple F I (f a) R X) → triple F I (m ≫= f) R X.
Proof.
  intros Hm HX. apply triple_bind. by eapply triple_conseq; [apply Hm| | |apply HX].
Qed.
Lemma yields_seq {A B} I (m : M S E A) (f : A → M S E B) (Q : A → Prop) (R : B → S → Prop) X :
  yields F I m Q → (∀ s, I s → X s) → (∀ a, Q a → triple F I (f a) R X) → triple F I (m ≫= f) R X.
Proof.
  intros Hm HX Hf. eapply triple_bind; [by eapply triple_conseq; [apply Hm| | |apply HX]|].
  intros a s [Hs Ha]. by apply (Hf a Ha).
Qed.
Lemma bind_head {A B} (m m' : M S E A) (f : A → M S E B) s : m s = m' s → (m ≫= f) s = (m' ≫= f) s.
Proof. intros Heq. unfold mbind, M_bind. by rewrite Heq. Qed.

(** A computation that runs like another one. *)
Lemma triple_eq {A} P (m n : M S E A) (Q : A → S → Prop) X :
  (∀ s, P s → m s = n s) → triple F P n Q X → triple F P m Q X.
Proof. intros Heq Hn s Hs. rewrite (Heq s Hs). by apply Hn. Qed.

(** A step without effects: [m] from [s] goes on as [n] from [t]. *)
Lemma triple_goto {A} (m n : M S E A) (Q : A → S → Prop) X s t :
  m s = n t → triple F (λ s', s' = t) n Q X → triple F (λ s', s' = s) m Q X.
Proof. intros Heq Hn ? ->. rewrite Heq. by apply Hn. Qed.

End rules.

Create HintDb keeps discriminated.

(** One step of the code, for an invariant. [keep] runs through the elementary
    computations and the cases; what needs a lemma comes from the [keeps]
    database or stays. *)
Ltac keep_step :=
  match goal with
  | |- triple _ _ (_ ≫= _) _ _ => eapply keeps_bind; [|intros ?]
  | |- triple _ _ (mret _) _ _ => apply triple_ret; done
  | |- triple _ _ get _ _ => apply triple_get; done
  | |- triple _ _ (gets _) _ _ => apply triple_gets; done
  | |- triple _ _ (throw _) _ _ => apply triple_throw; done
  | |- triple _ _ blocked _ _ => apply triple_blocked; done
  | |- triple _ _ terminate _ _ => apply triple_terminate; done
  | |- triple _ _ (if ?b then _ else _) _ _ => destruct b
  | |- triple _ _ (match ?x with _ => _ end) _ _ => destruct x
  | |- triple _ _ (let _ := _ in _) _ _ => cbv zeta
  end.
Ltac keep := repeat first [ solve [eauto 3 with keeps] | progress cbv beta | keep_step ].

(** What a triple says of one run. *)
Lemma triple_result {S E A} (F : E → Prop) P (m : M S E A) Q X s o s' es :
  triple F P m Q X → P s → m s = (o, s', es) →
  o ≠ Undefined ∧ (match o with Ret a => Q a s' | _ => X s' end) ∧ Forall F es.
Proof.
  intros Hm Hs Hr. specialize (Hm s Hs). rewrite Hr in Hm. destruct Hm as [Hes Ho].
  by destruct o.
Qed.
