(* ===== verification/Ethernet.v ===== *)
(** Addresses and frames: [definitions/ethernet.hpp], [address.hpp],
    [quadrant.hpp] and the address hash of [groups/i_group_handler.hpp]. *)
From S2P Require Import Prelude.
From stdpp Require Import pretty.
Local Open Scope Z_scope.

Definition ADDR_LEN : nat := 6.
Definition ETH_MTU : Z := 1500.
Definition HEADER_SIZE : Z := 14.

(** [struct Ethernet::MAC], with its byte array. *)
Record MAC := mk_MAC { addr : list Z }.

#[export] Instance MAC_eq_dec : EqDecision MAC.
Proof. solve_decision. Defined.
#[export] Instance MAC_countable : Countable MAC.
Proof. by refine (inj_countable' addr mk_MAC _); intros []. Defined.

Definition mac_ok (m : MAC) : Prop := length (addr m) = ADDR_LEN ∧ bytes_ok (addr m).

(** The default constructor zeroes the array; [LOCAL_ADDR] is the same value. *)
Definition MAC_default : MAC := mk_MAC (replicate ADDR_LEN 0).
Definition BROADCAST_ADDR : MAC := mk_MAC (replicate ADDR_LEN 0xFF).
Definition LOCAL_ADDR : MAC := mk_MAC (replicate ADDR_LEN 0).

(** [operator==]: [memcmp(addr, other.addr, ADDR_LEN) == 0], byte by byte. *)
Fixpoint memcmp_eq (n : nat) (a b : list Z) : bool :=
  match n with
  | O => true
  | S n => match a, b with
           | x :: a, y :: b => bool_decide (x = y) && memcmp_eq n a b
           | _, _ => false
           end
  end.
Definition mac_eqb (a b : MAC) : bool := memcmp_eq ADDR_LEN (addr a) (addr b).
Definition mac_neb (a b : MAC) : bool := negb (mac_eqb a b).

Lemma memcmp_eq_spec a b : length a = length b → memcmp_eq (length a) a b = bool_decide (a = b).
Proof.
  revert b. induction a as [|x a IH]; intros [|y b] Hl; simpl in *; [done|lia|lia|].
  rewrite IH by lia. repeat case_bool_decide; naive_solver.
Qed.

Lemma mac_eqb_spec a b : mac_ok a → mac_ok b → mac_eqb a b = bool_decide (a = b).
Proof.
  intros [Ha _] [Hb _]. unfold mac_eqb. rewrite <- Ha, memcmp_eq_spec by congruence.
  destruct a, b; simpl. repeat case_bool_decide; naive_solver.
Qed.

Lemma broadcast_ok : mac_ok BROADCAST_ADDR.
Proof. split; [done|]. repeat constructor; lia. Qed.
Lemma local_ok : mac_ok LOCAL_ADDR.
Proof. split; [done|]. repeat constructor; lia. Qed.
#[export] Hint Resolve broadcast_ok local_ok : api.

(** [class Address]: a MAC and a 16-bit port. *)
Record Address := mk_Address { paddr : MAC; port : Z }.

#[export] Instance Address_eq_dec : EqDecision Address.
Proof. solve_decision. Defined.
#[export] Instance Address_countable : Countable Address.
Proof.
  by refine (inj_countable' (λ a, (paddr a, port a)) (λ p, mk_Address p.1 p.2) _); intros [].
Defined.

Definition address_ok (a : Address) : Prop := mac_ok (paddr a) ∧ is_u 16 (port a).

Definition Address_default : Address := mk_Address MAC_default 0.
Definition Address_broadcast (p : Z) : Address := mk_Address BROADCAST_ADDR p.
Definition Address_local (p : Z) : Address := mk_Address LOCAL_ADDR p.
Definition Address_bool (a : Address) : bool := bool_decide (port a ≠ 0).
Definition Address_eqb (a b : Address) : bool :=
  mac_eqb (paddr a) (paddr b) && bool_decide (port a = port b).

Lemma Address_eqb_spec a b :
  address_ok a → address_ok b → Address_eqb a b = bool_decide (a = b).
Proof.
  intros [Ha _] [Hb _]. unfold Address_eqb. rewrite mac_eqb_spec by done.
  destruct a, b; simpl. repeat case_bool_decide; naive_solver.
Qed.

(** The object representation of an [Address]: the six bytes, then the port. *)
Definition address_bytes (a : Address) : list Z := addr (paddr a) ++ lebytes 2 (port a).
Definition address_of_bytes (bs : list Z) : Address :=
  mk_Address (mk_MAC (slice 0 6 bs)) (leval (slice 6 2 bs)).

Lemma address_of_bytes_bytes a rest :
  address_ok a → address_of_bytes (address_bytes a ++ rest) = a.
Proof.
  intros [[Hl _] Hp]. destruct a as [[m] p]; simpl in *.
  unfold address_of_bytes, address_bytes; simpl. rewrite <- app_assoc.
  unfold slice at 1. rewrite drop_0, take_app_eq by done.
  rewrite slice_app_skip by done. rewrite take_app_eq by apply length_lebytes.
  by rewrite leval_small.
Qed.

(** [std::hash<Address>]: 64-bit FNV over the bytes of the object. *)
Definition hash_address (a : Address) : Z :=
  fold_left (λ h b, u64 (Z.lxor h b * 16777619)) (address_bytes a) 2166136261.

(** Printing: two hexadecimal digits per byte, separated by colons. *)
Definition hex_digit (d : Z) : string :=
  default "?"%string
    (["0"; "1"; "2"; "3"; "4"; "5"; "6"; "7"; "8"; "9"; "a"; "b"; "c"; "d"; "e"; "f"]%string
       !! Z.to_nat d).
Definition hex_byte (b : Z) : string := (hex_digit (b / 16) +:+ hex_digit (b `mod` 16))%string.
Fixpoint hex_bytes (bs : list Z) : string :=
  match bs with
  | [] => ""%string
  | [b] => hex_byte b
  | b :: bs => (hex_byte b +:+ ":" +:+ hex_bytes bs)%string
  end.
Definition mac_to_string (m : MAC) : string := hex_bytes (addr m).
Definition address_to_string (a : Address) : string :=
  (mac_to_string (paddr a) +:+ " : " +:+ pretty (port a))%string.

Example broadcast_prints : mac_to_string BROADCAST_ADDR = "ff:ff:ff:ff:ff:ff"%string.
Proof. reflexivity. Qed.

(** [htons]/[ntohs] on a little-endian host swap the two bytes. *)
Definition htons (x : Z) : Z := (x `mod` 256) * 256 + (x / 256) `mod` 256.
Definition ntohs (x : Z) : Z := htons x.

Lemma ntohs_htons x : is_u 16 x → ntohs (htons x) = x.
Proof.
  unfold is_u, ntohs, htons. intros ?.
  assert (0 ≤ x / 256 < 256) by (split; [apply Z.div_pos; lia|apply Z.div_lt_upper_bound; lia]).
  rewrite (Z.mod_small (x / 256)) by lia.
  pose proof (Z.mod_pos_bound x 256 ltac:(lia)).
  pose proof (Z.div_mod x 256 ltac:(lia)).
  set (a := x `mod` 256) in *. set (b := x / 256) in *.
  rewrite <- (Z.mod_unique (a * 256 + b) 256 a b) by lia.
  rewrite <- (Z.div_unique (a * 256 + b) 256 a b) by lia.
  rewrite (Z.mod_small a) by lia. lia.
Qed.

(** [enum class Quadrant : uint8_t]. A received byte may hold another value. *)
Definition NORTH : Z := 0.
Definition EAST : Z := 1.
Definition SOUTH : Z := 2.
Definition WEST : Z := 3.

(** [struct Ethernet::Frame]: header, the 1500-byte data array, its used length. *)
Record Frame := mk_Frame {
  dhost : MAC;
  shost : MAC;
  ftype : Z;
  fdata : list Z;
  data_length : Z
}.

#[export] Instance Frame_eq_dec : EqDecision Frame.
Proof. solve_decision. Defined.

(** [T()] in [Buffer::alloc]: value-initialisation zeroes the frame. *)
Definition Frame_zero : Frame := mk_Frame MAC_default MAC_default 0 (replicate 1500 0) 0.

Definition set_fdata (d : list Z) (f : Frame) : Frame :=
  mk_Frame (dhost f) (shost f) (ftype f) d (data_length f).

(** The header's and the data's object representation, as they lie in memory. *)
Definition frame_header_bytes (f : Frame) : list Z :=
  addr (dhost f) ++ addr (shost f) ++ lebytes 2 (ftype f).

Lemma bytes_ok_replicate n b : byte_ok b → bytes_ok (replicate n b).
Proof. intros ?. by apply Forall_replicate. Qed.
#[export] Hint Resolve bytes_ok_replicate : api.
