(* ===== verification/Packet.v ===== *)
(** Wire formats: [definitions/protocol_definitions.hpp], [segment.hpp],
    [time_payload.hpp], [groups/group_payload.hpp]. *)
From S2P Require Import Prelude Ethernet.
Local Open Scope Z_scope.

Definition LOCATION_HEADER_SIZE : Z := 1.
Definition PORT_HEADER_SIZE : Z := 4.
Definition PACKET_HEADER_SIZE : Z := LOCATION_HEADER_SIZE + PORT_HEADER_SIZE.
Definition MAC_SIZE : Z := 8.
Definition PACKET_MTU : Z := ETH_MTU - PACKET_HEADER_SIZE - MAC_SIZE.

(** ** Packet

    A [Packet] is a view of a frame's data array: location (1 byte), source
    and destination port (2 bytes each), then the data. *)
Module Packet.
Definition location (mem : list Z) : Z := leval (slice 0 1 mem).
Definition sport (mem : list Z) : Z := leval (slice 1 2 mem).
Definition dport (mem : list Z) : Z := leval (slice 3 2 mem).
Definition data (mem : list Z) : list Z := drop 5 mem.

(** [new (mem) Packet(loc, sport, dport)]: the header is written, the data
    array keeps the memory it had. *)
Definition header_bytes (loc sport dport : Z) : list Z := lebytes 1 loc ++ lebytes 2 sport ++ lebytes 2 dport.
Definition construct (loc sport dport : Z) (mem : list Z) : list Z :=
  splice 0 (header_bytes loc sport dport) mem.
End Packet.

Lemma length_header_bytes loc sp dp : length (Packet.header_bytes loc sp dp) = 5%nat.
Proof. unfold Packet.header_bytes. by rewrite !length_app, !length_lebytes. Qed.

Lemma header_bytes_ok loc sp dp : bytes_ok (Packet.header_bytes loc sp dp).
Proof. unfold Packet.header_bytes. auto with api. Qed.

Section header.
Context (loc sp dp : Z) (rest : list Z).
Context (Hloc : is_u 8 loc) (Hsp : is_u 16 sp) (Hdp : is_u 16 dp).
Abbreviation mem := (Packet.header_bytes loc sp dp ++ rest).

Lemma packet_location : Packet.location mem = loc.
Proof using Hloc.
  unfold Packet.location, Packet.header_bytes, slice. rewrite <- !app_assoc, drop_0.
  rewrite take_app_eq by apply length_lebytes. by rewrite leval_small.
Qed.

Lemma packet_sport : Packet.sport mem = sp.
Proof using Hsp.
  unfold Packet.sport, Packet.header_bytes. rewrite <- !app_assoc.
  rewrite slice_app_skip by apply length_lebytes.
  rewrite take_app_eq by apply length_lebytes. by rewrite leval_small.
Qed.

Lemma packet_dport : Packet.dport mem = dp.
Proof using Hdp.
  unfold Packet.dport, Packet.header_bytes. rewrite !app_assoc, <- (app_assoc _ (lebytes 2 dp)).
  rewrite slice_app_skip by (rewrite length_app, !length_lebytes; done).
  rewrite take_app_eq by apply length_lebytes. by rewrite leval_small.
Qed.

Lemma packet_data : Packet.data mem = rest.
Proof using. apply drop_app_eq. apply length_header_bytes. Qed.
End header.

Lemma packet_construct loc sp dp (m : list Z) :
  (5 ≤ length m)%nat →
  Packet.construct loc sp dp m = Packet.header_bytes loc sp dp ++ drop 5 m.
Proof. intros. unfold Packet.construct, splice. by rewrite length_header_bytes. Qed.

(** ** Segment *)
Module Segment.
(** [enum class MsgType : uint8_t]; a byte off the wire may name no enumerator. *)
Inductive MsgType := CONTROL | TEDS | PTP | GROUP | OTHER (b : Z).

#[global] Instance MsgType_eq_dec : EqDecision MsgType.
Proof. solve_decision. Defined.

Definition type_code (t : MsgType) : Z :=
  match t with CONTROL => 0 | TEDS => 1 | PTP => 2 | GROUP => 3 | OTHER b => b end.
Definition type_of_code (b : Z) : MsgType :=
  if decide (b = 0) then CONTROL else if decide (b = 1) then TEDS
  else if decide (b = 2) then PTP else if decide (b = 3) then GROUP else OTHER b.
Definition type_ok (t : MsgType) : Prop :=
  match t with OTHER b => is_u 8 b ∧ 4 ≤ b | _ => True end.

Definition to_string (t : MsgType) : string :=
  match t with CONTROL => "CONTROL" | TEDS => "TEDS" | _ => "UNKNOWN" end.

(** The packed header: type (1 byte), timestamp (8 bytes). *)
Definition HEADER_SIZE : nat := 9.
Definition header_bytes (t : MsgType) (ts : Z) : list Z := lebytes 1 (type_code t) ++ lebytes 8 ts.

Record t := mk { type : MsgType; timestamp : Z; payload : list Z }.

Definition get_bytes (s : t) : list Z :=
  let bytes := replicate (HEADER_SIZE + length (payload s)) 0 in
  let bytes := splice 0 (header_bytes (type s) (timestamp s)) bytes in
  if decide (payload s = []) then bytes else splice HEADER_SIZE (payload s) bytes.

Definition header_type (mem : list Z) : MsgType := type_of_code (leval (slice 0 1 mem)).
Definition header_timestamp (mem : list Z) : Z := leval (slice 1 8 mem).

Definition from_bytes (bytes : list Z) : outcome t :=
  if decide (length bytes < HEADER_SIZE)%nat
  then Throw "Invalid segment data: too small to contain a header."
  else
    let payload_size := (length bytes - HEADER_SIZE)%nat in
    Ret (mk (header_type bytes) (header_timestamp bytes)
           (if decide (0 < payload_size)%nat then slice HEADER_SIZE payload_size bytes else [])).

Definition ok (s : t) : Prop :=
  type_ok (type s) ∧ is_u 64 (timestamp s) ∧ bytes_ok (payload s).
End Segment.

Lemma type_of_code_code t : Segment.type_ok t → Segment.type_of_code (Segment.type_code t) = t.
Proof.
  destruct t; try done. intros [? ?]. unfold Segment.type_of_code; simpl.
  repeat case_decide; try done; lia.
Qed.

Lemma type_code_bound t : Segment.type_ok t → is_u 8 (Segment.type_code t).
Proof. destruct t; simpl; unfold is_u; try lia. Qed.

Lemma length_segment_header t ts : length (Segment.header_bytes t ts) = 9%nat.
Proof. unfold Segment.header_bytes. by rewrite length_app, !length_lebytes. Qed.

Lemma segment_header_ok t ts : bytes_ok (Segment.header_bytes t ts).
Proof. unfold Segment.header_bytes. auto with api. Qed.
#[export] Hint Resolve segment_header_ok header_bytes_ok : api.

(** What the serialiser writes: the header, then the payload. *)
Lemma get_bytes_eq s :
  Segment.get_bytes s = Segment.header_bytes (Segment.type s) (Segment.timestamp s) ++ Segment.payload s.
Proof.
  unfold Segment.get_bytes, Segment.HEADER_SIZE. destruct s as [t ts p]; cbn [Segment.type Segment.timestamp Segment.payload].
  set (h := Segment.header_bytes t ts). assert (length h = 9%nat) as Hh by apply length_segment_header.
  case_decide as Hp.
  - subst p. unfold splice. by rewrite Hh.
  - unfold splice at 2. rewrite Hh, take_0. cbn [app].
    unfold splice. rewrite take_app_eq by done.
    rewrite drop_ge; [by rewrite app_nil_r|].
    rewrite length_app, length_drop, length_replicate. lia.
Qed.

Lemma header_type_bytes t ts rest :
  Segment.type_ok t → Segment.header_type (Segment.header_bytes t ts ++ rest) = t.
Proof.
  intros Ht. unfold Segment.header_type, Segment.header_bytes, slice.
  rewrite <- app_assoc, drop_0, take_app_eq by apply length_lebytes.
  rewrite leval_small by (by apply type_code_bound). by apply type_of_code_code.
Qed.

Lemma header_timestamp_bytes t ts rest :
  is_u 64 ts → Segment.header_timestamp (Segment.header_bytes t ts ++ rest) = ts.
Proof.
  intros Hts. unfold Segment.header_timestamp, Segment.header_bytes. rewrite <- app_assoc.
  rewrite slice_app_skip by apply length_lebytes.
  rewrite take_app_eq by apply length_lebytes. by apply leval_small.
Qed.

(** ** PTP payloads *)
Module TimePayload.
Inductive SyncType := SYNC | DELAY_REQUEST | DELAY_RESPONSE | START | OTHER (b : Z).
Definition sync_code (t : SyncType) : Z :=
  match t with SYNC => 0 | DELAY_REQUEST => 1 | DELAY_RESPONSE => 2 | START => 3 | OTHER b => b end.
Definition sync_of_code (b : Z) : SyncType :=
  if decide (b = 0) then SYNC else if decide (b = 1) then DELAY_REQUEST
  else if decide (b = 2) then DELAY_RESPONSE else if decide (b = 3) then START else OTHER b.

Definition HEADER_SIZE : Z := 1.
Definition SYNC_SIZE : Z := 9.
Definition DELAY_RESP_SIZE : Z := 9.
Definition DELAY_REQ_SIZE : Z := 1.
Definition START_SIZE : Z := 1.

Definition header_type (mem : list Z) : SyncType := sync_of_code (leval (slice 0 1 mem)).
(** [SyncPayload::t1] and [DelayRespPayload::t4] lie at the same offset. *)
Definition payload_ts (mem : list Z) : Z := leval (slice 1 8 mem).

Definition header_bytes (t : SyncType) : list Z := lebytes 1 (sync_code t).
Definition ts_bytes (t : SyncType) (ts : Z) : list Z := header_bytes t ++ lebytes 8 ts.
End TimePayload.

Lemma time_header_type t rest :
  (match t with TimePayload.OTHER _ => False | _ => True end) →
  TimePayload.header_type (TimePayload.header_bytes t ++ rest) = t.
Proof.
  intros Ht. unfold TimePayload.header_type, TimePayload.header_bytes, slice.
  rewrite drop_0, take_app_eq by apply length_lebytes.
  rewrite leval_small by (destruct t; simpl; unfold is_u; try done; lia). by destruct t.
Qed.

Lemma time_payload_ts t ts rest :
  is_u 64 ts → TimePayload.payload_ts (TimePayload.ts_bytes t ts ++ rest) = ts.
Proof.
  intros ?. unfold TimePayload.payload_ts, TimePayload.ts_bytes, TimePayload.header_bytes.
  rewrite <- app_assoc. rewrite slice_app_skip by apply length_lebytes.
  rewrite take_app_eq by apply length_lebytes. by apply leval_small.
Qed.

(** ** Group payloads *)
Module GroupPayload.
Inductive Type_ := JOIN_REQUEST | KEY_DISTRIBUTION | NOTIFY_LEFT | OTHER (b : Z).
Definition type_code (t : Type_) : Z :=
  match t with JOIN_REQUEST => 0 | KEY_DISTRIBUTION => 1 | NOTIFY_LEFT => 2 | OTHER b => b end.
Definition type_of_code (b : Z) : Type_ :=
  if decide (b = 0) then JOIN_REQUEST else if decide (b = 1) then KEY_DISTRIBUTION
  else if decide (b = 2) then NOTIFY_LEFT else OTHER b.

Definition KEY_DISTRIBUTION_SIZE : Z := 9.
(** [NotifyLeftPayload] is not packed: its [Address] is two-byte aligned, so
    one byte of padding follows the type. *)
Definition NOTIFY_LEFT_SIZE : Z := 10.

Definition header_type (mem : list Z) : Type_ := type_of_code (leval (slice 0 1 mem)).
Definition key (mem : list Z) : Z := leval (slice 1 8 mem).
Definition member (mem : list Z) : Address := address_of_bytes (slice 2 8 mem).

Definition join_bytes : list Z := lebytes 1 (type_code JOIN_REQUEST).
Definition key_bytes (k : Z) : list Z := lebytes 1 (type_code KEY_DISTRIBUTION) ++ lebytes 8 k.
Definition notify_left_bytes (pad : Z) (a : Address) : list Z :=
  lebytes 1 (type_code NOTIFY_LEFT) ++ lebytes 1 pad ++ address_bytes a.
End GroupPayload.

Lemma group_header_type t rest :
  (match t with GroupPayload.OTHER _ => False | _ => True end) →
  GroupPayload.header_type (lebytes 1 (GroupPayload.type_code t) ++ rest) = t.
Proof.
  intros Ht. unfold GroupPayload.header_type, slice.
  rewrite drop_0, take_app_eq by apply length_lebytes.
  rewrite leval_small by (destruct t; simpl; unfold is_u; try done; lia). by destruct t.
Qed.

Lemma group_key_bytes k rest :
  is_u 64 k → GroupPayload.key (GroupPayload.key_bytes k ++ rest) = k.
Proof.
  intros ?. unfold GroupPayload.key, GroupPayload.key_bytes. rewrite <- app_assoc.
  rewrite slice_app_skip by apply length_lebytes.
  rewrite take_app_eq by apply length_lebytes. by apply leval_small.
Qed.

(** Serialising a segment and parsing it back gives the segment. *)
Lemma from_bytes_get_bytes s : Segment.ok s → Segment.from_bytes (Segment.get_bytes s) = Ret s.
Proof.
  intros (Ht & Hts & Hp). rewrite get_bytes_eq. destruct s as [t ts p].
  cbn [Segment.type Segment.timestamp Segment.payload] in *. unfold Segment.from_bytes. rewrite length_app, length_segment_header.
  rewrite decide_False by (unfold Segment.HEADER_SIZE; lia).
  rewrite header_type_bytes, header_timestamp_bytes by done.
  replace (9 + length p - Segment.HEADER_SIZE)%nat with (length p)
    by (unfold Segment.HEADER_SIZE; lia).
  rewrite slice_app_skip by apply length_segment_header. rewrite take_ge by lia.
  case_decide; [done|]. destruct p; [done|simpl in *; lia].
Qed.
