(* ===== verification/Teds.v ===== *)
(** TEDS types: [definitions/teds.hpp].  A type is a 32-bit word: a purpose
    bit, a digital/SI bit, a direct/inverse bit, two format bits, and nine
    three-bit unit exponents stored with a bias of four. *)
From S2P Require Import Prelude Ethernet Packet.
Local Open Scope Z_scope.

Module TEDS.
Definition INVALID : Z := 0.
Definition PURPOSE_MASK : Z := 0x80000000.
Definition DIGITAL_MASK : Z := 0x40000000.
Definition INVERT_MASK : Z := 0x20000000.
Definition FORMAT_MASK : Z := 0x18000000.
Definition TYPE_MASK : Z := 0x07FFFFFF.
Definition FORMAT_INT : Z := 0x00000000.
Definition FORMAT_FLOAT : Z := 0x08000000.

Definition is_digital (t : Z) : bool := bool_decide (Z.land t DIGITAL_MASK ≠ 0).
Definition is_si (t : Z) : bool := bool_decide (Z.land t DIGITAL_MASK = 0).
Definition is_inverted (t : Z) : bool := bool_decide (Z.land t INVERT_MASK ≠ 0).
Definition is_normal (t : Z) : bool := bool_decide (Z.land t INVERT_MASK = 0).
Definition get_format (t : Z) : bool := bool_decide (Z.land t FORMAT_MASK ≠ 0).
Definition is_response (t : Z) : bool := bool_decide (Z.land t PURPOSE_MASK ≠ 0).
Definition is_request (t : Z) : bool := bool_decide (Z.land t PURPOSE_MASK = 0).
Definition get_base_type (t : Z) : Z := Z.land t TYPE_MASK.
Definition make_response_type (base_type : Z) : Z := Z.lor base_type PURPOSE_MASK.
Definition make_request_type (base_type : Z) : Z := Z.land base_type TYPE_MASK.

Definition HEADER_SIZE : nat := 4.
Definition PAYLOAD_SIZE : nat := 4.

(** The vector is allocated zeroed, then the two packed structs are copied in. *)
Definition create_request_payload (base_type interval_ms : Z) : list Z :=
  let buffer := replicate (HEADER_SIZE + PAYLOAD_SIZE) 0 in
  let buffer := splice 0 (lebytes 4 (make_request_type base_type)) buffer in
  splice HEADER_SIZE (lebytes 4 interval_ms) buffer.

(** A [float] is its 32-bit representation. *)
Definition create_response_payload (base_type value : Z) : list Z :=
  let buffer := replicate (HEADER_SIZE + PAYLOAD_SIZE) 0 in
  let buffer := splice 0 (lebytes 4 (make_response_type base_type)) buffer in
  splice HEADER_SIZE (lebytes 4 value) buffer.

Definition header_type (mem : list Z) : Z := leval (slice 0 4 mem).

Definition extract_type (seg_type : Segment.MsgType) (seg_payload : list Z)
    (payload_size : Z) : Z :=
  if decide (seg_type ≠ Segment.TEDS) then INVALID
  else if decide (payload_size < 4) then INVALID
  else header_type seg_payload.

Definition BASE : Z := 0x04924924.
Definition CD : Z := 0x00000001.
Definition MOL : Z := 0x00000008.
Definition K : Z := 0x00000040.
Definition A : Z := 0x00000200.
Definition S : Z := 0x00001000.
Definition KG : Z := 0x00008000.
Definition M : Z := 0x00040000.
Definition RAD : Z := 0x00200000.
Definition SR : Z := 0x01000000.

Definition LUM_INTENSITY : Z := u32 (BASE + CD).
Definition AMOUNT_OF_SUB : Z := u32 (BASE + MOL).
Definition TEMPERATURE : Z := u32 (BASE + K).
Definition CURRENT : Z := u32 (BASE + A).
Definition TIME : Z := u32 (BASE + S).
Definition MASS : Z := u32 (BASE + KG).
Definition LENGTH : Z := u32 (BASE + M).
Definition ANGLE : Z := u32 (BASE + RAD).
Definition STERADIAN : Z := u32 (BASE + SR).
Definition VELOCITY : Z := u32 (BASE + M - S).
Definition ACCELERATION : Z := u32 (BASE + M - 2 * S).
Definition VOLTAGE : Z := u32 (BASE + KG + 2 * M - 3 * S - A).
Definition PRESSURE : Z := u32 (BASE + KG - M - 2 * S).
Definition FREQUENCY : Z := u32 (BASE - S).
Definition LUMINANCE : Z := u32 (BASE + CD - 2 * M).
Definition DENSITY : Z := u32 (BASE + KG - 3 * M).
Definition FORCE : Z := u32 (BASE + KG + M - 2 * S).
Definition FARAD : Z := u32 (BASE - KG - 2 * M + 4 * S + 2 * A).

(** The [switch] of [get_type_name], in the order of its cases. *)
Definition type_names : list (Z * string) :=
  [(LUM_INTENSITY, "Luminous Intensity"); (AMOUNT_OF_SUB, "Amount of Substance");
   (TEMPERATURE, "Temperature"); (CURRENT, "Current"); (TIME, "Time"); (MASS, "Mass");
   (LENGTH, "Length"); (ANGLE, "Angle"); (STERADIAN, "Solid Angle (Steradian)");
   (VELOCITY, "Velocity"); (ACCELERATION, "Acceleration"); (VOLTAGE, "Voltage");
   (PRESSURE, "Pressure"); (FREQUENCY, "Frequency"); (LUMINANCE, "Luminance");
   (DENSITY, "Density"); (FORCE, "Force"); (FARAD, "Capacitance (Farad)");
   (CD, "Luminous Intensity (base)"); (MOL, "Amount of Substance (base)");
   (K, "Temperature (base)"); (A, "Current (base)"); (S, "Time (base)");
   (KG, "Mass (base)"); (M, "Length (base)"); (RAD, "Angle (base)");
   (SR, "Solid Angle (base)")]%string.

Definition get_type_name (full_type : Z) : string :=
  let base_type := get_base_type full_type in
  match list_find (λ c, c.1 = base_type) type_names with
  | Some (_, c) => c.2
  | None => "Unknown Type"%string
  end.
End TEDS.

(** ** Bit facts *)

Lemma land_pow2 t k : 0 ≤ k → Z.land t (2 ^ k) = if Z.testbit t k then 2 ^ k else 0.
Proof.
  intros Hk. apply Z.bits_inj'. intros n Hn. rewrite Z.land_spec, Z.pow2_bits_eqb by done.
  destruct (Z.eqb_spec k n) as [->|Hne].
  - destruct (Z.testbit t n); [by rewrite Z.pow2_bits_true|by rewrite Z.bits_0].
  - rewrite andb_false_r. destruct (Z.testbit t k); [|by rewrite Z.bits_0].
    by rewrite Z.pow2_bits_false.
Qed.

Lemma purpose_mask_pow : TEDS.PURPOSE_MASK = 2 ^ 31. Proof. done. Qed.
Lemma type_mask_ones : TEDS.TYPE_MASK = Z.ones 27. Proof. done. Qed.

Lemma is_response_testbit t : TEDS.is_response t = Z.testbit t 31.
Proof.
  unfold TEDS.is_response. rewrite purpose_mask_pow, land_pow2 by lia.
  destruct (Z.testbit t 31); by vm_compute.
Qed.

Lemma is_request_negb t : TEDS.is_request t = negb (TEDS.is_response t).
Proof. unfold TEDS.is_request, TEDS.is_response. repeat case_bool_decide; done. Qed.

Lemma make_response_is_response t : TEDS.is_response (TEDS.make_response_type t) = true.
Proof.
  rewrite is_response_testbit. unfold TEDS.make_response_type.
  rewrite Z.lor_spec, purpose_mask_pow, Z.pow2_bits_true by lia. apply orb_true_r.
Qed.

Lemma make_request_is_request t : TEDS.is_request (TEDS.make_request_type t) = true.
Proof.
  rewrite is_request_negb, is_response_testbit. unfold TEDS.make_request_type.
  rewrite Z.land_spec, type_mask_ones, Z.ones_spec_high by lia. by rewrite andb_false_r.
Qed.

Lemma base_of_response t : TEDS.get_base_type (TEDS.make_response_type t) = TEDS.get_base_type t.
Proof.
  unfold TEDS.get_base_type, TEDS.make_response_type. rewrite type_mask_ones, purpose_mask_pow.
  bitwise. destruct (decide (n < 27)).
  - rewrite Z.pow2_bits_false by lia. by rewrite orb_false_r.
  - rewrite Z.ones_spec_high by lia. by rewrite !andb_false_r.
Qed.

Lemma base_of_request t : TEDS.get_base_type (TEDS.make_request_type t) = TEDS.get_base_type t.
Proof.
  unfold TEDS.get_base_type, TEDS.make_request_type.
  by rewrite <- Z.land_assoc, Z.land_diag.
Qed.

Lemma request_bound t : is_u 27 (TEDS.make_request_type t).
Proof.
  unfold TEDS.make_request_type. rewrite type_mask_ones, Z.land_ones by lia.
  apply Z.mod_pos_bound. lia.
Qed.

Lemma response_bound t : is_u 32 t → is_u 32 (TEDS.make_response_type t).
Proof.
  intros ?. unfold TEDS.make_response_type, is_u in *. rewrite purpose_mask_pow. split.
  - apply Z.lor_nonneg. lia.
  - destruct (decide (t = 0)) as [->|]; [by vm_compute|].
    assert (0 < Z.lor t (2 ^ 31)).
    { assert (0 ≤ Z.lor t (2^31)) by (apply Z.lor_nonneg; lia).
      destruct (decide (Z.lor t (2 ^ 31) = 0)) as [He|]; [|lia].
      apply Z.lor_eq_0_iff in He as [? _]. lia. }
    apply Z.log2_lt_pow2; [done|]. rewrite Z.log2_lor by lia.
    apply Z.max_lub_lt; [|by vm_compute]. apply Z.log2_lt_pow2; lia.
Qed.

Lemma payload_layout (a b : list Z) :
  length a = 4%nat → length b = 4%nat → splice 4 b (splice 0 a (replicate 8 0)) = a ++ b.
Proof.
  intros Ha Hb. do 5 (destruct a as [|? a]; simpl in Ha; try lia).
  do 5 (destruct b as [|? b]; simpl in Hb; try lia). done.
Qed.

Lemma request_payload_eq t i :
  TEDS.create_request_payload t i = lebytes 4 (TEDS.make_request_type t) ++ lebytes 4 i.
Proof. apply payload_layout; apply length_lebytes. Qed.

Lemma response_payload_eq t v :
  TEDS.create_response_payload t v = lebytes 4 (TEDS.make_response_type t) ++ lebytes 4 v.
Proof. apply payload_layout; apply length_lebytes. Qed.

Lemma header_type_lebytes t rest : is_u 32 t → TEDS.header_type (lebytes 4 t ++ rest) = t.
Proof.
  intros ?. unfold TEDS.header_type, slice.
  rewrite drop_0, take_app_eq by apply length_lebytes. by apply leval_small.
Qed.

(** ** Unit exponents *)

(** A unit is nine exponents, from candela (bits 0-2) to steradian (bits 24-26). *)
Fixpoint encode_unit (es : list Z) : Z :=
  match es with [] => 0 | e :: es => (e + 4) + 8 * encode_unit es end.
Fixpoint decode_unit (n : nat) (t : Z) : list Z :=
  match n with O => [] | S n => (t `mod` 8 - 4) :: decode_unit n (t / 8) end.

Lemma decode_encode_unit es :
  Forall (λ e, -4 ≤ e ≤ 3) es → decode_unit (length es) (encode_unit es) = es.
Proof.
  induction 1 as [|e es He _ IH]; [done|]. cbn [length decode_unit encode_unit].
  rewrite <- (Z.div_unique (e + 4 + 8 * encode_unit es) 8 (encode_unit es) (e + 4)) by lia.
  rewrite <- (Z.mod_unique (e + 4 + 8 * encode_unit es) 8 (encode_unit es) (e + 4)) by lia.
  rewrite IH. f_equal. lia.
Qed.

(** The units the header names, as exponents of
    cd, mol, K, A, s, kg, m, rad, sr. *)
Definition unit_table : list (Z * list Z) :=
  [(TEDS.LUM_INTENSITY, [1;0;0;0;0;0;0;0;0]); (TEDS.AMOUNT_OF_SUB, [0;1;0;0;0;0;0;0;0]);
   (TEDS.TEMPERATURE, [0;0;1;0;0;0;0;0;0]); (TEDS.CURRENT, [0;0;0;1;0;0;0;0;0]);
   (TEDS.TIME, [0;0;0;0;1;0;0;0;0]); (TEDS.MASS, [0;0;0;0;0;1;0;0;0]);
   (TEDS.LENGTH, [0;0;0;0;0;0;1;0;0]); (TEDS.ANGLE, [0;0;0;0;0;0;0;1;0]);
   (TEDS.STERADIAN, [0;0;0;0;0;0;0;0;1]); (TEDS.VELOCITY, [0;0;0;0;-1;0;1;0;0]);
   (TEDS.ACCELERATION, [0;0;0;0;-2;0;1;0;0]); (TEDS.VOLTAGE, [0;0;0;-1;-3;1;2;0;0]);
   (TEDS.PRESSURE, [0;0;0;0;-2;1;-1;0;0]); (TEDS.FREQUENCY, [0;0;0;0;-1;0;0;0;0]);
   (TEDS.LUMINANCE, [1;0;0;0;0;0;-2;0;0]); (TEDS.DENSITY, [0;0;0;0;0;1;-3;0;0]);
   (TEDS.FORCE, [0;0;0;0;-2;1;1;0;0])].

(** ** Properties *)

(** Every unit the header names, except the farad, carries exactly the SI
    exponents of its comment in its nine three-bit fields, and no metadata bit. *)
Theorem teds_units_decode :
  Forall (λ u, decode_unit 9 u.1 = u.2 ∧ TEDS.get_base_type u.1 = u.1) unit_table.
Proof. unfold unit_table. repeat constructor. Qed.

(** The farad (s^4 A^2 kg^-1 m^-2) does not fit: the second exponent 4
    overflows its field into the mass field, so the word decodes as
    s^-4 A^2 m^-2 with no mass exponent. *)
Theorem teds_farad_overflows :
  decode_unit 9 TEDS.FARAD = [0; 0; 0; 2; -4; 0; -2; 0; 0] ∧
  decode_unit 9 TEDS.FARAD ≠ [0; 0; 0; 2; 4; -1; -2; 0; 0].
Proof. by vm_compute. Qed.

(** For any exponents within [-4, 3] the biased fields decode back to the
    exponents, and the word uses only the 27 bits of [TYPE_MASK] when there are
    nine of them. *)
Theorem teds_unit_roundtrip (es : list Z) :
  length es = 9%nat → Forall (λ e, -4 ≤ e ≤ 3) es →
  decode_unit 9 (encode_unit es) = es ∧ TEDS.get_base_type (encode_unit es) = encode_unit es.
Proof.
  intros Hl Hes. split; [rewrite <- Hl; by apply decode_encode_unit|].
  unfold TEDS.get_base_type. rewrite type_mask_ones, Z.land_ones by lia.
  apply Z.mod_small. do 9 (destruct es as [|? es]; [done|]).
  destruct es; [|done]. decompose_Forall_hyps. cbn. lia.
Qed.

Lemma teds_unit_roundtrip_witness :
  decode_unit 9 (encode_unit [0; 0; 0; -1; -3; 1; 2; 0; 0]) = [0; 0; 0; -1; -3; 1; 2; 0; 0] ∧
  TEDS.get_base_type (encode_unit [0; 0; 0; -1; -3; 1; 2; 0; 0])
    = encode_unit [0; 0; 0; -1; -3; 1; 2; 0; 0].
Proof.
  apply (teds_unit_roundtrip [0; 0; 0; -1; -3; 1; 2; 0; 0]); [reflexivity|].
  repeat constructor; lia.
Defined.

(** Publish/subscribe type matching: the type an actuator subscribes to
    (the response type of its unit) is the type in the payload a sensor builds
    when it answers the request type it received for the same unit, and the two
    directions never share a type. *)
Theorem teds_response_matches_subscription (unit value : Z) :
  is_u 27 unit →
  let request := TEDS.header_type (TEDS.create_request_payload unit value) in
  TEDS.header_type (TEDS.create_response_payload request value) = TEDS.make_response_type unit ∧
  request = TEDS.make_request_type unit ∧
  TEDS.is_request request = true ∧
  TEDS.make_response_type unit ≠ request.
Proof.
  intros Hu. cbv zeta. rewrite request_payload_eq, response_payload_eq.
  assert (is_u 32 (TEDS.make_request_type unit)) as Hr.
  { pose proof (request_bound unit). unfold is_u in *. lia. }
  assert (TEDS.make_request_type unit = unit) as Heq.
  { unfold TEDS.make_request_type. rewrite type_mask_ones, Z.land_ones by lia.
    by apply Z.mod_small. }
  rewrite (header_type_lebytes _ _ Hr). rewrite header_type_lebytes by (by apply response_bound).
  rewrite Heq. repeat split; [rewrite <- Heq; apply make_request_is_request|].
  intros Hx. pose proof (make_response_is_response unit) as H1.
  pose proof (make_request_is_request unit) as H2.
  rewrite Heq, <- Hx, is_request_negb, H1 in H2. done.
Qed.

Lemma teds_response_matches_subscription_witness :
  TEDS.header_type (TEDS.create_response_payload
    (TEDS.header_type (TEDS.create_request_payload TEDS.TEMPERATURE 2000)) 2000)
    = TEDS.make_response_type TEDS.TEMPERATURE.
Proof.
  apply (teds_response_matches_subscription TEDS.TEMPERATURE 2000).
  unfold is_u. vm_compute. split; congruence.
Defined.

(** Names depend on the base type only: the purpose bit does not change the
    name, and two listed types with the same name are the same type. *)
Theorem teds_names_ignore_purpose (t : Z) :
  TEDS.get_type_name (TEDS.make_response_type t) = TEDS.get_type_name t ∧
  TEDS.get_type_name (TEDS.make_request_type t) = TEDS.get_type_name t ∧
  NoDup (TEDS.type_names.*1) ∧ NoDup (TEDS.type_names.*2).
Proof.
  unfold TEDS.get_type_name. rewrite base_of_response, base_of_request.
  repeat split; apply (bool_decide_unpack _); by vm_compute.
Qed.
