(* ===== verification/Crypto.v ===== *)
(** Message authentication and encryption: [crypto/*.hpp], [crypto_service.cpp].
    [ICryptoProvider] is a record of operations, [MacLaws] what the protocol
    relies on, [XorCryptoProvider] the implementation that satisfies it. *)
From S2P Require Import Prelude.
Local Open Scope Z_scope.

(** ** The provider interface *)

Record ICryptoProvider := {
  encrypt : list Z → Z → outcome (list Z);
  decrypt : list Z → Z → outcome (list Z);
  generate_mac : list Z → Z → Z → outcome Z
}.

(** The base class's [generate_mac], for a provider that does not override it. *)
Definition default_generate_mac (data : list Z) (size key : Z) : outcome Z :=
  Throw "Generate mac not implemented for the selected provider!".

(** What a client of a MAC may rely on: on a readable region the code is total
    with a 64-bit result, it reads only the first [size] bytes, and for a fixed
    region different keys give different codes. *)
Class MacLaws (p : ICryptoProvider) := {
  mac_total data size key :
    0 ≤ size ≤ Z.of_nat (length data) → bytes_ok data → is_u 64 key →
    ∃ m, generate_mac p data size key = Ret m ∧ is_u 64 m;
  mac_prefix d1 d2 size key :
    0 ≤ size ≤ Z.of_nat (length d1) → size ≤ Z.of_nat (length d2) →
    take (Z.to_nat size) d1 = take (Z.to_nat size) d2 →
    generate_mac p d1 size key = generate_mac p d2 size key;
  mac_key data size k1 k2 m :
    is_u 64 k1 → is_u 64 k2 →
    generate_mac p data size k1 = Ret m → generate_mac p data size k2 = Ret m → k1 = k2
}.

(** ** The XOR provider *)

Module Xor.
(** [for (i = 0; i < size / 8; ++i) mac ^= data_as_u64[i];] *)
Fixpoint mac_words (n i : nat) (data : list Z) (mac : Z) : Z :=
  match n with
  | O => mac
  | S n => mac_words n (S i) data (Z.lxor mac (leval (slice (8 * i) 8 data)))
  end.

(** [for (j = 0; j < size % 8; ++j) mac ^= uint64_t(remaining_bytes[j]) << (j * 8);] *)
Fixpoint mac_tail (n j : nat) (remaining : list Z) (mac : Z) : Z :=
  match n with
  | O => mac
  | S n =>
      let b := default 0 (remaining !! j) in
      mac_tail n (S j) remaining (Z.lxor mac (u64 (b ≪ (Z.of_nat j * 8))))
  end.

(** A [size] past the end of the region is an out-of-bounds read. *)
Definition generate_mac (data : list Z) (size key : Z) : outcome Z :=
  if decide (Z.of_nat (length data) < size) then Undefined
  else
    let words := Z.to_nat (size / 8) in
    let mac := mac_words words 0 data key in
    Ret (mac_tail (Z.to_nat (size `mod` 8)) 0 (drop (words * 8) data) mac).

Definition key_bytes (key : Z) : list Z := lebytes 8 key.

(** [ciphertext[i] = ciphertext[i] ^ key_bytes[i % 8]] *)
Definition encrypt (plaintext : list Z) (key : Z) : outcome (list Z) :=
  if decide (key = 0) then Throw "XOR session key cannot be zero."
  else Ret (imap (λ i b, Z.lxor b (default 0 (key_bytes key !! (i `mod` 8)%nat))) plaintext).

Definition decrypt (ciphertext : list Z) (key : Z) : outcome (list Z) := encrypt ciphertext key.
End Xor.

Definition XorCryptoProvider : ICryptoProvider :=
  {| encrypt := Xor.encrypt; decrypt := Xor.decrypt; generate_mac := Xor.generate_mac |}.

(** ** The static service *)

Module CryptoService.
(** [s_provider], null until [init]. *)
Definition state := option ICryptoProvider.

Definition getProvider (s : state) : outcome ICryptoProvider :=
  match s with
  | None => Throw "CryptoService not initialized. Call CryptoService::init() first."
  | Some p => Ret p
  end.
Definition init (p : ICryptoProvider) : state := Some p.

Definition encrypt (s : state) (plaintext : list Z) (key : Z) : outcome (list Z) :=
  match getProvider s with Ret p => Crypto.encrypt p plaintext key
  | Throw e => Throw e | Blocked => Blocked | Undefined => Undefined | Terminate => Terminate end.
Definition decrypt (s : state) (ciphertext : list Z) (key : Z) : outcome (list Z) :=
  match getProvider s with Ret p => Crypto.decrypt p ciphertext key
  | Throw e => Throw e | Blocked => Blocked | Undefined => Undefined | Terminate => Terminate end.
Definition generate_mac (s : state) (data : list Z) (size key : Z) : outcome Z :=
  match getProvider s with Ret p => Crypto.generate_mac p data size key
  | Throw e => Throw e | Blocked => Blocked | Undefined => Undefined | Terminate => Terminate end.
End CryptoService.

(** ** A byte-wise reference for the MAC *)

(** Byte number [k] of the message is folded in at bit [8 (k mod 8)]. *)
Fixpoint mac_ref (mac : Z) (k : nat) (bs : list Z) : Z :=
  match bs with
  | [] => mac
  | b :: bs => mac_ref (Z.lxor mac (b ≪ (8 * Z.of_nat (k `mod` 8)))) (S k) bs
  end.

Lemma mac_ref_app mac k l1 l2 :
  mac_ref mac k (l1 ++ l2) = mac_ref (mac_ref mac k l1) (k + length l1) l2.
Proof.
  revert mac k. induction l1 as [|b l1 IH]; intros mac k; simpl; [by rewrite Nat.add_0_r|].
  by rewrite IH, Nat.add_succ_r.
Qed.

Lemma mac_ref_key mac k bs : mac_ref mac k bs = Z.lxor mac (mac_ref 0 k bs).
Proof.
  revert mac k. induction bs as [|b bs IH]; intros mac k; simpl; [by rewrite Z.lxor_0_r|].
  rewrite IH, (IH (Z.lxor 0 _)). by rewrite Z.lxor_0_l, Z.lxor_assoc.
Qed.

Lemma lor_shift_lxor b v : byte_ok b → Z.lor b (v ≪ 8) = Z.lxor b (v ≪ 8).
Proof.
  intros Hb. apply Z.bits_inj'. intros n Hn. rewrite Z.lor_spec, Z.lxor_spec.
  destruct (decide (n < 8)).
  - rewrite Z.shiftl_spec_low by done. by destruct (Z.testbit b n).
  - rewrite <- (Z.mod_small b (2 ^ 8)) by done. rewrite Z.mod_pow2_bits_high by lia.
    by destruct (Z.testbit _ n).
Qed.

(** A block that does not cross a word boundary is folded in as one integer. *)
Lemma mac_ref_block bs : ∀ mac k,
  bytes_ok bs → (k `mod` 8 + length bs ≤ 8)%nat →
  mac_ref mac k bs = Z.lxor mac (leval bs ≪ (8 * Z.of_nat (k `mod` 8))).
Proof.
  induction bs as [|b bs IH]; intros mac k Hbs Hk.
  { simpl. unfold leval; simpl. by rewrite Z.shiftl_0_l, Z.lxor_0_r. }
  apply Forall_cons_1 in Hbs as [Hb Hbs]. cbn [length] in Hk. cbn [mac_ref].
  unfold leval; cbn [little_endian_to_Z]; fold (leval bs).
  rewrite lor_shift_lxor by done. rewrite Z.shiftl_lxor, Z.shiftl_shiftl by lia.
  destruct bs as [|b' bs].
  { simpl. unfold leval; simpl. by rewrite Z.shiftl_0_l, Z.lxor_0_r. }
  cbn [length] in Hk.
  assert ((S k `mod` 8 = S (k `mod` 8))%nat) as Hs.
  { pose proof (Nat.div_mod_eq k 8). symmetry.
    apply (Nat.mod_unique _ _ (k / 8)); lia. }
  rewrite IH by (cbn [length]; lia || done). rewrite Hs, Z.lxor_assoc. do 3 f_equal. lia.
Qed.

Lemma mac_words_ref n : ∀ i data mac,
  bytes_ok data → (8 * (i + n) ≤ length data)%nat →
  Xor.mac_words n i data mac = mac_ref mac (8 * i) (slice (8 * i) (8 * n) data).
Proof.
  induction n as [|n IH]; intros i data mac Hd Hl.
  { unfold slice. rewrite Nat.mul_0_r, take_0. done. }
  cbn [Xor.mac_words]. rewrite IH by (done || lia).
  replace (slice (8 * i) (8 * S n) data)
    with (slice (8 * i) 8 data ++ slice (8 * S i) (8 * n) data).
  2:{ unfold slice. replace (8 * S i)%nat with (8 * i + 8)%nat by lia.
      rewrite <- drop_drop. rewrite take_take_drop. do 2 f_equal; lia. }
  rewrite mac_ref_app, length_slice by lia.
  assert ((8 * i) `mod` 8 = 0)%nat as H8 by (rewrite Nat.mul_comm; apply Nat.Div0.mod_mul).
  rewrite (mac_ref_block (slice (8 * i) 8 data)) by (rewrite ?H8, ?length_slice by lia; auto with api || lia).
  rewrite H8, Z.mul_0_r, Z.shiftl_0_r. f_equal; lia.
Qed.

Lemma u64_shift_byte b (j : nat) : byte_ok b → (j < 8)%nat →
  u64 (b ≪ (Z.of_nat j * 8)) = b ≪ (Z.of_nat j * 8).
Proof.
  intros Hb Hj. apply Z.mod_small. rewrite Z.shiftl_mul_pow2 by lia.
  assert (2 ^ (Z.of_nat j * 8) ≤ 2 ^ 56) by (apply Z.pow_le_mono_r; lia).
  assert (0 < 2 ^ (Z.of_nat j * 8)) by (apply Z.pow_pos_nonneg; lia).
  set (X := 2 ^ (Z.of_nat j * 8)) in *.
  assert (b * X < 2 ^ 8 * X) by (apply Z.mul_lt_mono_pos_r; lia).
  assert (0 ≤ b * X) by (apply Z.mul_nonneg_nonneg; lia). lia.
Qed.

Lemma mac_tail_ref n : ∀ j rem mac k,
  bytes_ok rem → (j + n ≤ length rem)%nat → (j + n ≤ 8)%nat → (k `mod` 8 = 0)%nat →
  Xor.mac_tail n j rem mac = mac_ref mac (k + j) (slice j n rem).
Proof.
  induction n as [|n IH]; intros j rem mac k Hr Hl H8 Hk.
  { unfold slice. by rewrite take_0. }
  cbn [Xor.mac_tail]. destruct (lookup_lt_is_Some_2 rem j) as [b Hb]; [lia|].
  assert (byte_ok b) as Hbb by (by eapply Forall_lookup_1 in Hr).
  rewrite Hb. cbn [default from_option id]. rewrite u64_shift_byte by (done || lia).
  rewrite (IH _ _ _ k) by (done || lia). unfold slice. rewrite (drop_S _ _ _ Hb). cbn [take mac_ref].
  assert ((k + j) `mod` 8 = j)%nat as ->.
  { rewrite Nat.Div0.add_mod, Hk, Nat.add_0_l, Nat.Div0.mod_mod. apply Nat.mod_small. lia. }
  rewrite Nat.add_succ_r. do 3 f_equal. lia.
Qed.

(** The word loop and the tail loop together compute the byte-wise reference. *)
Lemma xor_mac_eq data size key :
  bytes_ok data → 0 ≤ size ≤ Z.of_nat (length data) →
  Xor.generate_mac data size key = Ret (mac_ref key 0 (take (Z.to_nat size) data)).
Proof.
  intros Hd Hs. unfold Xor.generate_mac. rewrite decide_False by lia. f_equal.
  pose proof (Z.div_mod size 8 ltac:(lia)). pose proof (Z.mod_pos_bound size 8 ltac:(lia)).
  set (w := Z.to_nat (size / 8)). assert (0 ≤ size / 8) by (apply Z.div_pos; lia).
  assert (Z.of_nat w = size / 8) by lia.
  rewrite (mac_tail_ref _ _ _ _ (8 * w)%nat).
  2:{ by apply Forall_drop. }
  2:{ rewrite length_drop. lia. }
  2:{ lia. }
  2:{ rewrite Nat.mul_comm. apply Nat.Div0.mod_mul. }
  rewrite mac_words_ref by (done || lia).
  replace (take (Z.to_nat size) data)
    with (slice (8 * 0) (8 * w) data ++ slice 0 (Z.to_nat (size `mod` 8)) (drop (w * 8) data)).
  2:{ unfold slice. rewrite !drop_0. rewrite (Nat.mul_comm w 8), take_take_drop. f_equal. lia. }
  rewrite mac_ref_app, length_slice by lia. f_equal; lia.
Qed.

Lemma mac_ref_bound bs : ∀ mac k, is_u 64 mac → bytes_ok bs → is_u 64 (mac_ref mac k bs).
Proof.
  induction bs as [|b bs IH]; intros mac k Hm Hbs; [done|].
  apply Forall_cons_1 in Hbs as [Hb Hbs]. apply IH; [|done]. apply lxor_bound; [lia|done|].
  replace (8 * Z.of_nat (k `mod` 8)) with (Z.of_nat (k `mod` 8) * 8) by lia.
  pose proof (Nat.mod_upper_bound k 8 ltac:(lia)).
  rewrite <- u64_shift_byte by (done || lia). apply u64_bound.
Qed.

#[export] Instance xor_mac_laws : MacLaws XorCryptoProvider.
Proof.
  split; cbn [generate_mac XorCryptoProvider].
  - intros data size key Hs Hd Hk. eexists. split; [by apply xor_mac_eq|].
    apply mac_ref_bound; [done|]. by apply Forall_take.
  - intros d1 d2 size key H1 H2 Ht. unfold Xor.generate_mac.
    rewrite !decide_False by lia. f_equal.
    pose proof (Z.div_mod size 8 ltac:(lia)). pose proof (Z.mod_pos_bound size 8 ltac:(lia)).
    set (w := Z.to_nat (size / 8)). assert (0 ≤ size / 8) by (apply Z.div_pos; lia).
    assert (∀ i, (i < Z.to_nat size)%nat → d1 !! i = d2 !! i) as Hi.
    { intros i Hi. rewrite <- (lookup_take_lt d1 (Z.to_nat size)), Ht by done.
      by apply lookup_take_lt. }
    assert (∀ n i mac, (8 * (i + n) ≤ Z.to_nat size)%nat →
      Xor.mac_words n i d1 mac = Xor.mac_words n i d2 mac) as Hw.
    { induction n as [|n IH]; intros i mac Hn; [done|]. cbn [Xor.mac_words].
      rewrite IH by lia. do 2 f_equal. f_equal. apply list_eq. intros j. unfold slice.
      destruct (decide (j < 8)%nat); [|by rewrite !lookup_take_ge by lia].
      rewrite !lookup_take_lt, !lookup_drop by lia. apply Hi. lia. }
    assert (∀ n j mac, (w * 8 + j + n ≤ Z.to_nat size)%nat →
      Xor.mac_tail n j (drop (w * 8) d1) mac = Xor.mac_tail n j (drop (w * 8) d2) mac) as Htl.
    { induction n as [|n IH]; intros j mac Hn; [done|]. cbn [Xor.mac_tail].
      rewrite IH by lia. by rewrite !lookup_drop, Hi by lia. }
    rewrite Hw by lia. apply Htl. lia.
  - intros data size k1 k2 m _ _. unfold Xor.generate_mac. case_decide; [done|].
    intros H1 H2. rewrite <- H2 in H1. injection H1 as Heq. clear H2.
    set (words := Z.to_nat (size / 8)) in *. set (rem := drop (words * 8) data) in *.
    assert (∀ n j r a b, Xor.mac_tail n j r a = Xor.mac_tail n j r b → a = b) as Ht.
    { induction n as [|n IH]; intros j r a b He; [done|]. by apply IH, lxor_cancel_r in He. }
    assert (∀ n i d a b, Xor.mac_words n i d a = Xor.mac_words n i d b → a = b) as Hw.
    { induction n as [|n IH]; intros i d a b He; [done|]. by apply IH, lxor_cancel_r in He. }
    by apply Ht, Hw in Heq.
Qed.

(** ** Encryption *)

Lemma imap_lxor_twice (ks : nat → Z) (l : list Z) :
  imap (λ i b, Z.lxor b (ks i)) (imap (λ i b, Z.lxor b (ks i)) l) = l.
Proof.
  apply list_eq. intros i. rewrite !list_lookup_imap. destruct (l !! i); [|done]. simpl.
  by rewrite Z.lxor_assoc, Z.lxor_nilpotent, Z.lxor_0_r.
Qed.

(** ** Properties *)

(** C36. The chunked MAC routine (64-bit words, then the remaining bytes) never
    reads outside a region of at least [size] bytes, stays within 64 bits and
    computes the byte-by-byte reference: byte k is folded in at bit 8 (k mod 8). *)
Theorem xor_mac_reference (data : list Z) (size key : Z) :
  bytes_ok data → is_u 64 key → 0 ≤ size ≤ Z.of_nat (length data) →
  Xor.generate_mac data size key = Ret (mac_ref key 0 (take (Z.to_nat size) data)) ∧
  is_u 64 (mac_ref key 0 (take (Z.to_nat size) data)).
Proof.
  intros Hd Hk Hs. split; [by apply xor_mac_eq|].
  apply mac_ref_bound; [done|]. by apply Forall_take.
Qed.

Lemma xor_mac_reference_witness :
  Xor.generate_mac [1; 2; 3; 4; 5; 6; 7; 8; 9; 10; 11] 10 77
    = Ret (mac_ref 77 0 [1; 2; 3; 4; 5; 6; 7; 8; 9; 10]).
Proof.
  apply (xor_mac_reference [1; 2; 3; 4; 5; 6; 7; 8; 9; 10; 11] 10 77);
    [repeat constructor; lia|unfold is_u; lia|simpl; lia].
Defined.

(** Tamper detection: replacing exactly one authenticated byte by a
    different one changes the MAC, whatever the key. *)
Theorem xor_mac_detects_byte (data : list Z) (i : nat) (b b' size key : Z) :
  bytes_ok data → byte_ok b' → data !! i = Some b → b ≠ b' →
  Z.of_nat i < size ≤ Z.of_nat (length data) →
  Xor.generate_mac data size key ≠ Xor.generate_mac (<[i := b']> data) size key.
Proof.
  intros Hd Hb' Hi Hne Hs. assert (byte_ok b) as Hb by (by eapply Forall_lookup_1 in Hd).
  rewrite !xor_mac_eq by (rewrite ?length_insert; first [by apply Forall_insert|done|lia]).
  intros [= Heq].
  assert (data = take i data ++ b :: drop (S i) data) as Hsplit by (by rewrite take_drop_middle).
  assert (i < length data)%nat by (by apply lookup_lt_Some in Hi).
  rewrite insert_take_drop in Heq by done. rewrite Hsplit in Heq at 1.
  assert (length (take i data) = i) as Hti by (rewrite length_take; lia).
  rewrite !take_app_ge in Heq by lia. rewrite Hti in Heq.
  replace (Z.to_nat size - i)%nat with (S (Z.to_nat size - S i)) in Heq by lia.
  cbn [take] in Heq. rewrite !mac_ref_app in Heq. cbn [mac_ref] in Heq.
  rewrite (mac_ref_key (Z.lxor _ (b ≪ _))), (mac_ref_key (Z.lxor _ (b' ≪ _))) in Heq.
  apply lxor_cancel_r, lxor_cancel_l in Heq.
  rewrite !Z.shiftl_mul_pow2 in Heq by lia.
  apply Z.mul_cancel_r in Heq; [done|]. apply Z.pow_nonzero; lia.
Qed.

Lemma xor_mac_detects_byte_witness :
  Xor.generate_mac [10; 20; 30] 3 5 ≠ Xor.generate_mac (<[1%nat := 21]> [10; 20; 30]) 3 5.
Proof.
  apply (xor_mac_detects_byte [10; 20; 30] 1 20 21 3 5);
    [repeat constructor; lia|lia|reflexivity|lia|simpl; lia].
Defined.

(** Encryption and decryption with the same non-zero key are inverse, keep
    the length, and the zero key is refused by both. *)
Theorem xor_encrypt_roundtrip (plaintext : list Z) (key : Z) :
  (key = 0 → Xor.encrypt plaintext key = Throw "XOR session key cannot be zero." ∧
             Xor.decrypt plaintext key = Throw "XOR session key cannot be zero.") ∧
  (key ≠ 0 → ∃ c, Xor.encrypt plaintext key = Ret c ∧ length c = length plaintext ∧
             Xor.decrypt c key = Ret plaintext).
Proof.
  split.
  - intros ->. done.
  - intros Hk. eexists. unfold Xor.decrypt, Xor.encrypt.
    rewrite decide_False by done. split; [done|]. split; [by rewrite length_imap|].
    rewrite decide_False by done. f_equal. apply (imap_lxor_twice (λ i, default 0 (Xor.key_bytes key !! (i `mod` 8)%nat))).
Qed.

Lemma xor_encrypt_roundtrip_witness :
  ∃ c, Xor.encrypt [104; 105] 0x0102030405060708 = Ret c ∧ length c = 2%nat ∧
       Xor.decrypt c 0x0102030405060708 = Ret [104; 105].
Proof. apply (xor_encrypt_roundtrip [104; 105] 0x0102030405060708). lia. Defined.

(** Before [init] every operation of the service throws; after it, each is
    the provider's own operation. *)
Theorem crypto_service_init (p : ICryptoProvider) (data : list Z) (size key : Z) :
  CryptoService.generate_mac None data size key = Throw
    "CryptoService not initialized. Call CryptoService::init() first." ∧
  CryptoService.encrypt None data key = Throw
    "CryptoService not initialized. Call CryptoService::init() first." ∧
  CryptoService.decrypt None data key = Throw
    "CryptoService not initialized. Call CryptoService::init() first." ∧
  CryptoService.generate_mac (CryptoService.init p) data size key = generate_mac p data size key ∧
  CryptoService.encrypt (CryptoService.init p) data key = encrypt p data key ∧
  CryptoService.decrypt (CryptoService.init p) data key = decrypt p data key.
Proof. done. Qed.
