(* ===== verification/Buffer.v ===== *)
(** Reference-counted buffers and non-owning views: [definitions/buffer.hpp].
    A program is a sequence of constructions, assignments and destructions of
    named [Buffer] objects over a heap of control blocks. *)
From S2P Require Import Prelude.
Local Open Scope Z_scope.

(** A [Buffer] object: pointers are heap locations or null. *)
Record Buffer := mk_Buffer {
  block : option nat;
  view_ptr : option nat;
  is_view : bool;
  is_quadrant_change : bool;
  sequence_id : Z
}.

(** The heap of control blocks (their [ref_count]) and the live objects. *)
Record state := mk_state {
  next : nat;
  counts : gmap nat Z;
  vars : gmap nat Buffer
}.

Definition empty_buffer : Buffer := mk_Buffer None None false false 0.
Definition view_buffer (data : nat) (seq : Z) : Buffer := mk_Buffer None (Some data) true false seq.
Definition owning_buffer (p : nat) : Buffer := mk_Buffer (Some p) None false false 0.

Definition data (b : Buffer) : option nat := if is_view b then view_ptr b else block b.
Definition operator_bool (b : Buffer) : bool :=
  bool_decide (is_Some (block b) ∨ is_Some (view_ptr b)).
Definition mark_as_quadrant_change (b : Buffer) : Buffer :=
  mk_Buffer (block b) (view_ptr b) (is_view b) true (sequence_id b).

(** [if (_block && --_block->ref_count == 0) { delete; }]: on a block that is
    not in the heap this is a use after free. *)
Definition release (b : Buffer) (h : gmap nat Z) : option (gmap nat Z) :=
  match block b with
  | None => Some h
  | Some p =>
      match h !! p with
      | None => None
      | Some n => Some (if decide (n - 1 = 0) then delete p h else <[p := n - 1]> h)
      end
  end.

(** [if (!_is_view && _block) _block->ref_count++] *)
Definition retain (b : Buffer) (h : gmap nat Z) : option (gmap nat Z) :=
  if is_view b then Some h
  else match block b with
       | None => Some h
       | Some p => match h !! p with None => None | Some n => Some (<[p := n + 1]> h) end
       end.

(** The moved-from object: both pointers null, the flags kept. *)
Definition invalidated (b : Buffer) : Buffer :=
  mk_Buffer None None (is_view b) (is_quadrant_change b) (sequence_id b).

(** What a statement of the program does. [v] names a new object in the
    constructors and an existing one otherwise. *)
Inductive command :=
  | Alloc (v : nat)
  | MakeView (v : nat) (ptr : nat) (seq : Z)
  | MakeEmpty (v : nat)
  | CopyConstruct (v src : nat)
  | MoveConstruct (v src : nat)
  | CopyAssign (v src : nat)
  | MoveAssign (v src : nat)
  | Destroy (v : nat).

Definition fresh_var (v : nat) (s : state) : bool := bool_decide (vars s !! v = None).

(** One statement; [Undefined] is a use after free or an unknown name. *)
Definition exec (c : command) (s : state) : outcome state :=
  match c with
  | Alloc v =>
      if fresh_var v s
      then Ret (mk_state (S (next s)) (<[next s := 1]> (counts s))
                  (<[v := owning_buffer (next s)]> (vars s)))
      else Undefined
  | MakeView v ptr seq =>
      if fresh_var v s
      then Ret (mk_state (next s) (counts s) (<[v := view_buffer ptr seq]> (vars s)))
      else Undefined
  | MakeEmpty v =>
      if fresh_var v s
      then Ret (mk_state (next s) (counts s) (<[v := empty_buffer]> (vars s)))
      else Undefined
  | CopyConstruct v src =>
      match fresh_var v s, vars s !! src with
      | true, Some b =>
          match retain b (counts s) with
          | Some h => Ret (mk_state (next s) h (<[v := b]> (vars s)))
          | None => Undefined
          end
      | _, _ => Undefined
      end
  | MoveConstruct v src =>
      match fresh_var v s, vars s !! src with
      | true, Some b =>
          Ret (mk_state (next s) (counts s) (<[v := b]> (<[src := invalidated b]> (vars s))))
      | _, _ => Undefined
      end
  | CopyAssign v src =>
      match vars s !! v, vars s !! src with
      | Some old, Some b =>
          if decide (v = src) then Ret s
          else match release old (counts s) with
               | None => Undefined
               | Some h =>
                   match retain b h with
                   | None => Undefined
                   | Some h => Ret (mk_state (next s) h (<[v := b]> (vars s)))
                   end
               end
      | _, _ => Undefined
      end
  | MoveAssign v src =>
      match vars s !! v, vars s !! src with
      | Some old, Some b =>
          if decide (v = src) then Ret s
          else match release old (counts s) with
               | None => Undefined
               | Some h =>
                   Ret (mk_state (next s) h (<[v := b]> (<[src := invalidated b]> (vars s))))
               end
      | _, _ => Undefined
      end
  | Destroy v =>
      match vars s !! v with
      | Some b =>
          match release b (counts s) with
          | Some h => Ret (mk_state (next s) h (delete v (vars s)))
          | None => Undefined
          end
      | None => Undefined
      end
  end.

Fixpoint run (cs : list command) (s : state) : outcome state :=
  match cs with
  | [] => Ret s
  | c :: cs => match exec c s with Ret s' => run cs s' | o => o end
  end.

Definition start : state := mk_state 0 ∅ ∅.

(** A statement is well formed when it constructs new names and uses known ones. *)
Definition well_named (c : command) (s : state) : Prop :=
  match c with
  | Alloc v | MakeView v _ _ | MakeEmpty v => vars s !! v = None
  | CopyConstruct v src | MoveConstruct v src => vars s !! v = None ∧ is_Some (vars s !! src)
  | CopyAssign v src | MoveAssign v src => is_Some (vars s !! v) ∧ is_Some (vars s !! src)
  | Destroy v => is_Some (vars s !! v)
  end.

(** ** Counting handles *)

Definition refs (vs : gmap nat Buffer) (p : nat) : nat :=
  size (filter (λ kv : nat * Buffer, block kv.2 = Some p) vs).
Definition holds (b : Buffer) (p : nat) : nat := if decide (block b = Some p) then 1 else 0.

Lemma refs_empty p : refs ∅ p = 0%nat.
Proof. done. Qed.

Lemma refs_insert vs v b p : vs !! v = None → refs (<[v := b]> vs) p = (holds b p + refs vs p)%nat.
Proof.
  intros Hv. unfold refs, holds. case_decide as Hb.
  - rewrite map_filter_insert_True by done. rewrite map_size_insert_None; [done|].
    by apply map_lookup_filter_None_2; left.
  - rewrite map_filter_insert_False by done. by rewrite delete_id.
Qed.

Lemma refs_delete vs v b p : vs !! v = Some b → refs vs p = (holds b p + refs (delete v vs) p)%nat.
Proof.
  intros Hv. rewrite <- (insert_delete_id vs v b) at 1 by done.
  by rewrite refs_insert by apply lookup_delete_eq.
Qed.

Lemma refs_replace vs v b b' p :
  vs !! v = Some b → (refs (<[v := b']> vs) p + holds b p = holds b' p + refs vs p)%nat.
Proof.
  intros Hv. rewrite (refs_delete vs v b p Hv).
  rewrite <- insert_delete_eq. rewrite refs_insert by apply lookup_delete_eq. lia.
Qed.

(** ** The invariant

    The heap holds exactly the blocks some object owns, each with its number of
    owners as count; views own nothing; new blocks are fresh. *)
Definition counted (h : gmap nat Z) (f : nat → nat) : Prop :=
  ∀ p n, h !! p = Some n ↔ n = Z.of_nat (f p) ∧ (0 < f p)%nat.

Definition buf_ok (nx : nat) (b : Buffer) : Prop :=
  (is_view b = true → block b = None) ∧ (∀ p, block b = Some p → (p < nx)%nat).

Definition wf (s : state) : Prop :=
  counted (counts s) (refs (vars s)) ∧ map_Forall (λ _ b, buf_ok (next s) b) (vars s).

Lemma wf_start : wf start.
Proof.
  split; [|apply map_Forall_empty]. intros p n. rewrite refs_empty. split; [done|lia].
Qed.

Lemma buf_ok_mono nx nx' b : (nx ≤ nx')%nat → buf_ok nx b → buf_ok nx' b.
Proof. intros ? [? H]. split; [done|]. intros p Hp. specialize (H p Hp). lia. Qed.

Lemma buf_ok_invalidated nx b : buf_ok nx (invalidated b).
Proof. done. Qed.

Lemma refs_zero nx vs p : map_Forall (λ _ b, buf_ok nx b) vs → (nx ≤ p)%nat → refs vs p = 0%nat.
Proof.
  intros Hvs Hp. unfold refs. apply map_size_empty_iff, map_empty_filter.
  intros v b Hv Hb. simpl in Hb. destruct (Hvs v b Hv) as [_ Hlt]. specialize (Hlt p Hb). lia.
Qed.

Lemma owned_pos s v b p : vars s !! v = Some b → block b = Some p → (0 < refs (vars s) p)%nat.
Proof.
  intros Hv Hb. rewrite (refs_delete _ _ _ p Hv). unfold holds. rewrite decide_True by done. lia.
Qed.

Lemma counted_ext h f g : (∀ p, f p = g p) → counted h f → counted h g.
Proof. intros Hfg Hc p n. rewrite <- Hfg. apply Hc. Qed.

Lemma counted_release b h f :
  counted h f → (∀ p, block b = Some p → 0 < f p)%nat →
  ∃ h', release b h = Some h' ∧ counted h' (λ p, f p - holds b p)%nat.
Proof.
  intros Hc Hpos. unfold release, holds. destruct (block b) as [q|].
  2:{ eexists; split; [done|]. eapply counted_ext; [|done]. intros p. simpl. lia. }
  specialize (Hpos q eq_refl). assert (h !! q = Some (Z.of_nat (f q))) as Hq by (by apply Hc).
  rewrite Hq. eexists; split; [done|]. intros p n.
  destruct (decide (q = p)) as [->|Hne].
  - rewrite (decide_True (P := Some p = Some p)) by done. case_decide.
    + rewrite lookup_delete_eq. split; [done|lia].
    + rewrite lookup_insert_eq. split; [intros [= <-]; lia|intros [-> ?]; f_equal; lia].
  - rewrite (decide_False (P := Some q = Some p)) by congruence. rewrite Nat.sub_0_r.
    case_decide; rewrite ?lookup_delete_ne, ?lookup_insert_ne by done; apply Hc.
Qed.

Lemma counted_retain b h f :
  counted h f → (is_view b = true → block b = None) → (∀ p, block b = Some p → 0 < f p)%nat →
  ∃ h', retain b h = Some h' ∧ counted h' (λ p, f p + holds b p)%nat.
Proof.
  intros Hc Hview Hpos. unfold retain, holds.
  assert (block b = None → counted h (λ p, f p + (if decide (block b = Some p) then 1 else 0))%nat)
    as Hnone.
  { intros Hb. eapply counted_ext; [|done]. intros p. rewrite Hb. simpl. lia. }
  destruct (is_view b); [eexists; split; [done|]; auto|].
  destruct (block b) as [q|]; [|eexists; split; [done|]; auto].
  specialize (Hpos q eq_refl). assert (h !! q = Some (Z.of_nat (f q))) as Hq by (by apply Hc).
  rewrite Hq. eexists; split; [done|]. intros p n. destruct (decide (q = p)) as [->|Hne].
  - rewrite (decide_True (P := Some p = Some p)), lookup_insert_eq by done.
    split; [intros [= <-]; lia|intros [-> ?]; f_equal; lia].
  - rewrite (decide_False (P := Some q = Some p)), lookup_insert_ne by congruence.
    rewrite Nat.add_0_r. apply Hc.
Qed.

Lemma holds_invalidated b p : holds (invalidated b) p = 0%nat.
Proof. done. Qed.

(** ** Every statement preserves the invariant *)

Lemma owned_pos' s v b : vars s !! v = Some b →
  ∀ p, block b = Some p → (0 < refs (vars s) p)%nat.
Proof. intros Hv p Hp. by eapply owned_pos. Qed.

Lemma refs_move vs v src b p :
  vs !! v = None → vs !! src = Some b →
  refs (<[v := b]> (<[src := invalidated b]> vs)) p = refs vs p.
Proof.
  intros Hv Hsrc. assert (v ≠ src) by congruence.
  rewrite refs_insert by (by rewrite lookup_insert_ne).
  pose proof (refs_replace vs src b (invalidated b) p Hsrc). rewrite holds_invalidated in *. lia.
Qed.

Lemma refs_move_assign vs v src old b p :
  v ≠ src → vs !! v = Some old → vs !! src = Some b →
  refs (<[v := b]> (<[src := invalidated b]> vs)) p = (refs vs p - holds old p)%nat.
Proof.
  intros Hne Hv Hsrc.
  pose proof (refs_replace (<[src := invalidated b]> vs) v old b p) as H1.
  rewrite lookup_insert_ne in H1 by done. specialize (H1 Hv).
  pose proof (refs_replace vs src b (invalidated b) p Hsrc) as H2.
  rewrite holds_invalidated in H2. lia.
Qed.

Lemma refs_assign vs v old b p :
  vs !! v = Some old → refs (<[v := b]> vs) p = (refs vs p - holds old p + holds b p)%nat.
Proof.
  intros Hv. pose proof (refs_replace vs v old b p Hv). pose proof (refs_delete vs v old p Hv). lia.
Qed.

Lemma exec_construct s v b :
  wf s → vars s !! v = None → buf_ok (next s) b → (∀ p, holds b p = 0%nat) →
  wf (mk_state (next s) (counts s) (<[v := b]> (vars s))).
Proof.
  intros [Hc Hb] Hv Hok Hz. split; simpl.
  - eapply counted_ext; [|done]. intros p. by rewrite refs_insert, Hz.
  - by apply map_Forall_insert_2.
Qed.

Lemma exec_alloc s v :
  wf s → vars s !! v = None →
  wf (mk_state (S (next s)) (<[next s := 1]> (counts s)) (<[v := owning_buffer (next s)]> (vars s))).
Proof.
  intros [Hc Hb] Hv. split; simpl.
  - intros p n. rewrite refs_insert by done. unfold holds; simpl.
    destruct (decide (next s = p)) as [<-|Hne].
    + rewrite lookup_insert_eq, decide_True by done. rewrite (refs_zero (next s)) by done.
      split; [intros [= <-]; lia|intros [-> _]; done].
    + rewrite lookup_insert_ne, decide_False by congruence. apply Hc.
  - apply map_Forall_insert_2.
    + split; simpl; [done|]. intros p [= <-]. lia.
    + eapply map_Forall_impl; [done|]. intros ? b. apply buf_ok_mono. lia.
Qed.

Lemma exec_copy s v src b :
  wf s → vars s !! v = None → vars s !! src = Some b →
  ∃ h, retain b (counts s) = Some h ∧ wf (mk_state (next s) h (<[v := b]> (vars s))).
Proof.
  intros [Hc Hb] Hv Hs. destruct (Hb _ _ Hs) as [Hview Hlt].
  destruct (counted_retain b (counts s) (refs (vars s))) as (h & Hh & Hch);
    [done..|by eapply owned_pos'|].
  exists h. split; [done|]. split; simpl.
  - eapply counted_ext; [|done]. intros p. simpl. rewrite refs_insert by done. lia.
  - apply map_Forall_insert_2; [done|done].
Qed.

Lemma exec_copy_assign s v src old b :
  wf s → v ≠ src → vars s !! v = Some old → vars s !! src = Some b →
  ∃ h h', release old (counts s) = Some h ∧ retain b h = Some h' ∧
    wf (mk_state (next s) h' (<[v := b]> (vars s))).
Proof.
  intros [Hc Hb] Hne Hv Hs. destruct (Hb _ _ Hs) as [Hview Hlt].
  destruct (counted_release old (counts s) (refs (vars s))) as (h & Hh & Hch);
    [done|by eapply owned_pos'|].
  destruct (counted_retain b h (λ p, refs (vars s) p - holds old p)%nat) as (h' & Hh' & Hch');
    [done..| |].
  { intros p Hp. pose proof (refs_delete _ _ _ p Hv) as H1.
    assert ((delete v (vars s)) !! src = Some b) as Hs' by (by rewrite lookup_delete_ne).
    pose proof (refs_delete _ _ _ p Hs') as H2. unfold holds at 1 in H2.
    rewrite decide_True in H2 by done. lia. }
  exists h, h'. split; [done|]. split; [done|]. split; simpl.
  - eapply counted_ext; [|done]. intros p. simpl. by rewrite (refs_assign _ _ old).
  - by apply map_Forall_insert_2.
Qed.

Lemma exec_move_assign s v src old b :
  wf s → v ≠ src → vars s !! v = Some old → vars s !! src = Some b →
  ∃ h, release old (counts s) = Some h ∧
    wf (mk_state (next s) h (<[v := b]> (<[src := invalidated b]> (vars s)))).
Proof.
  intros [Hc Hb] Hne Hv Hs.
  destruct (counted_release old (counts s) (refs (vars s))) as (h & Hh & Hch);
    [done|by eapply owned_pos'|].
  exists h. split; [done|]. split; simpl.
  - eapply counted_ext; [|done]. intros p. by rewrite (refs_move_assign _ _ _ old).
  - apply map_Forall_insert_2; [by apply (Hb src)|].
    apply map_Forall_insert_2; [apply buf_ok_invalidated|done].
Qed.

Lemma exec_destroy s v b :
  wf s → vars s !! v = Some b →
  ∃ h, release b (counts s) = Some h ∧ wf (mk_state (next s) h (delete v (vars s))).
Proof.
  intros [Hc Hb] Hv.
  destruct (counted_release b (counts s) (refs (vars s))) as (h & Hh & Hch);
    [done|by eapply owned_pos'|].
  exists h. split; [done|]. split; simpl.
  - eapply counted_ext; [|done]. intros p. simpl. rewrite (refs_delete _ _ _ p Hv). lia.
  - by apply map_Forall_delete.
Qed.

Lemma exec_wf c s : wf s → well_named c s → ∃ s', exec c s = Ret s' ∧ wf s'.
Proof.
  intros Hwf Hn. unfold exec, fresh_var.
  destruct c as [v|v ptr seq|v|v src|v src|v src|v src|v]; simpl in *.
  1-3: rewrite bool_decide_true by done; eexists; split; [done|].
  - by apply exec_alloc.
  - by apply exec_construct.
  - by apply exec_construct.
  - destruct Hn as [Hv [b Hs]]. rewrite bool_decide_true, Hs by done.
    destruct (exec_copy s v src b) as (h & -> & ?); eauto.
  - destruct Hn as [Hv [b Hs]]. rewrite bool_decide_true, Hs by done.
    eexists; split; [done|]. destruct Hwf as [Hc Hb]. split; simpl.
    + eapply counted_ext; [|done]. intros p. by rewrite refs_move.
    + apply map_Forall_insert_2; [by apply (Hb src)|].
      apply map_Forall_insert_2; [apply buf_ok_invalidated|done].
  - destruct Hn as [[old Hv] [b Hs]]. rewrite Hv, Hs. case_decide; [eauto|].
    destruct (exec_copy_assign s v src old b) as (h & h' & -> & -> & ?); eauto.
  - destruct Hn as [[old Hv] [b Hs]]. rewrite Hv, Hs. case_decide; [eauto|].
    destruct (exec_move_assign s v src old b) as (h & -> & ?); eauto.
  - destruct Hn as [b Hv]. rewrite Hv.
    destruct (exec_destroy s v b) as (h & -> & ?); eauto.
Qed.

(** A program in which every statement is well named when it runs. *)
Fixpoint well_named_run (cs : list command) (s : state) : Prop :=
  match cs with
  | [] => True
  | c :: cs => well_named c s ∧ match exec c s with Ret s' => well_named_run cs s' | _ => False end
  end.

Lemma run_wf cs : ∀ s, wf s → well_named_run cs s → ∃ s', run cs s = Ret s' ∧ wf s'.
Proof.
  induction cs as [|c cs IH]; intros s Hwf Hn; simpl in *; [eauto|].
  destruct Hn as [Hc Hn]. destruct (exec_wf c s Hwf Hc) as (s' & E & Hwf').
  rewrite E in *. by apply IH.
Qed.

(** ** Properties *)

(** Memory safety of reference counting: from the empty heap, any sequence
    of constructions, copies, moves, assignments and destructions of known
    objects runs without a use after free or a double free, and afterwards the
    heap holds exactly the blocks some object owns, with the number of its
    owners as count; so when every object is gone no block is left. *)
Theorem buffer_refcount_safe (cs : list command) :
  well_named_run cs start →
  ∃ s, run cs start = Ret s ∧
    (∀ p n, counts s !! p = Some n ↔ n = Z.of_nat (refs (vars s) p) ∧ (0 < refs (vars s) p)%nat) ∧
    (∀ v b p, vars s !! v = Some b → data b = Some p → is_view b = false →
       is_Some (counts s !! p)) ∧
    (vars s = ∅ → counts s = ∅).
Proof.
  intros Hn. destruct (run_wf cs start wf_start Hn) as (s & Hs & Hc & Hb).
  exists s. split; [done|]. split; [done|]. split.
  - intros v b p Hv Hd Hview. unfold data in Hd. rewrite Hview in Hd.
    eexists. apply Hc. split; [done|]. by eapply owned_pos'.
  - intros Hv. apply map_empty. intros p. destruct (counts s !! p) as [n|] eqn:E; [|done].
    apply Hc in E as [_ E]. rewrite Hv, refs_empty in E. lia.
Qed.

Lemma buffer_refcount_safe_witness :
  ∃ s, run [Alloc 0; CopyConstruct 1 0; MakeView 2 7 5; CopyAssign 2 1; MoveConstruct 3 1;
            Destroy 0; Destroy 2; Destroy 1; Destroy 3] start = Ret s ∧ counts s = ∅.
Proof.
  destruct (buffer_refcount_safe [Alloc 0; CopyConstruct 1 0; MakeView 2 7 5; CopyAssign 2 1;
    MoveConstruct 3 1; Destroy 0; Destroy 2; Destroy 1; Destroy 3]) as (s & H & _ & _ & He).
  - simpl. repeat split; try reflexivity; eexists; reflexivity.
  - exists s. split; [exact H|]. apply He. vm_compute in H. injection H as <-. reflexivity.
Defined.
