(* ===== verification/Shared.v ===== *)
(** A [Buffer]'s control block between threads ([definitions/buffer.hpp]): the
    count is an [std::atomic<int>], a release decrements it and, when the
    decrement gives zero, destroys the data and frees the block in further
    steps, interleaved with copies, uses and releases by other threads. *)
From S2P Require Import Prelude.
Local Open Scope Z_scope.

(** Where a thread is in [release]. *)
Inductive pc := RIdle | RDestroy | RDelete.

(** The block; for each thread, the handles it owns and where it is. *)
Record block := mk_block {
  ref_count : Z;
  alive : bool;                  (* the data object *)
  allocated : bool;
  owners : list (nat * pc)
}.

Definition owner_at (i : nat) (x : nat * pc) (s : block) : block :=
  mk_block (ref_count s) (alive s) (allocated s) (<[i := x]> (owners s)).
Definition set_count (z : Z) (s : block) : block := mk_block z (alive s) (allocated s) (owners s).

Inductive action :=
  | ACopy (i : nat)              (* copy constructor *)
  | AMove (i j : nat)            (* a handle changes hands *)
  | AUse (i : nat)               (* data() read or written *)
  | ARelease (i : nat)           (* --_block->ref_count *)
  | AStep (i : nat).             (* the rest of release *)

(** [None] when the thread cannot do that now; reaching into a block that is
    gone, or into data that is, is undefined. *)
Definition copy (i : nat) (s : block) : option (outcome block) :=
  match owners s !! i with
  | Some (S k, RIdle) =>
      Some (if allocated s then Ret (owner_at i (S (S k), RIdle) (set_count (i32 (ref_count s + 1)) s))
            else Undefined)
  | _ => None
  end.
Definition move (i j : nat) (s : block) : option (outcome block) :=
  match owners s !! i, owners s !! j with
  | Some (S k, RIdle), Some (k', x) =>
      if decide (i = j) then None else Some (Ret (owner_at j (S k', x) (owner_at i (k, RIdle) s)))
  | _, _ => None
  end.
Definition data (i : nat) (s : block) : option (outcome block) :=
  match owners s !! i with
  | Some (S k, RIdle) => Some (if allocated s && alive s then Ret s else Undefined)
  | _ => None
  end.
(** [--_block->ref_count == 0] tests the result of the decrement. *)
Definition release (i : nat) (s : block) : option (outcome block) :=
  match owners s !! i with
  | Some (S k, RIdle) =>
      Some (if allocated s then
              let n := i32 (ref_count s - 1) in
              Ret (owner_at i (k, if decide (n = 0) then RDestroy else RIdle) (set_count n s))
            else Undefined)
  | _ => None
  end.
Definition release_rest (i : nat) (s : block) : option (outcome block) :=
  match owners s !! i with
  | Some (k, RDestroy) =>
      Some (if allocated s && alive s
            then Ret (owner_at i (k, RDelete) (mk_block (ref_count s) false (allocated s) (owners s)))
            else Undefined)
  | Some (k, RDelete) =>
      Some (if allocated s
            then Ret (owner_at i (k, RIdle) (mk_block (ref_count s) (alive s) false (owners s)))
            else Undefined)
  | _ => None
  end.
Definition act (a : action) (s : block) : option (outcome block) :=
  match a with
  | ACopy i => copy i s
  | AMove i j => move i j s
  | AUse i => data i s
  | ARelease i => release i s
  | AStep i => release_rest i s
  end.

(** Actions that are not possible are left out. *)
Fixpoint run (l : list action) (s : block) : outcome block :=
  match l with
  | [] => Ret s
  | a :: l =>
      match act a s with
      | None => run l s
      | Some (Ret s') => run l s'
      | Some o => o
      end
  end.

(** [Buffer::alloc] by the first of [n] threads. *)
Definition alloc (n : nat) : block := mk_block 1 true true ((1%nat, RIdle) :: replicate n (0%nat, RIdle)).

Definition held (l : list (nat * pc)) : nat := sum_list (fst <$> l).
Definition ending (x : nat * pc) : nat := match x.2 with RIdle => 0 | _ => 1 end.
Definition enders (l : list (nat * pc)) : nat := sum_list (ending <$> l).

Lemma sum_insert {A} (f : A → nat) l i x y :
  l !! i = Some x → (sum_list (f <$> <[i := y]> l) + f x = sum_list (f <$> l) + f y)%nat.
Proof.
  revert i. induction l as [|z l IH]; intros [|i] Hi; simplify_eq/=; [lia|].
  specialize (IH i Hi). lia.
Qed.
Lemma sum_ge {A} (f : A → nat) l i x : l !! i = Some x → (f x ≤ sum_list (f <$> l))%nat.
Proof.
  revert i. induction l as [|z l IH]; intros [|i] Hi; simplify_eq/=; [lia|]. specialize (IH i Hi). lia.
Qed.
Lemma sum_two {A} (f : A → nat) l i j x y :
  i ≠ j → l !! i = Some x → l !! j = Some y → (f x + f y ≤ sum_list (f <$> l))%nat.
Proof.
  revert i j. induction l as [|z l IH]; intros [|i] [|j] Hij Hi Hj; simplify_eq/=.
  - pose proof (sum_ge f l j y Hj). lia.
  - pose proof (sum_ge f l i x Hi). lia.
  - specialize (IH i j ltac:(congruence) Hi Hj). lia.
Qed.

(** The count is the number of handles; the block lives while there is one,
    and afterwards until the one thread that took the last is through. *)
Record block_ok (s : block) : Prop := {
  bo_count : ref_count s = Z.of_nat (held (owners s));
  bo_bound : Z.of_nat (held (owners s)) < 2 ^ 31;
  bo_enders : (enders (owners s) ≤ 1)%nat;
  bo_held : (0 < held (owners s))%nat → alive s = true ∧ allocated s = true ∧ enders (owners s) = 0%nat;
  bo_destroy : ∀ i k, owners s !! i = Some (k, RDestroy) → alive s = true ∧ allocated s = true;
  bo_delete : ∀ i k, owners s !! i = Some (k, RDelete) → alive s = false ∧ allocated s = true;
  bo_last : held (owners s) = 0%nat → enders (owners s) = 0%nat → allocated s = false ∧ alive s = false
}.

Definition is_copy (a : action) : bool := match a with ACopy _ => true | _ => false end.
Definition copies (l : list action) : nat := length (filter (λ a, is_copy a = true) l).

Lemma held_pos s i k x : owners s !! i = Some (S k, x) → (0 < held (owners s))%nat.
Proof. intros Hi. apply (sum_ge fst) in Hi. unfold held. simpl in Hi. lia. Qed.

(** Nobody else is ending a block when one thread is. *)
Lemma one_ender s i j k k' x y :
  (enders (owners s) ≤ 1)%nat → owners s !! i = Some (k, x) → owners s !! j = Some (k', y) →
  x ≠ RIdle → y ≠ RIdle → i = j.
Proof.
  intros He Hi Hj Hx Hy. destruct (decide (i = j)) as [|Hij]; [done|exfalso].
  pose proof (sum_two ending _ i j _ _ Hij Hi Hj) as Hs. unfold enders in He.
  set (total := sum_list _) in *. clearbody total.
  destruct x, y; try done; unfold ending in Hs; simpl in Hs; lia.
Qed.

(** A change of one owner while the block lives. *)
Lemma owner_ok s i k x k' y z :
  block_ok s → owners s !! i = Some (S k, x) → x = RIdle →
  z = Z.of_nat (held (owners s)) - Z.of_nat (S k) + Z.of_nat k' → z < 2 ^ 31 →
  (y = RIdle ∧ 0 < z) ∨ (y = RDestroy ∧ z = 0) →
  block_ok (owner_at i (k', y) (set_count z s)).
Proof.
  intros Hok Hi -> Hz Hmax Hy. pose proof (held_pos s i k _ Hi) as Hpos.
  destruct (bo_held s Hok Hpos) as (Hal & Hall & Hen).
  pose proof (sum_insert fst _ i _ (k', y) Hi) as Hh. pose proof (sum_insert ending _ i _ (k', y) Hi) as He.
  unfold held, enders in *. change (ending (S k, RIdle)) with 0%nat in He. simpl in Hh.
  split; simpl; unfold held, enders.
  - lia.
  - lia.
  - destruct Hy as [[-> _]|[-> _]]; change (ending (k', RIdle)) with 0%nat in He || idtac;
      change (ending (k', RDestroy)) with 1%nat in He || idtac; lia.
  - intros Hp. split; [done|]. split; [done|]. destruct Hy as [[-> _]|[-> ?]]; [|lia].
    change (ending (k', RIdle)) with 0%nat in He. lia.
  - done.
  - intros j n Hj. apply list_lookup_insert_Some in Hj as [(-> & Heq & _)|[_ Hj]].
    + destruct Hy as [[-> _]|[-> _]]; done.
    + pose proof (sum_ge ending _ j _ Hj). change (ending (n, RDelete)) with 1%nat in *. lia.
  - intros H0. destruct Hy as [[-> ?]|[-> ?]]; [lia|]. change (ending (k', RDestroy)) with 1%nat in He. lia.
Qed.

Lemma move_ok s i j k k' x :
  block_ok s → owners s !! i = Some (S k, RIdle) → owners s !! j = Some (k', x) → i ≠ j →
  block_ok (owner_at j (S k', x) (owner_at i (k, RIdle) s)).
Proof.
  intros Hok Hi Hj Hij. pose proof (held_pos s i k _ Hi) as Hpos.
  destruct (bo_held s Hok Hpos) as (Hal & Hall & Hen).
  assert (<[i := (k, RIdle)]> (owners s) !! j = Some (k', x)) as Hj' by (by rewrite list_lookup_insert_ne).
  pose proof (sum_insert fst _ i _ (k, RIdle) Hi) as Hh1.
  pose proof (sum_insert fst _ j _ (S k', x) Hj') as Hh2.
  pose proof (sum_insert ending _ i _ (k, RIdle) Hi) as He1.
  pose proof (sum_insert ending _ j _ (S k', x) Hj') as He2.
  change (ending (S k', x)) with (ending (k', x)) in He2. change (ending (S k, RIdle)) with 0%nat in He1.
  change (ending (k, RIdle)) with 0%nat in He1. simpl in Hh1, Hh2.
  destruct Hok as [Hc Hb He Hh Hde Hdl Hla]. unfold held, enders in *.
  split; simpl; unfold held, enders; try lia; try done.
  - intros _. split; [done|]. split; [done|lia].
  - intros n m Hn. exfalso.
    assert (sum_list (ending <$> owners s) = 0%nat ∧ ∃ m', owners s !! n = Some (m', RDelete)) as [H0 [m' Hm]].
    { split; [done|]. apply list_lookup_insert_Some in Hn as [(-> & [= <- ->] & _)|[_ Hn]]; [by exists k'|].
      apply list_lookup_insert_Some in Hn as [(_ & [=] & _)|[_ Hn]]. by exists m. }
    pose proof (sum_ge ending _ n _ Hm) as Hge. change (ending (m', RDelete)) with 1%nat in Hge. lia.
Qed.

Lemma end_held s i k x : block_ok s → owners s !! i = Some (k, x) → x ≠ RIdle → held (owners s) = 0%nat.
Proof.
  intros Hok Hi Hx. destruct (held (owners s)) as [|h] eqn:Hh; [done|].
  destruct (bo_held s Hok) as (_ & _ & He); [lia|]. pose proof (sum_ge ending _ i _ Hi) as Hge.
  unfold enders in He. rewrite He in Hge. destruct x; [done|..]; unfold ending in Hge; simpl in Hge; lia.
Qed.

(** The last owner goes on with the end of the block. *)
Lemma end_ok s i k x y rest :
  block_ok s → owners s !! i = Some (k, x) → x ≠ RIdle →
  (y = RDelete ∧ rest = true) ∨ (y = RIdle ∧ rest = false) →
  block_ok (mk_block (ref_count s) false rest (<[i := (k, y)]> (owners s))).
Proof.
  intros Hok Hi Hx Hy. pose proof (end_held s i k x Hok Hi Hx) as H0. pose proof (bo_enders s Hok) as He.
  assert (∀ j k' z, <[i := (k, y)]> (owners s) !! j = Some (k', z) → z ≠ RIdle → z = y) as Honly.
  { intros j k' z Hj Hz. apply list_lookup_insert_Some in Hj as [(_ & [=] & _)|[Hij Hj]]; [done|].
    by destruct (Hij (one_ender s i j k k' x z He Hi Hj Hx Hz)). }
  pose proof (bo_count s Hok) as Hc. pose proof (bo_bound s Hok) as Hb.
  pose proof (sum_insert fst _ i _ (k, y) Hi) as Hh. pose proof (sum_insert ending _ i _ (k, y) Hi) as Hen.
  assert (ending (k, x) = 1%nat) as Hex by (by destruct x).
  assert (ending (k, y) ≤ 1)%nat as Hey by (destruct y; unfold ending; simpl; lia).
  unfold held, enders in *. simpl in Hh. split; simpl; unfold held, enders; try lia.
  - intros j k' Hj. specialize (Honly j k' RDestroy Hj ltac:(done)). destruct Hy as [[-> _]|[-> _]]; done.
  - intros j k' Hj. specialize (Honly j k' RDelete Hj ltac:(done)). destruct Hy as [[-> ->]|[-> _]]; done.
  - intros _ Hz. destruct Hy as [[-> _]|[_ ->]]; [|done]. change (ending (k, RDelete)) with 1%nat in Hen.
    pose proof (sum_ge ending _ i _ Hi). lia.
Qed.

(** No possible action is undefined. *)
Lemma act_defined a s o :
  block_ok s → act a s = Some o → Z.of_nat (held (owners s) + Nat.b2n (is_copy a)) < 2 ^ 31 →
  ∃ s', o = Ret s' ∧ block_ok s' ∧ (held (owners s') ≤ held (owners s) + Nat.b2n (is_copy a))%nat ∧
    (allocated s = false → s' = s).
Proof.
  intros Hok Ha Hb. pose proof (bo_count s Hok) as Hc. destruct a as [i|i j|i|i|i]; simpl in Ha, Hb;
    unfold copy, move, data, release, release_rest in Ha.
  - destruct (owners s !! i) as [[[|k] []]|] eqn:Hi; try done. pose proof (held_pos s i k _ Hi) as Hpos.
    destruct (bo_held s Hok Hpos) as (Hal & Hall & Hen). rewrite Hall in Ha. simplify_eq.
    eexists. split; [done|]. rewrite Hc, i32_small by lia.
    pose proof (sum_insert fst _ i _ (S (S k), RIdle) Hi) as Hh. simpl in Hh. split; [|split; [|congruence]].
    + apply (owner_ok s i k RIdle); [done..|lia|lia|]. left. split; [done|lia].
    + unfold held in *. simpl. lia.
  - destruct (owners s !! i) as [[[|k] []]|] eqn:Hi; try done.
    destruct (owners s !! j) as [[k' x]|] eqn:Hj; try done. case_decide as Hij; simplify_eq.
    pose proof (held_pos s i k _ Hi) as Hpos. destruct (bo_held s Hok Hpos) as (Hal & Hall & Hen).
    eexists. split; [done|]. split; [by apply move_ok|]. split; [|congruence].
    assert (<[i := (k, RIdle)]> (owners s) !! j = Some (k', x)) as Hj' by (by rewrite list_lookup_insert_ne).
    pose proof (sum_insert fst _ i _ (k, RIdle) Hi) as Hh1.
    pose proof (sum_insert fst _ j _ (S k', x) Hj') as Hh2. unfold held. simpl in *. lia.
  - destruct (owners s !! i) as [[[|k] []]|] eqn:Hi; try done. pose proof (held_pos s i k _ Hi) as Hpos.
    destruct (bo_held s Hok Hpos) as (Hal & Hall & _). rewrite Hal, Hall in Ha. simplify_eq.
    eexists. split; [done|]. split; [done|]. split; [lia|done].
  - destruct (owners s !! i) as [[[|k] []]|] eqn:Hi; try done. pose proof (held_pos s i k _ Hi) as Hpos.
    destruct (bo_held s Hok Hpos) as (Hal & Hall & Hen). rewrite Hall in Ha. simplify_eq.
    eexists. split; [done|]. rewrite Hc, i32_small by lia.
    pose proof (sum_insert fst _ i _ (k, RIdle) Hi) as Hh. simpl in Hh.
    assert (held (owners s) ≥ S k)%nat by (apply (sum_ge fst) in Hi; unfold held; simpl in Hi; lia).
    split; [|split; [|congruence]].
    + apply (owner_ok s i k RIdle); [done..|lia|lia|].
      case_decide; [right|left]; (split; [done|lia]).
    + unfold held in *. simpl. destruct (decide _);
        pose proof (sum_insert fst _ i _ (k, RDestroy) Hi) as Hh'; simpl in *; lia.
  - destruct (owners s !! i) as [[k []]|] eqn:Hi; try done.
    + destruct (bo_destroy s Hok i k Hi) as [Hal Hall]. rewrite Hal, Hall in Ha. simplify_eq.
      eexists. split; [done|]. split; [apply (end_ok s i k RDestroy); [done..|by left]|].
      split; [|congruence]. pose proof (sum_insert fst _ i _ (k, RDelete) Hi) as Hh. unfold held. simpl in *. lia.
    + destruct (bo_delete s Hok i k Hi) as [Hal Hall]. rewrite Hall in Ha. simplify_eq.
      eexists. split; [done|]. split; [rewrite Hal; apply (end_ok s i k RDelete); [done..|by right]|].
      split; [|congruence]. pose proof (sum_insert fst _ i _ (k, RIdle) Hi) as Hh. unfold held. simpl in *. lia.
Qed.

Lemma run_ok l s :
  block_ok s → Z.of_nat (held (owners s) + copies l) < 2 ^ 31 → ∃ s', run l s = Ret s' ∧ block_ok s'.
Proof.
  revert s. induction l as [|a l IH]; intros s Hok Hb; [by exists s|]. simpl.
  assert (copies (a :: l) = Nat.b2n (is_copy a) + copies l)%nat as Hc.
  { unfold copies. rewrite filter_cons. by destruct (is_copy a). }
  rewrite Hc in Hb. destruct (act a s) as [o|] eqn:Ha; [|apply IH; [done|lia]].
  destruct (act_defined a s o Hok Ha) as (s' & -> & Hok' & Hh & _); [lia|]. apply IH; [done|lia].
Qed.

Lemma run_freed l s :
  block_ok s → allocated s = false → run l s = Ret s.
Proof.
  intros Hok Hf. induction l as [|a l IH]; [done|]. simpl. destruct (act a s) as [o|] eqn:Ha; [|done].
  assert (held (owners s) = 0%nat) as H0.
  { destruct (held (owners s)) eqn:Hh; [done|]. destruct (bo_held s Hok) as (_ & Hall & _); [lia|]. congruence. }
  exfalso. destruct a as [i|i j|i|i|i]; simpl in Ha;
    unfold copy, move, data, release, release_rest in Ha;
    destruct (owners s !! i) as [[[|k] []]|] eqn:Hi; try done;
    try (pose proof (held_pos s i k _ Hi); lia).
  all: first [ destruct (bo_destroy s Hok i _ Hi) as [_ ?]; congruence
             | destruct (bo_delete s Hok i _ Hi) as [_ ?]; congruence ].
Qed.

Lemma alloc_sums n : held (owners (alloc n)) = 1%nat ∧ enders (owners (alloc n)) = 0%nat.
Proof.
  assert (∀ f : nat * pc → nat, f (0%nat, RIdle) = 0%nat →
    sum_list (f <$> replicate n (0%nat, RIdle)) = 0%nat) as Hz.
  { intros f Hf. induction n as [|n IH]; [done|]. simpl. rewrite Hf. exact IH. }
  unfold held, enders, alloc. cbn [owners fmap list_fmap sum_list fst].
  split; [exact (f_equal S (Hz fst eq_refl))|exact (Hz ending eq_refl)].
Qed.
Lemma alloc_ok n : block_ok (alloc n).
Proof.
  destruct (alloc_sums n) as [Hh He].
  assert (∀ i x, owners (alloc n) !! i = Some x → x.2 = RIdle) as Hidle.
  { intros [|i] x Hx; simpl in Hx; [by simplify_eq|]. by apply lookup_replicate_1 in Hx as [-> _]. }
  split; rewrite ?Hh, ?He; try done; try lia.
  all: intros i k Hi; by apply Hidle in Hi.
Qed.

(** C34. A buffer shared by threads is freed once, by whoever drops the last
    handle, and not before. Whatever the threads do with the handles they own,
    and however the steps of their releases interleave, nobody reaches into
    data or a block that is gone; the count is the number of handles; while
    there is a handle the data is there; when nobody holds one and no release
    is under way the block is freed; and a freed block stays as it is. Fewer
    than 2^31 - 1 copies are made. *)
Theorem shared_buffer_safe (n : nat) (l : list action) :
  Z.of_nat (copies l) + 1 < 2 ^ 31 →
  ∃ s, run l (alloc n) = Ret s ∧ ref_count s = Z.of_nat (held (owners s)) ∧
    ((0 < held (owners s))%nat → alive s = true ∧ allocated s = true) ∧
    (held (owners s) = 0%nat → enders (owners s) = 0%nat → alive s = false ∧ allocated s = false) ∧
    (enders (owners s) ≤ 1)%nat ∧
    (allocated s = false → ∀ l', run l' s = Ret s).
Proof.
  intros Hl. destruct (alloc_sums n) as [Hh _].
  destruct (run_ok l (alloc n) (alloc_ok n)) as (s & Hr & Hok); [rewrite Hh; lia|].
  exists s. split; [done|]. split; [apply Hok|]. split; [intros Hp; by apply (bo_held s Hok) in Hp as (? & ? & _)|].
  split; [intros H0 He; by apply (bo_last s Hok) in H0 as [? ?]|]. split; [apply Hok|].
  intros Hf l'. by apply run_freed.
Qed.

(** Two threads drop their handles at the same time. *)
Definition demo : list action :=
  [ACopy 0; AMove 0 1; ARelease 0; ARelease 1; AUse 0; AStep 1; AStep 0; AStep 1].
Lemma shared_buffer_safe_witness :
  ∃ s, run demo (alloc 1) = Ret s ∧ ref_count s = 0 ∧ alive s = false ∧ allocated s = false.
Proof.
  destruct (shared_buffer_safe 1 demo) as (s & Hr & Hc & _ & H0 & _); [by vm_compute|].
  exists s. split; [exact Hr|]. vm_compute in Hr. injection Hr as <-.
  split; [exact Hc|]. apply H0; reflexivity.
Defined.
