(* ===== verification/Observer.v ===== *)
(** Observers: [observer/conditionally_data_observed.h],
    [value_conditionally_data_observed.hpp], [concurrent_observed.h],
    [concurrent_observer.h], [semaphore.hpp]. *)
From S2P Require Import Prelude.
Local Open Scope Z_scope.

(** ** Conditional subjects

    Two parallel vectors, observers (possibly null) and conditions. *)
Section observed.
Context {Ob C : Type} `{EqDecision Ob, EqDecision C}.

Record observed := mk_observed {
  observers : list (option Ob);
  conditions : list C
}.

Definition observed_empty : observed := mk_observed [] [].

Definition attach (o : option Ob) (c : C) (s : observed) : observed :=
  mk_observed (o :: observers s) (c :: conditions s).

Definition matches (o : option Ob) (c : C) (s : observed) (i : nat) : bool :=
  bool_decide (observers s !! i = Some o) && bool_decide (conditions s !! i = Some c).

(** [for (i = size; i-- > 0;) if (match) { erase; erase; }] *)
Fixpoint detach_loop (i : nat) (o : option Ob) (c : C) (s : observed) : observed :=
  match i with
  | O => s
  | S i =>
      detach_loop i o c
        (if matches o c s i
         then mk_observed (delete i (observers s)) (delete i (conditions s)) else s)
  end.
Definition detach (o : option Ob) (c : C) (s : observed) : observed :=
  detach_loop (length (observers s)) o c s.

(** [notify]: the observers are called in vector order; the result tells
    whether any was. [update] is the virtual call. *)
Fixpoint notify_loop {St E} (update : Ob → M St E unit) (c : C)
    (os : list (option Ob)) (cs : list C) (n : bool) : M St E bool :=
  match os, cs with
  | o :: os, c' :: cs =>
      if decide (c' = c) then
        match o with
        | Some o => _ ← update o; notify_loop update c os cs true
        | None => notify_loop update c os cs n
        end
      else notify_loop update c os cs n
  | _, _ => mret n
  end.
Definition notify {St E} (update : Ob → M St E unit) (c : C) (s : observed) : M St E bool :=
  notify_loop update c (observers s) (conditions s) false.

(** The observers a notification reaches, in order. *)
Fixpoint matching_list (c : C) (os : list (option Ob)) (cs : list C) : list Ob :=
  match os, cs with
  | o :: os, c' :: cs =>
      (if decide (c' = c) then match o with Some o => [o] | None => [] end else [])
        ++ matching_list c os cs
  | _, _ => []
  end.
Definition matching (c : C) (s : observed) : list Ob := matching_list c (observers s) (conditions s).

(** Call a list of observers in order. *)
Fixpoint call_all {St E} (update : Ob → M St E unit) (os : list Ob) : M St E unit :=
  match os with [] => mret tt | o :: os => _ ← update o; call_all update os end.

(** The subject as a list of registrations: the abstract view. *)
Definition registrations (s : observed) : list (option Ob * C) :=
  zip (observers s) (conditions s).
Definition observed_ok (s : observed) : Prop := length (observers s) = length (conditions s).
End observed.

Arguments observed : clear implicits.

(** [Value_Conditionally_Data_Observed]: the vectors are a part [view] of the
    object's state, and the loop of [notify], which runs to the size there was at
    its start, reads them again after each call of an observer. *)
Section value_observed.
Context {Ob C St E : Type} `{EqDecision Ob, EqDecision C}.
Context (view : St → observed Ob C) (set_view : observed Ob C → St → St).

Definition value_attach (o : option Ob) (c : C) : M St E unit :=
  modify (λ st, set_view (attach o c (view st)) st).
Definition value_detach (o : option Ob) (c : C) : M St E unit :=
  modify (λ st, set_view (detach o c (view st)) st).

Fixpoint value_notify_loop (update : Ob → M St E unit) (c : C) (i k : nat) (n : bool) :
    M St E bool :=
  match k with
  | O => mret n
  | S k =>
      s ← gets view;
      c' ← checked (conditions s !! i);
      if decide (c' = c) then
        o ← checked (observers s !! i);
        match o with
        | Some o => _ ← update o; value_notify_loop update c (S i) k true
        | None => value_notify_loop update c (S i) k n
        end
      else value_notify_loop update c (S i) k n
  end.
Definition value_notify (update : Ob → M St E unit) (c : C) : M St E bool :=
  size ← gets (λ st, length (observers (view st)));
  value_notify_loop update c 0 size false.
End value_observed.

(** [Concurrent_Observed]: one list of pairs, appended at the back; [remove]
    deletes every equal pair. *)
Section concurrent_observed.
Context {Ob C : Type} `{EqDecision Ob, EqDecision C}.
Definition concurrent_attach (o : Ob) (c : C) (l : list (C * Ob)) : list (C * Ob) := l ++ [(c, o)].
Definition concurrent_detach (o : Ob) (c : C) (l : list (C * Ob)) : list (C * Ob) :=
  filter (λ p, p ≠ (c, o)) l.
Fixpoint concurrent_notify {St E} (update : Ob → M St E unit) (c : C) (l : list (C * Ob))
    (n : bool) : M St E bool :=
  match l with
  | [] => mret n
  | (c', o) :: l =>
      if decide (c' = c) then _ ← update o; concurrent_notify update c l true
      else concurrent_notify update c l n
  end.
End concurrent_observed.

(** ** Semaphore and queue *)

Definition INT_MAX : Z := 2 ^ 31 - 1.

(** [v()] increments an [int]; overflowing it is undefined. [p()] waits for a
    positive count. *)
Definition sem_v (count : Z) : outcome Z :=
  if decide (count = INT_MAX) then Undefined else Ret (count + 1).
Definition sem_p (count : Z) : outcome Z :=
  if decide (0 < count) then Ret (count - 1) else Blocked.

(** [Concurrent_Observer]: a queue of data pointers and its semaphore. *)
Record queue (D : Type) := mk_queue { q_sem : Z; q_data : list D }.
Arguments mk_queue {D} _ _.
Arguments q_sem {D} _.
Arguments q_data {D} _.

Definition queue_update {D} (d : D) (q : queue D) : outcome (queue D) :=
  match sem_v (q_sem q) with
  | Ret n => Ret (mk_queue n (q_data q ++ [d]))
  | Throw e => Throw e | Blocked => Blocked | Undefined => Undefined | Terminate => Terminate
  end.

(** [updated()]: wait, then take the front; the front of an empty list is undefined. *)
Definition queue_updated {D} (q : queue D) : outcome (D * queue D) :=
  match sem_p (q_sem q) with
  | Ret n => match q_data q with
             | d :: ds => Ret (d, mk_queue n ds)
             | [] => Undefined
             end
  | Throw e => Throw e | Blocked => Blocked | Undefined => Undefined | Terminate => Terminate
  end.

Definition queue_ok {D} (q : queue D) : Prop := q_sem q = Z.of_nat (length (q_data q)).

(** ** Lemmas *)
Section lemmas.
Context {Ob C : Type} `{EqDecision Ob, EqDecision C}.
Implicit Types (s : observed Ob C).

Lemma attach_registrations o c s :
  registrations (attach o c s) = (o, c) :: registrations s.
Proof. done. Qed.

Lemma matching_registrations c s :
  observed_ok s →
  matching c s = omap (λ r, if decide (r.2 = c) then r.1 else None) (registrations s).
Proof.
  unfold observed_ok, matching, registrations. destruct s as [os cs]; simpl.
  revert cs. induction os as [|o os IH]; intros [|c' cs] Hl; simpl in *; try done.
  rewrite IH by lia. case_decide; [|done]. by destruct o.
Qed.

(** Erasing from the back removes exactly the matching registrations. *)
Lemma detach_loop_registrations i o c s :
  observed_ok s → (i ≤ length (observers s))%nat →
  registrations (detach_loop i o c s)
    = filter (λ r, r ≠ (o, c)) (take i (registrations s)) ++ drop i (registrations s) ∧
  observed_ok (detach_loop i o c s).
Proof.
  revert s. induction i as [|i IH]; intros s Hok Hi; [done|]. cbn [detach_loop].
  destruct s as [os cs]; unfold observed_ok, registrations, matches in *; simpl in *.
  destruct (lookup_lt_is_Some_2 os i) as [o' Ho]; [lia|].
  destruct (lookup_lt_is_Some_2 cs i) as [c' Hc]; [lia|].
  assert (zip os cs !! i = Some (o', c')) as Hz by (by apply lookup_zip_with_Some; eauto).
  assert (i < length (zip os cs))%nat as Hlt by (by apply lookup_lt_Some in Hz).
  rewrite (take_S_r _ _ _ Hz), filter_app, Ho, Hc.
  destruct (decide (o' = o ∧ c' = c)) as [[-> ->]|Hne].
  - rewrite !bool_decide_true by done. simpl.
    destruct (IH (mk_observed (delete i os) (delete i cs))) as [H1 H2].
    { simpl. rewrite !length_delete by (eauto using lookup_lt_is_Some_1). lia. }
    { simpl. rewrite length_delete by eauto. lia. }
    simpl in *. rewrite H1. split; [|done].
    rewrite (filter_cons_False (λ r, r ≠ (o, c))) by naive_solver. rewrite app_nil_r.
    rewrite !delete_take_drop, zip_with_app by (rewrite !length_take; lia).
    rewrite <- zip_with_take, <- zip_with_drop.
    rewrite take_app_eq by (rewrite length_take; lia).
    by rewrite drop_app_eq by (rewrite length_take; lia).
  - replace (bool_decide (Some o' = Some o) && bool_decide (Some c' = Some c)) with false.
    2:{ repeat case_bool_decide; naive_solver. }
    destruct (IH (mk_observed os cs)) as [H1 H2]; simpl in *; [done|lia|].
    rewrite H1. split; [|done]. rewrite (filter_cons_True (λ r, r ≠ (o, c))) by naive_solver.
    rewrite <- app_assoc. f_equal. by rewrite (drop_S _ _ _ Hz).
Qed.

Lemma detach_registrations o c s :
  observed_ok s →
  registrations (detach o c s) = filter (λ r, r ≠ (o, c)) (registrations s) ∧
  observed_ok (detach o c s).
Proof.
  intros Hok. destruct (detach_loop_registrations (length (observers s)) o c s Hok) as [H1 H2];
    [lia|]. split; [|done]. unfold detach. rewrite H1.
  assert (length (registrations s) = length (observers s)) as Hl.
  { unfold registrations. rewrite length_zip_with. unfold observed_ok in Hok. lia. }
  rewrite <- Hl, take_ge, drop_ge by lia. apply app_nil_r.
Qed.

Lemma notify_loop_eq {St E} (update : Ob → M St E unit) (c : C) os cs n st :
  notify_loop update c os cs n st
  = (call_all update (matching_list c os cs) ≫=
       λ _, mret (n || bool_decide (matching_list c os cs ≠ []))) st.
Proof.
  revert cs n st. induction os as [|o os IH]; intros cs n st; simpl.
  { by rewrite bind_ret_l, orb_false_r. }
  destruct cs as [|c' cs]; simpl; [by rewrite bind_ret_l, orb_false_r|].
  case_decide; [destruct o as [o|]|]; simpl; [|by rewrite IH..].
  rewrite bind_assoc. apply bind_ext. intros [] st'. rewrite IH. by rewrite orb_true_r.
Qed.

Lemma notify_eq {St E} (update : Ob → M St E unit) (c : C) s st :
  notify update c s st
  = (call_all update (matching c s) ≫= λ _, mret (bool_decide (matching c s ≠ []))) st.
Proof. apply notify_loop_eq. Qed.

(** An observer that leaves the vectors alone is notified as by the loop over
    the vectors. *)
Lemma value_notify_loop_eq {St E} view (update : Ob → M St E unit) (c : C) os cs os' cs' n st :
  (∀ o st, view (snd (fst (update o st))) = view st) →
  length os' = length cs' → length os = length cs →
  view st = mk_observed (os' ++ os) (cs' ++ cs) →
  value_notify_loop view update c (length os') (length os) n st = notify_loop update c os cs n st.
Proof.
  intros Hu. revert cs os' cs' n st.
  induction os as [|o os IH]; intros [|c' cs] os' cs' n st Hl' Hl Hv; simplify_eq/=; [done|].
  assert (Hn : ∀ n st, view st = mk_observed (os' ++ o :: os) (cs' ++ c' :: cs) →
    value_notify_loop view update c (S (length os')) (length os) n st
    = notify_loop update c os cs n st).
  { intros n' st' Hv'. rewrite (cons_middle o), (cons_middle c'), !app_assoc in Hv'.
    rewrite <- (IH cs (os' ++ [o]) (cs' ++ [c']) n' st'); try done;
      rewrite ?length_app; simpl; [f_equal|]; lia. }
  rewrite bind_gets, Hv. simpl. rewrite (list_lookup_middle cs') by done.
  rewrite bind_checked. case_decide; [|by apply Hn].
  rewrite (list_lookup_middle os') by done. rewrite bind_checked.
  destruct o as [o|]; [|by apply Hn]. specialize (Hu o st).
  unfold mbind, M_bind. destruct (update o st) as [[[[]|e| | |] st'] es]; try done.
  rewrite Hn; [done|]. by rewrite <- Hv.
Qed.

Lemma value_notify_eq {St E} view (update : Ob → M St E unit) (c : C) st :
  (∀ o st, view (snd (fst (update o st))) = view st) → observed_ok (view st) →
  value_notify view update c st = notify update c (view st) st.
Proof.
  intros Hu Hok. unfold value_notify, notify. rewrite bind_gets.
  destruct (view st) as [os cs] eqn:Hv. by apply (value_notify_loop_eq view update c os cs [] []).
Qed.

(** A subject with one observer, and with none. *)
Lemma value_notify_one {St E} view (update : Ob → M St E unit) (c : C) o st st' es :
  view st = attach (Some o) c observed_empty → update o st = (Ret tt, st', es) →
  value_notify view update c st = (Ret true, st', es).
Proof.
  intros Hv Hu. unfold value_notify. rewrite bind_gets, Hv. simpl. rewrite bind_gets, Hv. simpl.
  mstep. rewrite decide_True by done. mstep. rewrite (bind_run _ _ _ _ _ _ Hu). simpl.
  by rewrite app_nil_r.
Qed.
Lemma value_notify_none {St E} view (update : Ob → M St E unit) (c : C) st :
  view st = observed_empty → value_notify view update c st = (Ret false, st, []).
Proof. intros Hv. unfold value_notify. by rewrite bind_gets, Hv. Qed.
End lemmas.

(** ** Properties *)

(** C35. A subject is a list of registrations, newest first: [attach] adds one
    at the front, [detach] removes every registration of that observer under
    that condition and no other, and [notify] calls exactly the non-null
    observers registered under the condition, in that order, answering whether
    there was one. The two vectors keep equal lengths. *)
Theorem observed_refines_registrations {Ob C : Type} `{EqDecision Ob, EqDecision C} {St E}
    (s : observed Ob C) (o : option Ob) (c : C) (update : Ob → M St E unit) (st : St) :
  observed_ok s →
  registrations (attach o c s) = (o, c) :: registrations s ∧
  observed_ok (attach o c s) ∧
  registrations (detach o c s) = filter (λ r, r ≠ (o, c)) (registrations s) ∧
  observed_ok (detach o c s) ∧
  notify update c s st =
    (let targets := omap (λ r, if decide (r.2 = c) then r.1 else None) (registrations s) in
     _ ← call_all update targets; mret (bool_decide (targets ≠ []))) st.
Proof.
  intros Hok. destruct (detach_registrations o c s Hok) as [H1 H2].
  split; [done|]. split; [by unfold observed_ok in *; simpl; f_equal|].
  split; [done|]. split; [done|]. by rewrite notify_eq, matching_registrations.
Qed.

Lemma observed_refines_registrations_witness :
  registrations (detach (Some 1%nat) 7 (attach (Some 2%nat) 7 (attach (Some 1%nat) 7 observed_empty)))
    = [(Some 2%nat, 7)].
Proof.
  etransitivity.
  - apply (observed_refines_registrations (St := unit) (E := unit)
      (attach (Some 2%nat) 7 (attach (Some 1%nat) 7 observed_empty)) (Some 1%nat) 7
      (λ _, mret tt) tt). reflexivity.
  - vm_compute. reflexivity.
Defined.

(** The observer queue is first-in first-out and its semaphore counts its
    elements: after [update] the element is last, [updated] blocks exactly on
    the empty queue and otherwise returns the oldest element; it never takes
    from an empty list. *)
Theorem queue_fifo {D : Type} (q : queue D) (d : D) :
  queue_ok q → Z.of_nat (length (q_data q)) < INT_MAX →
  (∃ q', queue_update d q = Ret q' ∧ queue_ok q' ∧ q_data q' = q_data q ++ [d]) ∧
  match q_data q with
  | [] => queue_updated q = Blocked
  | d :: ds => ∃ q', queue_updated q = Ret (d, q') ∧ queue_ok q' ∧ q_data q' = ds
  end.
Proof.
  unfold queue_ok. intros Hq Hmax. split.
  - unfold queue_update, sem_v. rewrite decide_False by lia. eexists; split; [done|].
    simpl. rewrite length_app. simpl. split; [lia|done].
  - unfold queue_updated, sem_p. destruct (q_data q) as [|d' ds] eqn:E; simpl in *.
    + by rewrite decide_False by lia.
    + rewrite decide_True by lia. eexists; split; [done|]. simpl. split; [lia|done].
Qed.

Lemma queue_fifo_witness :
  ∃ q', queue_updated (mk_queue 2 [5; 6]) = Ret (5, q') ∧ queue_ok q' ∧ q_data q' = [6].
Proof.
  apply (queue_fifo (mk_queue 2 [5; 6]) 0); [reflexivity|]. vm_compute. reflexivity.
Defined.
