(* ===== verification/Mailbox.v ===== *)
(** A communicator's queue under concurrency: [Semaphore]
    ([api/observer/semaphore.hpp]) and the list it guards in
    [api/network/communicator.hpp], cut at every lock, shared access and wait,
    and interleaved between any number of threads that deliver buffers
    ([queue_incoming_buffer]) and threads that take them ([receive]). *)
From S2P Require Import Prelude Observer.
Local Open Scope Z_scope.

(** Where a thread is in [queue_incoming_buffer]. *)
Inductive ppc :=
  | PIdle
  | PWant (d : nat)     (* lock_guard lock(_mutex) *)
  | PPush (d : nat)     (* _data.push_back(buf) *)
  | PSignal             (* _semaphore.v(): lock_guard lock(Semaphore::_mutex) *)
  | PInc                (* _count++ *)
  | PNotify             (* _cv.notify_one() *)
  | PSUnlock            (* end of v() *)
  | PUnlock.            (* end of queue_incoming_buffer *)

(** Where a thread is in [receive]. *)
Inductive cpc :=
  | CIdle
  | CWant               (* _semaphore.p(): taking Semaphore::_mutex, at the call or on waking *)
  | CTest               (* the predicate _count > 0 *)
  | CWaiting            (* inside _cv.wait, the mutex released *)
  | CDec                (* _count-- *)
  | CSRelease           (* end of p() *)
  | CPassed             (* lock_guard lock(_mutex) *)
  | CPop                (* _data.empty(), front(), pop_front() *)
  | CGot (r : option nat). (* end of the block; the buffer, or [return false] *)

Inductive tid := Prod (i : nat) | Cons (j : nat).
#[export] Instance tid_eq_dec : EqDecision tid.
Proof. solve_decision. Defined.

Record mailbox := mk_mailbox {
  m_data : list nat;           (* _data *)
  m_count : Z;                 (* Semaphore::_count *)
  m_qlock : option tid;        (* Communicator::_mutex *)
  m_slock : option tid;        (* Semaphore::_mutex *)
  m_prods : list ppc;
  m_cons : list cpc
}.

Definition set_prod (i : nat) (x : ppc) (s : mailbox) : mailbox :=
  mk_mailbox (m_data s) (m_count s) (m_qlock s) (m_slock s) (<[i := x]> (m_prods s)) (m_cons s).
Definition set_cons (j : nat) (x : cpc) (s : mailbox) : mailbox :=
  mk_mailbox (m_data s) (m_count s) (m_qlock s) (m_slock s) (m_prods s) (<[j := x]> (m_cons s)).
Definition set_data (l : list nat) (s : mailbox) : mailbox :=
  mk_mailbox l (m_count s) (m_qlock s) (m_slock s) (m_prods s) (m_cons s).
Definition set_count (n : Z) (s : mailbox) : mailbox :=
  mk_mailbox (m_data s) n (m_qlock s) (m_slock s) (m_prods s) (m_cons s).
Definition set_qlock (o : option tid) (s : mailbox) : mailbox :=
  mk_mailbox (m_data s) (m_count s) o (m_slock s) (m_prods s) (m_cons s).
Definition set_slock (o : option tid) (s : mailbox) : mailbox :=
  mk_mailbox (m_data s) (m_count s) (m_qlock s) o (m_prods s) (m_cons s).

(** [notify_one] wakes a waiter, [k] if it waits, and is lost when nobody does. *)
Definition waits (c : cpc) : bool := match c with CWaiting => true | _ => false end.
Definition notify_one (k : nat) (s : mailbox) : option mailbox :=
  if existsb waits (m_cons s)
  then match m_cons s !! k with Some CWaiting => Some (set_cons k CWant s) | _ => None end
  else Some s.

(** One step of a delivering thread; [k] is the waiter a notification wakes. *)
Definition prod_step (i k : nat) (s : mailbox) : option mailbox :=
  x ← m_prods s !! i;
  match x with
  | PIdle => None
  | PWant d => if decide (m_qlock s = None) then Some (set_prod i (PPush d) (set_qlock (Some (Prod i)) s)) else None
  | PPush d => Some (set_prod i PSignal (set_data (m_data s ++ [d]) s))
  | PSignal => if decide (m_slock s = None) then Some (set_prod i PInc (set_slock (Some (Prod i)) s)) else None
  | PInc => Some (set_prod i PNotify (set_count (m_count s + 1) s))
  | PNotify => set_prod i PSUnlock <$> notify_one k s
  | PSUnlock => Some (set_prod i PUnlock (set_slock None s))
  | PUnlock => Some (set_prod i PIdle (set_qlock None s))
  end.

(** One step of a receiving thread. *)
Definition cons_step (j : nat) (s : mailbox) : option mailbox :=
  x ← m_cons s !! j;
  match x with
  | CIdle | CWaiting => None
  | CWant => if decide (m_slock s = None) then Some (set_cons j CTest (set_slock (Some (Cons j)) s)) else None
  | CTest => if decide (0 < m_count s) then Some (set_cons j CDec s)
             else Some (set_cons j CWaiting (set_slock None s))
  | CDec => Some (set_cons j CSRelease (set_count (m_count s - 1) s))
  | CSRelease => Some (set_cons j CPassed (set_slock None s))
  | CPassed => if decide (m_qlock s = None) then Some (set_cons j CPop (set_qlock (Some (Cons j)) s)) else None
  | CPop => match m_data s with
            | [] => Some (set_cons j (CGot None) s)
            | d :: l => Some (set_cons j (CGot (Some d)) (set_data l s))
            end
  | CGot _ => Some (set_cons j CIdle (set_qlock None s))
  end.

(** What can happen: a buffer is delivered, a thread calls [receive], a thread
    moves inside its call, a waiting thread wakes for no reason. *)
Inductive action :=
  | ADeliver (i d : nat) | AReceive (j : nat) | AProd (i k : nat) | ACons (j : nat) | ASpurious (j : nat).

Definition act (a : action) (s : mailbox) : option mailbox :=
  match a with
  | ADeliver i d => match m_prods s !! i with Some PIdle => Some (set_prod i (PWant d) s) | _ => None end
  | AReceive j => match m_cons s !! j with Some CIdle => Some (set_cons j CWant s) | _ => None end
  | AProd i k => prod_step i k s
  | ACons j => cons_step j s
  | ASpurious j => match m_cons s !! j with Some CWaiting => Some (set_cons j CWant s) | _ => None end
  end.
Definition internal (a : action) : bool := match a with AProd _ _ | ACons _ => true | _ => false end.

Inductive step (s s' : mailbox) : Prop := Step a (Ha : act a s = Some s').
(** A thread moves on inside its call. *)
Inductive istep (s s' : mailbox) : Prop := IStep a (Hi : internal a = true) (Ha : act a s = Some s').

Definition mailbox_start (np nc : nat) : mailbox :=
  mk_mailbox [] 0 None None (replicate np PIdle) (replicate nc CIdle).

(** ** Counting threads *)

Definition total {A} (f : A → nat) (l : list A) : nat := sum_list (f <$> l).

Lemma total_insert {A} (f : A → nat) l i x y :
  l !! i = Some x → (total f (<[i := y]> l) + f x = total f l + f y)%nat.
Proof.
  unfold total. revert i. induction l as [|z l IH]; intros [|i] Hi; simplify_eq/=; [lia|].
  specialize (IH i Hi). lia.
Qed.
Lemma total_ge {A} (f : A → nat) l i x : l !! i = Some x → (f x ≤ total f l)%nat.
Proof.
  unfold total. revert i. induction l as [|z l IH]; intros [|i] Hi; simplify_eq/=; [lia|].
  specialize (IH i Hi). lia.
Qed.
Lemma total_zero {A} (f : A → nat) l : (∀ x, x ∈ l → f x = 0%nat) → total f l = 0%nat.
Proof.
  unfold total. induction l as [|z l IH]; intros Hz; [done|]. simpl. rewrite (Hz z) by set_solver.
  apply IH. intros x Hx. apply Hz. set_solver.
Qed.

(** A receiving thread has passed the semaphore and not taken its buffer; a
    delivering thread has pushed and not counted; a thread will test the
    count, or wake one that does, before it waits. *)
Definition passed (c : cpc) : nat := match c with CSRelease | CPassed | CPop => 1 | _ => 0 end.
Definition uncounted (p : ppc) : nat := match p with PSignal | PInc => 1 | _ => 0 end.
Definition ready (c : cpc) : nat := match c with CWant | CTest | CDec => 1 | _ => 0 end.
Definition waking (p : ppc) : nat := match p with PNotify => 1 | _ => 0 end.

(** Who holds which mutex. *)
Definition prod_has_q (p : ppc) : bool := match p with PIdle | PWant _ => false | _ => true end.
Definition prod_has_s (p : ppc) : bool := match p with PInc | PNotify | PSUnlock => true | _ => false end.
Definition cons_has_q (c : cpc) : bool := match c with CPop | CGot _ => true | _ => false end.
Definition cons_has_s (c : cpc) : bool := match c with CTest | CDec | CSRelease => true | _ => false end.

Record lock_ok (o : option tid) (hp : ppc → bool) (hc : cpc → bool) (s : mailbox) : Prop := {
  lk_prod : ∀ i p, m_prods s !! i = Some p → hp p = true ↔ o = Some (Prod i);
  lk_cons : ∀ j c, m_cons s !! j = Some c → hc c = true ↔ o = Some (Cons j);
  lk_range : match o with
             | Some (Prod i) => is_Some (m_prods s !! i)
             | Some (Cons j) => is_Some (m_cons s !! j)
             | None => True
             end
}.

Record mailbox_inv (s : mailbox) : Prop := {
  mi_q : lock_ok (m_qlock s) prod_has_q cons_has_q s;
  mi_s : lock_ok (m_slock s) prod_has_s cons_has_s s;
  mi_count : 0 ≤ m_count s;
  mi_data : Z.of_nat (length (m_data s)) =
            m_count s + Z.of_nat (total passed (m_cons s) + total uncounted (m_prods s));
  mi_dec : ∀ j, m_cons s !! j = Some CDec → 0 < m_count s;
  mi_got : ∀ j, m_cons s !! j ≠ Some (CGot None);
  mi_wake : (∃ j, m_cons s !! j = Some CWaiting) →
            m_count s ≤ Z.of_nat (total ready (m_cons s) + total waking (m_prods s))
}.

(** ** Mutexes *)

Section locks.
Context (hp : ppc → bool) (hc : cpc → bool).

(** A thread whose move neither takes nor gives up the mutex. *)
Lemma lock_prod o s i x y d n q t :
  lock_ok o hp hc s → m_prods s !! i = Some x → hp y = hp x →
  lock_ok o hp hc (mk_mailbox d n q t (<[i := y]> (m_prods s)) (m_cons s)).
Proof.
  intros [Hp Hc Hr] Hx Hy. split; simpl; [|done|].
  - intros i' p Hi. apply list_lookup_insert_Some in Hi as [(<- & <- & _)|[_ Hi]]; [rewrite Hy|]; by apply Hp.
  - destruct o as [[i'|j]|]; [|done|done]. apply lookup_lt_is_Some. rewrite length_insert.
    by apply lookup_lt_is_Some.
Qed.
Lemma lock_cons o s j x y d n q t :
  lock_ok o hp hc s → m_cons s !! j = Some x → hc y = hc x →
  lock_ok o hp hc (mk_mailbox d n q t (m_prods s) (<[j := y]> (m_cons s))).
Proof.
  intros [Hp Hc Hr] Hx Hy. split; simpl; [done| |].
  - intros j' c Hj. apply list_lookup_insert_Some in Hj as [(<- & <- & _)|[_ Hj]]; [rewrite Hy|]; by apply Hc.
  - destruct o as [[i|j']|]; [done| |done]. apply lookup_lt_is_Some. rewrite length_insert.
    by apply lookup_lt_is_Some.
Qed.

(** Taking the free mutex, and giving it up. *)
Lemma lock_take_prod s i x y d n q t :
  lock_ok None hp hc s → m_prods s !! i = Some x → hp y = true →
  lock_ok (Some (Prod i)) hp hc (mk_mailbox d n q t (<[i := y]> (m_prods s)) (m_cons s)).
Proof.
  intros [Hp Hc Hr] Hx Hy. split; simpl.
  - intros i' p Hi. apply list_lookup_insert_Some in Hi as [(<- & <- & _)|[Hne Hi]]; [by rewrite Hy|].
    rewrite (Hp _ _ Hi). naive_solver.
  - intros j c Hj. rewrite (Hc _ _ Hj). naive_solver.
  - apply lookup_lt_is_Some. rewrite length_insert. by eapply lookup_lt_Some.
Qed.
Lemma lock_take_cons s j x y d n q t :
  lock_ok None hp hc s → m_cons s !! j = Some x → hc y = true →
  lock_ok (Some (Cons j)) hp hc (mk_mailbox d n q t (m_prods s) (<[j := y]> (m_cons s))).
Proof.
  intros [Hp Hc Hr] Hx Hy. split; simpl.
  - intros i p Hi. rewrite (Hp _ _ Hi). naive_solver.
  - intros j' c Hj. apply list_lookup_insert_Some in Hj as [(<- & <- & _)|[Hne Hj]]; [by rewrite Hy|].
    rewrite (Hc _ _ Hj). naive_solver.
  - apply lookup_lt_is_Some. rewrite length_insert. by eapply lookup_lt_Some.
Qed.
Lemma lock_give_prod o s i x y d n q t :
  lock_ok o hp hc s → m_prods s !! i = Some x → hp x = true → hp y = false →
  lock_ok None hp hc (mk_mailbox d n q t (<[i := y]> (m_prods s)) (m_cons s)).
Proof.
  intros [Hp Hc Hr] Hx Hhx Hy. apply (Hp _ _ Hx) in Hhx as ->. split; simpl; [| |done].
  - intros i' p Hi. apply list_lookup_insert_Some in Hi as [(<- & <- & _)|[Hne Hi]]; [by rewrite Hy|].
    rewrite (Hp _ _ Hi). naive_solver.
  - intros j c Hj. rewrite (Hc _ _ Hj). naive_solver.
Qed.
Lemma lock_give_cons o s j x y d n q t :
  lock_ok o hp hc s → m_cons s !! j = Some x → hc x = true → hc y = false →
  lock_ok None hp hc (mk_mailbox d n q t (m_prods s) (<[j := y]> (m_cons s))).
Proof.
  intros [Hp Hc Hr] Hx Hhx Hy. apply (Hc _ _ Hx) in Hhx as ->. split; simpl; [| |done].
  - intros i p Hi. rewrite (Hp _ _ Hi). naive_solver.
  - intros j' c Hj. apply list_lookup_insert_Some in Hj as [(<- & <- & _)|[Hne Hj]]; [by rewrite Hy|].
    rewrite (Hc _ _ Hj). naive_solver.
Qed.
End locks.

(** ** The invariant *)

(** A delivering thread moves from [x] to [y]. *)
Lemma inv_prod s i x y d n q t :
  mailbox_inv s → m_prods s !! i = Some x →
  let s' := mk_mailbox d n q t (<[i := y]> (m_prods s)) (m_cons s) in
  lock_ok q prod_has_q cons_has_q s' → lock_ok t prod_has_s cons_has_s s' →
  m_count s ≤ n →
  Z.of_nat (length d) - n - Z.of_nat (uncounted y)
    = Z.of_nat (length (m_data s)) - m_count s - Z.of_nat (uncounted x) →
  (∀ j, m_cons s !! j ≠ Some CWaiting) ∨ n - Z.of_nat (waking y) ≤ m_count s - Z.of_nat (waking x) →
  mailbox_inv s'.
Proof.
  intros [] Hx s' Hq Ht Hn Hd Hw. pose proof (total_insert uncounted _ _ _ y Hx).
  pose proof (total_insert waking _ _ _ y Hx). split; simpl; try done; try lia.
  - intros j Hj. specialize (mi_dec0 j Hj). lia.
  - intros [j Hj]. destruct Hw as [Hw|Hw]; [by destruct (Hw j)|]. specialize (mi_wake0 (ex_intro _ j Hj)). lia.
Qed.

(** A receiving thread moves from [x] to [y]; only the holder of the
    semaphore's mutex lowers the count. *)
Lemma inv_cons s j x y d n q t :
  mailbox_inv s → m_cons s !! j = Some x →
  let s' := mk_mailbox d n q t (m_prods s) (<[j := y]> (m_cons s)) in
  lock_ok q prod_has_q cons_has_q s' → lock_ok t prod_has_s cons_has_s s' →
  0 ≤ n → m_count s ≤ n ∨ x = CDec →
  (y = CDec → 0 < n) → y ≠ CGot None →
  Z.of_nat (length d) - n - Z.of_nat (passed y)
    = Z.of_nat (length (m_data s)) - m_count s - Z.of_nat (passed x) →
  (n ≤ 0 ∨ y ≠ CWaiting ∧ n - Z.of_nat (ready y) ≤ m_count s - Z.of_nat (ready x)) →
  mailbox_inv s'.
Proof.
  intros Hi Hx s' Hq Ht Hn Hle Hdec Hgot Hd Hw. destruct Hi. pose proof (total_insert passed _ _ _ y Hx).
  pose proof (total_insert ready _ _ _ y Hx). split; simpl; try done; try lia.
  - intros j' Hj'. apply list_lookup_insert_Some in Hj' as [(_ & -> & _)|[Hne Hj']]; [by apply Hdec|].
    destruct Hle as [Hle| ->]; [specialize (mi_dec0 j' Hj'); lia|].
    destruct mi_s0 as [_ Hc _]. pose proof (proj1 (Hc _ _ Hx) eq_refl) as H1.
    pose proof (proj1 (Hc _ _ Hj') eq_refl) as H2. congruence.
  - intros j' Hj'. apply list_lookup_insert_Some in Hj' as [(_ & -> & _)|[_ Hj']]; [done|by apply (mi_got0 j')].
  - intros [j' Hj']. destruct Hw as [?|[Hy Hw]]; [lia|].
    apply list_lookup_insert_Some in Hj' as [(_ & -> & _)|[_ Hj']]; [done|].
    specialize (mi_wake0 (ex_intro _ j' Hj')). lia.
Qed.

Ltac lock_kept := first [by eapply lock_prod; [eauto using mi_q, mi_s|eauto|]
  | by eapply lock_cons; [eauto using mi_q, mi_s|eauto|]].

Ltac side := simpl; first
  [ done | lia | left; lia | left; done | right; split; [done|lia] | right; done | lock_kept | idtac ].

Lemma inv_wake_one s k : mailbox_inv s → m_cons s !! k = Some CWaiting → mailbox_inv (set_cons k CWant s).
Proof.
  intros Hi Hk. pose proof (mi_count _ Hi).
  apply (inv_cons s k CWaiting CWant _ _ _ _ Hi Hk); side.
Qed.

(** A notification moves a token from the notifier to the thread it wakes. *)
Lemma inv_notify s i k s1 :
  mailbox_inv s → m_prods s !! i = Some PNotify → notify_one k s = Some s1 →
  mailbox_inv (set_prod i PSUnlock s1).
Proof.
  intros Hi Hx. unfold notify_one. destruct (existsb waits (m_cons s)) eqn:He.
  - destruct (m_cons s !! k) as [[]|] eqn:Hk; try done. intros [= <-].
    pose proof (inv_wake_one s k Hi Hk) as Hi1. destruct Hi1 as [Hq Hs ? ? ? ? _]. simpl in *.
    pose proof (total_insert ready _ _ _ CWant Hk). pose proof (total_insert uncounted _ _ _ PSUnlock Hx).
    pose proof (total_insert waking _ _ _ PSUnlock Hx).
    pose proof (mi_wake _ Hi (ex_intro _ k Hk)). simpl in *.
    split; simpl; try done; try lia; by eapply (lock_prod _ _ _ (set_cons k CWant s)).
  - intros [= <-]. apply (inv_prod s i PNotify PSUnlock _ _ _ _ Hi Hx); side.
    left. intros j Hj. apply not_true_iff_false in He. apply He, existsb_exists.
    exists CWaiting. split; [|done]. apply list_elem_of_In. by eapply list_elem_of_lookup_2.
Qed.

Lemma inv_prod_step i k s s' : mailbox_inv s → prod_step i k s = Some s' → mailbox_inv s'.
Proof.
  intros Hi. unfold prod_step. destruct (m_prods s !! i) as [x|] eqn:Hx; [|done]. simpl.
  destruct x as [|d|d| | | | |].
  - done.
  - case_decide as Hl; [intros [= <-]|done]. pose proof (mi_q _ Hi) as Hq. rewrite Hl in Hq.
    apply (inv_prod s i (PWant d) (PPush d) _ _ _ _ Hi Hx); side.
    by eapply lock_take_prod.
  - intros [= <-]. apply (inv_prod s i (PPush d) PSignal _ _ _ _ Hi Hx); simpl; rewrite ?length_app; side.
  - case_decide as Hl; [intros [= <-]|done]. pose proof (mi_s _ Hi) as Hs. rewrite Hl in Hs.
    apply (inv_prod s i PSignal PInc _ _ _ _ Hi Hx); side.
    by eapply lock_take_prod.
  - intros [= <-]. apply (inv_prod s i PInc PNotify _ _ _ _ Hi Hx); side.
  - destruct (notify_one k s) as [s1|] eqn:Hn; [|done]. intros [= <-]. by eapply inv_notify.
  - intros [= <-]. apply (inv_prod s i PSUnlock PUnlock _ _ _ _ Hi Hx); side.
    by eapply lock_give_prod; [apply Hi| | |].
  - intros [= <-]. apply (inv_prod s i PUnlock PIdle _ _ _ _ Hi Hx); side.
    by eapply lock_give_prod; [apply Hi| | |].
Qed.

Lemma inv_cons_step j s s' : mailbox_inv s → cons_step j s = Some s' → mailbox_inv s'.
Proof.
  intros Hi. unfold cons_step. destruct (m_cons s !! j) as [x|] eqn:Hx; [|done]. simpl.
  pose proof (mi_count _ Hi) as Hc. pose proof (mi_data _ Hi) as Hd.
  destruct x as [| | | | | | | |r].
  - done.
  - case_decide as Hl; [intros [= <-]|done]. pose proof (mi_s _ Hi) as Hs. rewrite Hl in Hs.
    apply (inv_cons s j CWant CTest _ _ _ _ Hi Hx); side.
    by eapply lock_take_cons.
  - case_decide as Hn; intros [= <-].
    + apply (inv_cons s j CTest CDec _ _ _ _ Hi Hx); side.
    + apply (inv_cons s j CTest CWaiting _ _ _ _ Hi Hx); side.
      by eapply lock_give_cons; [apply Hi| | |].
  - done.
  - intros [= <-]. pose proof (mi_dec _ Hi _ Hx).
    apply (inv_cons s j CDec CSRelease _ _ _ _ Hi Hx); side.
  - intros [= <-]. apply (inv_cons s j CSRelease CPassed _ _ _ _ Hi Hx); side.
    by eapply lock_give_cons; [apply Hi| | |].
  - case_decide as Hl; [intros [= <-]|done]. pose proof (mi_q _ Hi) as Hq. rewrite Hl in Hq.
    apply (inv_cons s j CPassed CPop _ _ _ _ Hi Hx); side.
    by eapply lock_take_cons.
  - pose proof (total_ge passed _ _ _ Hx) as Hp. simpl in Hp.
    destruct (m_data s) as [|d l] eqn:Hdata; [simpl in *; lia|]. intros [= <-].
    apply (inv_cons s j CPop (CGot (Some d)) _ _ _ _ Hi Hx); simpl; simpl; rewrite ?Hdata; side.
  - intros [= <-]. apply (inv_cons s j (CGot r) CIdle _ _ _ _ Hi Hx); side.
    by eapply lock_give_cons; [apply Hi| | |].
Qed.

Lemma inv_act a s s' : mailbox_inv s → act a s = Some s' → mailbox_inv s'.
Proof.
  intros Hi. pose proof (mi_count _ Hi). destruct a as [i d|j|i k|j|j]; simpl.
  - destruct (m_prods s !! i) as [[]|] eqn:Hx; try done. intros [= <-].
    apply (inv_prod s i PIdle (PWant d) _ _ _ _ Hi Hx); side.
  - destruct (m_cons s !! j) as [[]|] eqn:Hx; try done. intros [= <-].
    apply (inv_cons s j CIdle CWant _ _ _ _ Hi Hx); side.
  - by apply inv_prod_step.
  - by apply inv_cons_step.
  - destruct (m_cons s !! j) as [[]|] eqn:Hx; try done. intros [= <-]. by apply inv_wake_one.
Qed.

Lemma mailbox_start_inv np nc : mailbox_inv (mailbox_start np nc).
Proof.
  split; simpl; try done.
  - split; simpl; [| |done]; intros ? ? Hx%lookup_replicate; destruct Hx as [-> _]; naive_solver.
  - split; simpl; [| |done]; intros ? ? Hx%lookup_replicate; destruct Hx as [-> _]; naive_solver.
  - rewrite !total_zero; [done|..]; intros ? Hx%elem_of_replicate; by destruct Hx as [-> _].
  - intros j Hx%lookup_replicate. by destruct Hx.
  - intros j Hx%lookup_replicate. by destruct Hx.
  - intros [j Hx%lookup_replicate]. by destruct Hx.
Qed.

Lemma mailbox_inv_reach np nc s : rtc step (mailbox_start np nc) s → mailbox_inv s.
Proof.
  intros Hr. remember (mailbox_start np nc) as s0. assert (mailbox_inv s0) as Hi by (subst; apply mailbox_start_inv).
  clear Heqs0. induction Hr as [|s0 s1 s2 [a Ha] _ IH]; [done|]. apply IH. by eapply inv_act.
Qed.

(** ** Refinement of the atomic queue *)

(** What happens to the list: the moment of the push, the moment of the pop. *)
Inductive qevent := Put (d : nat) | Take (d : nat).

Definition event (a : action) (s : mailbox) : option qevent :=
  match a with
  | AProd i _ => match m_prods s !! i with Some (PPush d) => Some (Put d) | _ => None end
  | ACons j => match m_cons s !! j, m_data s with Some CPop, d :: _ => Some (Take d) | _, _ => None end
  | _ => None
  end.

Definition put_event (o : option qevent) : list qevent := match o with Some ev => [ev] | None => [] end.
Fixpoint acts (l : list action) (s : mailbox) : option mailbox :=
  match l with [] => Some s | a :: l => s' ← act a s; acts l s' end.
Fixpoint trace (l : list action) (s : mailbox) : list qevent :=
  match l with
  | [] => []
  | a :: l => put_event (event a s) ++ match act a s with Some s' => trace l s' | None => [] end
  end.

(** The specification: [Observer]'s queue, one operation at a time. *)
Definition spec_step (ev : qevent) (q : queue nat) : option (queue nat) :=
  match ev with
  | Put d => match queue_update d q with Ret q' => Some q' | _ => None end
  | Take d => match queue_updated q with
              | Ret (d', q') => if decide (d' = d) then Some q' else None
              | _ => None
              end
  end.
Fixpoint spec_run (l : list qevent) (q : queue nat) : option (queue nat) :=
  match l with [] => Some q | ev :: l => q' ← spec_step ev q; spec_run l q' end.

Definition queue_of (s : mailbox) : queue nat := mk_queue (Z.of_nat (length (m_data s))) (m_data s).

Lemma notify_one_data k s s' : notify_one k s = Some s' → m_data s' = m_data s.
Proof.
  unfold notify_one. destruct (existsb _ _); [|by intros [= <-]].
  destruct (m_cons s !! k) as [[]|]; try done. by intros [= <-].
Qed.

(** Every other step leaves the queue alone. *)
Lemma queue_simulates a s s' :
  mailbox_inv s → act a s = Some s' →
  match event a s with
  | Some (Put d) => m_data s' = m_data s ++ [d]
  | Some (Take d) => m_data s = d :: m_data s'
  | None => m_data s' = m_data s
  end.
Proof.
  intros Hi. destruct a as [i d|j|i k|j|j]; simpl.
  - destruct (m_prods s !! i) as [[]|]; try done. by intros [= <-].
  - destruct (m_cons s !! j) as [[]|]; try done. by intros [= <-].
  - unfold prod_step. destruct (m_prods s !! i) as [x|]; [|done]. simpl.
    destruct x; try case_decide; try (by intros [= <-]); try done.
    destruct (notify_one k s) as [s1|] eqn:Hn; [|done]. intros [= <-]. simpl. by eapply notify_one_data.
  - unfold cons_step. destruct (m_cons s !! j) as [x|] eqn:Hx; [|done]. simpl.
    destruct x; try case_decide; try (by intros [= <-]); try done.
    destruct (m_data s) as [|d l] eqn:Hd; intros [= <-]; done.
  - destruct (m_cons s !! j) as [[]|]; try done. by intros [= <-].
Qed.

Lemma spec_simulates a s s' evs :
  mailbox_inv s → act a s = Some s' → Z.of_nat (length (m_data s)) < INT_MAX →
  spec_run (put_event (event a s) ++ evs) (queue_of s) = spec_run evs (queue_of s').
Proof.
  intros Hi Ha Hmax. pose proof (queue_simulates a s s' Hi Ha) as Hsim.
  destruct (event a s) as [[d|d]|]; cbn [put_event app spec_run spec_step]; unfold queue_of.
  - unfold queue_update, sem_v. cbn [q_sem q_data]. rewrite decide_False by lia. cbn.
    rewrite Hsim, length_app. cbn. do 2 f_equal. lia.
  - unfold queue_updated, sem_p. cbn [q_sem q_data]. rewrite Hsim. cbn [length].
    rewrite decide_True by lia. rewrite decide_True by done. cbn. do 2 f_equal. lia.
  - by rewrite Hsim.
Qed.

(** ** Progress *)

(** The steps a thread has left in its call; waking somebody gives that thread
    seven. *)
Definition prod_effort (p : ppc) : nat :=
  match p with
  | PIdle => 0 | PUnlock => 1 | PSUnlock => 2 | PNotify => 10 | PInc => 11 | PSignal => 12
  | PPush _ => 13 | PWant _ => 14
  end.
Definition cons_effort (c : cpc) : nat :=
  match c with
  | CIdle | CWaiting => 0 | CGot _ => 1 | CPop => 2 | CPassed => 3 | CSRelease => 4 | CDec => 5
  | CTest => 6 | CWant => 7
  end.
Definition effort (s : mailbox) : nat := total prod_effort (m_prods s) + total cons_effort (m_cons s).

Lemma effort_prod s i x y d n q t :
  m_prods s !! i = Some x → (prod_effort y < prod_effort x)%nat →
  (effort (mk_mailbox d n q t (<[i := y]> (m_prods s)) (m_cons s)) < effort s)%nat.
Proof. intros Hx Hlt. pose proof (total_insert prod_effort _ _ _ y Hx). unfold effort. simpl. lia. Qed.
Lemma effort_cons s j x y d n q t :
  m_cons s !! j = Some x → (cons_effort y < cons_effort x)%nat →
  (effort (mk_mailbox d n q t (m_prods s) (<[j := y]> (m_cons s))) < effort s)%nat.
Proof. intros Hx Hlt. pose proof (total_insert cons_effort _ _ _ y Hx). unfold effort. simpl. lia. Qed.

Lemma effort_notify s i k s1 :
  m_prods s !! i = Some PNotify → notify_one k s = Some s1 → (effort (set_prod i PSUnlock s1) < effort s)%nat.
Proof.
  intros Hx. unfold notify_one. destruct (existsb _ _).
  - destruct (m_cons s !! k) as [[]|] eqn:Hk; try done. intros [= <-].
    pose proof (total_insert prod_effort _ _ _ PSUnlock Hx). pose proof (total_insert cons_effort _ _ _ CWant Hk).
    unfold effort. simpl in *. lia.
  - intros [= <-]. eapply effort_prod; [done|]. simpl. lia.
Qed.

Lemma effort_decreases s s' : istep s s' → (effort s' < effort s)%nat.
Proof.
  intros [[i d|j|i k|j|j] Hin Ha]; try done; simpl in Ha.
  - unfold prod_step in Ha. destruct (m_prods s !! i) as [x|] eqn:Hx; [|done]. simpl in Ha.
    destruct x; try case_decide; try done;
      try (injection Ha as <-; by apply (effort_prod s i _ _ _ _ _ _ Hx); simpl; lia).
    destruct (notify_one k s) as [s1|] eqn:Hn; [|done]. injection Ha as <-. by eapply effort_notify.
  - unfold cons_step in Ha. destruct (m_cons s !! j) as [x|] eqn:Hx; [|done]. simpl in Ha.
    destruct x; try case_decide; try case_match; try done;
      by injection Ha as <-; apply (effort_cons s j _ _ _ _ _ _ Hx); simpl; lia.
Qed.

(** Nobody can move: every mutex is free, every thread outside its call or
    waiting. *)
Definition stuck (s : mailbox) : Prop := ∀ s', ¬ istep s s'.

Lemma stuck_prod s i : stuck s → ∀ k, prod_step i k s = None.
Proof.
  intros Hs k. destruct (prod_step i k s) as [s'|] eqn:He; [|done]. destruct (Hs s').
  by apply (IStep _ _ (AProd i k)).
Qed.
Lemma stuck_cons s j : stuck s → cons_step j s = None.
Proof.
  intros Hs. destruct (cons_step j s) as [s'|] eqn:He; [|done]. destruct (Hs s').
  by apply (IStep _ _ (ACons j)).
Qed.

Lemma notify_some s : ∃ k s', notify_one k s = Some s'.
Proof.
  unfold notify_one. destruct (existsb waits (m_cons s)) eqn:He; [|by eexists 0%nat, _].
  apply existsb_exists in He as (c & Hin & Hw). apply list_elem_of_In, list_elem_of_lookup in Hin as [k Hk].
  destruct c; try done. exists k. rewrite Hk. eauto.
Qed.

(** What is left of a thread that cannot move. *)
Lemma stuck_prod_pc s i x :
  stuck s → m_prods s !! i = Some x →
  match x with
  | PIdle => True
  | PWant _ => m_qlock s ≠ None
  | PSignal => m_slock s ≠ None
  | _ => False
  end.
Proof.
  intros Hs Hx. pose proof (stuck_prod s i Hs) as Hn. unfold prod_step in Hn. rewrite Hx in Hn. simpl in Hn.
  destruct x; try done; try (by specialize (Hn 0%nat)).
  - specialize (Hn 0%nat). by case_decide.
  - specialize (Hn 0%nat). by case_decide.
  - destruct (notify_some s) as (k & s' & Hk). specialize (Hn k). by rewrite Hk in Hn.
Qed.
Lemma stuck_cons_pc s j x :
  stuck s → m_cons s !! j = Some x →
  match x with
  | CIdle | CWaiting => True
  | CWant => m_slock s ≠ None
  | CPassed => m_qlock s ≠ None
  | _ => False
  end.
Proof.
  intros Hs Hx. pose proof (stuck_cons s j Hs) as Hn. unfold cons_step in Hn. rewrite Hx in Hn. simpl in Hn.
  destruct x; try done; try case_decide; try case_match; done.
Qed.

Lemma stuck_unlocked s : mailbox_inv s → stuck s → m_slock s = None ∧ m_qlock s = None.
Proof.
  intros Hi Hs. assert (m_slock s = None) as Hsl.
  { destruct (mi_s _ Hi) as [Hp Hc Hr]. destruct (m_slock s) as [[i|j]|]; [| |done]; destruct Hr as [x Hx].
    - pose proof (proj2 (Hp _ _ Hx) eq_refl). pose proof (stuck_prod_pc _ _ _ Hs Hx). by destruct x.
    - pose proof (proj2 (Hc _ _ Hx) eq_refl). pose proof (stuck_cons_pc _ _ _ Hs Hx). by destruct x. }
  split; [done|]. destruct (mi_q _ Hi) as [Hp Hc Hr].
  destruct (m_qlock s) as [[i|j]|]; [| |done]; destruct Hr as [x Hx].
  - pose proof (proj2 (Hp _ _ Hx) eq_refl). pose proof (stuck_prod_pc _ _ _ Hs Hx). by destruct x.
  - pose proof (proj2 (Hc _ _ Hx) eq_refl). pose proof (stuck_cons_pc _ _ _ Hs Hx). by destruct x.
Qed.

Lemma stuck_quiet s :
  mailbox_inv s → stuck s →
  (∀ i p, m_prods s !! i = Some p → p = PIdle) ∧
  (∀ j c, m_cons s !! j = Some c → c = CIdle ∨ c = CWaiting).
Proof.
  intros Hi Hs. destruct (stuck_unlocked s Hi Hs) as [Hsl Hql]. split.
  - intros i p Hp. pose proof (stuck_prod_pc _ _ _ Hs Hp). by destruct p.
  - intros j c Hc. pose proof (stuck_cons_pc _ _ _ Hs Hc). destruct c; naive_solver.
Qed.

Lemma stuck_empty s :
  mailbox_inv s → stuck s → (∃ j, m_cons s !! j = Some CWaiting) → m_data s = [].
Proof.
  intros Hi Hs Hw. destruct (stuck_quiet s Hi Hs) as [Hp Hc].
  assert (∀ f : ppc → nat, f PIdle = 0%nat → total f (m_prods s) = 0%nat) as Hpz.
  { intros f Hf. apply total_zero. intros x [i Hx]%list_elem_of_lookup. by rewrite (Hp i x Hx). }
  assert (∀ f : cpc → nat, f CIdle = 0%nat → f CWaiting = 0%nat → total f (m_cons s) = 0%nat) as Hcz.
  { intros f H1 H2. apply total_zero. intros x [j Hx]%list_elem_of_lookup. by destruct (Hc j x Hx) as [->| ->]. }
  pose proof (mi_wake _ Hi Hw) as Hwake. pose proof (mi_data _ Hi) as Hd. pose proof (mi_count _ Hi).
  rewrite (Hpz waking), (Hcz ready) in Hwake by done. rewrite (Hpz uncounted), (Hcz passed) in Hd by done.
  apply length_zero_iff_nil. lia.
Qed.

Lemma prod_step_choice i k s s' :
  prod_step i k s = Some s' → ∃ k', (k' ≤ length (m_cons s))%nat ∧ is_Some (prod_step i k' s).
Proof.
  intros Ha. destruct (decide (k ≤ length (m_cons s))%nat) as [Hk|Hk]; [by exists k|].
  exists 0%nat. split; [lia|]. unfold prod_step in *. destruct (m_prods s !! i) as [x|]; [|done]. simpl in *.
  destruct x; try (by eexists). unfold notify_one in *. destruct (existsb _ _); [|by eexists].
  by rewrite (lookup_ge_None_2 (m_cons s) k) in Ha by lia.
Qed.

(** Either some thread can move or none: there are finitely many moves. *)
Lemma stuck_or_step s : stuck s ∨ ∃ s', istep s s'.
Proof.
  destruct (decide (Exists (λ i, is_Some (prod_step i.1 i.2 s))
    (cprod (seq 0 (length (m_prods s))) (seq 0 (S (length (m_cons s)))))))
    as [He|Hn].
  { apply Exists_exists in He as ([i k] & _ & s' & Hs'). right. exists s'. by apply (IStep _ _ (AProd i k)). }
  destruct (decide (Exists (λ j, is_Some (cons_step j s)) (seq 0 (length (m_cons s))))) as [He|Hn'].
  { apply Exists_exists in He as (j & _ & s' & Hs'). right. exists s'. by apply (IStep _ _ (ACons j)). }
  left. intros s' [[i d|j|i k|j|j] Hin Ha]; try done; simpl in Ha.
  - assert (i < length (m_prods s))%nat as Hlt.
    { unfold prod_step in Ha. destruct (m_prods s !! i) as [x|] eqn:Hx; [|done]. by apply lookup_lt_Some in Hx. }
    destruct (prod_step_choice i k s s' Ha) as (k' & Hk' & Hsome).
    apply Hn, Exists_exists. exists (i, k'). split; [|done].
    apply list_elem_of_cprod. split; apply elem_of_seq; simpl; lia.
  - apply Hn', Exists_exists. exists j. split; [|eauto]. apply elem_of_seq.
    unfold cons_step in Ha. destruct (m_cons s !! j) as [x|] eqn:Hx; [|done]. apply lookup_lt_Some in Hx. lia.
Qed.

(** ** Properties *)


(** One delivery and one reception, interleaved: the receiver waits first, is
    woken for no reason, waits again, and then gets the buffer. *)
Definition demo : list action :=
  [AReceive 0; ACons 0; ACons 0; ASpurious 0; ACons 0; ADeliver 0 7; ACons 0] ++
  replicate 7 (AProd 0 0) ++ replicate 7 (ACons 0).


(** C9. No wake-up is lost and no thread is stuck: from any state the threads
    inside their calls make at most [effort] steps; when none can move, every
    mutex is free, every delivery is complete, every receiving thread has
    returned or waits, and if one waits the queue is empty. *)
Theorem mailbox_delivers (np nc : nat) (s : mailbox) :
  rtc step (mailbox_start np nc) s →
  (∀ n s', nsteps istep n s s' → (n ≤ effort s)%nat) ∧
  ∃ s', rtc istep s s' ∧ stuck s' ∧
    (∀ i p, m_prods s' !! i = Some p → p = PIdle) ∧
    (∀ j c, m_cons s' !! j = Some c → c = CIdle ∨ c = CWaiting) ∧
    ((∃ j, m_cons s' !! j = Some CWaiting) → m_data s' = []).
Proof.
  intros Hr. apply mailbox_inv_reach in Hr as Hi. clear Hr. split.
  - intros n s' Hn. induction Hn as [|n s0 s1 s2 Hstep _ IH]; [lia|].
    assert (mailbox_inv s1) as Hi1 by (destruct Hstep as [a _ Ha]; by eapply inv_act).
    specialize (IH Hi1). apply effort_decreases in Hstep. lia.
  - remember (effort s) as n eqn:Hn. revert s Hi Hn.
    induction (lt_wf n) as [n _ IH]. intros s Hi Hn.
    destruct (stuck_or_step s) as [Hs|[s1 Hs]].
    + exists s. split; [done|]. split; [done|]. destruct (stuck_quiet s Hi Hs) as [Hp Hc].
      split; [done|]. split; [done|]. intros Hw. by apply stuck_empty.
    + assert (mailbox_inv s1) as Hi1 by (destruct Hs as [a _ Ha]; by eapply inv_act).
      destruct (IH (effort s1)) with (s := s1) as (s' & Hs' & Hrest); [|done|done|].
      { subst n. by apply effort_decreases. }
      exists s'. split; [by eapply rtc_l|done].
Qed.

(** Seven deliveries' worth of steps later the waiting thread has its buffer. *)
Lemma mailbox_delivers_witness :
  ∃ s s', acts [AReceive 0; ACons 0; ACons 0; ADeliver 0 7] (mailbox_start 1 1) = Some s ∧
    m_cons s = [CWaiting] ∧ m_prods s = [PWant 7] ∧ rtc istep s s' ∧ stuck s'.
Proof.
  exists (mk_mailbox [] 0 None None [PWant 7] [CWaiting]).
  edestruct (mailbox_delivers 1 1 (mk_mailbox [] 0 None None [PWant 7] [CWaiting])) as [_ (s' & Hs & Hst & _)].
  - eapply rtc_l; [exists (AReceive 0); vm_compute; reflexivity|].
    eapply rtc_l; [exists (ACons 0); vm_compute; reflexivity|].
    eapply rtc_l; [exists (ACons 0); vm_compute; reflexivity|].
    eapply rtc_l; [exists (ADeliver 0 7); vm_compute; reflexivity|]. apply rtc_refl.
  - exists s'. split; [vm_compute; reflexivity|]. split; [reflexivity|]. split; [reflexivity|]. by split.
Defined.
