(* ===== verification/Random.v ===== *)
(** Random numbers: the Mersenne Twister engines of the C++ standard library
    ([std::mt19937], [std::mt19937_64]), and the two functions of the program
    that keep one per thread, [CryptoUtils::generate_session_key]
    ([crypto/crypto_utils.hpp]) and [random_between] ([utils/random.cpp]). *)
From S2P Require Import Prelude.
Local Open Scope Z_scope.

(** ** [std::mersenne_twister_engine] *)

Record params := mk_params {
  word_size : Z;
  state_size : nat;
  shift_size : nat;
  mask_bits : Z;
  xor_mask : Z;
  tempering_u : Z; tempering_d : Z;
  tempering_s : Z; tempering_b : Z;
  tempering_t : Z; tempering_c : Z;
  tempering_l : Z;
  initialization_multiplier : Z
}.
Definition mt19937 : params :=
  mk_params 32 624 397 31 0x9908b0df 11 0xffffffff 7 0x9d2c5680 15 0xefc60000 18 1812433253.
Definition mt19937_64 : params :=
  mk_params 64 312 156 31 0xb5026f5aa96619e9 29 0x5555555555555555 17 0x71d67fffeda60000
    37 0xfff7eee000000000 43 6364136223846793005.

(** The last [state_size] words of the sequence, the oldest first. *)
Definition engine := list Z.

Section engine.
Context (p : params).
Definition word (z : Z) : Z := z `mod` 2 ^ word_size p.

Fixpoint seed_words (k : nat) (i prev : Z) : engine :=
  match k with
  | O => []
  | S k =>
      let x := word (initialization_multiplier p * Z.lxor prev (Z.shiftr prev (word_size p - 2))
                     + i `mod` Z.of_nat (state_size p)) in
      x :: seed_words k (i + 1) x
  end.
Definition seed (value : Z) : engine := word value :: seed_words (pred (state_size p)) 1 (word value).

Definition temper (x : Z) : Z :=
  let z1 := Z.lxor x (Z.land (Z.shiftr x (tempering_u p)) (tempering_d p)) in
  let z2 := Z.lxor z1 (Z.land (word (Z.shiftl z1 (tempering_s p))) (tempering_b p)) in
  let z3 := Z.lxor z2 (Z.land (word (Z.shiftl z2 (tempering_t p))) (tempering_c p)) in
  Z.lxor z3 (Z.shiftr z3 (tempering_l p)).

Definition twist (x0 x1 xm : Z) : Z :=
  let low := 2 ^ mask_bits p in
  let y := Z.lor (x0 / low * low) (x1 `mod` low) in
  Z.lxor (Z.lxor xm (Z.shiftr y 1)) (if Z.odd y then xor_mask p else 0).

Definition next (e : engine) : Z * engine :=
  let x := word (twist (nth 0 e 0) (nth 1 e 0) (nth (shift_size p) e 0)) in
  (word (temper x), tail e ++ [x]).

Fixpoint discard (n : nat) (e : engine) : engine :=
  match n with O => e | S n => discard n (next e).2 end.

Definition engine_ok (e : engine) : Prop :=
  length e = state_size p ∧ Forall (λ x, 0 ≤ x < 2 ^ word_size p) e.
End engine.

Section engine_ok.
Context (p : params) (Hw : 0 ≤ word_size p) (Hn : (0 < state_size p)%nat).
Lemma word_bound z : 0 ≤ word p z < 2 ^ word_size p.
Proof using Hw. clear Hn. apply Z.mod_pos_bound. lia. Qed.

Lemma seed_ok v : engine_ok p (seed p v).
Proof using Hw Hn.
  unfold seed, engine_ok. assert (∀ k i x, length (seed_words p k i x) = k ∧
    Forall (λ x, 0 ≤ x < 2 ^ word_size p) (seed_words p k i x)) as Hs.
  { induction k as [|k IH]; intros i x; [by split|]. simpl.
    match goal with |- context [seed_words p k ?i ?x] => destruct (IH i x) as [Hl Hf] end.
    split; [by rewrite Hl|]. constructor; [apply word_bound|done]. }
  destruct (Hs (pred (state_size p)) 1 (word p v)) as [Hl Hf].
  split; [simpl; lia|]. constructor; [apply word_bound|done].
Qed.

(** Drawing keeps the engine well formed, and the number is a word. *)
Lemma next_word e : engine_ok p e → engine_ok p (next p e).2 ∧ 0 ≤ (next p e).1 < 2 ^ word_size p.
Proof using Hw Hn.
  intros [Hl Hf]. split; [|apply word_bound]. unfold next. cbn [snd]. destruct e as [|x e]; simpl in *; [lia|].
  split; [rewrite length_app; simpl; lia|]. inversion Hf; subst.
  apply Forall_app. split; [done|]. constructor; [apply word_bound|constructor].
Qed.
End engine_ok.

(** The first numbers of the engines seeded by default. *)
Example mt19937_first : (next mt19937 (seed mt19937 5489)).1 = 3499211612.
Proof. vm_compute. reflexivity. Qed.
Example mt19937_64_first : (next mt19937_64 (seed mt19937_64 5489)).1 = 14514284786278117030.
Proof. vm_compute. reflexivity. Qed.

(** ** One engine per thread

    [uniform lo hi] stands for [std::uniform_int_distribution], whose algorithm
    the standard leaves open; [rd t] is the first value of thread [t]'s
    [std::random_device], an [unsigned int]. *)
Section thread_local.
Context (uniform : params → Z → Z → engine → Z * engine).

(** The thread's engine, constructed at its first use, and a draw from it. *)
Definition draw (p : params) (value lo hi : Z) (t : nat) (s : gmap nat engine) : Z * gmap nat engine :=
  let '(x, e) := uniform p lo hi (default (seed p value) (s !! t)) in (x, <[t := e]> s).

Definition generate_session_key (rd : nat → Z) (t : nat) (s : gmap nat engine) : Z * gmap nat engine :=
  draw mt19937_64 (rd t) 0 (2 ^ 64 - 1) t s.

Definition random_between (now min max : Z) (t : nat) (s : gmap nat engine) :
    outcome (Z * gmap nat engine) :=
  if decide (min ≤ max) then Ret (draw mt19937 now min max t s) else Undefined.

(** The keys that calls from the threads [ts] return, with the caller. *)
Fixpoint session_keys (rd : nat → Z) (ts : list nat) (s : gmap nat engine) : list (nat * Z) :=
  match ts with
  | [] => []
  | t :: ts => let '(k, s') := generate_session_key rd t s in (t, k) :: session_keys rd ts s'
  end.

(** What one engine gives when nobody else uses it. *)
Fixpoint stream (n : nat) (e : engine) : list Z :=
  match n with
  | O => []
  | S n => let '(k, e') := uniform mt19937_64 0 (2 ^ 64 - 1) e in k :: stream n e'
  end.
Definition keys_of (t : nat) (l : list (nat * Z)) : list Z := (filter (λ x, x.1 = t) l).*2.

Definition uniform_ok : Prop := ∀ p lo hi e, lo ≤ hi → lo ≤ (uniform p lo hi e).1 ≤ hi.

Lemma draw_other p v lo hi t t' s : t ≠ t' → (draw p v lo hi t s).2 !! t' = s !! t'.
Proof. intros Ht. unfold draw. destruct (uniform _ _ _ _). simpl. by rewrite lookup_insert_ne. Qed.

(** A thread's keys do not depend on the other threads' calls. *)
Lemma keys_of_session_keys rd t ts s :
  keys_of t (session_keys rd ts s) =
  stream (length (filter (.= t) ts)) (default (seed mt19937_64 (rd t)) (s !! t)).
Proof.
  unfold keys_of. revert s. induction ts as [|t' ts IH]; intros s; [done|].
  pose proof (draw_other mt19937_64 (rd t') 0 (2 ^ 64 - 1) t' t s) as Hd.
  simpl. unfold generate_session_key in *. unfold draw in *.
  destruct (uniform mt19937_64 0 (2 ^ 64 - 1) (default (seed mt19937_64 (rd t')) (s !! t'))) as [k e] eqn:Hu.
  rewrite !filter_cons. simpl in *. case_decide as Ht; simpl.
  - subst t'. rewrite IH, lookup_insert_eq. simpl. by rewrite Hu.
  - rewrite IH. by rewrite Hd.
Qed.

Lemma session_keys_bounded rd ts s :
  uniform_ok → Forall (λ x, 0 ≤ x.2 < 2 ^ 64) (session_keys rd ts s).
Proof.
  intros Hok. revert s. induction ts as [|t ts IH]; intros s; [constructor|].
  simpl. unfold generate_session_key, draw.
  pose proof (Hok mt19937_64 0 (2 ^ 64 - 1) (default (seed mt19937_64 (rd t)) (s !! t))) as Hk.
  destruct (uniform _ _ _ _) as [k e]. constructor; [simpl in *; lia|apply IH].
Qed.
End thread_local.

(** Fewer arguments than values: some value is missed. *)
Lemma missed_value (f : Z → Z) (m n : Z) :
  0 ≤ m < n → ∃ k, 0 ≤ k < n ∧ ∀ r, 0 ≤ r < m → f r ≠ k.
Proof.
  intros Hmn. destruct (decide (Exists (λ k, k ∉ f <$> seqZ 0 m) (seqZ 0 n))) as [He|He].
  - apply Exists_exists in He as (k & Hk & Hn). apply elem_of_seqZ in Hk. exists k. split; [lia|].
    intros r Hr Hf. apply Hn, list_elem_of_fmap. exists r. split; [done|]. apply elem_of_seqZ. lia.
  - exfalso. assert (seqZ 0 n ⊆+ f <$> seqZ 0 m) as Hs.
    { apply NoDup_submseteq; [apply NoDup_seqZ|]. intros k Hk.
      destruct (decide (k ∈ f <$> seqZ 0 m)) as [?|Hn]; [done|].
      exfalso. apply He, Exists_exists. by exists k. }
    apply submseteq_length in Hs. rewrite length_fmap, !length_seqZ in Hs. lia.
Qed.

(** Session keys are drawn safely by several threads but from a small
    space. However the calls of the threads interleave, the keys of one thread
    are the stream of its own engine, seeded once from its random device; every
    key is a 64-bit number; but since the seed has 32 bits, there are 64-bit
    keys that no thread's first call ever returns, and a thread's whole stream
    is one of 2^32. *)
Theorem session_keys_of_threads (uniform : params → Z → Z → engine → Z * engine) (rd : nat → Z) (ts : list nat) :
  uniform_ok uniform →
  (∀ t, 0 ≤ rd t < 2 ^ 32) →
  (∀ t, keys_of t (session_keys uniform rd ts ∅)
        = stream uniform (length (filter (.= t) ts)) (seed mt19937_64 (rd t))) ∧
  Forall (λ x, 0 ≤ x.2 < 2 ^ 64) (session_keys uniform rd ts ∅) ∧
  ∃ k, 0 ≤ k < 2 ^ 64 ∧ ∀ rd' t, 0 ≤ rd' t < 2 ^ 32 → (generate_session_key uniform rd' t ∅).1 ≠ k.
Proof.
  intros Hok Hrd. split; [|split].
  - intros t. by rewrite keys_of_session_keys, lookup_empty.
  - by apply session_keys_bounded.
  - destruct (missed_value (λ v, (uniform mt19937_64 0 (2 ^ 64 - 1) (seed mt19937_64 v)).1) (2 ^ 32) (2 ^ 64))
      as (k & Hk & Hn); [lia|].
    exists k. split; [done|]. intros rd' t Ht. unfold generate_session_key, draw. rewrite lookup_empty.
    specialize (Hn (rd' t) Ht). simpl default. by destruct (uniform _ _ _ _).
Qed.

(** The engine's own numbers where they fill the range, scaled otherwise. *)
Definition scaled (p : params) (lo hi : Z) (e : engine) : Z * engine :=
  let '(x, e') := next p e in (lo + x `mod` (hi - lo + 1), e').
Lemma session_keys_of_threads_witness :
  session_keys scaled (λ _, 5489) [0; 1]%nat ∅ = [(0%nat, 14514284786278117030); (1%nat, 14514284786278117030)] ∧
  ∃ k, 0 ≤ k < 2 ^ 64 ∧ ∀ rd' t, 0 ≤ rd' t < 2 ^ 32 → (generate_session_key scaled rd' t ∅).1 ≠ k.
Proof.
  split; [vm_compute; reflexivity|].
  assert (uniform_ok scaled) as Hok.
  { intros p lo hi e Hlo. unfold scaled. destruct (next p e) as [x e']. simpl.
    pose proof (Z.mod_pos_bound x (hi - lo + 1)). lia. }
  exact (proj2 (proj2 (session_keys_of_threads scaled (λ _, 5489) [0; 1]%nat Hok ltac:(intros; lia)))).
Defined.
