(* ===== verification/Logger.v ===== *)
(** The log ([utils/logger.cpp]): [Logger], one file behind a mutex, and
    [LogEntry], which collects the pieces of one message in a buffer of its own
    and hands them over when it is destroyed; threads interleaved at every lock
    and write.  And the [Profiler] ([utils/profiler.cpp]). *)
From Stdlib Require Import Ascii.
From Stdlib Require String.
From stdpp Require Import pretty.
From S2P Require Import Prelude.
Local Open Scope Z_scope.

(** Where a thread is: outside, filling a [LogEntry], or in [log] or [open]. *)
Inductive pc :=
  | LIdle
  | LEntry (buffer : string)
  | LWant (buffer : string)          (* lock_guard *)
  | LText (buffer : string)          (* if (m_stream.is_open()) m_stream << str() *)
  | LNewline (buffer : string)       (* << "\n" *)
  | LOpen (path : string)            (* lock_guard *)
  | LClose (path : string)           (* if (m_stream.is_open()) m_stream.close() *)
  | LTrunc (path : string)           (* m_stream.open(path, out | trunc) *)
  | LUnlock.

Record logger := mk_logger {
  files : gmap string string;        (* the file system *)
  m_stream : option string;          (* the path that is open *)
  m_mutex : option nat;
  threads : list pc
}.
Definition logger_start (n : nat) : logger := mk_logger ∅ None None (replicate n LIdle).

Definition goto (i : nat) (x : pc) (s : logger) : logger :=
  mk_logger (files s) (m_stream s) (m_mutex s) (<[i := x]> (threads s)).
Definition set_mutex (o : option nat) (s : logger) : logger :=
  mk_logger (files s) (m_stream s) o (threads s).
Definition set_stream (o : option string) (s : logger) : logger :=
  mk_logger (files s) o (m_mutex s) (threads s).
Definition write (path text : string) (s : logger) : logger :=
  mk_logger (alter (λ old, old +:+ text) path (files s)) (m_stream s) (m_mutex s) (threads s).
Definition truncate (path : string) (s : logger) : logger :=
  mk_logger (<[path := ""]> (files s)) (m_stream s) (m_mutex s) (threads s).

Definition nl : string := String.String (ascii_of_nat 10) "".

Definition lock (i : nat) (x : pc) (s : logger) : option logger :=
  if decide (m_mutex s = None) then Some (goto i x (set_mutex (Some i) s)) else None.

(** One step of thread [i] inside [log] or [open]; [ok] is whether the file can
    be opened. *)
Definition move (i : nat) (ok : bool) (s : logger) : option logger :=
  x ← threads s !! i;
  match x with
  | LIdle | LEntry _ => None
  | LWant b => lock i (LText b) s
  | LText b =>
      match m_stream s with
      | Some path => Some (goto i (LNewline b) (write path b s))
      | None => Some (goto i LUnlock s)
      end
  | LNewline _ =>
      match m_stream s with Some path => Some (goto i LUnlock (write path nl s)) | None => None end
  | LOpen path => lock i (LClose path) s
  | LClose path => Some (goto i (LTrunc path) (set_stream None s))
  | LTrunc path =>
      if ok then Some (goto i LUnlock (set_stream (Some path) (truncate path s))) else Some (goto i LUnlock s)
  | LUnlock => Some (goto i LIdle (set_mutex None s))
  end.

(** [LOG_STREAM], [<<] and the end of the statement; a call of [open]. *)
Inductive action :=
  | AEntry (i : nat) | AAppend (i : nat) (msg : string) | AEnd (i : nat) | AOpen (i : nat) (path : string)
  | AMove (i : nat) (ok : bool).
Definition act (a : action) (s : logger) : option logger :=
  match a with
  | AEntry i => match threads s !! i with Some LIdle => Some (goto i (LEntry "") s) | _ => None end
  | AAppend i msg => match threads s !! i with Some (LEntry b) => Some (goto i (LEntry (b +:+ msg)) s) | _ => None end
  | AEnd i => match threads s !! i with Some (LEntry b) => Some (goto i (LWant b) s) | _ => None end
  | AOpen i path => match threads s !! i with Some LIdle => Some (goto i (LOpen path) s) | _ => None end
  | AMove i ok => move i ok s
  end.

(** ** The specification: a list of lines, or no file *)

Inductive event := EClose | EOpen | ELog (i : nat) (msg : string).
Definition event_of (a : action) (s : logger) : list event :=
  match a with
  | AMove i ok =>
      match threads s !! i with
      | Some (LText b) => match m_stream s with None => [ELog i b] | _ => [] end
      | Some (LNewline b) => [ELog i b]
      | Some (LClose _) => [EClose]
      | Some (LTrunc _) => if ok then [EOpen] else []
      | _ => []
      end
  | _ => []
  end.
Definition spec_step (lines : option (list string)) (ev : event) : option (list string) :=
  match ev with
  | EClose => None
  | EOpen => Some []
  | ELog _ msg => (λ l, l ++ [msg]) <$> lines
  end.
Definition render (lines : list string) : string := foldr (λ l r, l +:+ nl +:+ r) "" lines.

Fixpoint acts (l : list action) (s : logger) : option logger :=
  match l with [] => Some s | a :: l => s' ← act a s; acts l s' end.
Fixpoint trace (l : list action) (s : logger) : list event :=
  match l with [] => [] | a :: l => event_of a s ++ from_option (trace l) [] (act a s) end.

(** The messages the threads composed, read off the actions alone, and those
    that reached the logger. *)
Fixpoint composed (i : nat) (b : string) (l : list action) : list string :=
  match l with
  | [] => []
  | AEntry j :: l => composed i (if decide (i = j) then "" else b) l
  | AAppend j msg :: l => composed i (if decide (i = j) then b +:+ msg else b) l
  | AEnd j :: l => if decide (i = j) then b :: composed i "" l else composed i b l
  | _ :: l => composed i b l
  end.
Definition logged (i : nat) (l : list event) : list string :=
  omap (λ ev, match ev with ELog j msg => if decide (i = j) then Some msg else None | _ => None end) l.
Definition unlogged (x : pc) : list string :=
  match x with LWant b | LText b | LNewline b => [b] | _ => [] end.
Definition pending (i : nat) (s : logger) : list string := from_option unlogged [] (threads s !! i).

(** The message that is being written. *)
Definition text (x : pc) : string := match x with LNewline b => b | _ => "" end.
Definition partial (s : logger) : string := from_option text "" (m_mutex s ≫= (threads s !!.)).

(** ** The invariant *)

Lemma sapp_assoc (a b c : string) : (a +:+ b) +:+ c = a +:+ b +:+ c.
Proof. induction a as [|x a IH]; [done|]. change (String.String x ((a +:+ b) +:+ c) = String.String x (a +:+ b +:+ c)). by rewrite IH. Qed.
Lemma sapp_nil_r (a : string) : a +:+ "" = a.
Proof. induction a as [|x a IH]; [done|]. change (String.String x (a +:+ "") = String.String x a). by rewrite IH. Qed.
Lemma render_snoc lines m : render (lines ++ [m]) = render lines +:+ m +:+ nl.
Proof.
  induction lines as [|l lines IH]; [simpl; by rewrite sapp_nil_r|]. simpl. rewrite IH, !sapp_assoc. done.
Qed.

Definition holds (x : pc) : bool :=
  match x with LText _ | LNewline _ | LClose _ | LTrunc _ | LUnlock => true | _ => false end.

Record logger_inv (lines : option (list string)) (s : logger) : Prop := {
  li_held : ∀ i x, threads s !! i = Some x → holds x = true → m_mutex s = Some i;
  li_holder : ∀ i, m_mutex s = Some i → ∃ x, threads s !! i = Some x ∧ holds x = true;
  li_newline : ∀ i b, threads s !! i = Some (LNewline b) → is_Some (m_stream s);
  li_trunc : ∀ i path, threads s !! i = Some (LTrunc path) → m_stream s = None;
  li_file : match m_stream s, lines with
            | Some path, Some ls => files s !! path = Some (render ls +:+ partial s)
            | None, None => True
            | _, _ => False
            end
}.

Lemma partial_holder i x s : m_mutex s = Some i → threads s !! i = Some x → partial s = text x.
Proof. unfold partial. intros -> Hi. simpl. by rewrite Hi. Qed.
Lemma partial_goto i x y s : threads s !! i = Some x → text x = text y → partial (goto i y s) = partial s.
Proof.
  intros Hi Ht. unfold partial. simpl. destruct (m_mutex s) as [j|]; [|done]. simpl.
  destruct (decide (i = j)) as [->|Hij]; [|by rewrite list_lookup_insert_ne].
  rewrite list_lookup_insert_eq by (by eapply lookup_lt_Some). by rewrite Hi.
Qed.

(** A thread that keeps what it holds, and is not writing, moves on. *)
Lemma logger_goto i x y lines s :
  logger_inv lines s → threads s !! i = Some x → text x = text y → holds x = holds y →
  (∀ b, y = LNewline b → is_Some (m_stream s)) → (∀ path, y = LTrunc path → m_stream s = None) →
  logger_inv lines (goto i y s).
Proof.
  intros [Hh Hr Hn Ht Hf] Hi Htx Hhx Hyn Hyt. apply lookup_lt_Some in Hi as Hlt. split; simpl.
  - intros j z Hj Hz. apply list_lookup_insert_Some in Hj as [(-> & <- & _)|[_ Hj]]; [|by eapply Hh].
    apply (Hh j x); [done|]. by rewrite Hhx.
  - intros j Hj. destruct (Hr j Hj) as (z & Hz & Hhz). destruct (decide (i = j)) as [->|Hij].
    + exists y. rewrite list_lookup_insert_eq by done. split; [done|]. rewrite <- Hhx. naive_solver.
    + exists z. by rewrite list_lookup_insert_ne.
  - intros j b Hj. apply list_lookup_insert_Some in Hj as [(-> & -> & _)|[_ Hj]]; eauto.
  - intros j b Hj. apply list_lookup_insert_Some in Hj as [(-> & -> & _)|[_ Hj]]; eauto.
  - rewrite (partial_goto i x y s Hi Htx). done.
Qed.

Lemma logger_lock i x y lines s s' :
  logger_inv lines s → threads s !! i = Some x → holds x = false → text y = "" → holds y = true →
  (∀ path, y ≠ LTrunc path) → (∀ b, y ≠ LNewline b) → lock i y s = Some s' → logger_inv lines s'.
Proof.
  intros [Hh Hr Hn Ht Hf] Hi Hx Hty Hy Hnt Hnn Hl. unfold lock in Hl. case_decide as Hm; simplify_eq.
  apply lookup_lt_Some in Hi as Hlt. split; simpl.
  - intros j z Hj Hz. apply list_lookup_insert_Some in Hj as [(-> & _ & _)|[_ Hj]]; [done|].
    specialize (Hh j z Hj Hz). congruence.
  - intros j [= <-]. exists y. by rewrite list_lookup_insert_eq.
  - intros j b Hj. apply list_lookup_insert_Some in Hj as [(-> & -> & _)|[_ Hj]]; [by destruct (Hnn b)|eauto].
  - intros j b Hj. apply list_lookup_insert_Some in Hj as [(-> & -> & _)|[_ Hj]]; [by destruct (Hnt b)|eauto].
  - replace (partial _) with (partial s); [done|]. unfold partial. simpl. rewrite Hm.
    simpl. by rewrite list_lookup_insert_eq.
Qed.

(** The thread inside the mutex changes the stream or the file. *)
Lemma logger_held i x y lines s m path_files :
  logger_inv lines s → threads s !! i = Some x → holds x = true → holds y = true →
  let s' := mk_logger path_files m (m_mutex s) (<[i := y]> (threads s)) in
  (∀ b, y = LNewline b → is_Some m) → (∀ path, y = LTrunc path → m = None) →
  ∀ lines',
  match m, lines' with
  | Some path, Some ls => path_files !! path = Some (render ls +:+ text y)
  | None, None => True
  | _, _ => False
  end → logger_inv lines' s'.
Proof.
  intros [Hh Hr Hn Ht Hf] Hi Hx Hy s' Hyn Hyt lines' Hf'. apply lookup_lt_Some in Hi as Hlt.
  pose proof (Hh i x Hi Hx) as Hm.
  assert (∀ j z, <[i := y]> (threads s) !! j = Some z → holds z = true → j = i ∧ z = y) as Hone.
  { intros j z Hj Hz. apply list_lookup_insert_Some in Hj as [(-> & <- & _)|[Hij Hj]]; [done|].
    specialize (Hh j z Hj Hz). congruence. }
  split; simpl.
  - intros j z Hj Hz. destruct (Hone j z Hj Hz) as [-> _]. done.
  - intros j Hj. assert (j = i) as -> by congruence. exists y. by rewrite list_lookup_insert_eq.
  - intros j b Hj. destruct (Hone j _ Hj eq_refl) as [_ Hb]. by eapply Hyn.
  - intros j b Hj. destruct (Hone j _ Hj eq_refl) as [_ Hb]. by eapply Hyt.
  - assert (partial s' = text y) as ->; [|done]. apply (partial_holder i); [done|].
    simpl. by rewrite list_lookup_insert_eq.
Qed.

Lemma logger_unlock i lines s :
  logger_inv lines s → threads s !! i = Some LUnlock → logger_inv lines (goto i LIdle (set_mutex None s)).
Proof.
  intros [Hh Hr Hn Ht Hf] Hi. pose proof (Hh i _ Hi eq_refl) as Hm. split; simpl.
  - intros j z Hj Hz. apply list_lookup_insert_Some in Hj as [(-> & <- & _)|[Hij Hj]]; [done|].
    specialize (Hh j z Hj Hz). congruence.
  - done.
  - intros j b Hj. apply list_lookup_insert_Some in Hj as [(-> & ? & _)|[_ Hj]]; [done|eauto].
  - intros j b Hj. apply list_lookup_insert_Some in Hj as [(-> & ? & _)|[_ Hj]]; [done|eauto].
  - by rewrite (partial_holder i LUnlock s Hm Hi) in Hf.
Qed.

Lemma logger_move i ok lines s s' :
  logger_inv lines s → move i ok s = Some s' →
  logger_inv (foldl spec_step lines (event_of (AMove i ok) s)) s'.
Proof.
  intros Hi Hs. unfold move, event_of in *. destruct (threads s !! i) as [x|] eqn:Hx; [|done]. simpl in Hs.
  destruct x; try done; simpl.
  - by eapply logger_lock; [exact Hi|exact Hx|..|exact Hs].
  - pose proof (li_file _ _ Hi) as Hf. pose proof (li_held _ _ Hi i _ Hx eq_refl) as Hm.
    destruct (m_stream s) as [path|] eqn:Hms; simplify_eq; simpl.
    + rewrite (partial_holder i _ s Hm Hx) in Hf. destruct lines as [ls|]; [|done].
      apply (logger_held i _ (LNewline buffer) (Some ls) s (m_stream s) (files (write path buffer s)) Hi Hx);
        rewrite ?Hms; try done.
      simpl. rewrite lookup_alter_eq, Hf. simpl. by rewrite sapp_nil_r.
    + destruct lines; [done|]. simpl. by apply (logger_goto i _ _ None s Hi Hx).
  - pose proof (li_file _ _ Hi) as Hf. pose proof (li_held _ _ Hi i _ Hx eq_refl) as Hm.
    destruct (m_stream s) as [path|] eqn:Hms; [|done]. simplify_eq.
    rewrite (partial_holder i _ s Hm Hx) in Hf. destruct lines as [ls|]; [|done].
    apply (logger_held i _ LUnlock (Some ls) s (m_stream s) (files (write path nl s)) Hi Hx);
      rewrite ?Hms; try done.
    simpl. rewrite lookup_alter_eq, Hf. simpl. rewrite render_snoc, !sapp_nil_r, !sapp_assoc. done.
  - by eapply logger_lock; [exact Hi|exact Hx|..|exact Hs].
  - simplify_eq. by apply (logger_held i _ (LTrunc path) lines s None (files s) Hi Hx).
  - pose proof (li_trunc _ _ Hi i _ Hx) as Hms. destruct ok; simplify_eq; simpl.
    + apply (logger_held i _ LUnlock lines s (Some path) (files (truncate path s)) Hi Hx); try done.
      simpl. by rewrite lookup_insert_eq.
    + by apply (logger_goto i _ _ lines s Hi Hx).
  - simplify_eq. by apply logger_unlock.
Qed.

Lemma logger_act a lines s s' :
  logger_inv lines s → act a s = Some s' → logger_inv (foldl spec_step lines (event_of a s)) s'.
Proof.
  intros Hi Hs. destruct a as [i|i msg|i|i path|i ok]; [..|by apply logger_move]; simpl in Hs |- *;
    destruct (threads s !! i) as [[]|] eqn:Hx; try done; simplify_eq; by eapply logger_goto.
Qed.

Lemma logger_start_inv n : logger_inv None (logger_start n).
Proof.
  assert (∀ i x, threads (logger_start n) !! i = Some x → x = LIdle) as Hidle
    by (intros i x Hx; by apply lookup_replicate_1 in Hx as [-> _]).
  split; try done; intros i x Hx; by apply Hidle in Hx as ?; subst.
Qed.

Lemma logger_runs l lines s s' :
  logger_inv lines s → acts l s = Some s' → logger_inv (foldl spec_step lines (trace l s)) s'.
Proof.
  revert lines s. induction l as [|a l IH]; intros lines s Hi Hs; simpl in *; [by simplify_eq|].
  destruct (act a s) as [s1|] eqn:Ha; [|done]. simpl in *. rewrite foldl_app.
  apply IH; [|done]. by apply logger_act.
Qed.

(** ** Whose messages *)

Definition filled (x : pc) : string := match x with LEntry b => b | _ => "" end.
Definition filling (i : nat) (s : logger) : string := from_option filled "" (threads s !! i).
Definition actor (a : action) : nat :=
  match a with AEntry i | AAppend i _ | AEnd i | AOpen i _ | AMove i _ => i end.

(** An action moves one thread, which hands over or keeps what it composed. *)
Lemma act_local a s s' :
  act a s = Some s' → ∃ x y, threads s !! actor a = Some x ∧ threads s' = <[actor a := y]> (threads s) ∧
  ∀ l, unlogged x ++ composed (actor a) (filled x) (a :: l) =
       logged (actor a) (event_of a s) ++ unlogged y ++ composed (actor a) (filled y) l.
Proof.
  intros Ha. destruct a as [i|i msg|i|i path|i ok]; simpl in Ha |- *; unfold move, lock in *;
    destruct (threads s !! i) as [x|] eqn:Hx; try done; exists x; simpl in Ha |- *;
    destruct x; try done; try (destruct (m_stream s) eqn:Hs); try (destruct ok); try case_decide;
    simplify_eq; eexists; (split; [done|]); (split; [done|]); intros l; simpl;
    by rewrite ?decide_True by done.
Qed.

Lemma event_of_other a s i : i ≠ actor a → logged i (event_of a s) = [].
Proof.
  intros Hi. destruct a as [j|j msg|j|j path|j ok]; try done. simpl in *.
  destruct (threads s !! j) as [[]|]; try done; try destruct (m_stream s); try destruct ok; simpl;
    by rewrite ?decide_False by done.
Qed.

Lemma composed_act i a s s' l :
  act a s = Some s' →
  pending i s ++ composed i (filling i s) (a :: l) =
  logged i (event_of a s) ++ pending i s' ++ composed i (filling i s') l.
Proof.
  intros Ha. destruct (act_local a s s' Ha) as (x & y & Hx & Hs & Hl). unfold pending, filling. rewrite Hs.
  destruct (decide (i = actor a)) as [->|Hi].
  - rewrite list_lookup_insert_eq, Hx by (by eapply lookup_lt_Some). apply Hl.
  - rewrite list_lookup_insert_ne, event_of_other by done. simpl. f_equal.
    destruct a; simpl in *; by rewrite ?decide_False by done.
Qed.

Lemma composed_run i l s s' :
  acts l s = Some s' →
  pending i s ++ composed i (filling i s) l = logged i (trace l s) ++ pending i s'.
Proof.
  revert s. induction l as [|a l IH]; intros s Hs; simpl in Hs; [simplify_eq; by rewrite app_nil_r|].
  destruct (act a s) as [s1|] eqn:Ha; [|done]. simpl in Hs. rewrite (composed_act i a s s1 l Ha), IH by done.
  simpl. rewrite Ha. unfold logged. by rewrite omap_app, app_assoc.
Qed.

(** C40. The log is a sequence of whole lines, however the threads interleave.
    Any run refines the specification, in which opening gives an empty list and
    logging appends one line: the file holds the lines in the order they were
    completed, followed by the message of the thread that is writing one, and
    by nothing when nobody holds the mutex. A thread's lines are the messages
    it composed piece by piece, each once and in its order. *)
Theorem log_refines_lines (n : nat) (l : list action) (s : logger) :
  acts l (logger_start n) = Some s →
  let lines := foldl spec_step None (trace l (logger_start n)) in
  match m_stream s with
  | Some path => ∃ ls, lines = Some ls ∧ files s !! path = Some (render ls +:+ partial s)
  | None => lines = None
  end ∧
  (m_mutex s = None → partial s = "") ∧
  ∀ i, logged i (trace l (logger_start n)) ++ pending i s = composed i "" l.
Proof.
  intros Hl lines. pose proof (logger_runs l None _ s (logger_start_inv n) Hl) as Hi. fold lines in Hi.
  split; [|split].
  - pose proof (li_file _ _ Hi) as Hf. destruct (m_stream s), lines; naive_solver.
  - unfold partial. by intros ->.
  - intros i. rewrite <- (composed_run i l _ s Hl). unfold pending, filling.
    destruct (threads (logger_start n) !! i) as [x|] eqn:Hx; [|done].
    by apply lookup_replicate_1 in Hx as [-> _].
Qed.

(** Two threads log at the same time; the pieces do not mix. *)
Definition demo : list action :=
  [AOpen 0 "log"; AMove 0 true; AMove 0 true; AMove 0 true; AMove 0 true;
   AEntry 0; AEntry 1; AAppend 0 "Computed "; AAppend 1 "Sending PING"; AAppend 0 "Latency";
   AEnd 1; AMove 1 true; AEnd 0; AMove 1 true; AMove 1 true; AMove 1 true;
   AMove 0 true; AMove 0 true].
Lemma log_refines_lines_witness :
  ∃ s, acts demo (logger_start 2) = Some s ∧
    files s !! "log" = Some (render ["Sending PING"] +:+ "Computed Latency").
Proof.
  destruct (acts demo (logger_start 2)) as [s|] eqn:Hs; [|by vm_compute in Hs].
  destruct (log_refines_lines 2 demo s Hs) as (Hf & _). exists s. split; [reflexivity|].
  vm_compute in Hs. injection Hs as <-. vm_compute in Hf. destruct Hf as (ls & [= <-] & Hf).
  vm_compute. exact Hf.
Defined.

(** ** The profiler *)

Module Profiler.
Inductive Type' :=
  | INIT | NICSMH_Recieve | NICSMH_Send | NICRSE_Recieve | NICRSE_Send | PROTOCOLSMH_Recieve | PROTOCOLSMH_Send
  | PROTOCOLRSE_Recieve | PROTOCOLRSE_Send | COMMUNICATOR_Wake | COMMUNICATOR_Done | COMMUNICATOR_Send.
#[export] Instance type_eq_dec : EqDecision Type'.
Proof. solve_decision. Defined.

Definition messageType (type : Type') : string :=
  match type with
  | INIT => "Profiler initialized"
  | NICSMH_Recieve => "NIC: Packet received from ShmEngine"
  | NICRSE_Recieve => "NIC: Packet received from RawSocketEngine"
  | NICSMH_Send => "NIC: Packet sent via ShmEngine"
  | NICRSE_Send => "NIC: Packet sent RawSocketEngine"
  | PROTOCOLSMH_Recieve => "Protocol: Update called by NIC (Shared Memory)"
  | PROTOCOLRSE_Recieve => "Protocol: Update called by NIC (Raw Socket)"
  | PROTOCOLSMH_Send => "Protocol: Frame sent to NIC (Shared Memory)"
  | PROTOCOLRSE_Send => "Protocol: Frame sent to NIC (Raw Socket)"
  | COMMUNICATOR_Wake => "Communicator: Woke up to process message"
  | COMMUNICATOR_Done => "Communicator: Finished processing message"
  | COMMUNICATOR_Send => "Communicator: Sending"
  end.

(** [to_string(difftime(now, start)/1000)]: six decimals, of which three can
    differ from zero. The clock may have been set back. *)
Definition pad3 (z : Z) : string :=
  (if decide (z < 10) then "00" else if decide (z < 100) then "0" else "") +:+ pretty z.
Definition timestamp (startTime now : Z) : string :=
  let n := now - startTime in
  (if decide (n < 0) then "-" else "") +:+ pretty (Z.abs n / 1000) +:+ "." +:+ pad3 (Z.abs n `mod` 1000) +:+ "000".

Inductive output := OutFile (line : string) | OutCout (line : string).
(** [profile] reads the clock once for each of its two lines. *)
Definition profile {S} (startTime now1 now2 : Z) (message : Type') : M S output unit :=
  _ ← emit (OutFile (timestamp startTime now1 +:+ messageType message +:+ nl));
  emit (OutCout (timestamp startTime now2 +:+ messageType message +:+ nl)).

(** A line tells which event it was. *)
Lemma messageType_inj t t' : messageType t = messageType t' → t = t'.
Proof. by destruct t, t'. Qed.
Example timestamp_text : timestamp 10 1533 = "1.523000".
Proof. reflexivity. Qed.
End Profiler.
