(* ===== verification/Shm.v ===== *)
(** The shared-memory engine: [engines/smh_engine.hpp].  Each operation is the
    whole call of one process, run on the shared block and the semaphore set;
    [ShmRing] interleaves the steps inside the calls. *)
From S2P Require Import Prelude Ethernet.
Local Open Scope Z_scope.

Definition MAX_CLIENTS : nat := 16.
Definition BUFFER_SLOTS : Z := 32.
Definition BASE_PORT : Z := 1000.
Definition CONTROL_SEMS : nat := 4.
Definition MAX_NEARBY_ENTITIES : Z := 16.
Definition NAME_SIZE : nat := 64.

Definition REGISTRY_SEM : nat := 0.
Definition CLAIM_SEM : nat := 1.
Definition DIRECTORY_SEM : nat := 2.
Definition WRITER_WAIT_SEM : nat := 3.

(** ** The shared block *)

Record MessageSlot := mk_slot { slot_seq : Z; slot_frame : Frame }.

Record DirectoryEntry := mk_entry {
  de_active : bool;
  component_name : list Z;
  component_type_id : Z;
  assigned_port : Z;
  owner_pid : Z
}.

Record ClientState := mk_client { cl_active : bool; process_id : Z; last_read : Z }.

Record SharedBlock := mk_block {
  next_port_to_assign : Z;
  entries : list DirectoryEntry;
  claim_sequence_id : Z;
  publish_sequence_id : Z;
  client_registry : list ClientState;
  buffer : list MessageSlot;
  writer_is_blocked : bool;
  session_key : Z;
  nearby_count : Z;
  nearby_entities : list MAC;
  nearby_lock : bool;
  location : Z
}.

(** The IPC objects: the block, and the semaphore set while it exists (after
    [IPC_RMID] every [semop] fails). *)
Record Ipc := mk_ipc { blk : SharedBlock; sems : option (list Z) }.

Definition set_blk (f : SharedBlock → SharedBlock) (s : Ipc) : Ipc := mk_ipc (f (blk s)) (sems s).
Definition set_claim z b := mk_block (next_port_to_assign b) (entries b) z (publish_sequence_id b)
  (client_registry b) (buffer b) (writer_is_blocked b) (session_key b) (nearby_count b)
  (nearby_entities b) (nearby_lock b) (location b).
Definition set_publish z b := mk_block (next_port_to_assign b) (entries b) (claim_sequence_id b) z
  (client_registry b) (buffer b) (writer_is_blocked b) (session_key b) (nearby_count b)
  (nearby_entities b) (nearby_lock b) (location b).
Definition set_registry l b := mk_block (next_port_to_assign b) (entries b) (claim_sequence_id b)
  (publish_sequence_id b) l (buffer b) (writer_is_blocked b) (session_key b) (nearby_count b)
  (nearby_entities b) (nearby_lock b) (location b).
Definition set_buffer l b := mk_block (next_port_to_assign b) (entries b) (claim_sequence_id b)
  (publish_sequence_id b) (client_registry b) l (writer_is_blocked b) (session_key b)
  (nearby_count b) (nearby_entities b) (nearby_lock b) (location b).
Definition set_blocked f b := mk_block (next_port_to_assign b) (entries b) (claim_sequence_id b)
  (publish_sequence_id b) (client_registry b) (buffer b) f (session_key b) (nearby_count b)
  (nearby_entities b) (nearby_lock b) (location b).
Definition set_key k b := mk_block (next_port_to_assign b) (entries b) (claim_sequence_id b)
  (publish_sequence_id b) (client_registry b) (buffer b) (writer_is_blocked b) k (nearby_count b)
  (nearby_entities b) (nearby_lock b) (location b).
Definition set_nearby n l b := mk_block (next_port_to_assign b) (entries b) (claim_sequence_id b)
  (publish_sequence_id b) (client_registry b) (buffer b) (writer_is_blocked b) (session_key b) n l
  (nearby_lock b) (location b).
Definition set_lock f b := mk_block (next_port_to_assign b) (entries b) (claim_sequence_id b)
  (publish_sequence_id b) (client_registry b) (buffer b) (writer_is_blocked b) (session_key b)
  (nearby_count b) (nearby_entities b) f (location b).
Definition set_loc q b := mk_block (next_port_to_assign b) (entries b) (claim_sequence_id b)
  (publish_sequence_id b) (client_registry b) (buffer b) (writer_is_blocked b) (session_key b)
  (nearby_count b) (nearby_entities b) (nearby_lock b) q.
Definition set_directory p l b := mk_block p l (claim_sequence_id b) (publish_sequence_id b)
  (client_registry b) (buffer b) (writer_is_blocked b) (session_key b) (nearby_count b)
  (nearby_entities b) (nearby_lock b) (location b).

Section ops.
Context {E : Type}.
Abbreviation M := (M Ipc E).

Definition on_blk (f : SharedBlock → SharedBlock) : M unit := modify (set_blk f).

(** [semop]: [true] on success, [false] when it returns -1 (the set was
    removed); a decrement of a zero semaphore blocks. *)
Definition semop_wait (i : nat) : M bool :=
  s ← get;
  match sems s with
  | None => mret false
  | Some l =>
      match l !! i with
      | None => mret false
      | Some n => if decide (0 < n) then _ ← put (mk_ipc (blk s) (Some (<[i := n - 1]> l))); mret true
                  else blocked
      end
  end.
Definition semop_signal (i : nat) : M bool :=
  s ← get;
  match sems s with
  | None => mret false
  | Some l =>
      match l !! i with
      | None => mret false
      | Some n => _ ← put (mk_ipc (blk s) (Some (<[i := n + 1]> l))); mret true
      end
  end.

(** ** Sending *)

Definition readers_active (reg : list ClientState) : bool :=
  existsb cl_active reg.
Definition slowest_reader (reg : list ClientState) (start : Z) : Z :=
  fold_left (λ acc c, if cl_active c then Z.min acc (last_read c) else acc) reg start.

(** [!readers_active || my_ticket_id - slowest_reader_id < BUFFER_SLOTS] *)
Definition slot_free (reg : list ClientState) (ticket : Z) : bool :=
  negb (readers_active reg) ||
  bool_decide (u64 (ticket - slowest_reader reg ticket) < BUFFER_SLOTS).

(** The wait loop: one token of WRITER_WAIT per round.  [fuel] bounds the
    rounds by the tokens available, plus the one that blocks. *)
Fixpoint wait_slot (fuel : nat) (ticket : Z) : M bool :=
  match fuel with
  | O => blocked
  | S fuel =>
      b ← gets blk;
      if slot_free (client_registry b) ticket then
        _ ← on_blk (set_blocked false); mret true
      else
        _ ← on_blk (set_blocked true);
        ok ← semop_wait WRITER_WAIT_SEM;
        if (ok : bool) then wait_slot fuel ticket
        else _ ← on_blk (set_blocked false); mret false
  end.
Definition wait_fuel (s : Ipc) : nat :=
  S (Z.to_nat (default 0 (l ← sems s; l !! WRITER_WAIT_SEM))).

(** Step 6: one batched [semop] that signals every active client. *)
Definition signal_clients (reg : list ClientState) (l : list Z) : list Z :=
  imap (λ i n, if (CONTROL_SEMS <=? i)%nat
               then match reg !! (i - CONTROL_SEMS)%nat with
                    | Some c => if cl_active c then n + 1 else n
                    | None => n
                    end
               else n) l.

(** The frame written into the claimed slot. [src_mac] is null for the dummy MAC. *)
Definition slot_write (src_mac : option MAC) (dst_mac : MAC) (protocol : Z) (data : list Z)
    (size : Z) (old : Frame) : Frame :=
  mk_Frame dst_mac (default LOCAL_ADDR src_mac) (htons protocol)
    (splice 0 (take (Z.to_nat size) data) (fdata old)) size.

Definition send (src_mac : option MAC) (dst_mac : MAC) (protocol : Z) (data : list Z)
    (size : Z) : M Z :=
  ok ← semop_wait CLAIM_SEM;
  if negb ok then mret (-1) else
  my_ticket_id ← gets (λ s, claim_sequence_id (blk s));
  _ ← on_blk (set_claim (u64 (my_ticket_id + 1)));
  ok ← semop_signal CLAIM_SEM;
  if negb ok then mret (-1) else
  fuel ← gets wait_fuel;
  ok ← wait_slot fuel my_ticket_id;
  if negb ok then mret (-1) else
  let slot_index := Z.to_nat (my_ticket_id `mod` BUFFER_SLOTS) in
  slots ← gets (λ s, buffer (blk s));
  slot ← checked (slots !! slot_index);
  _ ← (if decide (size ≤ ETH_MTU ∧ size ≤ Z.of_nat (length data)) then mret tt else undefined);
  let frame := slot_write src_mac dst_mac protocol data size (slot_frame slot) in
  _ ← on_blk (set_buffer (<[slot_index := mk_slot my_ticket_id frame]> slots));
  pub ← gets (λ s, publish_sequence_id (blk s));
  if decide (pub = u64 (my_ticket_id - 1)) then
    _ ← on_blk (set_publish my_ticket_id);
    _ ← modify (λ s, mk_ipc (blk s) (signal_clients (client_registry (blk s)) <$> sems s));
    mret (HEADER_SIZE + size)
  else blocked.

(** ** Receiving *)

(** Copying receive. [eintr] tells whether a signal interrupts the wait; the
    result is the return value and the bytes copied. *)
Definition receive (me : nat) (eintr : bool) (max_size : Z) : M (Z * list Z) :=
  reg ← gets (λ s, client_registry (blk s));
  my ← checked (reg !! me);
  let target := u64 (last_read my + 1) in
  wb ← gets (λ s, writer_is_blocked (blk s));
  let slowest := bool_decide (last_read my = slowest_reader reg (last_read my)) in
  if eintr then mret (0, []) else
  ok ← semop_wait (CONTROL_SEMS + me);
  if negb ok then mret (-1, []) else
  slots ← gets (λ s, buffer (blk s));
  slot ← checked (slots !! Z.to_nat (target `mod` BUFFER_SLOTS));
  if decide (slot_seq slot ≠ target) then mret (-1, []) else
  let f := slot_frame slot in
  let bytes_to_copy := Z.min (HEADER_SIZE + data_length f) max_size in
  bytes ← checked (read_mem 0 (Z.to_nat bytes_to_copy)
                     (frame_header_bytes f ++ fdata f ++ lebytes 4 (data_length f)));
  reg ← gets (λ s, client_registry (blk s));
  my ← checked (reg !! me);
  _ ← on_blk (set_registry (<[me := mk_client (cl_active my) (process_id my) target]> reg));
  _ ← (if wb && slowest then semop_signal WRITER_WAIT_SEM else mret true);
  mret (bytes_to_copy, bytes).

(** Zero-copy receive: the index of the slot, or null. *)
Definition receive_zerocopy (me : nat) (eintr : bool) (target : Z) : M (option nat) :=
  if eintr then mret None else
  ok ← semop_wait (CONTROL_SEMS + me);
  if negb ok then mret None else
  let slot_index := Z.to_nat (target `mod` BUFFER_SLOTS) in
  slots ← gets (λ s, buffer (blk s));
  slot ← checked (slots !! slot_index);
  if decide (slot_seq slot ≠ target) then mret None else mret (Some slot_index).

(** The slowest of the other active readers, starting one above our own. *)
Definition slowest_other (me : nat) (reg : list ClientState) (start : Z) : Z :=
  foldr Z.min start (imap (λ i c, if cl_active c && negb (i =? me)%nat then last_read c else start) reg).

Definition release_frame (me : nat) (sequence_id : Z) : M unit :=
  reg ← gets (λ s, client_registry (blk s));
  my ← checked (reg !! me);
  wb ← gets (λ s, writer_is_blocked (blk s));
  let slowest := bool_decide (last_read my ≤ slowest_other me reg (u64 (last_read my + 1))) in
  _ ← on_blk (set_registry (<[me := mk_client (cl_active my) (process_id my) sequence_id]> reg));
  _ ← (if wb && slowest then semop_signal WRITER_WAIT_SEM else mret true);
  mret tt.

(** ** Directory *)

(** The C string of a byte buffer, and what [strncpy] of 63 bytes keeps. *)
Fixpoint c_str (name : list Z) : list Z :=
  match name with [] => [] | c :: cs => if decide (c = 0) then [] else c :: c_str cs end.
Definition stored_name (name : list Z) : list Z := take (NAME_SIZE - 1) (c_str name).

Fixpoint find_index {A} (p : A → bool) (l : list A) : option nat :=
  match l with [] => None | x :: l => if p x then Some 0%nat else S <$> find_index p l end.

Definition registerService (pid : Z) (name : list Z) (type_id : Z) : M Z :=
  ok ← semop_wait DIRECTORY_SEM;
  if negb ok then mret 0 else
  b ← gets blk;
  match find_index (λ e, negb (de_active e)) (entries b) with
  | Some i =>
      let p := next_port_to_assign b in
      _ ← on_blk (set_directory (u16 (p + 1))
             (<[i := mk_entry true (stored_name name) type_id p pid]> (entries b)));
      _ ← semop_signal DIRECTORY_SEM; mret p
  | None => _ ← semop_signal DIRECTORY_SEM; mret 0
  end.

Definition lookupService (name : list Z) : M Z :=
  es ← gets (λ s, entries (blk s));
  mret (match find_index (λ e, de_active e && bool_decide (component_name e = c_str name)) es with
        | Some i => default 0 (assigned_port <$> es !! i) | None => 0 end).

Definition lookupServiceByType (type_id : Z) : M Z :=
  es ← gets (λ s, entries (blk s));
  mret (match find_index (λ e, de_active e && bool_decide (component_type_id e = type_id)) es with
        | Some i => default 0 (assigned_port <$> es !! i) | None => 0 end).

(** ** Session key and location *)

Definition set_session_key (k : Z) : M unit := on_blk (set_key k).
Definition get_session_key : M Z := gets (λ s, session_key (blk s)).
Definition set_location (q : Z) : M unit := on_blk (set_loc q).
Definition get_location : M Z := gets (λ s, location (blk s)).

(** ** Nearby entities, under the spin lock *)

Definition acquire_nearby : M unit :=
  b ← gets blk; if nearby_lock b then blocked else on_blk (set_lock true).
Definition clear_nearby : M unit := on_blk (set_lock false).

(** The scan [for (i = 0; i < count; ++i) if (nearby_entities[i] == addr)]. *)
Definition nearby_scan (b : SharedBlock) (a : MAC) : option nat :=
  find_index (λ m, bool_decide (m = a)) (take (Z.to_nat (nearby_count b)) (nearby_entities b)).

Definition register_nearby_entity (a : MAC) : M unit :=
  _ ← acquire_nearby;
  b ← gets blk;
  let count := nearby_count b in
  _ ← (match nearby_scan b a with
       | Some _ => mret tt
       | None =>
           if decide (count < MAX_NEARBY_ENTITIES)
           then on_blk (set_nearby (count + 1) (<[Z.to_nat count := a]> (nearby_entities b)))
           else mret tt
       end);
  clear_nearby.

Definition reset_entities_nearby : M unit :=
  _ ← acquire_nearby;
  _ ← on_blk (λ b, set_nearby 0 (nearby_entities b) b);
  clear_nearby.

Definition is_entity_nearby (a : MAC) : M bool :=
  _ ← acquire_nearby;
  b ← gets blk;
  let found := bool_decide (is_Some (nearby_scan b a)) in
  _ ← clear_nearby;
  mret found.

Definition get_entities_nearby : M (list MAC) :=
  _ ← acquire_nearby;
  b ← gets blk;
  let out := take (Z.to_nat (nearby_count b)) (nearby_entities b) in
  _ ← clear_nearby;
  mret out.

Definition unregister_nearby_entity (a : MAC) : M unit :=
  _ ← acquire_nearby;
  b ← gets blk;
  let count := nearby_count b in
  _ ← (match nearby_scan b a with
       | None => mret tt
       | Some i =>
           let l := nearby_entities b in
           let l := if decide (Z.of_nat i < count - 1)
                    then match l !! Z.to_nat (count - 1) with
                         | Some last => <[i := last]> l | None => l end
                    else l in
           on_blk (set_nearby (count - 1) l)
       end);
  clear_nearby.

(** ** Clients *)

(** [IPC_RMID] on the semaphore set, in [_cleanupAndThrow] and the destructor. *)
Definition remove_sems : M unit := modify (λ s, mk_ipc (blk s) None).

Definition cleanupAndThrow {A} (msg : string) : M A := _ ← remove_sems; throw msg.

(** The constructor's registration; the result is [_client_slot_index]. *)
Definition register_client (pid : Z) : M nat :=
  ok ← semop_wait REGISTRY_SEM;
  if negb ok then cleanupAndThrow "Failed to lock registry for registration" else
  b ← gets blk;
  match find_index (λ c, negb (cl_active c)) (client_registry b) with
  | Some i =>
      _ ← on_blk (set_registry
             (<[i := mk_client true pid (publish_sequence_id b)]> (client_registry b)));
      ok ← semop_signal REGISTRY_SEM;
      if negb ok then cleanupAndThrow "Failed to unlock registry after registration" else mret i
  | None =>
      _ ← semop_signal REGISTRY_SEM;
      cleanupAndThrow "Failed to register client: No available slots"
  end.

Definition deregister_client (me : nat) : M unit :=
  ok ← semop_wait REGISTRY_SEM;
  if negb ok then mret tt else
  reg ← gets (λ s, client_registry (blk s));
  my ← checked (reg !! me);
  _ ← on_blk (set_registry (<[me := mk_client false (process_id my) (last_read my)]> reg));
  _ ← semop_signal REGISTRY_SEM;
  mret tt.

(** The destructor: deregister; the last active client removes the IPC objects. *)
Definition destroy_engine (me : nat) : M unit :=
  _ ← deregister_client me;
  reg ← gets (λ s, client_registry (blk s));
  if existsb cl_active reg then mret tt else remove_sems.
End ops.

(** ** Bootstrap *)

(** A fresh segment is zero-filled by the kernel. *)
Definition zero_entry : DirectoryEntry := mk_entry false [] 0 0 0.
Definition zero_client : ClientState := mk_client false 0 0.
Definition zero_slot : MessageSlot := mk_slot 0 Frame_zero.

Definition init_block : SharedBlock :=
  mk_block BASE_PORT (replicate MAX_CLIENTS zero_entry) 1 0
    (replicate MAX_CLIENTS zero_client) (replicate (Z.to_nat BUFFER_SLOTS) zero_slot) false
    0 0 (replicate (Z.to_nat MAX_NEARBY_ENTITIES) MAC_default) false 0.

(** Initial values: the three locks are open, nobody waits, no message is
    pending. A semaphore whose SETVAL fails keeps the kernel's initial zero. *)
Definition initial_sems (semctl_ok : nat → bool) : list Z :=
  imap (λ i v, if semctl_ok i then v else 0) ([1; 1; 1; 0] ++ replicate MAX_CLIENTS 0).

(** [bootstrapIPC], by the results of the system calls it makes. The [break]
    in the client loop leaves only that loop. *)
Definition bootstrapIPC (shmget_ok shmat_ok semget_ok : bool) (semctl_ok : nat → bool)
    : bool * option Ipc :=
  if negb shmget_ok then (false, None)
  else if negb shmat_ok then (false, None)
  else if negb semget_ok then (false, None)
  else if negb (semctl_ok REGISTRY_SEM) then (false, None)
  else if negb (semctl_ok CLAIM_SEM) then (false, None)
  else if negb (semctl_ok DIRECTORY_SEM) then (false, None)
  else if negb (semctl_ok WRITER_WAIT_SEM) then (false, None)
  else (true, Some (mk_ipc init_block (Some (initial_sems semctl_ok)))).

(** ** First-match search *)

Lemma find_index_Some {A} (p : A → bool) l i :
  find_index p l = Some i → (∃ x, l !! i = Some x ∧ p x = true) ∧
  (∀ j x, (j < i)%nat → l !! j = Some x → p x = false).
Proof.
  revert i. induction l as [|y l IH]; intros i; simpl; [done|].
  destruct (p y) eqn:E.
  - intros [= <-]. split; [eauto|lia].
  - destruct (find_index p l) as [k|]; simpl; [|done]. intros [= <-].
    specialize (IH k eq_refl) as [H1 H2]. split; [done|].
    intros [|j] x Hj Hx; simpl in *; [naive_solver|]. eapply H2; [|done]. lia.
Qed.

Lemma find_index_None {A} (p : A → bool) l x : find_index p l = None → x ∈ l → p x = false.
Proof.
  induction l as [|y l IH]; simpl; intros Hn Hx; [by apply not_elem_of_nil in Hx|].
  destruct (p y) eqn:E; [done|]. destruct (find_index p l); [done|].
  apply elem_of_cons in Hx as [->|Hx]; auto.
Qed.

Lemma find_index_eq {A} (p : A → bool) l i x :
  l !! i = Some x → p x = true → (∀ j y, (j < i)%nat → l !! j = Some y → p y = false) →
  find_index p l = Some i.
Proof.
  revert i. induction l as [|z l IH]; intros [|i] Hx Hp Hlt; simpl in *; try done.
  - injection Hx as ->. by rewrite Hp.
  - rewrite (Hlt 0%nat z) by (done || lia). rewrite (IH i); [done..|].
    intros j y Hj Hy. apply (Hlt (S j) y); [lia|done].
Qed.

Lemma find_index_mem `{EqDecision A} (a : A) l :
  is_Some (find_index (λ m, bool_decide (m = a)) l) ↔ a ∈ l.
Proof.
  split.
  - intros [i Hi]. apply find_index_Some in Hi as [(x & Hx & Hp) _].
    apply bool_decide_eq_true in Hp as ->. by eapply list_elem_of_lookup_2.
  - intros Ha. destruct (find_index _ l) eqn:E; [done|].
    by apply (find_index_None _ _ a E), bool_decide_eq_false in Ha.
Qed.

(** ** The nearby list as a set *)

Definition nearby_list (b : SharedBlock) : list MAC :=
  take (Z.to_nat (nearby_count b)) (nearby_entities b).
Definition nearby_set (b : SharedBlock) : gset MAC := list_to_set (nearby_list b).
Definition nearby_ok (b : SharedBlock) : Prop :=
  length (nearby_entities b) = 16%nat ∧ 0 ≤ nearby_count b ≤ 16 ∧
  NoDup (nearby_list b) ∧ nearby_lock b = false.

Lemma length_nearby_list b : nearby_ok b → length (nearby_list b) = Z.to_nat (nearby_count b).
Proof. intros (Hl & Hc & _). unfold nearby_list. rewrite length_take. lia. Qed.

Lemma nearby_scan_in b a : is_Some (nearby_scan b a) ↔ a ∈ nearby_list b.
Proof. apply find_index_mem. Qed.

(** Removing element [i] of a list by moving the last element into its place. *)
Definition swap_remove {A} (i : nat) (l : list A) : list A :=
  match l !! (length l - 1)%nat with
  | Some x => take (length l - 1) (<[i := x]> l)
  | None => l
  end.

Lemma swap_remove_perm {A} (i : nat) (x : A) l :
  l !! i = Some x → l ≡ₚ x :: swap_remove i l.
Proof.
  intros Hi. unfold swap_remove. destruct l as [|y l _] using rev_ind; [done|].
  rewrite length_app. cbn [length]. rewrite Nat.add_sub.
  rewrite lookup_app_r, Nat.sub_diag by done. cbn [lookup list_lookup].
  destruct (decide (i = length l)) as [->|Hne].
  - rewrite lookup_app_r, Nat.sub_diag in Hi by done. injection Hi as ->.
    rewrite insert_app_r_alt, Nat.sub_diag by done. simpl. rewrite take_app_length.
    by rewrite Permutation_app_comm.
  - assert (i < length l)%nat.
    { apply lookup_lt_Some in Hi. rewrite length_app in Hi. simpl in Hi. lia. }
    rewrite lookup_app_l in Hi by done. rewrite insert_app_l by done.
    rewrite take_app_eq by apply length_insert.
    rewrite <- (take_drop_middle l i x Hi) at 1.
    rewrite (insert_take_drop l i y) by done. solve_Permutation.
Qed.

(** Each nearby operation takes the free lock, updates the list and frees it. *)
Lemma register_run {E} a s :
  nearby_lock (blk s) = false →
  register_nearby_entity (E := E) a s =
    (Ret tt, set_blk (λ b, match nearby_scan b a with
      | Some _ => b
      | None => if decide (nearby_count b < MAX_NEARBY_ENTITIES)
                then set_nearby (nearby_count b + 1)
                       (<[Z.to_nat (nearby_count b) := a]> (nearby_entities b)) b
                else b end) s, []).
Proof.
  destruct s as [[np es cl pu reg buf wb sk nc ne nl lo] sm]; simpl; intros ->.
  unfold register_nearby_entity, acquire_nearby, clear_nearby, on_blk. run_m.
  unfold nearby_scan, set_blk; simpl. destruct (find_index _ _); simpl; [done|].
  by case_decide.
Qed.

Lemma unregister_run {E} a s :
  nearby_lock (blk s) = false →
  unregister_nearby_entity (E := E) a s =
    (Ret tt, set_blk (λ b, match nearby_scan b a with
      | None => b
      | Some i =>
          let l := nearby_entities b in
          set_nearby (nearby_count b - 1)
            (if decide (Z.of_nat i < nearby_count b - 1)
             then match l !! Z.to_nat (nearby_count b - 1) with
                  | Some last => <[i := last]> l | None => l end
             else l) b end) s, []).
Proof.
  destruct s as [[np es cl pu reg buf wb sk nc ne nl lo] sm]; simpl; intros ->.
  unfold unregister_nearby_entity, acquire_nearby, clear_nearby, on_blk. run_m.
  unfold nearby_scan, set_blk; simpl. by destruct (find_index _ _).
Qed.

Lemma reset_run {E} s :
  nearby_lock (blk s) = false →
  reset_entities_nearby (E := E) s =
    (Ret tt, set_blk (λ b, set_nearby 0 (nearby_entities b) b) s, []).
Proof.
  destruct s as [[np es cl pu reg buf wb sk nc ne nl lo] sm]; simpl; intros ->. done.
Qed.

Lemma is_nearby_run {E} a s :
  nearby_lock (blk s) = false →
  is_entity_nearby (E := E) a s = (Ret (bool_decide (is_Some (nearby_scan (blk s) a))), s, []).
Proof.
  destruct s as [[np es cl pu reg buf wb sk nc ne nl lo] sm]; simpl; intros ->. done.
Qed.

Lemma get_nearby_run {E} s :
  nearby_lock (blk s) = false →
  get_entities_nearby (E := E) s = (Ret (nearby_list (blk s)), s, []).
Proof.
  destruct s as [[np es cl pu reg buf wb sk nc ne nl lo] sm]; simpl; intros ->. done.
Qed.

(** What the updates do to the list. *)
Lemma nearby_list_append b a :
  nearby_ok b → nearby_count b < 16 →
  nearby_list (set_nearby (nearby_count b + 1)
    (<[Z.to_nat (nearby_count b) := a]> (nearby_entities b)) b) = nearby_list b ++ [a].
Proof.
  intros (Hl & Hc & _) Hlt. unfold nearby_list; simpl.
  replace (Z.to_nat (nearby_count b + 1)) with (S (Z.to_nat (nearby_count b))) by lia.
  rewrite (take_S_r _ _ a) by (apply list_lookup_insert_eq; lia).
  by rewrite take_insert_ge by lia.
Qed.

Lemma nearby_list_remove b i :
  nearby_ok b → (i < Z.to_nat (nearby_count b))%nat →
  nearby_list (set_nearby (nearby_count b - 1)
    (if decide (Z.of_nat i < nearby_count b - 1)
     then match nearby_entities b !! Z.to_nat (nearby_count b - 1) with
          | Some last => <[i := last]> (nearby_entities b) | None => nearby_entities b end
     else nearby_entities b) b) = swap_remove i (nearby_list b).
Proof.
  intros Hok Hi. pose proof (length_nearby_list b Hok) as Hll. destruct Hok as (Hl & Hc & _).
  unfold swap_remove. rewrite Hll. unfold nearby_list at 1; cbn [nearby_count nearby_entities set_nearby].
  replace (Z.to_nat (nearby_count b - 1)) with (Z.to_nat (nearby_count b) - 1)%nat by lia.
  set (n := Z.to_nat (nearby_count b)) in *.
  destruct (lookup_lt_is_Some_2 (nearby_entities b) (n - 1)) as [x Hx]; [lia|].
  unfold nearby_list. fold n. rewrite lookup_take_lt, Hx by lia.
  case_decide.
  - rewrite !take_insert_lt, take_take by lia. do 2 f_equal. lia.
  - assert (i = n - 1)%nat as -> by lia.
    rewrite (take_insert_ge (take n _)) by lia. rewrite take_take. f_equal. lia.
Qed.

Lemma nearby_set_perm b l : NoDup (nearby_list b) → nearby_list b ≡ₚ l →
  nearby_set b = list_to_set l.
Proof. intros _ Hp. unfold nearby_set. apply leibniz_equiv. by rewrite Hp. Qed.

Lemma size_nearby_set b : nearby_ok b → size (nearby_set b) = Z.to_nat (nearby_count b).
Proof.
  intros Hok. unfold nearby_set. rewrite size_list_to_set by apply Hok. by apply length_nearby_list.
Qed.

Lemma elem_of_nearby_set b a : a ∈ nearby_set b ↔ a ∈ nearby_list b.
Proof. apply elem_of_list_to_set. Qed.

Lemma nearby_register_ok {E} a s :
  nearby_ok (blk s) →
  ∃ s', register_nearby_entity (E := E) a s = (Ret tt, s', []) ∧ nearby_ok (blk s') ∧
    nearby_set (blk s') =
      (if decide (a ∈ nearby_set (blk s) ∨ (size (nearby_set (blk s)) < 16)%nat)
       then {[a]} ∪ nearby_set (blk s) else nearby_set (blk s)).
Proof.
  intros Hok. eexists. split; [apply register_run, Hok|]. simpl.
  rewrite (size_nearby_set _ Hok). pose proof (nearby_scan_in (blk s) a) as Hin.
  rewrite <- elem_of_nearby_set in Hin. pose proof Hok as (Hl & Hc & Hnd & Hlock).
  destruct (nearby_scan (blk s) a) as [i|].
  { assert (a ∈ nearby_set (blk s)) by (by apply Hin; eauto). split; [done|].
    rewrite decide_True by (by left). set_solver. }
  assert (a ∉ nearby_set (blk s)) as Ha by (by intros [? ?]%Hin).
  case_decide as Hlt; unfold MAX_NEARBY_ENTITIES in Hlt.
  - rewrite decide_True by (right; lia).
    pose proof (nearby_list_append (blk s) a Hok ltac:(lia)) as Happ.
    split; [split; [|split; [|split]]|].
    + simpl. by rewrite length_insert.
    + simpl. lia.
    + rewrite Happ. apply NoDup_app. split; [done|]. split.
      * intros x Hx. rewrite list_elem_of_singleton. intros ->. by rewrite <- elem_of_nearby_set in Hx.
      * apply NoDup_singleton.
    + done.
    + unfold nearby_set at 1. rewrite Happ, list_to_set_app_L. simpl. set_solver.
  - rewrite decide_False; [done|]. intros [|]; [done|lia].
Qed.

Lemma nearby_unregister_ok {E} a s :
  nearby_ok (blk s) →
  ∃ s', unregister_nearby_entity (E := E) a s = (Ret tt, s', []) ∧ nearby_ok (blk s') ∧
    nearby_set (blk s') = nearby_set (blk s) ∖ {[a]}.
Proof.
  intros Hok. eexists. split; [apply unregister_run, Hok|]. simpl.
  pose proof (nearby_scan_in (blk s) a) as Hin. rewrite <- elem_of_nearby_set in Hin.
  destruct (nearby_scan (blk s) a) as [i|] eqn:Hs.
  2:{ split; [done|]. assert (a ∉ nearby_set (blk s)) by (by intros [? ?]%Hin). set_solver. }
  apply find_index_Some in Hs as [(x & Hx & ->%bool_decide_eq_true) _].
  fold (nearby_list (blk s)) in Hx.
  assert (i < Z.to_nat (nearby_count (blk s)))%nat as Hi.
  { rewrite <- length_nearby_list by done. by eapply lookup_lt_Some. }
  pose proof (nearby_list_remove (blk s) i Hok Hi) as Hrem. cbv zeta.
  pose proof (swap_remove_perm i a _ Hx) as Hp.
  pose proof Hok as (Hl & Hc & Hnd & Hlock). rewrite Hp in Hnd.
  apply NoDup_cons in Hnd as [Hni Hnd].
  split; [split; [|split; [|split]]|].
  - simpl. case_decide; [|done]. case_match; [by rewrite length_insert|done].
  - simpl. lia.
  - by rewrite Hrem.
  - done.
  - unfold nearby_set at 1. rewrite Hrem.
    assert (nearby_set (blk s) = {[a]} ∪ list_to_set (swap_remove i (nearby_list (blk s)))) as ->.
    { unfold nearby_set. apply leibniz_equiv. by rewrite Hp at 1. }
    assert (a ∉ (list_to_set (swap_remove i (nearby_list (blk s))) : gset MAC))
      by (by rewrite elem_of_list_to_set). set_solver.
Qed.

Lemma nearby_reset_ok {E} s :
  nearby_ok (blk s) →
  ∃ s', reset_entities_nearby (E := E) s = (Ret tt, s', []) ∧ nearby_ok (blk s') ∧
    nearby_set (blk s') = ∅.
Proof.
  intros Hok. eexists. split; [apply reset_run, Hok|]. simpl. destruct Hok as (Hl & Hc & Hnd & Hk).
  split; [|done]. split; [done|]. split; [simpl; lia|]. split; [apply NoDup_nil_2|done].
Qed.

(** ** Semaphores *)

Definition sem_is (i : nat) (n : Z) (s : Ipc) : Prop := (l ← sems s; l !! i) = Some n.
Definition set_sem (i : nat) (n : Z) (s : Ipc) : Ipc := mk_ipc (blk s) ((λ l, <[i := n]> l) <$> sems s).

Lemma semop_wait_run {E} i n s :
  sem_is i n s →
  semop_wait (E := E) i s = (if decide (0 < n) then (Ret true, set_sem i (n - 1) s, [])
                             else (Blocked, s, [])).
Proof.
  unfold sem_is, semop_wait. run_m. destruct (sems s) as [l|] eqn:El; simpl; [|done].
  intros Hl. rewrite Hl. unfold set_sem. rewrite El. by case_decide.
Qed.

Lemma semop_signal_run {E} i n s :
  sem_is i n s → semop_signal (E := E) i s = (Ret true, set_sem i (n + 1) s, []).
Proof.
  unfold sem_is, semop_signal. run_m. destruct (sems s) as [l|] eqn:El; simpl; [|done].
  intros Hl. rewrite Hl. unfold set_sem. by rewrite El.
Qed.

Lemma sem_is_set i n m s : sem_is i n s → sem_is i m (set_sem i m s).
Proof.
  unfold sem_is, set_sem. destruct (sems s) as [l|]; simpl; [|done].
  intros Hl. apply list_lookup_insert_eq. by eapply lookup_lt_Some.
Qed.

Lemma set_sem_undo i n m s : sem_is i n s → set_sem i n (set_sem i m s) = s.
Proof.
  unfold sem_is, set_sem. destruct s as [b [l|]]; simpl; [|done]. intros Hl.
  by rewrite list_insert_insert_eq, list_insert_id.
Qed.

Lemma sem_is_blk i n f s : sem_is i n s → sem_is i n (set_blk f s).
Proof. done. Qed.
Lemma set_sem_blk i n f s : set_sem i n (set_blk f s) = set_blk f (set_sem i n s).
Proof. done. Qed.

Lemma semop_removed {E} i s :
  sems s = None → semop_wait (E := E) i s = (Ret false, s, []) ∧
                  semop_signal (E := E) i s = (Ret false, s, []).
Proof. intros Hs. unfold semop_wait, semop_signal. run_m. by rewrite Hs. Qed.

(** ** The directory *)

(** [n] services are registered, in the first [n] entries, with the ports
    1000 .. 1000 + n - 1. *)
Definition dir_ok (n : nat) (b : SharedBlock) : Prop :=
  (n ≤ 16)%nat ∧ length (entries b) = 16%nat ∧ next_port_to_assign b = BASE_PORT + Z.of_nat n ∧
  ∀ i e, entries b !! i = Some e →
    de_active e = bool_decide (i < n)%nat ∧
    ((i < n)%nat → assigned_port e = BASE_PORT + Z.of_nat i).

Lemma dir_free n b : dir_ok n b →
  find_index (λ e, negb (de_active e)) (entries b) = (if decide (n < 16)%nat then Some n else None).
Proof.
  intros (Hn & Hl & _ & He). case_decide.
  - destruct (lookup_lt_is_Some_2 (entries b) n) as [e Hne]; [lia|].
    apply (find_index_eq _ _ _ e); [done| |].
    + destruct (He _ _ Hne) as [-> _]. by rewrite bool_decide_false by lia.
    + intros j e' Hj Hje. destruct (He _ _ Hje) as [-> _]. by rewrite bool_decide_true by lia.
  - destruct (find_index _ _) as [i|] eqn:E; [|done].
    apply find_index_Some in E as [(e & Hi & Ha) _]. destruct (He _ _ Hi) as [Hact _].
    apply lookup_lt_Some in Hi. rewrite Hact, bool_decide_true in Ha by lia. done.
Qed.

Lemma registerService_run {E} pid name ty n s :
  dir_ok n (blk s) → sem_is DIRECTORY_SEM 1 s →
  registerService (E := E) pid name ty s =
    (if decide (n < 16)%nat
     then (Ret (BASE_PORT + Z.of_nat n),
           set_blk (set_directory (BASE_PORT + Z.of_nat (S n))
             (<[n := mk_entry true (stored_name name) ty (BASE_PORT + Z.of_nat n) pid]>
                (entries (blk s)))) s, [])
     else (Ret 0, s, [])).
Proof.
  intros Hd Hs. pose proof (dir_free n _ Hd) as Hf. destruct Hd as (Hn & Hl & Hp & He).
  unfold registerService. rewrite (bind_pure _ _ _ _ _ (semop_wait_run _ _ _ Hs)). cbn [negb].
  mstep. change (blk (set_sem DIRECTORY_SEM (1 - 1) s)) with (blk s). rewrite Hf.
  pose proof (sem_is_set _ _ (1 - 1) _ Hs) as Hs'. case_decide.
  - rewrite Hp. unfold on_blk. mstep.
    rewrite (bind_pure _ _ _ _ _ (semop_signal_run _ _ _ (sem_is_blk _ _ _ _ Hs'))).
    rewrite set_sem_blk, Z.sub_add, (set_sem_undo _ 1) by done.
    replace (u16 (BASE_PORT + Z.of_nat n + 1)) with (BASE_PORT + Z.of_nat (S n)); [done|].
    rewrite u16_small; unfold is_u, BASE_PORT; lia.
  - rewrite (bind_pure _ _ _ _ _ (semop_signal_run _ _ _ Hs')).
    by rewrite Z.sub_add, (set_sem_undo _ 1).
Qed.

Lemma dir_ok_register n b name ty pid :
  dir_ok n b → (n < 16)%nat →
  dir_ok (S n) (set_directory (BASE_PORT + Z.of_nat (S n))
    (<[n := mk_entry true (stored_name name) ty (BASE_PORT + Z.of_nat n) pid]> (entries b)) b).
Proof.
  intros (Hn & Hl & Hp & He) Hlt. split; [lia|]. split; [by cbn; rewrite length_insert|].
  split; [done|]. intros i e Hi. cbn in Hi. apply list_lookup_insert_Some in Hi as [(-> & <- & _)|[Hne Hi]].
  - simpl. by rewrite bool_decide_true by lia.
  - destruct (He _ _ Hi) as [Ha Hport]. rewrite Ha. split.
    + apply bool_decide_ext. lia.
    + intros. apply Hport. lia.
Qed.

Lemma c_str_stored name : (length (c_str name) < 64)%nat → stored_name name = c_str name.
Proof. intros ?. unfold stored_name, NAME_SIZE. apply take_ge. lia. Qed.

Lemma lookupService_run {E} name s :
  lookupService (E := E) name s =
    (Ret (match find_index (λ e, de_active e && bool_decide (component_name e = c_str name))
                  (entries (blk s)) with
          | Some i => default 0 (assigned_port <$> entries (blk s) !! i) | None => 0 end), s, []).
Proof. unfold lookupService. by mstep. Qed.

Lemma lookupServiceByType_run {E} ty s :
  lookupServiceByType (E := E) ty s =
    (Ret (match find_index (λ e, de_active e && bool_decide (component_type_id e = ty))
                  (entries (blk s)) with
          | Some i => default 0 (assigned_port <$> entries (blk s) !! i) | None => 0 end), s, []).
Proof. unfold lookupServiceByType. by mstep. Qed.

(** ** Clients *)

Lemma register_client_run {E} pid s :
  sem_is REGISTRY_SEM 1 s →
  register_client (E := E) pid s =
    match find_index (λ c, negb (cl_active c)) (client_registry (blk s)) with
    | Some i => (Ret i, set_blk (λ b, set_registry
        (<[i := mk_client true pid (publish_sequence_id b)]> (client_registry b)) b) s, [])
    | None => (Throw "Failed to register client: No available slots", mk_ipc (blk s) None, [])
    end.
Proof.
  intros Hs. unfold register_client. rewrite (bind_pure _ _ _ _ _ (semop_wait_run _ _ _ Hs)).
  cbn [negb]. mstep. change (blk (set_sem REGISTRY_SEM (1 - 1) s)) with (blk s).
  pose proof (sem_is_set _ _ (1 - 1) _ Hs) as Hs'. destruct (find_index _ _).
  - unfold on_blk. mstep.
    rewrite (bind_pure _ _ _ _ _ (semop_signal_run _ _ _ (sem_is_blk _ _ _ _ Hs'))).
    by rewrite set_sem_blk, Z.sub_add, (set_sem_undo _ 1).
  - by rewrite (bind_pure _ _ _ _ _ (semop_signal_run _ _ _ Hs')).
Qed.

Lemma send_removed {E} src dst proto data size s :
  sems s = None → send (E := E) src dst proto data size s = (Ret (-1), s, []).
Proof. intros Hs. unfold send. by rewrite (bind_pure _ _ _ _ _ (proj1 (semop_removed _ _ Hs))). Qed.

Lemma receive_zerocopy_removed {E} me target s :
  sems s = None → receive_zerocopy (E := E) me false target s = (Ret None, s, []).
Proof.
  intros Hs. unfold receive_zerocopy.
  by rewrite (bind_pure _ _ _ _ _ (proj1 (semop_removed _ _ Hs))).
Qed.

(** ** Sending, when the slot is free and no other writer is between claiming
    and publishing *)

Definition sems_ok (s : Ipc) : Prop :=
  ∃ l, sems s = Some l ∧ length l = 20%nat ∧ l !! CLAIM_SEM = Some 1 ∧ ∀ i n, l !! i = Some n → 0 ≤ n.

Definition ring_ok (b : SharedBlock) : Prop :=
  length (buffer b) = 32%nat ∧ length (client_registry b) = 16%nat ∧
  (∀ i sl, buffer b !! i = Some sl → length (fdata (slot_frame sl)) = 1500%nat) ∧
  0 ≤ publish_sequence_id b < 2 ^ 63 ∧ claim_sequence_id b = publish_sequence_id b + 1.

Lemma wait_slot_free {E} fuel ticket s :
  slot_free (client_registry (blk s)) ticket = true →
  wait_slot (E := E) (S fuel) ticket s = (Ret true, set_blk (set_blocked false) s, []).
Proof. intros Hf. cbn [wait_slot]. mstep. rewrite Hf. unfold on_blk. by mstep. Qed.

Lemma wait_slot_fuel {E} s0 ticket s :
  slot_free (client_registry (blk s)) ticket = true →
  wait_slot (E := E) (wait_fuel s0) ticket s = (Ret true, set_blk (set_blocked false) s, []).
Proof. apply wait_slot_free. Qed.

(** The state after a send: the frame in its slot, the counters advanced by
    one, one token for every active client. *)
Definition sent (frame : Frame) (s : Ipc) : Ipc :=
  let t := claim_sequence_id (blk s) in
  mk_ipc (set_publish t (set_buffer (<[Z.to_nat (t `mod` BUFFER_SLOTS) := mk_slot t frame]>
            (buffer (blk s))) (set_blocked false (set_claim (t + 1) (blk s)))))
    (signal_clients (client_registry (blk s)) <$> sems s).

Lemma send_free {E} src dst proto data size s sl :
  sems_ok s → ring_ok (blk s) →
  slot_free (client_registry (blk s)) (claim_sequence_id (blk s)) = true →
  0 ≤ size ≤ ETH_MTU → size ≤ Z.of_nat (length data) →
  buffer (blk s) !! Z.to_nat (claim_sequence_id (blk s) `mod` BUFFER_SLOTS) = Some sl →
  send (E := E) src dst proto data size s =
    (Ret (HEADER_SIZE + size),
     sent (slot_write src dst proto data size (slot_frame sl)) s, []).
Proof.
  intros (l & Hl & Hlen & Hclaim & Hnn) (Hb & Hreg & Hfr & Hpub & Hcl) Hfree Hsz Hdata Hslot.
  assert (sem_is CLAIM_SEM 1 s) as Hc by (unfold sem_is; by rewrite Hl).
  unfold send. rewrite (bind_pure _ _ _ _ _ (semop_wait_run _ _ _ Hc)). cbn [negb]. mstep.
  unfold on_blk. mstep. change (blk (set_sem CLAIM_SEM (1 - 1) s)) with (blk s).
  pose proof (sem_is_set _ _ (1 - 1) _ Hc) as Hc'.
  rewrite (bind_pure _ _ _ _ _ (semop_signal_run _ _ _ (sem_is_blk _ _ _ _ Hc'))).
  rewrite set_sem_blk, Z.sub_add, (set_sem_undo _ 1) by done. cbn [negb]. mstep.
  rewrite (bind_pure _ _ _ _ _ (wait_slot_fuel _ _ (set_blk (set_claim (u64 (claim_sequence_id (blk s) + 1))) s) Hfree)). cbn [negb]. mstep.
  change (buffer (blk (set_blk (set_blocked false)
    (set_blk (set_claim (u64 (claim_sequence_id (blk s) + 1))) s)))) with (buffer (blk s)).
  rewrite Hslot. mstep. rewrite decide_True by lia. mstep.
  cbn [blk set_blk set_buffer set_blocked set_claim publish_sequence_id].
  rewrite u64_small by (unfold is_u; lia). rewrite (u64_small (_ + 1)) by (unfold is_u; lia).
  rewrite decide_True by lia. mstep. done.
Qed.

Lemma slot_in_range b t : ring_ok b → 0 ≤ t →
  ∃ sl, buffer b !! Z.to_nat (t `mod` BUFFER_SLOTS) = Some sl ∧
        length (fdata (slot_frame sl)) = 1500%nat.
Proof.
  intros (Hb & _ & Hfr & _) Ht. pose proof (Z.mod_pos_bound t BUFFER_SLOTS) as Hm.
  unfold BUFFER_SLOTS in *. specialize (Hm ltac:(lia)).
  destruct (lookup_lt_is_Some_2 (buffer b) (Z.to_nat (t `mod` 32))) as [sl Hsl]; [lia|]. eauto.
Qed.

Lemma length_slot_write src dst proto data size old :
  length (fdata old) = 1500%nat → 0 ≤ size ≤ ETH_MTU →
  length (fdata (slot_write src dst proto data size old)) = 1500%nat.
Proof.
  intros Hl Hs. unfold slot_write; simpl. rewrite length_splice; [done|].
  rewrite length_take. unfold ETH_MTU in *. lia.
Qed.

Lemma ring_ok_sent f s :
  ring_ok (blk s) → publish_sequence_id (blk s) + 1 < 2 ^ 63 → length (fdata f) = 1500%nat →
  ring_ok (blk (sent f s)).
Proof.
  intros (Hb & Hr & Hfr & Hp & Hc) Hlt Hf. unfold sent; simpl.
  split; [simpl; by rewrite length_insert|]. split; [done|]. split; [|simpl; lia].
  intros i sl Hi. simpl in Hi. apply list_lookup_insert_Some in Hi as [(_ & <- & _)|[_ Hi]];
    [done|]. by eapply Hfr.
Qed.

Lemma signal_clients_lookup reg l i c n :
  reg !! i = Some c → l !! (CONTROL_SEMS + i)%nat = Some n →
  signal_clients reg l !! (CONTROL_SEMS + i)%nat = Some (if cl_active c then n + 1 else n).
Proof.
  intros Hi Hn. unfold signal_clients. rewrite list_lookup_imap, Hn. cbn [fmap option_fmap option_map].
  rewrite (proj2 (Nat.leb_le _ _)) by lia.
  replace (CONTROL_SEMS + i - CONTROL_SEMS)%nat with i by lia. by rewrite Hi.
Qed.

Lemma sems_ok_sent f s : sems_ok s → sems_ok (sent f s).
Proof.
  intros (l & Hl & Hlen & Hc & Hnn). exists (signal_clients (client_registry (blk s)) l).
  unfold sent; simpl. rewrite Hl. split; [done|]. unfold signal_clients.
  split; [by rewrite length_imap|]. split.
  - rewrite list_lookup_imap, Hc. done.
  - intros i n. rewrite list_lookup_imap. destruct (l !! i) as [m|] eqn:E; [|done].
    apply Hnn in E. cbn. intros [= <-]. repeat case_match; lia.
Qed.

(** The wait loop's fuel is enough: more fuel changes nothing. *)
Lemma wait_slot_more {E} n : ∀ ticket s k,
  (wait_fuel s ≤ n)%nat → wait_slot (E := E) (n + k) ticket s = wait_slot n ticket s.
Proof.
  induction n as [|n IH]; intros ticket s k Hn; [unfold wait_fuel in Hn; lia|].
  cbn [Nat.add wait_slot]. mstep. destruct (slot_free _ _); [done|]. unfold on_blk. mstep.
  set (s' := set_blk (set_blocked true) s).
  destruct (sems s) as [l|] eqn:Hs.
  2:{ assert (sems s' = None) as Hs' by done.
      by rewrite !(bind_pure _ _ _ _ _ (proj1 (semop_removed _ _ Hs'))). }
  destruct (l !! WRITER_WAIT_SEM) as [t|] eqn:Ht.
  2:{ unfold semop_wait. mstep. subst s'; simpl. rewrite Hs, Ht. by mstep. }
  assert (sem_is WRITER_WAIT_SEM t s') as Hsem by (unfold sem_is; simpl; by rewrite Hs).
  pose proof (semop_wait_run (E := E) _ _ _ Hsem) as Hrun. case_decide.
  - rewrite !(bind_pure _ _ _ _ _ Hrun). apply IH.
    unfold wait_fuel in *. rewrite Hs in Hn. simpl in Hn. rewrite Ht in Hn. simpl in Hn.
    pose proof (sem_is_set _ _ (t - 1) _ Hsem) as H'. unfold sem_is in H'. rewrite H'. simpl. lia.
  - unfold mbind, M_bind. by rewrite Hrun.
Qed.

(** ** Slots that are free *)

Lemma slowest_ge reg lo : ∀ t,
  lo ≤ t → (∀ i c, reg !! i = Some c → cl_active c = true → lo ≤ last_read c) →
  lo ≤ slowest_reader reg t.
Proof.
  unfold slowest_reader. induction reg as [|c reg IH]; intros t Ht Hall; [done|]. cbn [fold_left].
  apply IH; [|intros i x Hi; apply (Hall (S i) x Hi)].
  destruct (cl_active c) eqn:Ha; [|done]. pose proof (Hall 0%nat c eq_refl Ha). lia.
Qed.

Lemma slowest_le reg : ∀ t, slowest_reader reg t ≤ t.
Proof.
  unfold slowest_reader. induction reg as [|c reg IH]; intros t; [done|]. cbn [fold_left].
  etransitivity; [apply IH|]. destruct (cl_active c); lia.
Qed.

Lemma slot_free_close reg t :
  is_u 64 t → (∀ i c, reg !! i = Some c → cl_active c = true → t - 31 ≤ last_read c) →
  slot_free reg t = true.
Proof.
  intros Ht Hall. unfold slot_free. apply orb_true_iff. right. apply bool_decide_eq_true.
  pose proof (slowest_ge reg (t - 31) t ltac:(lia) Hall). pose proof (slowest_le reg t).
  unfold u64, BUFFER_SLOTS. rewrite Z.mod_small; lia.
Qed.
