(* ===== verification/ShmProps.v ===== *)
(** What the shared-memory engine promises its clients, call by call. *)
From S2P Require Import Prelude Ethernet Shm.
Local Open Scope Z_scope.

(** C33. The nearby list implements a set of at most sixteen addresses: under
    the spin lock, registering adds the address unless the set is full,
    unregistering removes it (swapping the last entry into its place),
    resetting empties it, the query and the listing answer for exactly that
    set, and every operation keeps the list duplicate-free and frees the lock. *)
Theorem nearby_refines_set {E} (a : MAC) (s : Ipc) :
  nearby_ok (blk s) →
  let S := nearby_set (blk s) in
  (∃ s', register_nearby_entity (E := E) a s = (Ret tt, s', []) ∧ nearby_ok (blk s') ∧
     nearby_set (blk s') = if decide (a ∈ S ∨ (size S < 16)%nat) then {[a]} ∪ S else S) ∧
  (∃ s', unregister_nearby_entity (E := E) a s = (Ret tt, s', []) ∧ nearby_ok (blk s') ∧
     nearby_set (blk s') = S ∖ {[a]}) ∧
  (∃ s', reset_entities_nearby (E := E) s = (Ret tt, s', []) ∧ nearby_ok (blk s') ∧
     nearby_set (blk s') = ∅) ∧
  is_entity_nearby (E := E) a s = (Ret (bool_decide (a ∈ S)), s, []) ∧
  (∃ l, get_entities_nearby (E := E) s = (Ret l, s, []) ∧ NoDup l ∧ list_to_set l = S).
Proof.
  intros Hok. cbv zeta. split; [by apply nearby_register_ok|].
  split; [by apply nearby_unregister_ok|]. split; [by apply nearby_reset_ok|]. split.
  - rewrite is_nearby_run by apply Hok. do 3 f_equal. apply bool_decide_ext.
    rewrite nearby_scan_in. by rewrite elem_of_nearby_set.
  - exists (nearby_list (blk s)). rewrite get_nearby_run by apply Hok.
    split; [done|]. split; [apply Hok|done].
Qed.

Lemma nearby_refines_set_witness :
  let s := mk_ipc (set_nearby 2 (<[0%nat := BROADCAST_ADDR]> (nearby_entities init_block)) init_block)
             None in
  ∃ s', unregister_nearby_entity (E := unit) BROADCAST_ADDR s = (Ret tt, s', []) ∧
    nearby_ok (blk s') ∧ nearby_set (blk s') = nearby_set (blk s) ∖ {[BROADCAST_ADDR]}.
Proof.
  apply (nearby_refines_set (E := unit) BROADCAST_ADDR).
  split; [reflexivity|]. split; [vm_compute; split; congruence|]. split; [|reflexivity].
  apply (bool_decide_unpack _). vm_compute. exact I.
Defined.

(** Service registration: with [n] services registered and the directory
    lock free, the next registration gets port 1000 + n (non-zero, different
    from every port given before), leaves the other entries alone and frees the
    lock; the seventeenth is refused with 0. A name shorter than 64 bytes that
    is new is then found by name; a longer one is stored truncated and its
    lookup misses it. *)
Theorem directory_register {E} (pid : Z) (name : list Z) (ty : Z) (n : nat) (s : Ipc) :
  dir_ok n (blk s) → sem_is DIRECTORY_SEM 1 s →
  (n = 16%nat → registerService (E := E) pid name ty s = (Ret 0, s, [])) ∧
  ((n < 16)%nat → ∃ s',
     registerService (E := E) pid name ty s = (Ret (1000 + Z.of_nat n), s', []) ∧
     dir_ok (Datatypes.S n) (blk s') ∧ sems s' = sems s ∧
     (∀ i, i ≠ n → entries (blk s') !! i = entries (blk s) !! i) ∧
     ((length (c_str name) < 64)%nat →
      (∀ i e, entries (blk s) !! i = Some e → de_active e = true → component_name e ≠ c_str name) →
      lookupService (E := E) name s' = (Ret (1000 + Z.of_nat n), s', [])) ∧
     ((64 ≤ length (c_str name))%nat →
      (∀ i e, entries (blk s) !! i = Some e → (length (component_name e) < 64)%nat) →
      lookupService (E := E) name s' = (Ret 0, s', []))).
Proof.
  intros Hd Hs. pose proof (registerService_run (E := E) pid name ty n s Hd Hs) as Hrun. split.
  { intros ->. by rewrite Hrun. }
  intros Hn. rewrite decide_True in Hrun by done. eexists. split; [exact Hrun|].
  pose proof (dir_ok_register n (blk s) name ty pid Hd Hn) as Hd'.
  split; [exact Hd'|]. split; [done|]. split; [intros i Hi; by apply list_lookup_insert_ne|].
  destruct Hd as (_ & Hl & _ & He). split.
  - intros Hlen Hnew. rewrite lookupService_run. cbn [blk set_blk set_directory entries].
    rewrite (find_index_eq _ _ n (mk_entry true (stored_name name) ty (BASE_PORT + Z.of_nat n) pid)).
    + rewrite list_lookup_insert_eq by lia. done.
    + apply list_lookup_insert_eq. lia.
    + simpl. rewrite c_str_stored by done. by apply bool_decide_eq_true.
    + intros j e Hj Hje. rewrite list_lookup_insert_ne in Hje by lia.
      destruct (de_active e) eqn:Ha; [|done]. simpl. apply bool_decide_eq_false. eauto.
  - intros Hlen Hshort. rewrite lookupService_run. cbn [blk set_blk set_directory entries].
    destruct (find_index _ _) as [i|] eqn:Ef; [|done]. exfalso.
    apply find_index_Some in Ef as [(e & Hi & Ha) _].
    apply andb_true_iff in Ha as [_ Ha%bool_decide_eq_true].
    apply list_lookup_insert_Some in Hi as [(-> & <- & _)|[_ Hi]].
    + simpl in Ha. apply (f_equal length) in Ha. unfold stored_name, NAME_SIZE in Ha.
      rewrite length_take in Ha. lia.
    + specialize (Hshort _ _ Hi). rewrite Ha in Hshort. lia.
Qed.

Definition fresh_ipc : Ipc := mk_ipc init_block (Some (initial_sems (λ _, true))).

Lemma dir_ok_init : dir_ok 0 (blk fresh_ipc).
Proof.
  split; [lia|]. split; [done|]. split; [done|]. intros i e Hi. simpl in Hi.
  apply (lookup_replicate_1 16 zero_entry) in Hi as [-> _]. split; [done|lia].
Qed.

Lemma directory_register_witness :
  ∃ s', registerService (E := unit) 7 [84; 101] 5 fresh_ipc = (Ret 1000, s', []) ∧
        dir_ok 1 (blk s') ∧ lookupService (E := unit) [84; 101] s' = (Ret 1000, s', []).
Proof.
  destruct (directory_register (E := unit) 7 [84; 101] 5 0 fresh_ipc) as [_ H].
  - exact dir_ok_init.
  - reflexivity.
  - destruct H as (s' & H1 & H2 & _ & _ & H3 & _); [lia|].
    exists s'. split; [exact H1|]. split; [exact H2|]. apply H3.
    + simpl. lia.
    + intros i e Hi Ha. apply (lookup_replicate_1 16 zero_entry) in Hi as [-> _]. discriminate.
Defined.

(** Registering a client: with a free slot the process gets the first
    inactive one, marked active and starting at the current publish counter.
    With all sixteen taken the constructor throws, and its cleanup removes the
    semaphore set, after which every send of every process returns -1 and every
    zero-copy receive returns null. *)
Theorem register_client_full_breaks_ipc {E} (pid : Z) (s : Ipc) :
  sem_is REGISTRY_SEM 1 s → length (client_registry (blk s)) = 16%nat →
  (∀ i c, client_registry (blk s) !! i = Some c → cl_active c = false →
     ∃ j s', register_client (E := E) pid s = (Ret j, s', []) ∧ (j ≤ i)%nat ∧ sems s' = sems s ∧
       client_registry (blk s')
         = <[j := mk_client true pid (publish_sequence_id (blk s))]> (client_registry (blk s))) ∧
  ((∀ i c, client_registry (blk s) !! i = Some c → cl_active c = true) →
     ∃ s', register_client (E := E) pid s
             = (Throw "Failed to register client: No available slots", s', []) ∧
       (∀ src dst proto data size,
          send (E := E) src dst proto data size s' = (Ret (-1), s', [])) ∧
       (∀ me target, receive_zerocopy (E := E) me false target s' = (Ret None, s', []))).
Proof.
  intros Hs Hlen. pose proof (register_client_run (E := E) pid s Hs) as Hrun. split.
  - intros i c Hi Hc. destruct (find_index _ _) as [j|] eqn:Ef.
    + exists j. eexists. split; [exact Hrun|]. split; [|done].
      apply find_index_Some in Ef as [_ Hfirst]. destruct (decide (j ≤ i)%nat); [done|].
      specialize (Hfirst i c ltac:(lia) Hi). by rewrite Hc in Hfirst.
    + apply (find_index_None _ _ c) in Ef; [simpl in Ef; by rewrite Hc in Ef|].
      by eapply list_elem_of_lookup_2.
  - intros Hall. destruct (find_index _ _) as [j|] eqn:Ef.
    + apply find_index_Some in Ef as [(c & Hc & Ha) _]. by rewrite (Hall _ _ Hc) in Ha.
    + eexists. split; [exact Hrun|]. split; intros.
      * by apply send_removed.
      * by apply receive_zerocopy_removed.
Qed.

Lemma register_client_full_breaks_ipc_witness :
  ∃ s', register_client (E := unit) 99
          (set_blk (set_registry (replicate 16 (mk_client true 1 0))) fresh_ipc)
          = (Throw "Failed to register client: No available slots", s', []) ∧
    send (E := unit) None LOCAL_ADDR 1 [1] 1 s' = (Ret (-1), s', []).
Proof.
  destruct (register_client_full_breaks_ipc (E := unit) 99
    (set_blk (set_registry (replicate 16 (mk_client true 1 0))) fresh_ipc)) as [_ H].
  - reflexivity.
  - reflexivity.
  - destruct H as (s' & H1 & H2 & _).
    + intros i c Hi. apply (lookup_replicate_1 16 (mk_client true 1 0)) in Hi as [-> _]. reflexivity.
    + exists s'. split; [exact H1|apply H2].
Defined.

(** C18. A send in a quiescent ring whose slot is free returns the frame size,
    keeps the ring well formed with one more message published, and delivers:
    an active client that then asks for that sequence number gets the slot, and
    the slot holds exactly the sender's addresses, the network-order protocol
    number, the length and the [size] data bytes. *)
Theorem shm_send_delivers {E} (src : option MAC) (dst : MAC) (proto : Z) (data : list Z)
    (size : Z) (me : nat) (c : ClientState) (s : Ipc) :
  sems_ok s → ring_ok (blk s) → publish_sequence_id (blk s) + 1 < 2 ^ 63 →
  slot_free (client_registry (blk s)) (claim_sequence_id (blk s)) = true →
  0 ≤ size ≤ ETH_MTU → size ≤ Z.of_nat (length data) →
  client_registry (blk s) !! me = Some c → cl_active c = true →
  let t := claim_sequence_id (blk s) in
  ∃ s' s'' idx slot,
    send (E := E) src dst proto data size s = (Ret (HEADER_SIZE + size), s', []) ∧
    sems_ok s' ∧ ring_ok (blk s') ∧ publish_sequence_id (blk s') = t ∧
    receive_zerocopy (E := E) me false t s' = (Ret (Some idx), s'', []) ∧
    buffer (blk s'') !! idx = Some slot ∧ slot_seq slot = t ∧
    dhost (slot_frame slot) = dst ∧ shost (slot_frame slot) = default LOCAL_ADDR src ∧
    ftype (slot_frame slot) = htons proto ∧ data_length (slot_frame slot) = size ∧
    take (Z.to_nat size) (fdata (slot_frame slot)) = take (Z.to_nat size) data.
Proof.
  intros Hsems Hring Hlt Hfree Hsz Hdata Hc Ha. cbv zeta.
  assert (0 ≤ claim_sequence_id (blk s)) as H0 by (destruct Hring as (_&_&_&?&?); lia).
  destruct (slot_in_range _ _ Hring H0) as (sl & Hsl & Hlsl).
  pose proof (send_free (E := E) src dst proto data size s sl Hsems Hring Hfree Hsz Hdata Hsl) as Hsend.
  set (f := slot_write src dst proto data size (slot_frame sl)) in *.
  pose proof (length_slot_write src dst proto data size _ Hlsl Hsz) as Hlf. fold f in Hlf.
  pose proof Hring as (Hlb & Hlr & _).
  destruct Hsems as (l & Hl & Hll & Hcl & Hnn).
  destruct (lookup_lt_is_Some_2 l (CONTROL_SEMS + me)) as [n Hn].
  { apply lookup_lt_Some in Hc. unfold CONTROL_SEMS. lia. }
  assert (sem_is (CONTROL_SEMS + me) (n + 1) (sent f s)) as Hsem.
  { unfold sem_is, sent. simpl sems. rewrite Hl. cbn [fmap option_fmap option_map mbind option_bind].
    rewrite (signal_clients_lookup _ _ _ c n) by done. by rewrite Ha. }
  pose proof (semop_wait_run (E := E) _ _ _ Hsem) as Hwait.
  rewrite decide_True in Hwait by (specialize (Hnn _ _ Hn); lia).
  eexists _, _, _, (mk_slot (claim_sequence_id (blk s)) f).
  split; [exact Hsend|]. split; [by apply sems_ok_sent; exists l|].
  split; [by apply ring_ok_sent|]. split; [done|]. split.
  - unfold receive_zerocopy. rewrite (bind_pure _ _ _ _ _ Hwait). cbn [negb]. mstep.
    unfold sent at 1, set_sem. cbn [blk buffer set_publish set_buffer].
    rewrite list_lookup_insert_eq by (by eapply lookup_lt_Some). mstep.
    rewrite decide_False by (intros Hx; by apply Hx). done.
  - unfold sent, set_sem. cbn [blk buffer set_publish set_buffer].
    rewrite list_lookup_insert_eq by (by eapply lookup_lt_Some).
    repeat split. unfold f, slot_write, splice; simpl.
    rewrite take_app_eq by (rewrite length_take; lia). done.
Qed.

Definition one_client : Ipc :=
  set_blk (set_registry (<[0%nat := mk_client true 1 0]> (client_registry init_block))) fresh_ipc.

Lemma one_client_sems : sems_ok one_client.
Proof.
  exists (initial_sems (λ _, true)). split; [done|]. split; [done|]. split; [done|].
  intros i n Hi. assert (Forall (λ n, 0 ≤ n) (initial_sems (λ _, true))) as Hall.
  { unfold initial_sems. simpl. repeat constructor; lia. }
  by eapply Forall_lookup_1 in Hall.
Qed.

Lemma one_client_ring : ring_ok (blk one_client).
Proof.
  split; [done|]. split; [done|]. split; [|simpl; lia]. intros i sl Hi.
  apply (lookup_replicate_1 32 zero_slot) in Hi as [-> _]. done.
Qed.

Lemma shm_send_delivers_witness :
  ∃ s' s'' idx slot,
    send (E := unit) None BROADCAST_ADDR 0x88B5 [1; 2; 3] 3 one_client = (Ret 17, s', []) ∧
    receive_zerocopy (E := unit) 0 false 1 s' = (Ret (Some idx), s'', []) ∧
    buffer (blk s'') !! idx = Some slot ∧ take 3 (fdata (slot_frame slot)) = [1; 2; 3].
Proof.
  destruct (shm_send_delivers (E := unit) None BROADCAST_ADDR 0x88B5 [1; 2; 3] 3 0
    (mk_client true 1 0) one_client)
    as (s' & s'' & idx & slot & H1 & _ & _ & _ & H2 & H3 & _ & _ & _ & _ & _ & H4).
  - exact one_client_sems.
  - exact one_client_ring.
  - reflexivity.
  - reflexivity.
  - unfold ETH_MTU. lia.
  - simpl. lia.
  - reflexivity.
  - reflexivity.
  - exists s', s'', idx, slot. split; [exact H1|]. split; [exact H2|]. split; [exact H3|exact H4].
Defined.


Definition full_ring : Ipc :=
  set_blk (λ b, set_publish 31 (set_claim 32 b)) one_client.

