(* ===== verification/ShmRing.v ===== *)
(** The circular buffer under concurrency: the steps inside [send],
    [receive_zerocopy] and [release_frame] of [engines/smh_engine.hpp],
    interleaved between any number of writers and registered readers.

    A frame's content is represented by the ticket of the send that wrote it.
    Tickets are unbounded (the counters are 64-bit). *)
From S2P Require Import Prelude Ethernet Shm.
Local Open Scope Z_scope.

(** Where a writer is in [send]. *)
Inductive wpc :=
  | WIdle
  | WScan (t : Z) (i : nat) (slowest : Z)   (* scanning the registry, client [i] next *)
  | WFull (t : Z)                           (* found the slot busy *)
  | WWait (t : Z)                           (* flag raised, at the WRITER_WAIT semop *)
  | WFree (t : Z)                           (* found the slot free *)
  | WReady (t : Z)                          (* flag lowered, about to write *)
  | WWritten (t : Z)                        (* frame written *)
  | WSequenced (t : Z)                      (* sequence id stored, in the publish loop *)
  | WPublished (t : Z).                     (* published, clients not signalled yet *)

(** Where a reader is in [release_frame]. *)
Inductive rpc :=
  | RIdle
  | RStore (q : Z) (wake : bool)
  | RSignal (wake : bool).

#[export] Instance rpc_eq_dec : EqDecision rpc.
Proof. solve_decision. Defined.

Record reader := mk_reader {
  r_last : Z;          (* last_read_sequence_id *)
  r_next : Z;          (* next_sequence_to_read *)
  r_held : list Z;     (* views handed out and not released *)
  r_sem : Z;           (* the client's semaphore *)
  r_pc : rpc
}.

Record ring := mk_ring {
  claim : Z;
  publish : Z;
  frames : list Z;
  seqs : list Z;
  blocked_flag : bool;
  wsem : Z;
  writers : list wpc;
  readers : list reader
}.

Definition slot (t : Z) : nat := Z.to_nat (t `mod` BUFFER_SLOTS).

Definition set_writer (w : nat) (p : wpc) (s : ring) : ring :=
  mk_ring (claim s) (publish s) (frames s) (seqs s) (blocked_flag s) (wsem s)
    (<[w := p]> (writers s)) (readers s).
Definition set_reader (r : nat) (x : reader) (s : ring) : ring :=
  mk_ring (claim s) (publish s) (frames s) (seqs s) (blocked_flag s) (wsem s)
    (writers s) (<[r := x]> (readers s)).
Definition set_flag (f : bool) (s : ring) : ring :=
  mk_ring (claim s) (publish s) (frames s) (seqs s) f (wsem s) (writers s) (readers s).
Definition set_wsem (n : Z) (s : ring) : ring :=
  mk_ring (claim s) (publish s) (frames s) (seqs s) (blocked_flag s) n (writers s) (readers s).

(** One step of writer [w]. *)
Definition writer_step (w : nat) (s : ring) : option ring :=
  p ← writers s !! w;
  match p with
  | WIdle =>
      let t := claim s in
      Some (set_writer w (WScan t 0 t)
        (mk_ring (t + 1) (publish s) (frames s) (seqs s) (blocked_flag s) (wsem s)
           (writers s) (readers s)))
  | WScan t i acc =>
      match readers s !! i with
      | Some x => Some (set_writer w (WScan t (S i) (Z.min acc (r_last x))) s)
      | None => Some (set_writer w (if decide (t - acc < BUFFER_SLOTS) then WFree t else WFull t) s)
      end
  | WFull t => Some (set_writer w (WWait t) (set_flag true s))
  | WWait t =>
      if decide (0 < wsem s)
      then Some (set_writer w (WScan t 0 t) (set_wsem (wsem s - 1) s)) else None
  | WFree t => Some (set_writer w (WReady t) (set_flag false s))
  | WReady t =>
      Some (set_writer w (WWritten t)
        (mk_ring (claim s) (publish s) (<[slot t := t]> (frames s)) (seqs s) (blocked_flag s)
           (wsem s) (writers s) (readers s)))
  | WWritten t =>
      Some (set_writer w (WSequenced t)
        (mk_ring (claim s) (publish s) (frames s) (<[slot t := t]> (seqs s)) (blocked_flag s)
           (wsem s) (writers s) (readers s)))
  | WSequenced t =>
      if decide (publish s = t - 1)
      then Some (set_writer w (WPublished t)
             (mk_ring (claim s) t (frames s) (seqs s) (blocked_flag s) (wsem s)
                (writers s) (readers s)))
      else None
  | WPublished t =>
      Some (set_writer w WIdle
        (mk_ring (claim s) (publish s) (frames s) (seqs s) (blocked_flag s) (wsem s) (writers s)
           ((λ x, mk_reader (r_last x) (r_next x) (r_held x) (r_sem x + 1) (r_pc x)) <$> readers s)))
  end.

(** Reader [r] takes a token and the slot of its next sequence number; on a
    mismatch the call returns null and the number is retried. *)
Definition reader_acquire (r : nat) (s : ring) : option ring :=
  x ← readers s !! r;
  if decide (0 < r_sem x) then
    if decide (seqs s !! slot (r_next x) = Some (r_next x))
    then Some (set_reader r (mk_reader (r_last x) (r_next x + 1) (r_held x ++ [r_next x])
                               (r_sem x - 1) (r_pc x)) s)
    else Some (set_reader r (mk_reader (r_last x) (r_next x) (r_held x) (r_sem x - 1) (r_pc x)) s)
  else None.

(** Whether release finds itself the slowest while the flag is up. *)
Definition wakes (r : nat) (x : reader) (s : ring) : bool :=
  blocked_flag s &&
  bool_decide (r_last x ≤ foldr Z.min (r_last x + 1)
    (imap (λ i y, if (i =? r)%nat then r_last x + 1 else r_last y) (readers s))).

Definition reader_begin (r : nat) (q : Z) (s : ring) : option ring :=
  x ← readers s !! r;
  if decide (r_pc x = RIdle ∧ q ∈ r_held x)
  then Some (set_reader r (mk_reader (r_last x) (r_next x) (r_held x) (r_sem x)
                             (RStore q (wakes r x s))) s)
  else None.

Definition reader_store (r : nat) (s : ring) : option ring :=
  x ← readers s !! r;
  match r_pc x with
  | RStore q wake =>
      Some (set_reader r (mk_reader q (r_next x) (filter (λ q', q' ≠ q) (r_held x)) (r_sem x)
                            (RSignal wake)) s)
  | _ => None
  end.

Definition reader_signal (r : nat) (s : ring) : option ring :=
  x ← readers s !! r;
  match r_pc x with
  | RSignal wake =>
      let s' := if wake then set_wsem (wsem s + 1) s else s in
      Some (set_reader r (mk_reader (r_last x) (r_next x) (r_held x) (r_sem x) RIdle) s')
  | _ => None
  end.

Inductive action :=
  | AWriter (w : nat)
  | AAcquire (r : nat)
  | ABegin (r : nat) (q : Z)
  | AStore (r : nat)
  | ASignal (r : nat).

#[export] Instance wpc_eq_dec : EqDecision wpc.
Proof. solve_decision. Defined.

Definition act (a : action) (s : ring) : option ring :=
  match a with
  | AWriter w => writer_step w s
  | AAcquire r => reader_acquire r s
  | ABegin r q => reader_begin r q s
  | AStore r => reader_store r s
  | ASignal r => reader_signal r s
  end.

(** Releases in arrival order: the view released is the oldest one held. *)
Definition in_order (a : action) (s : ring) : Prop :=
  match a with
  | ABegin r q => ∀ x, readers s !! r = Some x → head (r_held x) = Some q
  | _ => True
  end.

Inductive step : ring → ring → Prop :=
  | step_act a s s' : act a s = Some s' → step s s'.
Inductive step_in_order : ring → ring → Prop :=
  | step_in_order_act a s s' : act a s = Some s' → in_order a s → step_in_order s s'.

(** After bootstrap, with [nw] writers and [nr] readers registered. *)
Definition ring_start (nw nr : nat) : ring :=
  mk_ring 1 0 (replicate 32 0) (replicate 32 0) false 0
    (replicate nw WIdle) (replicate nr (mk_reader 0 1 [] 0 RIdle)).

Fixpoint acts (l : list action) (s : ring) : option ring :=
  match l with [] => Some s | a :: l => s' ← act a s; acts l s' end.

Lemma acts_reach l s s' : acts l s = Some s' → rtc step s s'.
Proof.
  revert s. induction l as [|a l IH]; intros s H; simpl in H; [injection H as ->; apply rtc_refl|].
  destruct (act a s) as [s1|] eqn:E; [|done]. eapply rtc_l; [by econstructor|]. by apply IH.
Qed.

(** ** The safety invariant *)

(** The ticket of a writer that has claimed but not published. *)
Definition pending (p : wpc) : option Z :=
  match p with
  | WScan t _ _ | WFull t | WWait t | WFree t | WReady t | WWritten t | WSequenced t => Some t
  | WIdle | WPublished _ => None
  end.
(** It has found its slot free. *)
Definition past_check (p : wpc) : option Z :=
  match p with WFree t | WReady t | WWritten t | WSequenced t => Some t | _ => None end.
Definition wrote_frame (p : wpc) : option Z :=
  match p with WWritten t | WSequenced t => Some t | _ => None end.
Definition wrote_seq (p : wpc) : option Z :=
  match p with WSequenced t => Some t | _ => None end.
Definition unsignalled (p : wpc) : nat := match p with WPublished _ => 1 | _ => 0 end.
Fixpoint unsig (l : list wpc) : nat :=
  match l with [] => 0 | p :: l => unsignalled p + unsig l end.

Definition has (f : wpc → option Z) (t : Z) (s : ring) : Prop :=
  ∃ w p, writers s !! w = Some p ∧ f p = Some t.

(** Some reader has not released [t]. *)
Definition live (t : Z) (s : ring) : Prop :=
  ∃ r x, readers s !! r = Some x ∧ r_last x < t.

Definition reader_ok (unsig : nat) (pub : Z) (x : reader) : Prop :=
  0 ≤ r_last x < r_next x ∧ 0 ≤ r_sem x ∧
  r_sem x + (r_next x - 1) + Z.of_nat unsig = pub ∧
  r_held x = seqZ (r_last x + 1) (r_next x - 1 - r_last x) ∧
  match r_pc x with RStore q _ => head (r_held x) = Some q | _ => True end.

Definition writer_ok (s : ring) (p : wpc) : Prop :=
  (∀ t, pending p = Some t → publish s < t < claim s) ∧
  (∀ t, past_check p = Some t → ∀ r x, readers s !! r = Some x → t - BUFFER_SLOTS < r_last x) ∧
  (∀ t i acc, p = WScan t i acc →
     ∀ r x, (r < i)%nat → readers s !! r = Some x → acc ≤ r_last x).

Record ring_inv (s : ring) : Prop := {
  inv_len : length (frames s) = 32%nat ∧ length (seqs s) = 32%nat;
  inv_pub : 0 ≤ publish s < claim s;
  inv_w : ∀ w p, writers s !! w = Some p → writer_ok s p;
  inv_distinct : ∀ w w' p p' t, writers s !! w = Some p → writers s !! w' = Some p' →
    pending p = Some t → pending p' = Some t → w = w';
  inv_r : ∀ r x, readers s !! r = Some x →
    reader_ok (unsig (writers s)) (publish s) x;
  inv_frame : ∀ t, 0 < t → live t s → (t ≤ publish s ∨ has wrote_frame t s) →
    frames s !! slot t = Some t;
  inv_seq : ∀ t, 0 < t → live t s → (t ≤ publish s ∨ has wrote_seq t s) →
    seqs s !! slot t = Some t
}.

(** ** Counting and slots *)

Lemma unsig_insert l w p p' :
  l !! w = Some p →
  (unsig (<[w := p']> l) + unsignalled p = unsig l + unsignalled p')%nat.
Proof.
  revert w. induction l as [|y l IH]; intros [|w] Hw; simpl in *; try done.
  - injection Hw as ->. lia.
  - specialize (IH w Hw). lia.
Qed.

Lemma slot_conflict u t : 0 < u → u < t → slot u = slot t → u ≤ t - 32.
Proof.
  unfold slot, BUFFER_SLOTS. intros Hu Hlt Hs.
  pose proof (Z.mod_pos_bound u 32 ltac:(lia)). pose proof (Z.mod_pos_bound t 32 ltac:(lia)).
  assert (u `mod` 32 = t `mod` 32) as Hm by lia.
  pose proof (Z.div_mod u 32 ltac:(lia)). pose proof (Z.div_mod t 32 ltac:(lia)). nia.
Qed.

Lemma slot_lt t : 0 ≤ t → (slot t < 32)%nat.
Proof.
  intros ?. unfold slot, BUFFER_SLOTS. pose proof (Z.mod_pos_bound t 32 ltac:(lia)). lia.
Qed.

Lemma past_check_pending p t : past_check p = Some t → pending p = Some t.
Proof. by destruct p. Qed.
Lemma wrote_frame_past p t : wrote_frame p = Some t → past_check p = Some t.
Proof. by destruct p. Qed.
Lemma wrote_seq_frame p t : wrote_seq p = Some t → wrote_frame p = Some t.
Proof. by destruct p. Qed.

Lemma reader_last_pub u pub x : reader_ok u pub x → r_last x ≤ pub.
Proof. intros ([? ?] & ? & ? & _). lia. Qed.

(** Two writers never use the same slot while a reader still needs it. *)
Lemma no_conflict s w p t u :
  ring_inv s → writers s !! w = Some p → past_check p = Some t →
  0 < u → u ≠ t → slot u = slot t → live u s → u ≤ publish s ∨ has wrote_frame u s → False.
Proof.
  intros Hi Hw Hp Hu Hne Hslot (r & x & Hx & Hlast) Hcase.
  destruct (inv_w s Hi w p Hw) as (Hpend & Hpast & _).
  specialize (Hpend t (past_check_pending _ _ Hp)). specialize (Hpast t Hp r x Hx).
  pose proof (reader_last_pub _ _ _ (inv_r s Hi r x Hx)) as Hlp.
  pose proof (inv_pub s Hi). unfold BUFFER_SLOTS in *.
  assert (u < t → False) as Hlt by (intros ?; pose proof (slot_conflict u t Hu ltac:(lia) Hslot); lia).
  destruct Hcase as [Hpub|(w' & p' & Hw' & Hf)]; [apply Hlt; lia|].
  destruct (decide (u < t)); [by apply Hlt|].
  destruct (inv_w s Hi w' p' Hw') as (_ & Hpast' & _).
  specialize (Hpast' u (wrote_frame_past _ _ Hf) r x Hx). unfold BUFFER_SLOTS in *.
  pose proof (slot_conflict t u ltac:(lia) ltac:(lia) (eq_sym Hslot)). lia.
Qed.

Lemma has_update f w p p' s s' t :
  writers s !! w = Some p → writers s' = <[w := p']> (writers s) → f p' = f p →
  has f t s' → has f t s.
Proof.
  intros Hw Hws Hf (v & q & Hv & Hq). rewrite Hws in Hv.
  apply list_lookup_insert_Some in Hv as [(<- & <- & _)|[_ Hv]].
  - exists w, p. by rewrite <- Hf.
  - by exists v, q.
Qed.

Lemma writer_ok_mono s s' p :
  publish s' = publish s → claim s ≤ claim s' → readers s' = readers s →
  writer_ok s p → writer_ok s' p.
Proof.
  intros Hp Hc Hr (H1 & H2 & H3). split; [|split].
  - intros t Ht. specialize (H1 t Ht). lia.
  - intros t Ht r x. rewrite Hr. by apply H2.
  - intros t i acc Ht r x Hlt. rewrite Hr. eauto.
Qed.

(** Steps that only move one writer's program counter (and claim, flag, tokens). *)
Lemma inv_move_writer s s' w p p' :
  ring_inv s → writers s !! w = Some p → writers s' = <[w := p']> (writers s) →
  publish s' = publish s → claim s ≤ claim s' → readers s' = readers s →
  frames s' = frames s → seqs s' = seqs s →
  writer_ok s' p' → unsignalled p' = unsignalled p →
  (∀ t, pending p' = Some t → pending p = Some t ∨ claim s ≤ t) →
  wrote_frame p' = wrote_frame p → wrote_seq p' = wrote_seq p →
  ring_inv s'.
Proof.
  intros Hi Hw Hws Hpub Hcl Hr Hf Hq Hok Hun Hpend Hwf Hwq.
  assert (∀ t, live t s' → live t s) as Hlive by (unfold live; by rewrite Hr).
  split.
  - rewrite Hf, Hq. apply Hi.
  - pose proof (inv_pub s Hi). lia.
  - intros v q Hv. rewrite Hws in Hv.
    apply list_lookup_insert_Some in Hv as [(_ & <- & _)|[_ Hv]]; [done|].
    eapply writer_ok_mono; [done..|]. by eapply inv_w.
  - assert (∀ v q t, v ≠ w → writers s !! v = Some q → pending q = Some t →
      pending p' = Some t → False) as Hno.
    { intros v q t Hne Hv Hqt Hpt. destruct (Hpend t Hpt) as [Hold|Hnew].
      - apply Hne. by eapply (inv_distinct s Hi v w q p t).
      - destruct (inv_w s Hi v q Hv) as (H1 & _). specialize (H1 t Hqt). lia. }
    intros v v' q q' t Hv Hv' Hqt Hqt'. rewrite Hws in Hv, Hv'.
    apply list_lookup_insert_Some in Hv as [(-> & <- & _)|[Hne Hv]];
      apply list_lookup_insert_Some in Hv' as [(-> & <- & _)|[Hne' Hv']]; [done| | |].
    + exfalso. by eapply (Hno v' q' t).
    + exfalso. by eapply (Hno v q t).
    + by eapply (inv_distinct s Hi v v' q q' t).
  - intros r x Hx. rewrite Hr in Hx. rewrite Hpub, Hws.
    pose proof (unsig_insert _ _ _ p' Hw) as H. rewrite Hun in H.
    replace (unsig (<[w:=p']> (writers s))) with (unsig (writers s)) by lia. by eapply inv_r.
  - intros t Ht Hl Hc. rewrite Hf. apply inv_frame; [done|done|auto|].
    rewrite Hpub in Hc. destruct Hc as [Hc|Hc]; [by left|right]. by eapply has_update.
  - intros t Ht Hl Hc. rewrite Hq. apply inv_seq; [done|done|auto|].
    rewrite Hpub in Hc. destruct Hc as [Hc|Hc]; [by left|right]. by eapply has_update.
Qed.

(** Steps that move one reader forward. *)
Lemma inv_move_reader s s' r x x' :
  ring_inv s → readers s !! r = Some x → readers s' = <[r := x']> (readers s) →
  publish s' = publish s → claim s' = claim s → writers s' = writers s →
  frames s' = frames s → seqs s' = seqs s →
  r_last x ≤ r_last x' → reader_ok (unsig (writers s)) (publish s) x' →
  ring_inv s'.
Proof.
  intros Hi Hx Hrs Hpub Hcl Hws Hf Hq Hmono Hok.
  assert (∀ j y, readers s' !! j = Some y → ∃ z, readers s !! j = Some z ∧ r_last z ≤ r_last y)
    as Hback.
  { intros j y Hy. rewrite Hrs in Hy.
    apply list_lookup_insert_Some in Hy as [(<- & <- & _)|[_ Hy]]; eauto using Z.le_refl. }
  assert (∀ t, live t s' → live t s) as Hlive.
  { intros t (j & y & Hy & Hlt). destruct (Hback j y Hy) as (z & Hz & ?). exists j, z.
    split; [done|lia]. }
  assert (∀ f t, has f t s' → has f t s) as Hhas by (unfold has; by rewrite Hws).
  split.
  - rewrite Hf, Hq. apply Hi.
  - rewrite Hpub, Hcl. apply Hi.
  - intros w p Hw. rewrite Hws in Hw. destruct (inv_w s Hi w p Hw) as (H1 & H2 & H3).
    split; [|split].
    + intros t Ht. rewrite Hpub, Hcl. by apply H1.
    + intros t Ht j y Hy. destruct (Hback j y Hy) as (z & Hz & ?).
      specialize (H2 t Ht j z Hz). lia.
    + intros t i acc Ht j y Hj Hy. destruct (Hback j y Hy) as (z & Hz & ?).
      specialize (H3 t i acc Ht j z Hj Hz). lia.
  - rewrite Hws. apply Hi.
  - intros j y Hy. rewrite Hws, Hpub. rewrite Hrs in Hy.
    apply list_lookup_insert_Some in Hy as [(_ & <- & _)|[_ Hy]]; [done|by eapply inv_r].
  - intros t Ht Hl Hc. rewrite Hf. apply inv_frame; [done|done|auto|]. rewrite Hpub in Hc. naive_solver.
  - intros t Ht Hl Hc. rewrite Hq. apply inv_seq; [done|done|auto|]. rewrite Hpub in Hc. naive_solver.
Qed.

(** A write to the slot of [t] keeps every other slot that matters. *)
Lemma write_slot s w p p' t l (f : wpc → option Z) :
  ring_inv s → writers s !! w = Some p → past_check p = Some t → length l = 32%nat →
  (∀ q u, f q = Some u → wrote_frame q = Some u) →
  (∀ u, f p' = Some u → u = t) →
  (∀ u, 0 < u → live u s → (u ≤ publish s ∨ has f u s) → l !! slot u = Some u) →
  ∀ s', writers s' = <[w := p']> (writers s) →
  ∀ u, 0 < u → live u s → (u ≤ publish s ∨ has f u s') → <[slot t := t]> l !! slot u = Some u.
Proof.
  intros Hi Hw Hp Hlen Hfw Hfp Hl s' Hws u Hu Hlive Hc.
  destruct (inv_w s Hi w p Hw) as (Hpend & _).
  specialize (Hpend t (past_check_pending _ _ Hp)). pose proof (inv_pub s Hi).
  destruct (decide (u = t)) as [->|Hne].
  { apply list_lookup_insert_eq. rewrite Hlen. apply slot_lt. lia. }
  assert (u ≤ publish s ∨ has f u s) as Hc'.
  { destruct Hc as [Hc|(v & q & Hv & Hq)]; [by left|right]. rewrite Hws in Hv.
    apply list_lookup_insert_Some in Hv as [(<- & <- & _)|[_ Hv]].
    - by apply Hfp in Hq.
    - by exists v, q. }
  rewrite list_lookup_insert_ne; [by apply Hl|]. intros Hs.
  eapply (no_conflict s w p t u); eauto.
  destruct Hc' as [?|(v & q & Hv & Hq)]; [by left|right; exists v, q; eauto].
Qed.

Ltac split_insert H :=
  apply list_lookup_insert_Some in H as [(<- & <- & _)|[? H]].
Ltac by_other H v q := split_insert H; [done|]; by exists v, q.

Lemma inv_write_frame s w t :
  ring_inv s → writers s !! w = Some (WReady t) →
  ring_inv (set_writer w (WWritten t)
    (mk_ring (claim s) (publish s) (<[slot t := t]> (frames s)) (seqs s) (blocked_flag s)
       (wsem s) (writers s) (readers s))).
Proof.
  intros Hi Hw. pose proof (inv_w s Hi w _ Hw) as (Hp1 & Hp2 & _).
  split; simpl.
  - rewrite length_insert. apply Hi.
  - apply Hi.
  - intros v q Hv. split_insert Hv; [|by apply (inv_w s Hi v q Hv)].
    split; [exact Hp1|split; [exact Hp2|done]].
  - intros v v' q q' u Hv Hv' Hq Hq'. split_insert Hv; split_insert Hv'; [done| | |].
    + by eapply (inv_distinct s Hi w v' (WReady t) q' u).
    + by eapply (inv_distinct s Hi v w q (WReady t) u).
    + by eapply (inv_distinct s Hi v v' q q' u).
  - intros r x Hx. pose proof (unsig_insert _ _ _ (WWritten t) Hw) as Hu. simpl in Hu.
    replace (unsig _) with (unsig (writers s)) by lia. by eapply inv_r.
  - eapply (write_slot s w (WReady t) (WWritten t) t (frames s) wrote_frame); try done.
    + by apply (inv_len s Hi).
    + simpl. by intros u [= ->].
    + apply (inv_frame s Hi).
  - intros u Hu Hl Hc. apply Hi; [done|done|]. destruct Hc as [|(v & q & Hv & Hq)]; [by left|right].
    simpl in Hv. split_insert Hv; [done|]. by exists v, q.
Qed.

Lemma inv_write_seq s w t :
  ring_inv s → writers s !! w = Some (WWritten t) →
  ring_inv (set_writer w (WSequenced t)
    (mk_ring (claim s) (publish s) (frames s) (<[slot t := t]> (seqs s)) (blocked_flag s)
       (wsem s) (writers s) (readers s))).
Proof.
  intros Hi Hw. pose proof (inv_w s Hi w _ Hw) as (Hp1 & Hp2 & _).
  split; simpl.
  - rewrite length_insert. apply Hi.
  - apply Hi.
  - intros v q Hv. split_insert Hv; [|by apply (inv_w s Hi v q Hv)].
    split; [exact Hp1|split; [exact Hp2|done]].
  - intros v v' q q' u Hv Hv' Hq Hq'. split_insert Hv; split_insert Hv'; [done| | |].
    + by eapply (inv_distinct s Hi w v' (WWritten t) q' u).
    + by eapply (inv_distinct s Hi v w q (WWritten t) u).
    + by eapply (inv_distinct s Hi v v' q q' u).
  - intros r x Hx. pose proof (unsig_insert _ _ _ (WSequenced t) Hw) as Hu. simpl in Hu.
    replace (unsig _) with (unsig (writers s)) by lia. by eapply inv_r.
  - intros u Hu Hl Hc. apply Hi; [done|done|]. destruct Hc as [|(v & q & Hv & Hq)]; [by left|right].
    simpl in Hv. split_insert Hv; [|by exists v, q]. by exists w, (WWritten t).
  - eapply (write_slot s w (WWritten t) (WSequenced t) t (seqs s) wrote_seq); try done.
    + by apply (inv_len s Hi).
    + intros q u. apply wrote_seq_frame.
    + simpl. by intros u [= ->].
    + apply (inv_seq s Hi).
Qed.

Lemma inv_publish s w t :
  ring_inv s → writers s !! w = Some (WSequenced t) → publish s = t - 1 →
  ring_inv (set_writer w (WPublished t)
    (mk_ring (claim s) t (frames s) (seqs s) (blocked_flag s) (wsem s) (writers s) (readers s))).
Proof.
  intros Hi Hw Hpub. pose proof (inv_w s Hi w _ Hw) as (Hp1 & Hp2 & _).
  specialize (Hp1 t eq_refl). pose proof (inv_pub s Hi).
  split; simpl.
  - apply Hi.
  - lia.
  - intros v q Hv. split_insert Hv.
    + split; [done|split; done].
    + destruct (inv_w s Hi v q Hv) as (H1 & H2 & H3). split; [|split; [exact H2|exact H3]].
      intros u Hu. specialize (H1 u Hu). simpl. assert (u ≠ t) as Hne; [|lia]. intros ->.
      by pose proof (inv_distinct s Hi v w q _ t Hv Hw Hu eq_refl).
  - intros v v' q q' u Hv Hv' Hq Hq'. split_insert Hv; split_insert Hv'; try done.
    by eapply (inv_distinct s Hi v v' q q' u).
  - intros r x Hx. pose proof (unsig_insert _ _ _ (WPublished t) Hw) as Hu. simpl in Hu.
    destruct (inv_r s Hi r x Hx) as (H1 & H2 & H3 & H4). split; [done|split; [done|split; [lia|done]]].
  - intros u Hu Hl Hc. apply Hi; [done|done|].
    destruct Hc as [Hc|(v & q & Hv & Hq)].
    + destruct (decide (u = t)) as [->|]; [right; by exists w, (WSequenced t)|left; lia].
    + right. simpl in Hv. by_other Hv v q.
  - intros u Hu Hl Hc. apply Hi; [done|done|].
    destruct Hc as [Hc|(v & q & Hv & Hq)].
    + destruct (decide (u = t)) as [->|]; [right; by exists w, (WSequenced t)|left; lia].
    + right. simpl in Hv. by_other Hv v q.
Qed.

Lemma inv_signal s w t :
  ring_inv s → writers s !! w = Some (WPublished t) →
  ring_inv (set_writer w WIdle
    (mk_ring (claim s) (publish s) (frames s) (seqs s) (blocked_flag s) (wsem s) (writers s)
       ((λ x, mk_reader (r_last x) (r_next x) (r_held x) (r_sem x + 1) (r_pc x)) <$> readers s))).
Proof.
  intros Hi Hw. set (sig := λ x, mk_reader (r_last x) (r_next x) (r_held x) (r_sem x + 1) (r_pc x)).
  assert (∀ s' u, readers s' = sig <$> readers s → live u s' → live u s) as Hlive.
  { intros s' u Hr (r & x & Hx & Hlt). rewrite Hr, list_lookup_fmap in Hx.
    apply fmap_Some in Hx as (y & Hy & ->). by exists r, y. }
  split; simpl.
  - apply Hi.
  - apply Hi.
  - intros v q Hv. split_insert Hv; [by split; [|split]|].
    destruct (inv_w s Hi v q Hv) as (H1 & H2 & H3). split; [exact H1|]. simpl. split.
    + intros u Hu r x Hx. rewrite list_lookup_fmap in Hx.
      apply fmap_Some in Hx as (y & Hy & ->). by apply (H2 u Hu r y).
    + intros u i acc Hu r x Hlt Hx. rewrite list_lookup_fmap in Hx.
      apply fmap_Some in Hx as (y & Hy & ->). by apply (H3 u i acc Hu r y).
  - intros v v' q q' u Hv Hv' Hq Hq'. split_insert Hv; split_insert Hv'; try done.
    by eapply (inv_distinct s Hi v v' q q' u).
  - intros r x Hx. pose proof (unsig_insert _ _ _ WIdle Hw) as Hu. simpl in Hu.
    rewrite list_lookup_fmap in Hx. apply fmap_Some in Hx as (y & Hy & ->).
    destruct (inv_r s Hi r y Hy) as (H1 & H2 & H3 & H4 & H5).
    split; [done|split; [simpl; lia|split; [simpl; lia|done]]].
  - intros u Hu Hl Hc. apply Hi; [done|by refine (Hlive _ u _ Hl)|].
    destruct Hc as [Hc|(v & q & Hv & Hq)]; [by left|right]. simpl in Hv. by_other Hv v q.
  - intros u Hu Hl Hc. apply Hi; [done|by refine (Hlive _ u _ Hl)|].
    destruct Hc as [Hc|(v & q & Hv & Hq)]; [by left|right]. simpl in Hv. by_other Hv v q.
Qed.

Lemma held_snoc a n : 0 ≤ n → seqZ a n ++ [a + n] = seqZ a (n + 1).
Proof. intros ?. rewrite seqZ_app by lia. f_equal. Qed.

Lemma held_tail a n : 0 < n → filter (λ q', q' ≠ a) (seqZ a n) = seqZ (a + 1) (n - 1).
Proof.
  intros ?. rewrite seqZ_cons by lia. rewrite filter_cons_False by tauto.
  replace (Z.succ a) with (a + 1) by lia. replace (Z.pred n) with (n - 1) by lia.
  assert (Forall (λ y, y ≠ a) (seqZ (a + 1) (n - 1))) as HF.
  { apply Forall_seqZ. lia. }
  induction HF as [|y l Hy _ IH]; [done|]. by rewrite filter_cons_True, IH.
Qed.

(** A reader with a token finds the message it expects in its slot. *)
Lemma acquire_matches s r x :
  ring_inv s → readers s !! r = Some x → 0 < r_sem x →
  seqs s !! slot (r_next x) = Some (r_next x).
Proof.
  intros Hi Hx Hsem. destruct (inv_r s Hi r x Hx) as ([? ?] & ? & ? & _).
  apply (inv_seq s Hi); [lia| |left; lia]. exists r, x. split; [done|lia].
Qed.

Ltac moved := simpl; try done; try (by intros ? ?; left).

Lemma inv_writer_step s s' w : ring_inv s → writer_step w s = Some s' → ring_inv s'.
Proof.
  intros Hi Hs. unfold writer_step in Hs.
  destruct (writers s !! w) as [p|] eqn:Hw; [|done]. simpl in Hs.
  pose proof (inv_w s Hi w p Hw) as (H1 & H2 & H3).
  pose proof (inv_pub s Hi) as Hpub.
  destruct p as [|t i acc|t|t|t|t|t|t|t].
  - injection Hs as <-.
    apply (inv_move_writer s _ w WIdle (WScan (claim s) 0 (claim s))); simpl; try done; [lia| |].
    + split; [|split; [done|]].
      * intros u [= <-]. simpl. lia.
      * intros u i acc [= <- <- <-] r x Hlt. lia.
    + intros u [= <-]. right. lia.
  - destruct (readers s !! i) as [x|] eqn:Hx; injection Hs as <-.
    + apply (inv_move_writer s _ w (WScan t i acc) (WScan t (S i) (Z.min acc (r_last x))));
        moved.
      split; [done|split; [done|]]. intros u i' acc' [= <- <- <-] r y Hlt Hy. simpl in Hy.
      destruct (decide (r = i)) as [->|Hne]; [simplify_eq; lia|].
      specialize (H3 t i acc eq_refl r y ltac:(lia) Hy). lia.
    + assert (∀ r y, readers s !! r = Some y → acc ≤ r_last y) as Hacc.
      { intros r y Hy. apply (H3 t i acc eq_refl r y); [|done].
        apply lookup_lt_Some in Hy. apply lookup_ge_None in Hx. lia. }
      case_decide.
      * apply (inv_move_writer s _ w (WScan t i acc) (WFree t)); moved.
        split; [exact H1|split; [|done]]. intros u [= <-] r y Hy. simpl in Hy.
        specialize (Hacc r y Hy). lia.
      * apply (inv_move_writer s _ w (WScan t i acc) (WFull t)); moved.
  - injection Hs as <-.
    apply (inv_move_writer s _ w (WFull t) (WWait t)); moved.
  - case_decide; [|done]. injection Hs as <-.
    apply (inv_move_writer s _ w (WWait t) (WScan t 0 t)); moved.
    split; [exact H1|split; [done|]]. intros u i acc [= <- <- <-] r y Hlt. lia.
  - injection Hs as <-.
    apply (inv_move_writer s _ w (WFree t) (WReady t)); moved.
  - injection Hs as <-. by apply inv_write_frame.
  - injection Hs as <-. by apply inv_write_seq.
  - case_decide; [|done]. injection Hs as <-. by apply inv_publish.
  - injection Hs as <-. by apply inv_signal with t.
Qed.

Lemma inv_acquire s s' r : ring_inv s → reader_acquire r s = Some s' → ring_inv s'.
Proof.
  intros Hi Hs. unfold reader_acquire in Hs.
  destruct (readers s !! r) as [x|] eqn:Hx; [|done]. simpl in Hs.
  case_decide as Hsem; [|done]. rewrite decide_True in Hs by (by eapply acquire_matches).
  injection Hs as <-. pose proof (inv_r s Hi r x Hx) as (H1 & H2 & H3 & H4 & H5).
  eapply (inv_move_reader s _ r x); [done|done|reflexivity|..]; simpl; try done.
  split; simpl; [lia|]. split; [lia|]. split; [lia|]. split.
  - rewrite H4. replace (r_next x) with (r_last x + 1 + (r_next x - 1 - r_last x)) at 2 by lia.
    rewrite held_snoc by lia. f_equal. lia.
  - destruct (r_pc x); try done. rewrite head_app_Some. by left.
Qed.

Lemma inv_begin s s' r q :
  ring_inv s → in_order (ABegin r q) s → reader_begin r q s = Some s' → ring_inv s'.
Proof.
  intros Hi Ho Hs. unfold reader_begin in Hs.
  destruct (readers s !! r) as [x|] eqn:Hx; [|done]. simpl in Hs.
  case_decide; [|done]. injection Hs as <-.
  pose proof (inv_r s Hi r x Hx) as (H1 & H2 & H3 & H4 & H5).
  eapply (inv_move_reader s _ r x); [done|done|reflexivity|..]; simpl; try done.
  repeat (split; [done|]). simpl. by apply Ho.
Qed.

(** What a reader that releases in order stores is the message after its last. *)
Lemma store_oldest x q :
  r_held x = seqZ (r_last x + 1) (r_next x - 1 - r_last x) → head (r_held x) = Some q →
  0 < r_next x - 1 - r_last x ∧ q = r_last x + 1.
Proof.
  intros H4 H5. destruct (decide (0 < r_next x - 1 - r_last x)) as [Hpos|Hneg].
  - split; [done|]. rewrite H4, seqZ_cons in H5 by lia. simpl in H5. by injection H5.
  - rewrite H4, seqZ_nil in H5 by lia. done.
Qed.

Lemma inv_store s s' r : ring_inv s → reader_store r s = Some s' → ring_inv s'.
Proof.
  intros Hi Hs. unfold reader_store in Hs.
  destruct (readers s !! r) as [x|] eqn:Hx; [|done]. simpl in Hs.
  pose proof (inv_r s Hi r x Hx) as (H1 & H2 & H3 & H4 & H5).
  destruct (r_pc x) as [|q wake|wake] eqn:Hpc; [done| |done]. injection Hs as <-.
  destruct (store_oldest x q) as [Hpos ->]; [done..|].
  eapply (inv_move_reader s _ r x); [done|done|reflexivity|..]; simpl; try done; [lia|].
  split; simpl; [lia|]. split; [done|]. split; [done|]. split; [|done].
  rewrite H4, held_tail by done. f_equal. lia.
Qed.

Lemma inv_release s s' r : ring_inv s → reader_signal r s = Some s' → ring_inv s'.
Proof.
  intros Hi Hs. unfold reader_signal in Hs.
  destruct (readers s !! r) as [x|] eqn:Hx; [|done]. simpl in Hs.
  pose proof (inv_r s Hi r x Hx) as (H1 & H2 & H3 & H4 & H5).
  destruct (r_pc x) as [|q wake|wake] eqn:Hpc; [done..|]. injection Hs as <-.
  destruct wake; eapply (inv_move_reader s _ r x); [done|done|reflexivity|..]; simpl; try done;
    by repeat (split; [done|]).
Qed.

Lemma ring_inv_step s s' : ring_inv s → step_in_order s s' → ring_inv s'.
Proof.
  intros Hi Hs. destruct Hs as [[w|r|r q|r|r] s s' Ha Ho]; simpl in Ha;
    eauto using inv_writer_step, inv_acquire, inv_begin, inv_store, inv_release.
Qed.

Lemma ring_inv_start nw nr : ring_inv (ring_start nw nr).
Proof.
  assert (∀ w p, writers (ring_start nw nr) !! w = Some p → p = WIdle) as Hidle.
  { intros w p Hp. by apply lookup_replicate in Hp as [-> _]. }
  assert (unsig (replicate nw WIdle) = 0%nat) as Hz by (clear; induction nw as [|n IH]; [done|exact IH]).
  split; simpl.
  - done.
  - lia.
  - intros w p Hp. rewrite (Hidle w p Hp). by split; [|split].
  - intros w w' p p' t Hp _ Ht. by rewrite (Hidle w p Hp) in Ht.
  - intros r x Hx. apply lookup_replicate in Hx as [-> _]. rewrite Hz. done.
  - intros t Ht _ [|(w & p & Hp & Hf)]; [lia|]. by rewrite (Hidle w p Hp) in Hf.
  - intros t Ht _ [|(w & p & Hp & Hf)]; [lia|]. by rewrite (Hidle w p Hp) in Hf.
Qed.

Lemma ring_inv_reach nw nr s : rtc step_in_order (ring_start nw nr) s → ring_inv s.
Proof.
  remember (ring_start nw nr) as s0 eqn:E. intros Hr.
  assert (ring_inv s0) as Hi by (subst; apply ring_inv_start). clear E.
  induction Hr as [s|s1 s2 s3 H12 _ IH]; [done|]. apply IH. by eapply ring_inv_step.
Qed.

(** The messages an in-order reader holds are exactly those after its last
    release, and each is still intact in its slot. *)
Lemma held_intact s r x q :
  ring_inv s → readers s !! r = Some x → q ∈ r_held x →
  frames s !! slot q = Some q ∧ seqs s !! slot q = Some q.
Proof.
  intros Hi Hx Hq. destruct (inv_r s Hi r x Hx) as ([? ?] & ? & ? & Hheld & _).
  rewrite Hheld in Hq. apply elem_of_seqZ in Hq.
  assert (live q s) by (exists r, x; split; [done|lia]).
  split; [apply (inv_frame s Hi)|apply (inv_seq s Hi)]; try done; lia || (left; lia).
Qed.

(** ** Schedules *)

(** The actions of a writer that finds [nr] readers and a free slot. *)
Definition send_acts (w nr : nat) : list action := replicate (nr + 7) (AWriter w).
Definition release_acts (r : nat) (q : Z) : list action := [ABegin r q; AStore r; ASignal r].

(** One reader, two views taken, the younger one released first. *)
Definition overtake_acts : list action :=
  concat (replicate 31 (send_acts 0 1)) ++ [AAcquire 0; AAcquire 0] ++ release_acts 0 2 ++
  concat (replicate 2 (send_acts 0 1)).

(** The writer of ticket 32 scans; the reader drains the buffer before the
    writer raises its flag. *)
Definition lost_wakeup_acts : list action :=
  concat (replicate 31 (send_acts 0 1)) ++ replicate 3 (AWriter 0) ++
  concat (imap (λ i _, AAcquire 0 :: release_acts 0 (Z.of_nat i + 1)) (replicate 31 tt)) ++
  [AWriter 0].

Definition start1 : ring := ring_start 1 1.

(** C5. Safety of the concurrent ring: with any number of writers and readers
    interleaved step by step, if each reader releases the views it holds oldest
    first, then every view held is still intact in the buffer (the writer waits
    instead of overwriting it), a token always finds the expected sequence
    number in its slot (the "CRITICAL: Mismatch" branch is unreachable), and
    the views handed out are the published messages in order without gaps. *)
Theorem ring_views_intact nw nr s r x :
  rtc step_in_order (ring_start nw nr) s → readers s !! r = Some x →
  (∀ q, q ∈ r_held x → frames s !! slot q = Some q ∧ seqs s !! slot q = Some q) ∧
  (0 < r_sem x → seqs s !! slot (r_next x) = Some (r_next x)) ∧
  r_held x = seqZ (r_last x + 1) (r_next x - 1 - r_last x) ∧ r_next x - 1 ≤ publish s.
Proof.
  intros Hr Hx. apply ring_inv_reach in Hr as Hi.
  destruct (inv_r s Hi r x Hx) as (? & ? & ? & ? & _).
  split; [intros q Hq; by eapply held_intact|]. split; [intros ?; by eapply acquire_matches|].
  split; [done|lia].
Qed.

Fixpoint acts_in_order (l : list action) (s : ring) : option ring :=
  match l with
  | [] => Some s
  | a :: l =>
      s' ← act a s;
      match a with
      | ABegin r q =>
          x ← readers s !! r;
          if decide (head (r_held x) = Some q) then acts_in_order l s' else None
      | _ => acts_in_order l s'
      end
  end.

Lemma acts_in_order_cons a l s s' :
  acts_in_order (a :: l) s = Some s' →
  ∃ s1, act a s = Some s1 ∧ in_order a s ∧ acts_in_order l s1 = Some s'.
Proof.
  intros H. simpl in H. destruct (act a s) as [s1|] eqn:E; [|done]. simpl in H. exists s1.
  split; [done|]. destruct a as [w|r|r q|r|r]; try done.
  destruct (readers s !! r) as [x|] eqn:Hx; [|done]. simpl in H. case_decide; [|done].
  split; [|done]. intros y Hy. by simplify_eq.
Qed.

Lemma acts_in_order_reach l s s' : acts_in_order l s = Some s' → rtc step_in_order s s'.
Proof.
  revert s. induction l as [|a l IH]; intros s H; [injection H as ->; apply rtc_refl|].
  apply acts_in_order_cons in H as (s1 & Ha & Ho & H).
  eapply rtc_l; [by econstructor|by apply IH].
Qed.

(** ** The log the ring implements

    A bounded broadcast log: message [t] is appended as number [t] when every
    reader has released number [t - 32]; each reader receives the messages in
    order, once each, and releases them in order. *)

Inductive log_event := EPublish (t : Z) | EDeliver (r : nat) (m : Z) | ERelease (r : nat) (q : Z).

Record log := mk_log {
  published : Z;
  cursors : list (Z * Z)      (* per reader: the last released, the next to receive *)
}.

Definition log_start (nr : nat) : log := mk_log 0 (replicate nr (0, 1)).

Definition log_act (e : log_event) (l : log) : option log :=
  match e with
  | EPublish t =>
      if decide (t = published l + 1 ∧ Forall (λ c, t - BUFFER_SLOTS < c.1) (cursors l))
      then Some (mk_log t (cursors l)) else None
  | EDeliver r m =>
      c ← cursors l !! r;
      if decide (m = c.2 ∧ m ≤ published l)
      then Some (mk_log (published l) (<[r := (c.1, m + 1)]> (cursors l))) else None
  | ERelease r q =>
      c ← cursors l !! r;
      if decide (q = c.1 + 1 ∧ q < c.2)
      then Some (mk_log (published l) (<[r := (q, c.2)]> (cursors l))) else None
  end.

Fixpoint log_run (es : list log_event) (l : log) : option log :=
  match es with [] => Some l | e :: es => l' ← log_act e l; log_run es l' end.

(** What an action does to the log; a delivery hands over what the slot holds. *)
Definition event (a : action) (s : ring) : option log_event :=
  match a with
  | AWriter w => match writers s !! w with Some (WSequenced t) => Some (EPublish t) | _ => None end
  | AAcquire r =>
      x ← readers s !! r; m ← frames s !! slot (r_next x); Some (EDeliver r m)
  | AStore r =>
      x ← readers s !! r;
      match r_pc x with RStore q _ => Some (ERelease r q) | _ => None end
  | _ => None
  end.

Fixpoint trace (l : list action) (s : ring) : list log_event :=
  match l with
  | [] => []
  | a :: l => option_list (event a s) ++ match act a s with Some s' => trace l s' | None => [] end
  end.

Definition log_of (s : ring) : log := mk_log (publish s) ((λ x, (r_last x, r_next x)) <$> readers s).

Lemma log_of_reader s r x y :
  readers s !! r = Some x → r_last y = r_last x → r_next y = r_next x → log_of (set_reader r y s) = log_of s.
Proof.
  intros Hx Hl Hn. unfold log_of. simpl. rewrite list_fmap_insert, Hl, Hn. f_equal.
  apply list_insert_id. by rewrite list_lookup_fmap, Hx.
Qed.

(** Every in-order action is the log's event, or nothing for the log. *)
Lemma log_simulates s a s' :
  ring_inv s → act a s = Some s' → in_order a s →
  match event a s with Some e => log_act e (log_of s) = Some (log_of s') | None => log_of s' = log_of s end.
Proof.
  intros Hi Ha Ho. destruct a as [w|r|r q|r|r]; simpl in Ha |- *.
  - unfold writer_step in Ha. destruct (writers s !! w) as [p|] eqn:Hw; [|done]. simpl in Ha.
    destruct p as [|t i acc|t|t|t|t|t|t|t]; try (by injection Ha as <-).
    + by destruct (readers s !! i); injection Ha as <-.
    + case_decide; [|done]. by injection Ha as <-.
    + case_decide as Hp; [|done]. injection Ha as <-. unfold log_act. rewrite decide_True; [done|].
      split; [simpl; lia|]. apply Forall_fmap, Forall_lookup. intros r x Hx.
      destruct (inv_w s Hi w _ Hw) as (_ & Hpast & _). by apply (Hpast t eq_refl r).
    + injection Ha as <-. unfold log_of. simpl. by rewrite <- list_fmap_compose.
  - unfold reader_acquire in Ha. destruct (readers s !! r) as [x|] eqn:Hx; [|done]. simpl in Ha |- *.
    case_decide as Hsem; [|done]. rewrite decide_True in Ha by (by eapply acquire_matches).
    injection Ha as <-. destruct (inv_r s Hi r x Hx) as ([? ?] & ? & ? & _).
    assert (live (r_next x) s) as Hlive by (exists r, x; split; [done|lia]).
    assert (frames s !! slot (r_next x) = Some (r_next x)) as -> by (apply Hi; [lia|done|left; lia]). simpl.
    rewrite list_lookup_fmap, Hx. simpl. rewrite decide_True by (split; [done|lia]).
    unfold log_of. simpl. by rewrite list_fmap_insert.
  - unfold reader_begin in Ha. destruct (readers s !! r) as [x|] eqn:Hx; [|done]. simpl in Ha.
    case_decide; [|done]. injection Ha as <-. by eapply log_of_reader.
  - unfold reader_store in Ha. destruct (readers s !! r) as [x|] eqn:Hx; [|done]. simpl in Ha |- *.
    destruct (inv_r s Hi r x Hx) as (H1 & H2 & H3 & H4 & H5).
    destruct (r_pc x) as [|q wake|wake] eqn:Hpc; [done| |done]. injection Ha as <-.
    destruct (store_oldest x q) as [Hpos ->]; [done..|].
    simpl. rewrite list_lookup_fmap, Hx. simpl. rewrite decide_True by (split; [done|lia]).
    unfold log_of. simpl. by rewrite list_fmap_insert.
  - unfold reader_signal in Ha. destruct (readers s !! r) as [x|] eqn:Hx; [|done]. simpl in Ha.
    destruct (r_pc x) as [|q wake|wake] eqn:Hpc; [done..|]. injection Ha as <-.
    destruct wake; exact (log_of_reader s r x (mk_reader _ _ _ _ RIdle) Hx eq_refl eq_refl).
Qed.

(** C6. The ring refines a bounded broadcast log: along every schedule of any
    number of writers and in-order readers, the messages published, delivered
    (as read from the slots) and released form a run of the log, which the
    final state of the ring represents. So messages are published without
    gaps, never more than 32 past a reader's last release, and each reader gets
    every message exactly once, in order. *)
Theorem ring_refines_log nw nr acts s :
  acts_in_order acts (ring_start nw nr) = Some s →
  log_run (trace acts (ring_start nw nr)) (log_start nr) = Some (log_of s).
Proof.
  assert (log_start nr = log_of (ring_start nw nr)) as ->.
  { unfold log_of, log_start. simpl. by rewrite fmap_replicate. }
  generalize (ring_inv_start nw nr). generalize (ring_start nw nr).
  induction acts as [|a acts IH]; intros s0 Hi Hs; [by injection Hs as ->|].
  apply acts_in_order_cons in Hs as (s1 & Ha & Ho & Hs). simpl. rewrite Ha.
  pose proof (log_simulates s0 a s1 Hi Ha Ho) as Hsim.
  assert (ring_inv s1) as Hi1 by (eapply ring_inv_step; [exact Hi|by econstructor]).
  destruct (event a s0) as [ev|]; simpl; [rewrite Hsim; simpl|rewrite <- Hsim]; by apply IH.
Qed.

(** Out-of-order release breaks the ring: a reader that takes messages 1
    and 2 and releases 2 first (which [release_frame] allows) lets a writer
    overwrite message 1 while its view is still held. *)
Theorem ring_out_of_order_overwritten :
  ∃ s x, rtc step start1 s ∧ readers s !! 0%nat = Some x ∧ r_held x = [1] ∧
         frames s !! slot 1 = Some 33.
Proof.
  exists (default start1 (acts overtake_acts start1)). eexists. split.
  - apply (acts_reach overtake_acts). vm_compute. reflexivity.
  - split; vm_compute; [reflexivity|done].
Qed.

(** Lost wake-up: a writer finds its slot busy, the reader drains the whole
    buffer before the writer raises [writer_is_blocked], and so nobody posts
    WRITER_WAIT.  The system then stands still for ever, although the slot the
    writer waits for is free. *)
Theorem ring_lost_wakeup :
  ∃ s x, rtc step_in_order start1 s ∧ writers s = [WWait 32] ∧ readers s = [x] ∧
         32 - r_last x < BUFFER_SLOTS ∧ ∀ s', ¬ step s s'.
Proof.
  set (s := default start1 (acts_in_order lost_wakeup_acts start1)).
  assert (rtc step_in_order start1 s) as Hr.
  { apply (acts_in_order_reach lost_wakeup_acts). vm_compute. reflexivity. }
  exists s. vm_compute in s. eexists. split; [exact Hr|].
  split; [done|]. split; [done|]. split; [done|]. intros s' Hs. inversion Hs as [a ? ? Ha]; subst.
  destruct a as [[|w]|[|r]|[|r] q|[|r]|[|r]]; try done.
Qed.

Definition one_view : ring :=
  default start1 (acts_in_order (send_acts 0 1 ++ [AAcquire 0]) start1).

Lemma ring_views_intact_witness :
  ∃ x, readers one_view !! 0%nat = Some x ∧ r_held x = [1] ∧ frames one_view !! slot 1 = Some 1.
Proof.
  assert (rtc step_in_order (ring_start 1 1) one_view) as Hr.
  { apply (acts_in_order_reach (send_acts 0 1 ++ [AAcquire 0])). vm_compute. reflexivity. }
  eexists. split; [vm_compute; reflexivity|]. split; [reflexivity|].
  apply (ring_views_intact 1 1 one_view 0 _ Hr eq_refl). apply list_elem_of_singleton. reflexivity.
Defined.

Lemma ring_refines_log_witness :
  log_run [EPublish 1; EDeliver 0 1; ERelease 0 1; EPublish 2] (log_start 1) = Some (mk_log 2 [(1, 2)]).
Proof.
  apply (ring_refines_log 1 1 (send_acts 0 1 ++ AAcquire 0 :: release_acts 0 1 ++ send_acts 0 1)
    (mk_ring 3 2 (<[2%nat := 2]> (<[1%nat := 1]> (replicate 32 0))) (<[2%nat := 2]> (<[1%nat := 1]> (replicate 32 0)))
       false 0 [WIdle] [mk_reader 1 2 [] 1 RIdle])).
  vm_compute. reflexivity.
Defined.
