(* ===== verification/RingCalls.v ===== *)
(** The engine's calls and the concurrent ring: what [send], [receive_zerocopy]
    and [release_frame] do as one call on the shared block ([Shm]) is what the
    steps of [ShmRing] do when one thread takes them without interruption. *)
From S2P Require Import Prelude Ethernet Packet Shm ShmRing.
Local Open Scope Z_scope.

(** ** The correspondence

    [place] lists the places of the registry that the ring's readers have;
    [content] tells which frame the send of a ticket wrote. *)

Record matches (place : list nat) (content : Z → Frame) (s : Ipc) (r : ring) : Prop := {
  mt_sems : ∃ l, sems s = Some l ∧ l !! CLAIM_SEM = Some 1 ∧ l !! WRITER_WAIT_SEM = Some (wsem r) ∧
    ∀ k i x, place !! k = Some i → readers r !! k = Some x →
      l !! (CONTROL_SEMS + i)%nat = Some (r_sem x);
  mt_counters : claim_sequence_id (blk s) = claim r ∧ publish_sequence_id (blk s) = publish r ∧
    writer_is_blocked (blk s) = blocked_flag r;
  mt_buffer : buffer (blk s) = zip_with (λ q t, mk_slot q (content t)) (seqs r) (frames r);
  mt_tickets : Forall (λ t, t < claim r) (frames r);
  mt_place : NoDup place ∧ length place = length (readers r);
  mt_active : ∀ i c, client_registry (blk s) !! i = Some c → cl_active c = true → i ∈ place;
  mt_readers : ∀ k i x, place !! k = Some i → readers r !! k = Some x →
    ∃ c, client_registry (blk s) !! i = Some c ∧ cl_active c = true ∧ last_read c = r_last x
}.

(** A call of a writer, or of a reader at a place of the registry. *)
Inductive call :=
  | CSend (w : nat) (src : option MAC) (dst : MAC) (protocol : Z) (data : list Z) (size : Z)
  | CReceive (k me : nat) (target : Z)
  | CRelease (k me : nat) (q : Z).
Inductive answer := Sent (n : Z) | View (o : option nat) | Released.

Definition run_call {E} (c : call) : M Ipc E answer :=
  match c with
  | CSend _ src dst protocol data size => n ← send src dst protocol data size; mret (Sent n)
  | CReceive _ me target => o ← receive_zerocopy me false target; mret (View o)
  | CRelease _ me q => _ ← release_frame me q; mret Released
  end.

(** The steps of the thread that makes a call. *)
Definition of_call (c : call) (a : action) : Prop :=
  match c, a with
  | CSend w _ _ _ _ _, AWriter w' => w' = w
  | CReceive k _ _, AAcquire k' => k' = k
  | CRelease k _ _, (ABegin k' _ | AStore k' | ASignal k') => k' = k
  | _, _ => False
  end.

(** A writer that is between sends; a reader that asks for its next number, or
    releases its oldest view. *)
Definition call_ok (place : list nat) (c : call) (r : ring) : Prop :=
  match c with
  | CSend w _ _ _ data size =>
      writers r !! w = Some WIdle ∧ 0 ≤ size ≤ ETH_MTU ∧ size ≤ Z.of_nat (length data)
  | CReceive k me target =>
      place !! k = Some me ∧ ∃ x, readers r !! k = Some x ∧ r_next x = target
  | CRelease k me q =>
      place !! k = Some me ∧ ∃ x, readers r !! k = Some x ∧ r_pc x = RIdle ∧ head (r_held x) = Some q
  end.

Definition elsewhere (t : Z) (content' content : Z → Frame) : Prop :=
  ∀ t', t' ≠ t → content' t' = content t'.

(** What a call that returns has done. *)
Definition answers (c : call) (a : answer) (content' : Z → Frame) (s' : Ipc) (r r' : ring) : Prop :=
  match c, a with
  | CSend w src dst protocol data size, Sent n =>
      n = HEADER_SIZE + size ∧ writers r' !! w = Some WIdle ∧ publish r' = claim r ∧
      ∃ old, content' (claim r) = slot_write src dst protocol data size old
  | CReceive k _ target, View (Some i) =>
      i = slot target ∧ ∃ x, readers r' !! k = Some x ∧ r_next x = target + 1 ∧ target ∈ r_held x
  | CRelease k _ q, Released =>
      ∃ x, readers r' !! k = Some x ∧ r_last x = q ∧ q ∉ r_held x
  | _, _ => False
  end.

(** ** The slowest reader *)

Definition scan (l : list reader) (acc : Z) : Z := fold_left (λ a x, Z.min a (r_last x)) l acc.

Lemma scan_ge z l : ∀ acc, z ≤ scan l acc ↔ z ≤ acc ∧ ∀ k x, l !! k = Some x → z ≤ r_last x.
Proof.
  induction l as [|x l IH]; intros acc; simpl; [naive_solver|].
  unfold scan in *. simpl. rewrite IH. split.
  - intros [H1 H2]. split; [lia|]. intros [|k] y Hy; simplify_eq/=; [lia|eauto].
  - intros [H1 H2]. pose proof (H2 0%nat x eq_refl). split; [lia|]. intros k y Hy. by apply (H2 (S k)).
Qed.

Lemma slowest_reader_ge z reg : ∀ acc,
  z ≤ slowest_reader reg acc ↔
  z ≤ acc ∧ ∀ i c, reg !! i = Some c → cl_active c = true → z ≤ last_read c.
Proof.
  unfold slowest_reader. induction reg as [|c reg IH]; intros acc; simpl; [naive_solver|].
  rewrite IH. split.
  - intros [H1 H2]. destruct (cl_active c) eqn:Hc; split; try lia;
      (intros [|i] y Hy Ha; simplify_eq/=; [congruence || lia|eauto]).
  - intros [H1 H2]. pose proof (H2 0%nat c eq_refl). destruct (cl_active c); split; try lia; auto;
      intros i y Hy; by apply (H2 (S i)).
Qed.

Lemma min_ext (a b : Z) : (∀ z, z ≤ a ↔ z ≤ b) → a = b.
Proof. intros H. pose proof (proj1 (H a) ltac:(lia)). pose proof (proj2 (H b) ltac:(lia)). lia. Qed.

(** What holds of the active clients is what holds of the readers. *)
Lemma clients_readers place content s r (P : Z → Prop) (skip : nat → Prop) :
  matches place content s r →
  (∀ i c, client_registry (blk s) !! i = Some c → cl_active c = true → ¬ skip i → P (last_read c)) ↔
  (∀ k x, readers r !! k = Some x → ∀ i, place !! k = Some i → ¬ skip i → P (r_last x)).
Proof.
  intros Hm. split.
  - intros H k x Hx i Hi Hs. destruct (mt_readers _ _ _ _ Hm k i x Hi Hx) as (c & Hc & Ha & <-). eauto.
  - intros H i c Hc Ha Hs. pose proof (mt_active _ _ _ _ Hm i c Hc Ha) as Hi.
    apply list_elem_of_lookup in Hi as [k Hk]. destruct (mt_place _ _ _ _ Hm) as [_ Hlen].
    destruct (lookup_lt_is_Some_2 (readers r) k) as [x Hx].
    { rewrite <- Hlen. by eapply lookup_lt_Some. }
    destruct (mt_readers _ _ _ _ Hm k i x Hk Hx) as (c' & Hc' & _ & Hl). simplify_eq. rewrite Hl. eauto.
Qed.

Lemma slowest_scan place content s r t :
  matches place content s r → slowest_reader (client_registry (blk s)) t = scan (readers r) t.
Proof.
  intros Hm. apply min_ext. intros z. rewrite slowest_reader_ge, scan_ge.
  pose proof (clients_readers _ _ _ _ (λ a, z ≤ a) (λ _, False) Hm) as Hc.
  destruct (mt_place _ _ _ _ Hm) as [_ Hlen]. split; intros [H1 H2]; (split; [done|]).
  - intros k x Hx. destruct (lookup_lt_is_Some_2 place k) as [i Hi].
    { rewrite Hlen. by eapply lookup_lt_Some. }
    exact (proj1 Hc (λ i c Hi Ha _, H2 i c Hi Ha) k x Hx i Hi (λ H, H)).
  - intros i c Hi Ha. exact (proj2 Hc (λ k x Hx i _ _, H2 k x Hx) i c Hi Ha (λ H, H)).
Qed.

(** The engine's test of a slot is the ring's. *)
Lemma slot_free_scan place content s r t :
  matches place content s r → ring_inv r → 0 ≤ t < 2 ^ 63 →
  slot_free (client_registry (blk s)) t = bool_decide (t - scan (readers r) t < BUFFER_SLOTS).
Proof.
  intros Hm Hi Ht. pose proof (slowest_scan _ _ _ _ t Hm) as Hs. unfold slot_free. rewrite Hs.
  assert (0 ≤ scan (readers r) t ≤ t) as Hb.
  { split; [|apply (scan_ge _ (readers r)); lia]. apply scan_ge. split; [lia|]. intros k x Hx.
    destruct (inv_r _ Hi k x Hx) as ([? _] & _). done. }
  rewrite u64_small by (unfold is_u; lia).
  destruct (readers_active _) eqn:Ha; [done|]. symmetry. apply bool_decide_eq_true.
  replace (scan (readers r) t) with t; [unfold BUFFER_SLOTS; lia|]. rewrite <- Hs. symmetry.
  apply min_ext. intros z. rewrite slowest_reader_ge. split; [by intros [? _]|]. intros Hz.
  split; [done|]. intros i c Hc Hact. exfalso. unfold readers_active in Ha.
  assert (existsb cl_active (client_registry (blk s)) = true); [|congruence].
  apply existsb_exists. exists c. split; [|done]. apply list_elem_of_In. by eapply list_elem_of_lookup_2.
Qed.

(** ** A writer's steps *)

Lemma acts_app l1 l2 r r1 :
  acts_in_order l1 r = Some r1 → acts_in_order (l1 ++ l2) r = acts_in_order l2 r1.
Proof.
  revert r. induction l1 as [|a l1 IH]; intros r H; simpl in *; [by simplify_eq|].
  destruct (act a r) as [r2|]; [|done]. simpl in *. destruct a as [w|k|k q|k|k]; try by apply IH.
  destruct (readers r !! k) as [x|]; [|done]. simpl in *. case_decide; [by apply IH|done].
Qed.

Lemma acts_inv l r r' : ring_inv r → acts_in_order l r = Some r' → ring_inv r'.
Proof.
  intros Hi Hl. apply acts_in_order_reach in Hl. induction Hl as [r|r1 r2 r3 H12 _ IH]; [done|].
  apply IH. by eapply ring_inv_step.
Qed.

Lemma writer_act w l r r1 r' :
  act (AWriter w) r = Some r1 → acts_in_order l r1 = Some r' →
  acts_in_order (AWriter w :: l) r = Some r'.
Proof. intros H1 H2. cbn [acts_in_order]. by rewrite H1. Qed.

Lemma set_writer_twice w p p' r : set_writer w p (set_writer w p' r) = set_writer w p r.
Proof. unfold set_writer; simpl. by rewrite list_insert_insert_eq. Qed.
Lemma set_writer_same w p r : writers r !! w = Some p → set_writer w p r = r.
Proof. intros H. destruct r. unfold set_writer; simpl in *. by rewrite list_insert_id. Qed.
Lemma lookup_set_writer w p p' r : writers r !! w = Some p' → writers (set_writer w p r) !! w = Some p.
Proof. intros H. simpl. rewrite list_lookup_insert_eq; [done|]. by eapply lookup_lt_Some. Qed.

Lemma scan_run w t n : ∀ i acc r,
  writers r !! w = Some (WScan t i acc) → length (readers r) = (i + n)%nat →
  acts_in_order (replicate n (AWriter w)) r
  = Some (set_writer w (WScan t (i + n) (scan (drop i (readers r)) acc)) r).
Proof.
  induction n as [|n IH]; intros i acc r Hw Hl; cbn [replicate].
  { rewrite Nat.add_0_r, drop_ge by lia. cbn. by rewrite set_writer_same. }
  destruct (lookup_lt_is_Some_2 (readers r) i) as [x Hx]; [lia|].
  rewrite (drop_S _ _ _ Hx). eapply writer_act.
  - cbn [act]. unfold writer_step. rewrite Hw. cbn. by rewrite Hx.
  - rewrite (IH (S i) (Z.min acc (r_last x))); [|by eapply lookup_set_writer|simpl; lia].
    rewrite set_writer_twice. by replace (S i + n)%nat with (i + S n)%nat by lia.
Qed.

(** A writer looks at all readers and finds its slot free or not. *)
Lemma try_slot w t r :
  writers r !! w = Some (WScan t 0 t) →
  ∃ l, Forall (λ a, a = AWriter w) l ∧
    acts_in_order l r
    = Some (set_writer w (if decide (t - scan (readers r) t < BUFFER_SLOTS) then WFree t else WFull t) r).
Proof.
  intros Hw. exists (replicate (length (readers r)) (AWriter w) ++ [AWriter w]). split.
  { apply Forall_app. split; [by apply Forall_replicate|by repeat constructor]. }
  rewrite (acts_app _ _ _ _ (scan_run w t (length (readers r)) 0 t r Hw eq_refl)).
  eapply writer_act; [|done]. cbn [act]. unfold writer_step.
  erewrite lookup_set_writer by done. cbn [mbind option_bind readers set_writer].
  rewrite lookup_ge_None_2 by lia. rewrite drop_0, set_writer_twice. done.
Qed.

(** ** The wait for a slot *)

Definition waited (f : bool) (n : Z) (s : Ipc) : Ipc :=
  set_sem WRITER_WAIT_SEM n (set_blk (set_blocked f) s).
Definition waited_ring (w : nat) (p : wpc) (f : bool) (n : Z) (r : ring) : ring :=
  set_writer w p (set_flag f (set_wsem n r)).

Lemma waited_twice f n f' n' s : waited f n (waited f' n' s) = waited f n s.
Proof.
  unfold waited, set_sem, set_blk; simpl. f_equal. destruct (sems s); [|done]. simpl.
  by rewrite list_insert_insert_eq.
Qed.
Lemma waited_ring_twice w p f n p' f' n' r :
  waited_ring w p f n (waited_ring w p' f' n' r) = waited_ring w p f n r.
Proof. unfold waited_ring, set_writer; simpl. by rewrite list_insert_insert_eq. Qed.

Lemma matches_waited place content s r w p f n :
  matches place content s r → matches place content (waited f n s) (waited_ring w p f n r).
Proof.
  intros [(l & Hl & Hc & Hw & Hr) Hcnt Hb Ht Hp Ha Hrd]. split; simpl; try done.
  - rewrite Hl. exists (<[WRITER_WAIT_SEM := n]> l). split; [done|].
    split; [by rewrite list_lookup_insert_ne|]. split.
    + apply list_lookup_insert_eq. by eapply lookup_lt_Some.
    + intros k i x Hk Hx. rewrite list_lookup_insert_ne by (unfold WRITER_WAIT_SEM, CONTROL_SEMS; lia).
      exact (Hr k i x Hk Hx).
  - naive_solver.
Qed.

Lemma matches_sem place content s r :
  matches place content s r → sem_is WRITER_WAIT_SEM (wsem r) s.
Proof. intros [(l & Hl & _ & Hw & _) _ _ _ _ _ _]. unfold sem_is. by rewrite Hl. Qed.
Lemma waited_same place content s r f :
  matches place content s r → set_blk (set_blocked f) s = waited f (wsem r) s.
Proof.
  intros Hm. unfold waited. rewrite set_sem_blk. f_equal. pose proof (matches_sem _ _ _ _ Hm) as Hs.
  rewrite <- (set_sem_undo _ (wsem r) (wsem r) s Hs) at 1.
  destruct Hm as [(l & Hl & _ & Hw & _) _ _ _ _ _ _]. destruct s as [b ?]; simpl in *; subst.
  unfold set_sem; simpl. by rewrite !list_insert_id by (rewrite ?list_insert_id; done).
Qed.

(** Every round of the loop in [send] is a round of the writer's steps; the
    loop ends with the slot, or at the semaphore without a token. *)
Lemma wait_run {E} place content w t fuel : ∀ s r,
  matches place content s r → ring_inv r → writers r !! w = Some (WScan t 0 t) → 0 ≤ t < 2 ^ 63 →
  0 ≤ wsem r < Z.of_nat fuel →
  ∃ l n, Forall (λ a, a = AWriter w) l ∧
    ((acts_in_order l r = Some (waited_ring w (WReady t) false n r) ∧
      wait_slot (E := E) fuel t s = (Ret true, waited false n s, [])) ∨
     (n = 0 ∧ acts_in_order l r = Some (waited_ring w (WWait t) true n r) ∧
      wait_slot (E := E) fuel t s = (Blocked, waited true n s, []))).
Proof.
  induction fuel as [|fuel IH]; intros s r Hm Hi Hw Ht Hf; [lia|].
  destruct (try_slot w t r Hw) as (l & Hl & Hacts). cbn [wait_slot]. mstep.
  rewrite (slot_free_scan _ _ _ _ t Hm Hi Ht). unfold on_blk. destruct (decide _) as [Hd|Hd].
  - exists (l ++ [AWriter w]), (wsem r). split; [by apply Forall_app; repeat constructor|]. left.
    rewrite bool_decide_true by done. mstep. rewrite (waited_same _ _ _ _ false Hm). split; [|done].
    rewrite (acts_app _ _ _ _ Hacts). eapply writer_act; [|done]. cbn [act]. unfold writer_step.
    erewrite lookup_set_writer by done. cbn. f_equal. unfold waited_ring, set_writer, set_flag; simpl.
    by rewrite list_insert_insert_eq.
  - rewrite bool_decide_false by done. mstep. rewrite (waited_same _ _ _ _ true Hm).
    assert (acts_in_order (l ++ [AWriter w]) r = Some (waited_ring w (WWait t) true (wsem r) r)) as Hacts'.
    { rewrite (acts_app _ _ _ _ Hacts). eapply writer_act; [|done]. cbn [act]. unfold writer_step.
      erewrite lookup_set_writer by done. cbn. f_equal. unfold waited_ring, set_writer, set_flag; simpl.
      by rewrite list_insert_insert_eq. }
    pose proof (matches_waited _ _ _ _ w (WWait t) true (wsem r) Hm) as Hm'.
    pose proof (semop_wait_run (E := E) _ _ _ (matches_sem _ _ _ _ Hm')) as Hrun. cbn in Hrun.
    assert (Forall (λ a, a = AWriter w) (l ++ [AWriter w])) as Hl' by (apply Forall_app; by repeat constructor).
    case_decide as Hz.
    + rewrite (bind_pure _ _ _ _ _ Hrun).
      assert (acts_in_order ((l ++ [AWriter w]) ++ [AWriter w]) r
              = Some (waited_ring w (WScan t 0 t) true (wsem r - 1) r)) as Hacts2.
      { rewrite (acts_app _ _ _ _ Hacts'). eapply writer_act; [|done]. cbn [act]. unfold writer_step.
        unfold waited_ring. erewrite lookup_set_writer by exact Hw. cbn. rewrite decide_True by done. f_equal.
        unfold waited_ring, set_writer, set_wsem; simpl. by rewrite list_insert_insert_eq. }
      assert (set_sem WRITER_WAIT_SEM (wsem r - 1) (waited true (wsem r) s) = waited true (wsem r - 1) s) as ->.
      { unfold waited, set_sem; simpl. destruct (sems s); simpl; [by rewrite list_insert_insert_eq|done]. }
      destruct (IH (waited true (wsem r - 1) s) (waited_ring w (WScan t 0 t) true (wsem r - 1) r))
        as (l2 & n & Hl2 & Hcase).
      * by apply matches_waited.
      * by eapply acts_inv.
      * by eapply lookup_set_writer.
      * done.
      * simpl. lia.
      * exists (((l ++ [AWriter w]) ++ [AWriter w]) ++ l2), n.
        rewrite (acts_app _ _ _ _ Hacts2), !waited_ring_twice, !waited_twice in *.
        split; [by rewrite !Forall_app; repeat split; repeat constructor|done].
    + assert (wsem r = 0) as Hz0 by lia. exists (l ++ [AWriter w]), 0. split; [done|]. right.
      rewrite Hz0 in *. split; [done|]. split; [done|]. unfold mbind at 1, M_bind at 1. by rewrite Hrun.
Qed.

(** ** The parts of a send *)

Lemma matches_writer place content s r w p :
  matches place content s r → matches place content s (set_writer w p r).
Proof. by intros []; split. Qed.

Definition claimed_ring (w : nat) (r : ring) : ring :=
  set_writer w (WScan (claim r) 0 (claim r))
    (mk_ring (claim r + 1) (publish r) (frames r) (seqs r) (blocked_flag r) (wsem r) (writers r) (readers r)).
Lemma matches_claimed place content s r w :
  matches place content s r →
  matches place content (set_blk (set_claim (claim r + 1)) s) (claimed_ring w r).
Proof.
  intros [Hs Hc Hb Ht Hp Ha Hr]. split; simpl; try done; [naive_solver|].
  eapply Forall_impl; [exact Ht|]. simpl. lia.
Qed.

Definition with_frame (t : Z) (f : Frame) (content : Z → Frame) : Z → Frame :=
  λ t', if decide (t' = t) then f else content t'.
Definition written_ring (t : Z) (r : ring) : ring :=
  mk_ring (claim r) (publish r) (<[slot t := t]> (frames r)) (<[slot t := t]> (seqs r)) (blocked_flag r)
    (wsem r) (writers r) (readers r).
Lemma matches_written place content s r t f :
  matches place content s r → t ∉ frames r → t < claim r →
  matches place (with_frame t f content)
    (set_blk (set_buffer (<[slot t := mk_slot t f]> (buffer (blk s)))) s) (written_ring t r).
Proof.
  intros [Hs Hc Hb Ht Hp Ha Hr] Hfresh Hlt. split; simpl; try done; [|by apply Forall_insert].
  rewrite Hb. replace (zip_with (λ q t, mk_slot q (content t)) (seqs r) (frames r))
    with (zip_with (λ q t', mk_slot q (with_frame t f content t')) (seqs r) (frames r)).
  - rewrite <- insert_zip_with. f_equal. unfold with_frame. by rewrite decide_True.
  - clear -Hfresh. generalize (seqs r). induction (frames r) as [|t' l IH]; intros [|q qs]; try done.
    simpl. apply not_elem_of_cons in Hfresh as [Hne Hl]. rewrite (IH Hl). f_equal.
    unfold with_frame. by rewrite decide_False by congruence.
Qed.

Definition published_ring (t : Z) (r : ring) : ring :=
  mk_ring (claim r) t (frames r) (seqs r) (blocked_flag r) (wsem r) (writers r)
    ((λ x, mk_reader (r_last x) (r_next x) (r_held x) (r_sem x + 1) (r_pc x)) <$> readers r).
Lemma matches_published place content s r t :
  matches place content s r →
  matches place content
    (mk_ipc (set_publish t (blk s)) (signal_clients (client_registry (blk s)) <$> sems s))
    (published_ring t r).
Proof.
  intros [(l & Hl & H1 & H3 & Hsem) Hc Hb Ht Hp Ha Hr]. split; simpl; try done.
  - rewrite Hl. eexists. split; [done|]. unfold signal_clients.
    rewrite !list_lookup_imap, H1, H3. split; [done|]. split; [done|].
    intros k i x Hk Hx. apply list_lookup_fmap_Some in Hx as (y & -> & Hy).
    destruct (Hr k i y Hk Hy) as (c & Hci & Hact & _).
    pose proof (signal_clients_lookup _ _ _ _ _ Hci (Hsem k i y Hk Hy)) as Hn.
    rewrite Hact in Hn. exact Hn.
  - naive_solver.
  - by rewrite length_fmap.
  - intros k i x Hk Hx. apply list_lookup_fmap_Some in Hx as (y & -> & Hy). exact (Hr k i y Hk Hy).
Qed.

(** From the free slot to the frame with its number, and on to the signals. *)
Lemma write_acts w t r :
  writers r !! w = Some (WReady t) →
  acts_in_order [AWriter w; AWriter w] r = Some (set_writer w (WSequenced t) (written_ring t r)).
Proof.
  intros Hw. eapply writer_act; [cbn [act]; unfold writer_step; by rewrite Hw|].
  eapply writer_act.
  { cbn [act]. unfold writer_step. by erewrite lookup_set_writer by exact Hw. }
  cbn. f_equal. unfold set_writer, written_ring; simpl. by rewrite list_insert_insert_eq.
Qed.
Lemma publish_acts w t r :
  writers r !! w = Some (WSequenced t) → publish r = t - 1 →
  acts_in_order [AWriter w; AWriter w] r = Some (set_writer w WIdle (published_ring t r)).
Proof.
  intros Hw Hp. eapply writer_act.
  { cbn [act]. unfold writer_step. rewrite Hw. cbn. by rewrite decide_True by done. }
  eapply writer_act.
  { cbn [act]. unfold writer_step. by erewrite lookup_set_writer by exact Hw. }
  cbn. f_equal. unfold set_writer, published_ring; simpl. by rewrite list_insert_insert_eq.
Qed.

(** ** Whole calls *)

(** A send from the slot it waited for. *)
Definition fill {E} (src : option MAC) (dst : MAC) (protocol : Z) (data : list Z) (size t : Z) : M Ipc E Z :=
  let slot_index := Z.to_nat (t `mod` BUFFER_SLOTS) in
  slots ← gets (λ s, buffer (blk s));
  slot ← checked (slots !! slot_index);
  _ ← (if decide (size ≤ ETH_MTU ∧ size ≤ Z.of_nat (length data)) then mret tt else undefined);
  let frame := slot_write src dst protocol data size (slot_frame slot) in
  _ ← on_blk (set_buffer (<[slot_index := mk_slot t frame]> slots));
  pub ← gets (λ s, publish_sequence_id (blk s));
  if decide (pub = u64 (t - 1)) then
    _ ← on_blk (set_publish t);
    _ ← modify (λ s, mk_ipc (blk s) (signal_clients (client_registry (blk s)) <$> sems s));
    mret (HEADER_SIZE + size)
  else blocked.

(** What a send comes to: the frame is published, or the writer is stuck. *)
Definition send_ends (w : nat) (t : Z) (src : option MAC) (dst : MAC) (protocol : Z) (data : list Z) (size : Z)
    (o : outcome Z) (content' : Z → Frame) (r' : ring) : Prop :=
  match o with
  | Ret n => n = HEADER_SIZE + size ∧ writers r' !! w = Some WIdle ∧ publish r' = t ∧
      ∃ old, content' t = slot_write src dst protocol data size old
  | Blocked => writer_step w r' = None
  | _ => False
  end.

Lemma fill_call {E} place content s r w t src dst protocol data size :
  matches place content s r → ring_inv r → writers r !! w = Some (WReady t) →
  0 < t < claim r → t < 2 ^ 63 → t ∉ frames r → size ≤ ETH_MTU → size ≤ Z.of_nat (length data) →
  ∃ l r' content' o s', Forall (λ a, a = AWriter w) l ∧ acts_in_order l r = Some r' ∧
    fill (E := E) src dst protocol data size t s = (o, s', []) ∧
    matches place content' s' r' ∧ elsewhere t content' content ∧
    send_ends w t src dst protocol data size o content' r'.
Proof.
  intros Hm Hi Hw Ht Hlt Hfresh Hsz Hdata. unfold fill. destruct (inv_len _ Hi) as [Hlf Hlq]. cbv zeta. mstep.
  destruct (lookup_lt_is_Some_2 (buffer (blk s)) (slot t)) as [sl Hsl].
  { rewrite (mt_buffer _ _ _ _ Hm), length_zip_with, Hlf, Hlq. apply slot_lt. lia. }
  unfold slot in Hsl at 1. rewrite Hsl. mstep. rewrite decide_True by done. unfold on_blk. mstep.
  set (f := slot_write _ _ _ _ _ _).
  pose proof (matches_writer _ _ _ _ w (WSequenced t) (matches_written place content s r t f Hm Hfresh (proj2 Ht)))
    as Hm3.
  fold (slot t). pose proof (write_acts w t r Hw) as Hacts.
  set (r3 := set_writer w (WSequenced t) (written_ring t r)) in *.
  assert (writers r3 !! w = Some (WSequenced t)) as Hw3 by (by eapply lookup_set_writer).
  assert (elsewhere t (with_frame t f content) content) as Helse.
  { intros t' Ht'. unfold with_frame. by rewrite decide_False. }
  set (s3 := set_blk (set_buffer _) s) in *.
  destruct (mt_counters _ _ _ _ Hm3) as (_ & Hpub & _). rewrite (u64_small (_ - 1)) by (unfold is_u; lia).
  rewrite Hpub. case_decide as Hd.
  - mstep. exists ([AWriter w; AWriter w] ++ [AWriter w; AWriter w]).
    exists (set_writer w WIdle (published_ring t r3)), (with_frame t f content), (Ret (HEADER_SIZE + size)).
    eexists. split; [by repeat constructor|].
    split; [rewrite (acts_app _ _ _ _ Hacts); by apply publish_acts|]. split; [done|].
    split; [exact (matches_writer _ _ _ _ w WIdle (matches_published place _ s3 r3 t Hm3))|]. split; [done|].
    split; [done|]. split; [by eapply lookup_set_writer|]. split; [done|].
    exists (slot_frame sl). unfold with_frame. by rewrite decide_True.
  - eexists _, r3, (with_frame t f content), Blocked, s3.
    split; [|split; [exact Hacts|]]; [by repeat constructor|]. do 3 (split; [done|]).
    simpl. unfold writer_step. rewrite Hw3. cbn. by rewrite decide_False.
Qed.

(** A send up to its ticket. *)
Lemma send_claims {E} place content s r src dst protocol data size :
  matches place content s r → ring_inv r → claim r < 2 ^ 63 →
  send (E := E) src dst protocol data size s
  = (fuel ← gets wait_fuel;
     ok ← wait_slot fuel (claim r);
     if negb ok then mret (-1) else fill src dst protocol data size (claim r))
      (set_blk (set_claim (claim r + 1)) s).
Proof.
  intros [(ls & Hls & Hclaim & _) (Hcl & _) _ _ _ _ _] Hi Hlt. destruct (inv_pub _ Hi) as [Hp0 Hp].
  assert (sem_is CLAIM_SEM 1 s) as Hc by (unfold sem_is; by rewrite Hls).
  unfold send. rewrite (bind_pure _ _ _ _ _ (semop_wait_run _ _ _ Hc)). cbn [negb]. mstep.
  unfold on_blk. mstep. change (blk (set_sem CLAIM_SEM (1 - 1) s)) with (blk s).
  pose proof (sem_is_set _ _ (1 - 1) _ Hc) as Hc'.
  rewrite (bind_pure _ _ _ _ _ (semop_signal_run _ _ _ (sem_is_blk _ _ _ _ Hc'))).
  rewrite set_sem_blk, Z.sub_add, (set_sem_undo _ 1) by done. cbn [negb].
  rewrite Hcl, (u64_small (claim r + 1)) by (unfold is_u; lia). unfold fill, on_blk. by rewrite bind_gets.
Qed.

Lemma send_call {E} place content s r w src dst protocol data size :
  matches place content s r → ring_inv r → claim r < 2 ^ 63 → 0 ≤ wsem r →
  writers r !! w = Some WIdle → 0 ≤ size ≤ ETH_MTU → size ≤ Z.of_nat (length data) →
  ∃ l r' content' o s', Forall (λ a, a = AWriter w) l ∧ acts_in_order l r = Some r' ∧
    send (E := E) src dst protocol data size s = (o, s', []) ∧
    matches place content' s' r' ∧ elsewhere (claim r) content' content ∧
    send_ends w (claim r) src dst protocol data size o content' r'.
Proof.
  intros Hm Hi Hlt Hws Hw Hsz Hdata. rewrite (send_claims _ _ _ _ _ _ _ _ _ Hm Hi Hlt). mstep.
  set (t := claim r) in *. destruct (inv_pub _ Hi) as [Hp0 Hp].
  pose proof (matches_claimed _ _ _ _ w Hm) as Hm1. fold t in Hm1.
  assert (acts_in_order [AWriter w] r = Some (claimed_ring w r)) as Hacts1.
  { eapply writer_act; [cbn [act]; unfold writer_step; by rewrite Hw|done]. }
  pose proof (acts_inv _ _ _ Hi Hacts1) as Hi1. set (s1 := set_blk _ s) in *.
  assert (writers (claimed_ring w r) !! w = Some (WScan t 0 t)) as Hw1 by (by eapply lookup_set_writer).
  assert (wsem (claimed_ring w r) < Z.of_nat (wait_fuel s1)) as Hfuel.
  { unfold wait_fuel. pose proof (matches_sem _ _ _ _ Hm1) as Hs. unfold sem_is in Hs. rewrite Hs. simpl. lia. }
  destruct (wait_run (E := E) place content w t (wait_fuel s1) s1 _ Hm1 Hi1 Hw1 ltac:(lia) ltac:(simpl in *; lia))
    as (l & n & Hl & [(Hacts & Hrun)|(-> & Hacts & Hrun)]);
    rewrite <- (acts_app [AWriter w] l _ _ Hacts1) in Hacts.
  - rewrite (bind_pure _ _ _ _ _ Hrun). cbn [negb].
    set (r2 := waited_ring w (WReady t) false n (claimed_ring w r)) in *.
    destruct (fill_call (E := E) place content (waited false n s1) r2 w t src dst protocol data size)
      as (l' & r' & content' & o & s' & Hl' & Hacts' & Hcall); try done; try lia.
    + by apply matches_waited.
    + exact (acts_inv _ _ _ Hi Hacts).
    + eapply lookup_set_writer; exact Hw1.
    + simpl. lia.
    + intros Hin. pose proof (mt_tickets _ _ _ _ Hm) as Htk. rewrite Forall_forall in Htk.
      specialize (Htk t Hin). lia.
    + exists (([AWriter w] ++ l) ++ l'), r', content', o, s'.
      split; [by rewrite !Forall_app; repeat split; [repeat constructor|..]|].
      split; [by rewrite (acts_app _ _ _ _ Hacts)|exact Hcall].
  - exists ([AWriter w] ++ l), (waited_ring w (WWait t) true 0 (claimed_ring w r)), content.
    exists Blocked, (waited true 0 s1). split; [by constructor|]. split; [done|].
    split; [unfold mbind at 1, M_bind at 1; by rewrite Hrun|].
    split; [by apply matches_waited|]. split; [done|].
    simpl. unfold writer_step, waited_ring. by erewrite lookup_set_writer by exact Hw1.
Qed.

Lemma matches_take place content s r k me x h n :
  matches place content s r → place !! k = Some me → readers r !! k = Some x →
  matches place content (set_sem (CONTROL_SEMS + me) (r_sem x - 1) s)
    (set_reader k (mk_reader (r_last x) n h (r_sem x - 1) (r_pc x)) r).
Proof.
  intros [(l & Hl & H1 & H3 & Hsem) Hc Hb Ht [Hnd Hlen] Ha Hr] Hk Hx. split; simpl; try done.
  - rewrite Hl. eexists. split; [done|].
    rewrite !list_lookup_insert_ne by (unfold CONTROL_SEMS, CLAIM_SEM, WRITER_WAIT_SEM; lia).
    split; [done|]. split; [done|]. intros k' i y Hk' Hy.
    apply list_lookup_insert_Some in Hy as [(<- & <- & _)|[Hne Hy]].
    + simplify_eq. apply list_lookup_insert_eq. by eapply lookup_lt_Some, Hsem.
    + rewrite list_lookup_insert_ne; [by eapply Hsem|]. intros He.
      destruct Hne. apply (NoDup_lookup place k k' i); [done| |done]. by replace i with me by lia.
  - by rewrite length_insert.
  - intros k' i y Hk' Hy. apply list_lookup_insert_Some in Hy as [(<- & <- & _)|[Hne Hy]];
      [exact (Hr k i x Hk' Hx)|exact (Hr k' i y Hk' Hy)].
Qed.

Lemma receive_call {E} place content s r k me x :
  matches place content s r → ring_inv r → place !! k = Some me → readers r !! k = Some x →
  (r_sem x ≤ 0 ∧ receive_zerocopy (E := E) me false (r_next x) s = (Blocked, s, []) ∧
    reader_acquire k r = None) ∨
  ∃ s', receive_zerocopy (E := E) me false (r_next x) s = (Ret (Some (slot (r_next x))), s', []) ∧
    let r' := set_reader k (mk_reader (r_last x) (r_next x + 1) (r_held x ++ [r_next x]) (r_sem x - 1) (r_pc x)) r in
    reader_acquire k r = Some r' ∧ matches place content s' r' ∧
    buffer (blk s') !! slot (r_next x) = Some (mk_slot (r_next x) (content (r_next x))).
Proof.
  intros Hm Hi Hk Hx. pose proof Hm as [(l & Hl & _ & _ & Hsem) _ _ _ _ _ _].
  assert (sem_is (CONTROL_SEMS + me) (r_sem x) s) as Hs.
  { unfold sem_is. rewrite Hl. simpl. by apply (Hsem k). }
  pose proof (semop_wait_run (E := E) _ _ _ Hs) as Hrun.
  unfold receive_zerocopy, reader_acquire. rewrite Hx. cbn [mbind option_bind].
  case_decide as Hpos; [right|left].
  2:{ split; [lia|]. split; [|done]. unfold mbind, M_bind. by rewrite Hrun. }
  rewrite (bind_pure _ _ _ _ _ Hrun). cbn [negb]. mstep. fold (slot (r_next x)).
  pose proof (acquire_matches r k x Hi Hx Hpos) as Hseq. rewrite (decide_True _ _ Hseq).
  set (r' := set_reader k _ r).
  assert (ring_inv r') as Hi'.
  { apply (ring_inv_step r); [done|]. apply (step_in_order_act (AAcquire k)); [|done].
    cbn [act]. unfold reader_acquire. rewrite Hx. cbn. by rewrite !decide_True. }
  pose proof (matches_take _ _ _ _ _ _ x (r_held x ++ [r_next x]) (r_next x + 1) Hm Hk Hx) as Hm'.
  fold r' in Hm'.
  destruct (held_intact r' k (mk_reader (r_last x) (r_next x + 1) (r_held x ++ [r_next x]) (r_sem x - 1) (r_pc x))
    (r_next x) Hi') as [Hf Hq].
  { simpl. apply list_lookup_insert_eq. by eapply lookup_lt_Some. }
  { simpl. apply elem_of_app. right. by apply list_elem_of_singleton. }
  assert (buffer (blk s) !! slot (r_next x) = Some (mk_slot (r_next x) (content (r_next x)))) as Hb.
  { pose proof (mt_buffer _ _ _ _ Hm') as Hb. simpl in Hb. rewrite Hb, lookup_zip_with, Hseq.
    simpl in Hf. rewrite Hf. done. }
  eexists. split; [|by split].
  change (buffer (blk (set_sem (CONTROL_SEMS + me) (r_sem x - 1) s))) with (buffer (blk s)).
  rewrite Hb. mstep. simpl. by rewrite decide_False by naive_solver.
Qed.

Lemma foldr_min_ge z a l : z ≤ foldr Z.min a l ↔ z ≤ a ∧ ∀ y, y ∈ l → z ≤ y.
Proof.
  induction l as [|y l IH]; simpl.
  - split; [|by intros []]. intros ?. split; [done|]. intros y Hy. by apply not_elem_of_nil in Hy.
  - rewrite Z.min_glb_iff, IH. setoid_rewrite elem_of_cons. naive_solver.
Qed.

(** Whether the engine takes a reader for the slowest is what the ring says. *)
Lemma wakes_slowest place content s r k me x c :
  matches place content s r → place !! k = Some me → readers r !! k = Some x →
  client_registry (blk s) !! me = Some c → last_read c = r_last x → 0 ≤ r_last x < 2 ^ 63 →
  writer_is_blocked (blk s) &&
    bool_decide (last_read c ≤ slowest_other me (client_registry (blk s)) (u64 (last_read c + 1)))
  = wakes k x r.
Proof.
  intros Hm Hk Hx Hc Hl Hb. unfold wakes. destruct (mt_counters _ _ _ _ Hm) as (_ & _ & ->).
  rewrite Hl, u64_small by (unfold is_u; lia). f_equal. apply bool_decide_ext.
  destruct (mt_place _ _ _ _ Hm) as [Hnd Hlen].
  pose proof (clients_readers _ _ _ _ (λ a, r_last x ≤ a) (λ i, i = me) Hm) as [Hto Hfrom].
  unfold slowest_other. rewrite !foldr_min_ge. setoid_rewrite elem_of_lookup_imap.
  split; intros [_ H]; (split; [lia|]); intros y (i & z & -> & Hz).
  - destruct (Nat.eqb_spec i k) as [->|Hne]; [lia|].
    destruct (lookup_lt_is_Some_2 place i) as [j Hj]; [rewrite Hlen; by eapply lookup_lt_Some|].
    eapply Hto; [|exact Hz|exact Hj|].
    + intros j' c' Hc' Ha' Hj'. specialize (H _ (ex_intro _ j' (ex_intro _ c' (conj eq_refl Hc')))).
      rewrite Ha' in H. apply Nat.eqb_neq in Hj' as Hj2. by rewrite Hj2 in H.
    + intros ->. destruct Hne. by eapply NoDup_lookup.
  - destruct (cl_active z) eqn:Ha; simpl; [|lia].
    destruct (Nat.eqb_spec i me) as [->|Hne]; simpl; [lia|].
    eapply Hfrom; [|exact Hz|exact Ha|done].
    intros k' y Hy j Hj Hjm. specialize (H _ (ex_intro _ k' (ex_intro _ y (conj eq_refl Hy)))).
    destruct (Nat.eqb_spec k' k) as [->|Hkk]; [by simplify_eq|done].
Qed.

Definition released (k : nat) (x : reader) (q : Z) (wake : bool) (r : ring) : ring :=
  let r := set_reader k (mk_reader q (r_next x) (filter (λ q', q' ≠ q) (r_held x)) (r_sem x) RIdle) r in
  if wake then set_wsem (wsem r + 1) r else r.

Lemma release_acts k x q r :
  readers r !! k = Some x → r_pc x = RIdle → head (r_held x) = Some q →
  acts_in_order [ABegin k q; AStore k; ASignal k] r = Some (released k x q (wakes k x r) r).
Proof.
  intros Hx Hpc Hq. assert (k < length (readers r))%nat as Hk by (by eapply lookup_lt_Some).
  cbn [acts_in_order act]. unfold reader_begin. rewrite Hx. cbn.
  rewrite decide_True by (split; [done|]; destruct (r_held x); simplify_eq/=; left). cbn.
  rewrite decide_True by done. unfold reader_store. simpl. rewrite list_lookup_insert_eq by done. cbn.
  unfold reader_signal. simpl. rewrite list_insert_insert_eq, list_lookup_insert_eq by done. cbn.
  unfold released. destruct (wakes k x r); unfold set_reader, set_wsem; simpl;
    by rewrite !list_insert_insert_eq.
Qed.

Lemma matches_registry place content s r k me x c q :
  matches place content s r → place !! k = Some me → readers r !! k = Some x →
  client_registry (blk s) !! me = Some c → cl_active c = true →
  matches place content
    (set_blk (set_registry (<[me := mk_client true (process_id c) q]> (client_registry (blk s)))) s)
    (released k x q false r).
Proof.
  intros [(l & Hl & H1 & H3 & Hsem) Hc Hb Ht [Hnd Hlen] Ha Hr] Hk Hx Hme Hact. split; simpl; try done.
  - exists l. split; [done|]. split; [done|]. split; [done|]. intros k' i y Hk' Hy.
    apply list_lookup_insert_Some in Hy as [(<- & <- & _)|[_ Hy]];
      [exact (Hsem k i x Hk' Hx)|exact (Hsem k' i y Hk' Hy)].
  - by rewrite length_insert.
  - intros i c' Hi Hc'. apply list_lookup_insert_Some in Hi as [(<- & _ & _)|[_ Hi]];
      [exact (Ha me c Hme Hact)|exact (Ha i c' Hi Hc')].
  - intros k' i y Hk' Hy. apply list_lookup_insert_Some in Hy as [(<- & <- & _)|[Hne Hy]].
    + simplify_eq. eexists. split; [apply list_lookup_insert_eq; by eapply lookup_lt_Some|done].
    + rewrite list_lookup_insert_ne; [exact (Hr k' i y Hk' Hy)|]. intros ->. destruct Hne.
      by eapply NoDup_lookup.
Qed.

Lemma matches_signal place content s r :
  matches place content s r →
  matches place content (set_sem WRITER_WAIT_SEM (wsem r + 1) s) (set_wsem (wsem r + 1) r).
Proof.
  intros [(l & Hl & H1 & H3 & Hsem) Hc Hb Ht Hp Ha Hr]. split; simpl; try done.
  rewrite Hl. eexists. split; [done|]. split; [by rewrite list_lookup_insert_ne|].
  split; [apply list_lookup_insert_eq; by eapply lookup_lt_Some|].
  intros k i x Hk Hx. rewrite list_lookup_insert_ne by (unfold CONTROL_SEMS, WRITER_WAIT_SEM; lia).
  exact (Hsem k i x Hk Hx).
Qed.

Lemma release_call {E} place content s r k me x q :
  matches place content s r → ring_inv r → claim r < 2 ^ 63 →
  place !! k = Some me → readers r !! k = Some x → r_pc x = RIdle → head (r_held x) = Some q →
  ∃ s', release_frame (E := E) me q s = (Ret tt, s', []) ∧
    acts_in_order [ABegin k q; AStore k; ASignal k] r = Some (released k x q (wakes k x r) r) ∧
    matches place content s' (released k x q (wakes k x r) r).
Proof.
  intros Hm Hi Hlt Hk Hx Hpc Hq. destruct (mt_readers _ _ _ _ Hm k me x Hk Hx) as (c & Hc & Ha & Hlast).
  assert (0 ≤ r_last x < 2 ^ 63) as Hb.
  { pose proof (inv_r _ Hi k x Hx) as Hok. pose proof (reader_last_pub _ _ _ Hok).
    destruct Hok as ([? _] & _). pose proof (inv_pub _ Hi). lia. }
  pose proof (wakes_slowest _ _ _ _ _ _ _ _ Hm Hk Hx Hc Hlast Hb) as Hwake.
  pose proof (matches_registry _ _ _ _ _ _ _ _ q Hm Hk Hx Hc Ha) as Hm'.
  unfold release_frame. mstep. rewrite Hc. mstep. unfold on_blk. mstep. rewrite Hwake, Ha.
  destruct (wakes k x r) eqn:Hw.
  - pose proof (matches_sem _ _ _ _ Hm') as Hs. pose proof (semop_signal_run (E := E) _ _ _ Hs) as Hrun.
    rewrite (bind_pure _ _ _ _ _ Hrun). mstep. eexists. split; [done|].
    split; [rewrite <- Hw; by apply release_acts|]. by apply matches_signal.
  - mstep. eexists. split; [done|]. split; [rewrite <- Hw; by apply release_acts|done].
Qed.

Lemma acts_wsem l r r' : acts_in_order l r = Some r' → 0 ≤ wsem r → 0 ≤ wsem r'.
Proof.
  revert r. induction l as [|a l IH]; intros r H Hr; [simpl in H; by simplify_eq|].
  apply acts_in_order_cons in H as (r1 & Ha & _ & H). apply (IH r1); [done|].
  destruct a as [w|k|k q|k|k]; cbn [act] in Ha;
    unfold writer_step, reader_acquire, reader_begin, reader_store, reader_signal in Ha;
    repeat (case_match || case_decide || (apply bind_Some in Ha as (? & ? & Ha))); simplify_eq/=; lia.
Qed.

(** The views the readers hold are the frames that were sent. *)
Lemma views_shown place content s r k x q :
  matches place content s r → ring_inv r → readers r !! k = Some x → q ∈ r_held x →
  buffer (blk s) !! slot q = Some (mk_slot q (content q)).
Proof.
  intros Hm Hi Hx Hq. destruct (held_intact r k x q Hi Hx Hq) as [Hf Hs].
  by rewrite (mt_buffer _ _ _ _ Hm), lookup_zip_with, Hs; simpl; rewrite Hf.
Qed.

(** ** Property *)

(** C7. In any state of the ring that the concurrent steps reach, a call of the
    engine as one computation on the shared block is a sequence of steps of its
    thread alone: a send takes the slot and publishes the frame, or stops at the
    writers' semaphore without a token, or at its turn to publish; a reader's call
    gives it the view of its next number, or has no token; a release acknowledges
    and wakes a writer exactly when the ring does.  So the invariant of the
    concurrent ring holds of the block after the call, and every view held by any
    reader still shows the frame that was sent under its number. *)
Theorem calls_are_ring_runs {E} (place : list nat) (content : Z → Frame) (s : Ipc) (r : ring) (c : call) :
  matches place content s r → ring_inv r → 0 ≤ wsem r → claim r < 2 ^ 63 → call_ok place c r →
  ∃ acts r' content' o s',
    Forall (of_call c) acts ∧ acts_in_order acts r = Some r' ∧
    run_call (E := E) c s = (o, s', []) ∧
    matches place content' s' r' ∧ ring_inv r' ∧ 0 ≤ wsem r' ∧ elsewhere (claim r) content' content ∧
    match o with
    | Ret a => answers c a content' s' r r'
    | Blocked => ∀ a, of_call c a → act a r' = None
    | _ => False
    end ∧
    ∀ k x q, readers r' !! k = Some x → q ∈ r_held x →
      buffer (blk s') !! slot q = Some (mk_slot q (content' q)).
Proof.
  intros Hm Hi Hws Hlt Hok.
  assert (∃ acts r' content' o s', Forall (of_call c) acts ∧ acts_in_order acts r = Some r' ∧
    run_call (E := E) c s = (o, s', []) ∧ matches place content' s' r' ∧ elsewhere (claim r) content' content ∧
    match o with
    | Ret a => answers c a content' s' r r'
    | Blocked => ∀ a, of_call c a → act a r' = None
    | _ => False
    end) as (acts & r' & content' & o & s' & Hc & Hacts & Hrun & Hm' & He & Ho).
  2:{ exists acts, r', content', o, s'. pose proof (acts_inv _ _ _ Hi Hacts).
    pose proof (acts_wsem _ _ _ Hacts Hws). do 8 (split; [done|]). intros k x q. by apply (views_shown place). }
  destruct c as [w src dst protocol data size|k me target|k me q]; cbn [call_ok run_call] in *.
  - destruct Hok as (Hw & Hsz & Hdata).
    destruct (send_call (E := E) _ _ _ _ w src dst protocol data size Hm Hi Hlt Hws Hw Hsz Hdata)
      as (l & r' & content' & o & s' & Hl & Hacts & Hrun & Hm' & He & Ho).
    exists l, r', content', (match o with Ret n => Ret (Sent n) | Throw e => Throw e | Blocked => Blocked
      | Undefined => Undefined | Terminate => Terminate end), s'.
    split; [eapply Forall_impl; [exact Hl|]; by intros ? ->|]. split; [done|].
    split; [unfold mbind, M_bind; rewrite Hrun; by destruct o|]. split; [done|]. split; [done|].
    destruct o; try done. intros [w'| | | |]; simpl; try done. by intros ->.
  - destruct Hok as (Hk & x & Hx & <-).
    destruct (receive_call (E := E) _ _ _ _ k me x Hm Hi Hk Hx) as [(_ & Hrun & Hstuck)|(s' & Hrun & Hact & Hm' & _)].
    + exists [], r, content, Blocked, s. split; [done|]. split; [done|].
      split; [unfold mbind, M_bind; by rewrite Hrun|]. do 2 (split; [done|]).
      intros [|k'| | |]; simpl; try done. by intros ->.
    + eexists [AAcquire k], _, content, _, s'. split; [by repeat constructor|].
      split; [cbn [acts_in_order act]; by rewrite Hact|].
      split; [unfold mbind, M_bind; by rewrite Hrun|]. do 2 (split; [done|]). split; [done|].
      eexists. split; [apply list_lookup_insert_eq; by eapply lookup_lt_Some|]. split; [done|].
      apply elem_of_app. right. by apply list_elem_of_singleton.
  - destruct Hok as (Hk & x & Hx & Hpc & Hq).
    destruct (release_call (E := E) _ _ _ _ k me x q Hm Hi Hlt Hk Hx Hpc Hq) as (s' & Hrun & Hacts & Hm').
    eexists [ABegin k q; AStore k; ASignal k], _, content, _, s'. split; [by repeat constructor|].
    split; [exact Hacts|]. split; [unfold mbind, M_bind; by rewrite Hrun|]. do 2 (split; [done|]).
    eexists. split; [unfold released; destruct (wakes k x r); apply list_lookup_insert_eq; by eapply lookup_lt_Some|].
    split; [done|]. simpl. rewrite list_elem_of_filter. naive_solver.
Qed.

(** A fresh block with two clients, and the first send. *)
Definition engine0 : Ipc :=
  ((_ ← register_client (E := unit) 7; register_client 8) (mk_ipc init_block (Some (initial_sems (λ _, true))))).1.2.
Definition send0 : call := CSend 0 None LOCAL_ADDR 1 [5; 6] 2.

Lemma engine0_matches : matches [0%nat; 1%nat] (λ _, Frame_zero) engine0 (ring_start 1 2).
Proof.
  split.
  - eexists. split; [reflexivity|]. split; [reflexivity|]. split; [reflexivity|].
    intros [|[|k]] i x Hk Hx; simplify_eq/=; reflexivity.
  - vm_compute. done.
  - vm_compute. reflexivity.
  - repeat constructor.
  - split; [|done]. repeat constructor; set_solver.
  - intros i c Hi Ha. destruct i as [|[|i]]; [set_solver..|].
    assert (c = zero_client) as ->; [|done].
    change (replicate 14 zero_client !! i = Some c) in Hi. by apply lookup_replicate in Hi as [-> _].
  - intros [|[|k]] i x Hk Hx; simplify_eq/=; eexists; split; reflexivity || done.
Qed.

Lemma calls_are_ring_runs_witness :
  ∃ acts r', Forall (of_call send0) acts ∧ acts_in_order acts (ring_start 1 2) = Some r' ∧
    publish r' = 1 ∧ (run_call (E := unit) send0 engine0).1.1 = Ret (Sent 16).
Proof.
  assert ((run_call (E := unit) send0 engine0).1.1 = Ret (Sent 16)) as Hret by (vm_compute; reflexivity).
  destruct (calls_are_ring_runs (E := unit) _ _ engine0 (ring_start 1 2) send0 engine0_matches
    (ring_inv_start 1 2)) as (acts & r' & content' & o & s' & Hc & Hacts & Hrun & _ & _ & _ & _ & Ho & _).
  - simpl. lia.
  - simpl. lia.
  - split; [reflexivity|]. unfold ETH_MTU. simpl. lia.
  - exists acts, r'. split; [exact Hc|]. split; [exact Hacts|]. rewrite Hrun in Hret |- *. simpl in Hret |- *.
    subst o. split; [|reflexivity]. destruct Ho as (_ & _ & Hp & _). exact Hp.
Defined.
