(* ===== verification/SysV.v ===== *)
(** The semaphore undo values: every [semop] of [engines/smh_engine.hpp] passes
    [SEM_UNDO], so the kernel keeps, for each process and semaphore, the sum of
    what the process has taken ([semadj]), refuses an operation that takes this
    sum out of its range, and adds the sum to the semaphore when the process
    ends.  [Shm] leaves the sums out; here the calls of the engine run with
    them, and [SysVProps] relates the two. *)
From S2P Require Import Prelude Ethernet Shm.
Local Open Scope Z_scope.

(** ** The semaphore set with its undo values *)

(** By process and semaphore; zero where nothing is recorded. *)
Abbreviation adjustments := (gmap (Z * nat) Z).

Record Sys := mk_sys { ipc : Ipc; adj : adjustments }.
Definition set_ipc (i : Ipc) (u : Sys) : Sys := mk_sys i (adj u).

Definition adjustment (a : adjustments) (p : Z) (i : nat) : Z := default 0 (a !! (p, i)).
Definition semadj (u : Sys) : Z → nat → Z := adjustment (adj u).

(** The answer of the kernel to an array of operations. *)
Inductive semop_result :=
  | Granted (values : list Z) (a : adjustments)
  | WouldBlock
  | OutOfRange              (* ERANGE *)
  | NoSuchSemaphore.        (* EFBIG *)

Section sysv.
(** The limits of the system: the largest value of a semaphore and the largest
    value that is undone. *)
Context {E : Type} (SEMVMX SEMAEM : Z).
Abbreviation M := (M Sys E).

Definition in_range (adjusted : Z) : bool :=
  bool_decide (- SEMAEM - 1 ≤ adjusted ∧ adjusted ≤ SEMAEM).

(** The operations in order; all of them take effect, or none. *)
Fixpoint perform (p : Z) (values : list Z) (a : adjustments) (sops : list (nat * Z))
    : semop_result :=
  match sops with
  | [] => Granted values a
  | (sem_num, sem_op) :: sops =>
      match values !! sem_num with
      | None => NoSuchSemaphore
      | Some semval =>
          if decide (semval + sem_op < 0) then WouldBlock
          else if decide (SEMVMX < semval + sem_op) then OutOfRange
          else
            let undo := adjustment a p sem_num - sem_op in
            if in_range undo
            then perform p (<[sem_num := semval + sem_op]> values) (<[(p, sem_num) := undo]> a) sops
            else OutOfRange
      end
  end.

(** [semop] in process [p]: [true] on success, [false] for -1. *)
Definition semop (p : Z) (sops : list (nat * Z)) : M bool :=
  u ← get;
  match sems (ipc u) with
  | None => mret false
  | Some values =>
      match perform p values (adj u) sops with
      | Granted values a => _ ← put (mk_sys (mk_ipc (blk (ipc u)) (Some values)) a); mret true
      | WouldBlock => blocked
      | OutOfRange | NoSuchSemaphore => mret false
      end
  end.

Definition acquire (p : Z) (i : nat) : M bool := semop p [(i, -1)].
Definition signal (p : Z) (i : nat) : M bool := semop p [(i, 1)].

(** The end of process [p]: its adjustments are added, and a value that would
    leave its range stops at the bound. *)
Definition undone (p : Z) (a : adjustments) (values : list Z) : list Z :=
  imap (λ i semval, Z.max 0 (Z.min SEMVMX (semval + adjustment a p i))) values.
Definition forget (p : Z) (a : adjustments) : adjustments := filter (λ '((q, _), _), q ≠ p) a.
Definition exit_process (p : Z) (u : Sys) : Sys :=
  mk_sys (mk_ipc (blk (ipc u)) (undone p (adj u) <$> sems (ipc u))) (forget p (adj u)).

(** What a call does to the block alone. *)
Definition lift {A} (m : Prelude.M Ipc E A) : M A := zoom ipc set_ipc m.

(** ** The calls of the engine, in process [p] *)

Fixpoint wait_slot (p : Z) (fuel : nat) (ticket : Z) : M bool :=
  match fuel with
  | O => blocked
  | S fuel =>
      b ← gets (λ u, blk (ipc u));
      if slot_free (client_registry b) ticket then
        _ ← lift (on_blk (set_blocked false)); mret true
      else
        _ ← lift (on_blk (set_blocked true));
        ok ← acquire p WRITER_WAIT_SEM;
        if (ok : bool) then wait_slot p fuel ticket
        else _ ← lift (on_blk (set_blocked false)); mret false
  end.

(** Step 6: the array of operations, one for every active client. *)
Definition client_ids (reg : list ClientState) : list nat :=
  omap (λ '(i, c), if cl_active c then Some i else None) (imap pair reg).
Definition signal_ops (reg : list ClientState) : list (nat * Z) :=
  (λ i, ((CONTROL_SEMS + i)%nat, 1)) <$> client_ids reg.

Definition send (p : Z) (src_mac : option MAC) (dst_mac : MAC) (protocol : Z) (data : list Z)
    (size : Z) : M Z :=
  ok ← acquire p CLAIM_SEM;
  if negb ok then mret (-1) else
  my_ticket_id ← gets (λ u, claim_sequence_id (blk (ipc u)));
  _ ← lift (on_blk (set_claim (u64 (my_ticket_id + 1))));
  ok ← signal p CLAIM_SEM;
  if negb ok then mret (-1) else
  fuel ← gets (λ u, wait_fuel (ipc u));
  ok ← wait_slot p fuel my_ticket_id;
  if negb ok then mret (-1) else
  let slot_index := Z.to_nat (my_ticket_id `mod` BUFFER_SLOTS) in
  slots ← gets (λ u, buffer (blk (ipc u)));
  slot ← checked (slots !! slot_index);
  _ ← (if decide (size ≤ ETH_MTU ∧ size ≤ Z.of_nat (length data)) then mret tt else undefined);
  let frame := slot_write src_mac dst_mac protocol data size (slot_frame slot) in
  _ ← lift (on_blk (set_buffer (<[slot_index := mk_slot my_ticket_id frame]> slots)));
  pub ← gets (λ u, publish_sequence_id (blk (ipc u)));
  if decide (pub = u64 (my_ticket_id - 1)) then
    _ ← lift (on_blk (set_publish my_ticket_id));
    reg ← gets (λ u, client_registry (blk (ipc u)));
    _ ← (match signal_ops reg with [] => mret true | sops => semop p sops end);
    mret (HEADER_SIZE + size)
  else blocked.

Definition receive_zerocopy (p : Z) (me : nat) (eintr : bool) (target : Z) : M (option nat) :=
  if eintr then mret None else
  ok ← acquire p (CONTROL_SEMS + me);
  if negb ok then mret None else
  let slot_index := Z.to_nat (target `mod` BUFFER_SLOTS) in
  slots ← gets (λ u, buffer (blk (ipc u)));
  slot ← checked (slots !! slot_index);
  if decide (slot_seq slot ≠ target) then mret None else mret (Some slot_index).

Definition release_frame (p : Z) (me : nat) (sequence_id : Z) : M unit :=
  reg ← gets (λ u, client_registry (blk (ipc u)));
  my ← checked (reg !! me);
  wb ← gets (λ u, writer_is_blocked (blk (ipc u)));
  let slowest := bool_decide (last_read my ≤ slowest_other me reg (u64 (last_read my + 1))) in
  _ ← lift (on_blk (set_registry (<[me := mk_client (cl_active my) (process_id my) sequence_id]> reg)));
  _ ← (if wb && slowest then signal p WRITER_WAIT_SEM else mret true);
  mret tt.

Definition registerService (p : Z) (name : list Z) (type_id : Z) : M Z :=
  ok ← acquire p DIRECTORY_SEM;
  if negb ok then mret 0 else
  b ← gets (λ u, blk (ipc u));
  match find_index (λ e, negb (de_active e)) (entries b) with
  | Some i =>
      let port := next_port_to_assign b in
      _ ← lift (on_blk (set_directory (u16 (port + 1))
             (<[i := mk_entry true (stored_name name) type_id port p]> (entries b))));
      _ ← signal p DIRECTORY_SEM; mret port
  | None => _ ← signal p DIRECTORY_SEM; mret 0
  end.

Definition register_client (p : Z) : M nat :=
  ok ← acquire p REGISTRY_SEM;
  if negb ok then lift (cleanupAndThrow "Failed to lock registry for registration") else
  b ← gets (λ u, blk (ipc u));
  match find_index (λ c, negb (cl_active c)) (client_registry b) with
  | Some i =>
      _ ← lift (on_blk (set_registry
             (<[i := mk_client true p (publish_sequence_id b)]> (client_registry b))));
      ok ← signal p REGISTRY_SEM;
      if negb ok then lift (cleanupAndThrow "Failed to unlock registry after registration")
      else mret i
  | None =>
      _ ← signal p REGISTRY_SEM;
      lift (cleanupAndThrow "Failed to register client: No available slots")
  end.

Definition deregister_client (p : Z) (me : nat) : M unit :=
  ok ← acquire p REGISTRY_SEM;
  if negb ok then mret tt else
  reg ← gets (λ u, client_registry (blk (ipc u)));
  my ← checked (reg !! me);
  _ ← lift (on_blk (set_registry (<[me := mk_client false (process_id my) (last_read my)]> reg)));
  _ ← signal p REGISTRY_SEM;
  mret tt.

Definition destroy_engine (p : Z) (me : nat) : M unit :=
  _ ← deregister_client p me;
  reg ← gets (λ u, client_registry (blk (ipc u)));
  if existsb cl_active reg then mret tt else lift remove_sems.
End sysv.
