(* ===== verification/SysVProps.v ===== *)
(** The undo values of [SysV]: within the limits the engine runs as in [Shm];
    at the limits messages stop waking their readers. *)
From S2P Require Import Prelude Hoare Ethernet Shm SysV.
Local Open Scope Z_scope.

(** ** Adjustments *)

Lemma adjustment_insert a p i z q j :
  adjustment (<[(p, i) := z]> a) q j = (if decide ((q, j) = (p, i)) then z else adjustment a q j).
Proof.
  unfold adjustment. case_decide as Heq.
  - injection Heq as -> ->. by rewrite lookup_insert_eq.
  - by rewrite lookup_insert_ne by congruence.
Qed.

Lemma adjustment_forget p a q i :
  adjustment (forget p a) q i = (if decide (q = p) then 0 else adjustment a q i).
Proof.
  unfold adjustment, forget. case_decide as Heq.
  - subst. rewrite map_lookup_filter_None_2; [done|]. right. intros x _ Hp. by apply Hp.
  - destruct (a !! (q, i)) as [x|] eqn:Hx.
    + by rewrite (map_lookup_filter_Some_2 _ _ _ x).
    + rewrite map_lookup_filter_None_2; [done|]. by left.
Qed.

Section limits.
Context {E : Type} (SEMVMX SEMAEM : Z).
Implicit Types (u : Sys) (p : Z).

(** The operation would not leave the ranges. *)
Definition allowed (p : Z) (a : adjustments) (d : Z) (i : nat) (n : Z) : Prop :=
  0 ≤ n + d ≤ SEMVMX ∧ in_range SEMAEM (adjustment a p i - d) = true.

Lemma perform_allowed p values a i d n sops :
  values !! i = Some n → allowed p a d i n →
  perform SEMVMX SEMAEM p values a ((i, d) :: sops) =
  perform SEMVMX SEMAEM p (<[i := n + d]> values) (<[(p, i) := adjustment a p i - d]> a) sops.
Proof.
  intros Hn [Hr Ha]. cbn [perform]. rewrite Hn, decide_False, decide_False by lia. cbv zeta.
  by rewrite Ha.
Qed.

(** One operation of size [d] on each of the semaphores [ks]. *)
Definition bumped (d : Z) (ks : list nat) (values : list Z) : list Z :=
  imap (λ i n, if decide (i ∈ ks) then n + d else n) values.

Lemma bumped_nil d values : bumped d [] values = values.
Proof.
  apply list_eq. intros i. unfold bumped. rewrite list_lookup_imap.
  by destruct (values !! i).
Qed.

Lemma bumped_cons d i ks values n :
  i ∉ ks → values !! i = Some n →
  bumped d ks (<[i := n + d]> values) = bumped d (i :: ks) values.
Proof.
  intros Hi Hn. apply list_eq. intros j. unfold bumped. rewrite !list_lookup_imap.
  destruct (decide (j = i)) as [->|Hne].
  - rewrite list_lookup_insert_eq by (by eapply lookup_lt_Some). rewrite Hn. simpl.
    rewrite decide_False, decide_True by (done || set_solver). done.
  - rewrite list_lookup_insert_ne by done. destruct (values !! j); [|done]. simpl.
    f_equal. case_decide as Hj.
    + by rewrite decide_True by set_solver.
    + by rewrite decide_False by set_solver.
Qed.

Lemma perform_batch p d ks : ∀ values a,
  NoDup ks → (∀ i, i ∈ ks → ∃ n, values !! i = Some n ∧ allowed p a d i n) →
  ∃ a', perform SEMVMX SEMAEM p values a ((λ i, (i, d)) <$> ks) = Granted (bumped d ks values) a' ∧
    ∀ q j, adjustment a' q j =
      (if decide (q = p ∧ j ∈ ks) then adjustment a q j - d else adjustment a q j).
Proof.
  induction ks as [|i ks IH]; intros values a Hnd Hal.
  - exists a. rewrite bumped_nil. split; [done|]. intros q j. rewrite decide_False; set_solver.
  - apply NoDup_cons in Hnd as [Hi Hnd].
    destruct (Hal i ltac:(set_solver)) as (n & Hn & Ha).
    cbn [fmap list_fmap]. rewrite (perform_allowed _ _ _ _ _ n) by done.
    destruct (IH (<[i := n + d]> values) (<[(p, i) := adjustment a p i - d]> a) Hnd) as (a' & Hp & Ha').
    { intros j Hj. destruct (Hal j ltac:(set_solver)) as (m & Hm & Ham). exists m.
      rewrite list_lookup_insert_ne by (intros ->; done). split; [done|].
      unfold allowed. rewrite adjustment_insert, decide_False by (intros [= ->]; done). done. }
    exists a'. rewrite Hp, bumped_cons by done. split; [done|].
    intros q j. rewrite Ha', !adjustment_insert.
    repeat case_decide; simplify_eq; try set_solver; lia.
Qed.

(** One of them refused, and none takes effect. *)
Lemma perform_refused p d ks i : ∀ values a,
  0 ≤ d → NoDup ks → (∀ j, j ∈ ks → ∃ n, values !! j = Some n ∧ 0 ≤ n) →
  i ∈ ks → in_range SEMAEM (adjustment a p i - d) = false →
  perform SEMVMX SEMAEM p values a ((λ i, (i, d)) <$> ks) = OutOfRange.
Proof.
  intros values a Hd. revert values a. induction ks as [|j ks IH]; intros values a Hnd Hv Hi Hr.
  { by apply not_elem_of_nil in Hi. }
  apply NoDup_cons in Hnd as [Hj Hnd]. destruct (Hv j ltac:(set_solver)) as (n & Hn & Hpos).
  cbn [fmap list_fmap perform]. rewrite Hn, decide_False by lia. case_decide; [done|]. cbv zeta.
  destruct (decide (i = j)) as [->|Hne]; [by rewrite Hr|].
  match goal with |- (if ?b then _ else _) = _ => destruct b end; [|done]. apply IH; [done| |set_solver|].
  - intros k Hk. destruct (Hv k ltac:(set_solver)) as (m & Hm & Hp). exists m.
    by rewrite list_lookup_insert_ne by (intros ->; done).
  - by rewrite adjustment_insert, decide_False by congruence.
Qed.

(** ** The batch of [send] *)

Lemma elem_of_client_ids reg i :
  i ∈ client_ids reg ↔ ∃ c, reg !! i = Some c ∧ cl_active c = true.
Proof.
  unfold client_ids. rewrite list_elem_of_omap. split.
  - intros ([j c] & Hin & Hc). apply list_elem_of_lookup in Hin as [k Hk].
    rewrite list_lookup_imap in Hk. destruct (reg !! k) as [c'|] eqn:Hc'; [|done].
    simpl in Hk. injection Hk as -> ->. destruct (cl_active c) eqn:Ha; [|done].
    injection Hc as ->. eauto.
  - intros (c & Hi & Ha). exists (i, c). rewrite Ha. split; [|done].
    apply list_elem_of_lookup. exists i. by rewrite list_lookup_imap, Hi.
Qed.

Lemma NoDup_client_ids reg : NoDup (client_ids reg).
Proof.
  unfold client_ids. cut (∀ k, NoDup (omap (λ '(i, c), if cl_active c then Some i else None)
    (imap (λ i c, ((k + i)%nat, c)) reg)) ∧ ∀ i, i ∈ omap (λ '(i, c), if cl_active c then Some i else None)
    (imap (λ i c, ((k + i)%nat, c)) reg) → (k ≤ i)%nat).
  { intros H. exact (proj1 (H 0%nat)). }
  induction reg as [|c reg IH]; intros k; simpl; [split; [constructor|set_solver]|].
  destruct (IH (S k)) as [Hnd Hle].
  assert (imap ((λ (i : nat) (c : ClientState), ((k + i)%nat, c)) ∘ S) reg =
          imap (λ (i : nat) (c : ClientState), ((S k + i)%nat, c)) reg) as Heq.
  { apply imap_ext. intros i x _. simpl. by rewrite Nat.add_succ_r. }
  rewrite Heq. destruct (cl_active c).
  - rewrite Nat.add_0_r. split.
    + apply NoDup_cons. split; [|done]. intros Hk%Hle. lia.
    + intros i [->|Hi%Hle]%elem_of_cons; lia.
  - split; [done|]. intros i Hi%Hle. lia.
Qed.

Lemma signal_ops_eq reg : signal_ops reg = (λ i, (i, 1)) <$> ((λ i, (CONTROL_SEMS + i)%nat) <$> client_ids reg).
Proof. unfold signal_ops. by rewrite <- list_fmap_compose. Qed.

Lemma NoDup_signal_ids reg : NoDup ((λ i, (CONTROL_SEMS + i)%nat) <$> client_ids reg).
Proof. apply NoDup_fmap_2; [intros ??; lia|apply NoDup_client_ids]. Qed.

Lemma elem_of_signal_ids reg j :
  j ∈ ((λ i, (CONTROL_SEMS + i)%nat) <$> client_ids reg) ↔
  (CONTROL_SEMS ≤ j)%nat ∧ ∃ c, reg !! (j - CONTROL_SEMS)%nat = Some c ∧ cl_active c = true.
Proof.
  rewrite list_elem_of_fmap. split.
  - intros (i & -> & Hi). rewrite elem_of_client_ids in Hi.
    replace (CONTROL_SEMS + i - CONTROL_SEMS)%nat with i by lia. split; [lia|done].
  - intros [Hle Hc]. exists (j - CONTROL_SEMS)%nat. split; [lia|]. by rewrite elem_of_client_ids.
Qed.

(** The array signals what [Shm.signal_clients] signals. *)
Lemma bumped_clients reg values :
  bumped 1 ((λ i, (CONTROL_SEMS + i)%nat) <$> client_ids reg) values = signal_clients reg values.
Proof.
  apply list_eq. intros j. unfold bumped, signal_clients. rewrite !list_lookup_imap.
  destruct (values !! j) as [n|]; [|done]. cbn [fmap option_fmap option_map]. f_equal.
  destruct (CONTROL_SEMS <=? j)%nat eqn:Hle.
  - apply Nat.leb_le in Hle. case_decide as Hj; rewrite elem_of_signal_ids in Hj.
    + destruct Hj as (_ & c & Hc & Ha). by rewrite Hc, Ha.
    + destruct (reg !! _) as [c|] eqn:Hc; [|done]. destruct (cl_active c) eqn:Ha; [|done].
      destruct Hj. eauto.
  - apply Nat.leb_gt in Hle. case_decide as Hj; [|done]. apply elem_of_signal_ids in Hj. lia.
Qed.

(** ** Simulation of [Shm] within the limits *)

(** Process [p] can make [k] more operations on each semaphore, and at most [w]
    writers have a token. *)
Record room (p k w : Z) (u : Sys) : Prop := {
  rm_adj : ∀ i, - SEMAEM - 1 + k ≤ semadj u p i ≤ SEMAEM - k;
  rm_registry : length (client_registry (blk (ipc u))) = MAX_CLIENTS;
  rm_length : ∀ l, sems (ipc u) = Some l → length l = (CONTROL_SEMS + MAX_CLIENTS)%nat;
  rm_values : ∀ l i n, sems (ipc u) = Some l → l !! i = Some n → 0 ≤ n ≤ SEMVMX - k;
  rm_tokens : ∀ l n, sems (ipc u) = Some l → l !! WRITER_WAIT_SEM = Some n → n ≤ w
}.

(** [m'] runs as [m], for [k] operations on a semaphore at most. *)
Definition sim {A} (p k w w' : Z) (m : Prelude.M Ipc E A) (m' : Prelude.M Sys E A) : Prop :=
  ∀ j u, 0 ≤ j → room p (k + j) w u →
  match m (ipc u) with
  | (o, s', es) => ∃ a', m' u = (o, mk_sys s' a', es) ∧ room p j w' (mk_sys s' a')
  end.

Lemma room_le p k k' w w' u : k' ≤ k → w ≤ w' → room p k w u → room p k' w' u.
Proof.
  intros Hk Hw []. split; [|done|done| |].
  - intros i. specialize (rm_adj0 i). lia.
  - intros l i n Hl Hn. specialize (rm_values0 l i n Hl Hn). lia.
  - intros l n Hl Hn. specialize (rm_tokens0 l n Hl Hn). lia.
Qed.

Lemma sim_bind {A B} p k k' w w' w'' (m : Prelude.M Ipc E A) m'
    (f : A → Prelude.M Ipc E B) (f' : A → Prelude.M Sys E B) :
  0 ≤ k' → w' ≤ w'' → sim p k w w' m m' → (∀ a, sim p k' w' w'' (f a) (f' a)) →
  sim p (k + k') w w'' (m ≫= f) (m' ≫= f').
Proof.
  intros Hk Hw Hm Hf j u Hj Hu. unfold mbind, M_bind.
  specialize (Hm (k' + j) u ltac:(lia) ltac:(by rewrite Z.add_assoc)).
  destruct (m (ipc u)) as [[o s'] es]. destruct Hm as (a' & -> & Hu').
  assert (room p j w'' (mk_sys s' a')) as Hend by (eapply room_le; [..|exact Hu']; lia).
  destruct o as [a|e| | |]; [|by exists a' ..].
  specialize (Hf a j (mk_sys s' a') Hj Hu'). cbn [ipc] in Hf.
  destruct (f a s') as [[o s''] es']. destruct Hf as (a'' & -> & Hu''). by exists a''.
Qed.

Lemma sim_le {A} p k k' w w' (m : Prelude.M Ipc E A) m' :
  k ≤ k' → sim p k w w' m m' → sim p k' w w' m m'.
Proof.
  intros Hk Hm j u Hj Hu. apply Hm; [done|]. eapply room_le; [..|exact Hu]; lia.
Qed.

Lemma sim_gets {A} p w (f : Ipc → A) : sim p 0 w w (gets f) (gets (λ u, f (ipc u))).
Proof. intros j [s a] Hj Hu. by exists a. Qed.
Lemma sim_ret {A} p w (x : A) : sim p 0 w w (mret x) (mret x).
Proof. intros j [s a] Hj Hu. by exists a. Qed.
Lemma sim_blocked {A} p w : sim (A := A) p 0 w w blocked blocked.
Proof. intros j [s a] Hj Hu. by exists a. Qed.
Lemma sim_undefined {A} p w : sim (A := A) p 0 w w undefined undefined.
Proof. intros j [s a] Hj Hu. by exists a. Qed.
Lemma sim_checked {A} p w (o : option A) : sim p 0 w w (checked o) (checked o).
Proof. destruct o; [apply sim_ret|apply sim_undefined]. Qed.

(** A change of the block that keeps the number of clients. *)
Lemma sim_block p w f :
  (∀ b, length (client_registry b) = MAX_CLIENTS → length (client_registry (f b)) = MAX_CLIENTS) →
  sim p 0 w w (on_blk f) (lift (on_blk f)).
Proof. intros Hf j [s a] Hj []. exists a. split; [done|]. split; simpl in *; auto. Qed.

(** What is read of the block has the clients of the block. *)
Lemma sim_read {A B} p K w w' (g : Ipc → B) (f : B → Prelude.M Ipc E A) f' :
  (∀ s, length (client_registry (blk s)) = MAX_CLIENTS → sim p K w w' (f (g s)) (f' (g s))) →
  sim p K w w' (gets g ≫= f) (gets (λ u, g (ipc u)) ≫= f').
Proof. intros Hf j u Hj Hu. mstep. apply Hf; [|done..]. by eapply rm_registry. Qed.

Lemma sim_cleanup {A} p w msg :
  sim (A := A) p 0 w w (cleanupAndThrow msg) (lift (cleanupAndThrow msg)).
Proof. intros j [s a] Hj []. exists a. split; [done|]. by split. Qed.
Lemma sim_remove p w : sim p 0 w w remove_sems (lift remove_sems).
Proof. intros j [s a] Hj []. exists a. split; [done|]. by split. Qed.

(** One operation within the limits. *)
Lemma room_step p j w w' u l i n d :
  0 ≤ j → room p (1 + j) w u → sems (ipc u) = Some l → l !! i = Some n →
  d = 1 ∨ d = -1 → 0 ≤ n + d → (w' = w ∧ (i ≠ WRITER_WAIT_SEM ∨ d = -1)) ∨ w' = w + 1 →
  allowed p (adj u) d i n ∧
  room p j w' (mk_sys (mk_ipc (blk (ipc u)) (Some (<[i := n + d]> l)))
                 (<[(p, i) := semadj u p i - d]> (adj u))).
Proof.
  intros Hj [] Hl Hn Hd Hpos Hw. pose proof (rm_values0 _ _ _ Hl Hn) as Hv. split.
  - split; [lia|]. apply bool_decide_eq_true. pose proof (rm_adj0 i) as Ha. unfold semadj in Ha. lia.
  - split; simpl.
    + intros k. unfold semadj. simpl. rewrite adjustment_insert. pose proof (rm_adj0 k) as Hk.
      unfold semadj in *. case_decide as Heq; [injection Heq as ->|]; lia.
    + done.
    + intros ? [= <-]. rewrite length_insert. auto.
    + intros ? k m [= <-] Hk. apply list_lookup_insert_Some in Hk as [(-> & <- & _)|[_ Hk]]; [lia|].
      specialize (rm_values0 _ _ _ Hl Hk). lia.
    + intros ? m [= <-] Hk. pose proof (λ m, rm_tokens0 _ m Hl) as Ht.
      apply list_lookup_insert_Some in Hk as [(-> & <- & _)|[_ Hk]].
      * specialize (Ht _ Hn). destruct Hw as [[-> [?|?]]|?]; [done|lia|lia].
      * specialize (Ht _ Hk). lia.
Qed.

Lemma semop_one p i d n l u :
  sems (ipc u) = Some l → l !! i = Some n → allowed p (adj u) d i n →
  semop (E := E) SEMVMX SEMAEM p [(i, d)] u =
    (Ret true, mk_sys (mk_ipc (blk (ipc u)) (Some (<[i := n + d]> l)))
                 (<[(p, i) := semadj u p i - d]> (adj u)), []).
Proof.
  intros Hl Hn Ha. unfold semop. mstep. rewrite Hl, (perform_allowed _ _ _ _ _ n) by done.
  cbn [perform]. by mstep.
Qed.

Lemma sim_acquire p w i : sim p 1 w w (semop_wait i) (acquire SEMVMX SEMAEM p i).
Proof.
  intros j u Hj Hu. unfold semop_wait, acquire. mstep. pose proof (room_le _ (1 + j) j w w u ltac:(lia) ltac:(lia) Hu) as Hu0.
  destruct (sems (ipc u)) as [l|] eqn:Hl.
  2:{ exists (adj u). unfold semop. mstep. rewrite Hl. by destruct u. }
  destruct (l !! i) as [n|] eqn:Hn.
  2:{ exists (adj u). unfold semop. mstep. rewrite Hl. cbn [perform]. rewrite Hn. by destruct u. }
  case_decide as Hpos.
  - destruct (room_step p j w w u l i n (-1) Hj Hu Hl Hn) as [Ha Hr]; [lia|lia|by left; auto|].
    eexists. mstep. rewrite (semop_one _ _ _ n l) by done. split; [done|exact Hr].
  - exists (adj u). unfold semop. mstep. rewrite Hl. cbn [perform]. rewrite Hn, decide_True by lia.
    by destruct u.
Qed.

Lemma sim_signal_gen p w w' i :
  (w' = w ∧ i ≠ WRITER_WAIT_SEM) ∨ w' = w + 1 →
  sim p 1 w w' (semop_signal i) (signal SEMVMX SEMAEM p i).
Proof.
  intros Hw j u Hj Hu. unfold semop_signal, signal. mstep.
  pose proof (room_le _ (1 + j) j w w' u ltac:(lia) ltac:(lia) Hu) as Hu0.
  destruct (sems (ipc u)) as [l|] eqn:Hl.
  2:{ exists (adj u). unfold semop. mstep. rewrite Hl. by destruct u. }
  destruct (l !! i) as [n|] eqn:Hn.
  2:{ exists (adj u). unfold semop. mstep. rewrite Hl. cbn [perform]. rewrite Hn. by destruct u. }
  pose proof (rm_values _ _ _ _ Hu _ _ _ Hl Hn) as Hv.
  destruct (room_step p j w w' u l i n 1 Hj Hu Hl Hn) as [Ha Hr]; [lia|lia|naive_solver|].
  eexists. mstep. rewrite (semop_one _ _ _ n l) by done. split; [done|exact Hr].
Qed.
Lemma sim_signal p w i : i ≠ WRITER_WAIT_SEM → sim p 1 w w (semop_signal i) (signal SEMVMX SEMAEM p i).
Proof. intros Hi. apply sim_signal_gen. auto. Qed.

Lemma signal_clients_none reg l : client_ids reg = [] → signal_clients reg l = l.
Proof. intros Hn. by rewrite <- bumped_clients, Hn, bumped_nil. Qed.

(** The step 6 of [send], which ends it. *)
Lemma sim_batch {A} p w (x : A) :
  sim p 1 w w
    (_ ← modify (λ s, mk_ipc (blk s) (signal_clients (client_registry (blk s)) <$> sems s)); mret x)
    (reg ← gets (λ u, client_registry (blk (ipc u)));
     _ ← (match signal_ops reg with [] => mret true | sops => semop SEMVMX SEMAEM p sops end);
     mret x).
Proof.
  intros j u Hj Hu. mstep. cbn [mret M_ret]. set (reg := client_registry (blk (ipc u))) in *.
  destruct u as [[b [l|]] a]; cbn [ipc blk sems fmap option_fmap option_map] in *.
  2:{ exists a. split; [destruct (signal_ops reg); unfold semop; by mstep|].
      eapply room_le; [..|exact Hu]; lia. }
  assert (∀ i, i ∈ ((λ i, (CONTROL_SEMS + i)%nat) <$> client_ids reg) →
    ∃ n, l !! i = Some n ∧ allowed p a 1 i n) as Hal.
  { intros i (Hle & c & Hc & _)%elem_of_signal_ids. pose proof (rm_length _ _ _ _ Hu l eq_refl) as Hlen.
    apply lookup_lt_Some in Hc. destruct (lookup_lt_is_Some_2 l i) as [n Hn]; [|].
    { pose proof (rm_registry _ _ _ _ Hu) as Hr. cbn [ipc blk] in Hr. fold reg in Hr. lia. }
    exists n. split; [done|]. pose proof (rm_values _ _ _ _ Hu l i n eq_refl Hn).
    pose proof (rm_adj _ _ _ _ Hu i) as Ha. unfold semadj in Ha. simpl in Ha.
    split; [lia|]. apply bool_decide_eq_true. lia. }
  destruct (perform_batch p 1 _ l a (NoDup_signal_ids reg) Hal) as (a' & Hperf & Ha').
  assert (∀ k m, signal_clients reg l !! k = Some m → ∃ n, l !! k = Some n ∧
    (m = n ∨ m = n + 1 ∧ k ≠ WRITER_WAIT_SEM)) as Hlk.
  { intros k m. unfold signal_clients. rewrite list_lookup_imap. destruct (l !! k) as [n|]; [|done].
    cbn [fmap option_fmap option_map]. intros <-%(inj Some). exists n. split; [done|].
    destruct (CONTROL_SEMS <=? k)%nat eqn:Hk; [|by left]. apply Nat.leb_le in Hk.
    repeat case_match; auto. right. split; [done|].
    unfold WRITER_WAIT_SEM, CONTROL_SEMS in *. lia. }
  assert (room p j w (mk_sys (mk_ipc b (Some (signal_clients reg l))) a')) as Hroom.
  { destruct Hu. split; simpl.
    - intros i. unfold semadj in *. simpl in *. rewrite Ha'. specialize (rm_adj0 i). case_decide; lia.
    - done.
    - intros ? [= <-]. unfold signal_clients. rewrite length_imap. by apply rm_length0.
    - intros ? i n [= <-] (m & Hm & Hn)%Hlk. specialize (rm_values0 _ _ _ eq_refl Hm). lia.
    - intros ? n [= <-] (m & Hm & Hn)%Hlk. specialize (rm_tokens0 _ _ eq_refl Hm).
      destruct Hn as [->|[_ ?]]; [lia|done]. }
  destruct (signal_ops reg) as [|o ops] eqn:Ho.
  - exists a. mstep. assert (client_ids reg = []) as Hnil.
    { apply (f_equal length) in Ho. unfold signal_ops in Ho. rewrite length_fmap in Ho.
      by destruct (client_ids reg). }
    rewrite signal_clients_none by done. split; [done|]. eapply room_le; [..|exact Hu]; lia.
  - exists a'. rewrite <- Ho. unfold semop. mstep. cbn [ipc sems adj]. rewrite signal_ops_eq, Hperf.
    mstep. rewrite bumped_clients. by split.
Qed.

Lemma sim_wait_slot p w ticket fuel :
  sim p (Z.of_nat fuel) w w (Shm.wait_slot fuel ticket) (wait_slot SEMVMX SEMAEM p fuel ticket).
Proof.
  induction fuel as [|fuel IH]; [apply sim_blocked|]. cbn [Shm.wait_slot wait_slot].
  eapply sim_le; [|eapply (sim_bind p 0 (1 + Z.of_nat fuel)); [lia|reflexivity|apply (sim_gets p w blk)|]];
    [lia|].
  intros b. cbv beta. destruct (slot_free _ _).
  - eapply sim_le; [|eapply (sim_bind p 0 0); [lia|reflexivity|by apply sim_block|]]; [lia|].
    intros ?. apply sim_ret.
  - eapply sim_le; [|eapply (sim_bind p 0 (1 + Z.of_nat fuel)); [lia|reflexivity|by apply sim_block|]]; [lia|].
    intros ?. apply sim_bind with w; [lia|done|apply sim_acquire|]. intros [|].
    + done.
    + eapply sim_le; [|eapply (sim_bind p 0 0); [lia|reflexivity|by apply sim_block|]]; [lia|].
      intros ?. apply sim_ret.
Qed.

Lemma sim_seq {A B} p K k w w' w'' (m : Prelude.M Ipc E A) m'
    (f : A → Prelude.M Ipc E B) (f' : A → Prelude.M Sys E B) :
  sim p k w w' m m' → 0 ≤ K - k → w' ≤ w'' → (∀ a, sim p (K - k) w' w'' (f a) (f' a)) →
  sim p K w w'' (m ≫= f) (m' ≫= f').
Proof.
  intros Hm HK Hw Hf. replace K with (k + (K - k)) at 1 by lia. by eapply sim_bind.
Qed.

Lemma sim_wait {A} p K w ticket (f : bool → Prelude.M Ipc E A) f' :
  0 ≤ w → w + 1 ≤ K → (∀ ok, sim p (K - (w + 1)) w w (f ok) (f' ok)) →
  sim p K w w (fuel ← gets wait_fuel; ok ← Shm.wait_slot fuel ticket; f ok)
    (fuel ← gets (λ u, wait_fuel (ipc u)); ok ← wait_slot SEMVMX SEMAEM p fuel ticket; f' ok).
Proof.
  intros Hw HK Hf j u Hj Hu. mstep. set (n := wait_fuel (ipc u)).
  assert (Z.of_nat n ≤ w + 1) as Hn.
  { subst n. unfold wait_fuel. destruct (sems (ipc u)) as [l|] eqn:Hl; simpl; [|lia].
    destruct (l !! WRITER_WAIT_SEM) as [t|] eqn:Ht; simpl; [|lia].
    pose proof (rm_tokens _ _ _ _ Hu l t Hl Ht). lia. }
  eapply (sim_seq p K (w + 1) w w w); try done; [|lia].
  eapply sim_le; [exact Hn|]. apply sim_wait_slot.
Qed.
End limits.

(** One step of a call and of its model with adjustments. *)
Ltac sim_head :=
  first [ apply sim_acquire | apply sim_signal; done | apply sim_checked
        | apply sim_block; intros ? ?; cbn; by rewrite ?length_insert | apply sim_remove
        | match goal with |- sim _ _ _ _ _ _ (if ?b then _ else _) _ => destruct b end;
          [apply sim_ret|apply sim_undefined] ].
Ltac simulate := repeat first
  [ progress cbv beta zeta
  | eapply sim_le; [|first [apply sim_ret|apply sim_blocked|apply sim_batch|apply sim_cleanup|apply sim_remove]]; lia
  | apply sim_wait; [lia|lia|intros [|]]
  | apply sim_read; intros ? ?
  | eapply sim_seq; [sim_head|lia|lia|intros ?]
  | match goal with
    | |- sim _ _ _ _ _ _ (if ?b then _ else _) _ => destruct b
    | |- sim _ _ _ _ _ _ (match ?o with _ => _ end) _ => destruct o
    end ].

Section calls.
Context {E : Type} (SEMVMX SEMAEM : Z).
Abbreviation sim := (sim (E := E) SEMVMX SEMAEM).

Lemma sim_receive p me eintr target w :
  sim p 1 w w (Shm.receive_zerocopy me eintr target)
    (receive_zerocopy SEMVMX SEMAEM p me eintr target).
Proof. unfold Shm.receive_zerocopy, receive_zerocopy. simulate. Qed.

Lemma sim_registerService p name ty w :
  sim p 2 w w (Shm.registerService p name ty) (registerService SEMVMX SEMAEM p name ty).
Proof. unfold Shm.registerService, registerService. simulate. Qed.
Lemma sim_register p w : sim p 2 w w (Shm.register_client p) (register_client SEMVMX SEMAEM p).
Proof. unfold Shm.register_client, register_client. simulate. Qed.
Lemma sim_deregister p me w :
  sim p 2 w w (Shm.deregister_client me) (deregister_client SEMVMX SEMAEM p me).
Proof. unfold Shm.deregister_client, deregister_client. simulate. Qed.
Lemma sim_destroy p me w :
  sim p 2 w w (Shm.destroy_engine me) (destroy_engine SEMVMX SEMAEM p me).
Proof.
  unfold Shm.destroy_engine, destroy_engine.
  eapply sim_seq; [apply sim_deregister|lia|reflexivity|intros ?]. simulate.
Qed.

(** The signal to a writer is one more token. *)
Lemma sim_release p me n w :
  sim p 1 w (w + 1) (Shm.release_frame me n) (release_frame SEMVMX SEMAEM p me n).
Proof.
  unfold Shm.release_frame, release_frame. simulate. cbv zeta.
  eapply (sim_seq _ _ _ _ 1 w (w + 1)).
  - match goal with |- context [if ?b then _ else _] => destruct b end; [apply sim_signal_gen; auto|].
    intros j u Hj Hu. exists (adj u). split; [by destruct u|]. destruct u.
    eapply room_le; [..|exact Hu]; lia.
  - lia.
  - lia.
  - intros ?. simulate.
Qed.

Lemma sim_send p src dst proto data size w :
  0 ≤ w →
  sim p (w + 4) w w (Shm.send src dst proto data size) (send SEMVMX SEMAEM p src dst proto data size).
Proof.
  intros Hw. unfold Shm.send, send. simulate.
Qed.
End calls.

(** ** The calls at the limits *)

(** Every process and semaphore has the same sum. *)
Definition same_adj (a a' : adjustments) : Prop := ∀ p i, adjustment a p i = adjustment a' p i.
#[export] Instance same_adj_equiv : Equivalence same_adj.
Proof.
  split; [by intros a p i|by intros a b H p i; rewrite H|].
  intros a b d H1 H2 p i. by rewrite H1, H2.
Qed.

Section calls.
Context {E : Type} (SEMVMX SEMAEM : Z) (Hvmx : 1 ≤ SEMVMX) (Haem : 1 ≤ SEMAEM).

Lemma in_range_iff x : in_range SEMAEM x = true ↔ - SEMAEM - 1 ≤ x ≤ SEMAEM.
Proof. unfold in_range. by rewrite bool_decide_eq_true. Qed.

(** A lock that is free is taken and given back. *)
Lemma semop_refused p i d n l u :
  sems (ipc u) = Some l → l !! i = Some n → 0 ≤ n + d → in_range SEMAEM (semadj u p i - d) = false →
  semop (E := E) SEMVMX SEMAEM p [(i, d)] u = (Ret false, u, []).
Proof.
  intros Hl Hn Hd Hr. unfold semop. mstep. rewrite Hl. cbn [perform]. rewrite Hn, decide_False by lia.
  unfold semadj in Hr. rewrite Hr. by case_decide.
Qed.

Lemma wait_slot_clear p fuel ticket u :
  slot_free (client_registry (blk (ipc u))) ticket = true →
  wait_slot (E := E) SEMVMX SEMAEM p (S fuel) ticket u =
    (Ret true, set_ipc (set_blk (set_blocked false) (ipc u)) u, []).
Proof. intros Hf. cbn [wait_slot]. mstep. rewrite Hf. unfold lift, on_blk. by run_m. Qed.

(** [send] up to step 6. *)
Lemma send_prefix p src dst proto data size u sl :
  sems_ok (ipc u) → ring_ok (blk (ipc u)) →
  slot_free (client_registry (blk (ipc u))) (claim_sequence_id (blk (ipc u))) = true →
  0 ≤ size ≤ ETH_MTU → size ≤ Z.of_nat (length data) →
  buffer (blk (ipc u)) !! Z.to_nat (claim_sequence_id (blk (ipc u)) `mod` BUFFER_SLOTS) = Some sl →
  semadj u p CLAIM_SEM = 0 →
  ∃ a, same_adj a (adj u) ∧
  let f := slot_write src dst proto data size (slot_frame sl) in
  send (E := E) SEMVMX SEMAEM p src dst proto data size u =
    (_ ← (match signal_ops (client_registry (blk (ipc u))) with
          | [] => mret true | sops => semop SEMVMX SEMAEM p sops end);
     mret (HEADER_SIZE + size))
    (mk_sys (mk_ipc (blk (sent f (ipc u))) (sems (ipc u))) a).
Proof.
  intros (l & Hl & Hlen & Hclaim & Hnn) (Hb & Hreg & Hfr & Hpub & Hcl) Hfree Hsz Hdata Hslot Ha.
  assert (allowed SEMVMX SEMAEM p (adj u) (-1) CLAIM_SEM 1) as Hacq.
  { split; [lia|]. apply in_range_iff. unfold semadj in Ha. lia. }
  unfold send, acquire, signal. rewrite (bind_pure _ _ _ _ _ (semop_one _ _ _ _ _ _ _ _ Hl Hclaim Hacq)).
  cbn [negb]. mstep. cbn [ipc blk]. unfold lift at 1. unfold on_blk at 1.
  set (u1 := mk_sys (mk_ipc (set_claim (claim_sequence_id (blk (ipc u)) + 1) (blk (ipc u)))
               (Some (<[CLAIM_SEM := 1 + -1]> l))) (<[(p, CLAIM_SEM) := semadj u p CLAIM_SEM - -1]> (adj u))).
  rewrite (bind_pure _ _ _ tt u1).
  2:{ unfold zoom, modify, set_ipc, set_blk, u1. cbn. rewrite u64_small by (unfold is_u; lia). done. }
  assert (<[CLAIM_SEM:=1 + -1]> l !! CLAIM_SEM = Some (1 + -1)) as Hn1.
  { apply list_lookup_insert_eq. by eapply lookup_lt_Some. }
  assert (semadj u1 p CLAIM_SEM = 1) as Ha1.
  { unfold semadj, u1. simpl. rewrite adjustment_insert, decide_True by done. lia. }
  assert (allowed SEMVMX SEMAEM p (adj u1) 1 CLAIM_SEM (1 + -1)) as Hrel.
  { split; [lia|]. apply in_range_iff. unfold semadj in Ha1. lia. }
  rewrite (bind_pure _ _ _ _ _ (semop_one _ _ _ _ _ _ _ u1 eq_refl Hn1 Hrel)).
  cbn [negb]. mstep. rewrite list_insert_insert_eq. change (1 + -1 + 1) with 1.
  rewrite (list_insert_id l CLAIM_SEM 1) by exact Hclaim. rewrite Ha1. cbn [adj u1].
  eexists. split; [|]. 2:{
  cbv zeta. unfold wait_fuel.
  match goal with |- (_ ≫= _) ?v = _ => rewrite (bind_pure _ _ _ _ _ (wait_slot_clear _ _ _ v Hfree)) end.
  cbn [negb]. mstep. cbn [ipc blk set_ipc set_blk set_blocked set_claim buffer u1].
  rewrite Hslot. mstep. rewrite decide_True by lia. mstep. unfold lift, on_blk.
  rewrite (bind_pure _ _ _ tt (mk_sys (mk_ipc _ _) _)) by (unfold zoom, modify, set_ipc, set_blk; cbn; done).
  mstep. cbn [ipc blk set_buffer set_blocked set_claim publish_sequence_id].
  rewrite u64_small by (unfold is_u; lia). rewrite decide_True by lia.
  rewrite (bind_pure _ _ _ tt (mk_sys (mk_ipc _ _) _)) by (unfold zoom, modify, set_ipc, set_blk; cbn; done).
  mstep. cbn [ipc blk set_publish set_buffer set_blocked set_claim client_registry sems]. rewrite Hl. done. }
  intros q i. cbn [adj set_ipc]. rewrite !adjustment_insert. unfold semadj in Ha.
  repeat case_decide; simplify_eq; lia.
Qed.

(** The signals of step 6, granted or refused as a whole. *)
Lemma signals_granted p u l :
  sems (ipc u) = Some l → length l = 20%nat → length (client_registry (blk (ipc u))) = 16%nat →
  (∀ i c n, client_registry (blk (ipc u)) !! i = Some c → cl_active c = true →
     l !! (CONTROL_SEMS + i)%nat = Some n →
     0 ≤ n < SEMVMX ∧ - SEMAEM ≤ semadj u p (CONTROL_SEMS + i) ≤ SEMAEM + 1) →
  ∃ a, (match signal_ops (client_registry (blk (ipc u))) with
        | [] => mret true | sops => semop (E := E) SEMVMX SEMAEM p sops end) u =
    (Ret true, mk_sys (mk_ipc (blk (ipc u)) (signal_clients (client_registry (blk (ipc u))) <$> sems (ipc u))) a, []) ∧
    ∀ q j, adjustment a q j =
      (if decide (q = p ∧ j ∈ ((λ i, (CONTROL_SEMS + i)%nat) <$> client_ids (client_registry (blk (ipc u)))))
       then semadj u q j - 1 else semadj u q j).
Proof.
  intros Hl Hlen Hreg Hall. set (reg := client_registry (blk (ipc u))) in *.
  destruct (perform_batch SEMVMX SEMAEM p 1 _ l (adj u) (NoDup_signal_ids reg)) as (a & Hp & Ha).
  { intros j (Hle & c & Hc & Hact)%elem_of_signal_ids.
    pose proof (lookup_lt_Some _ _ _ Hc).
    destruct (lookup_lt_is_Some_2 l j) as [n Hn]; [unfold CONTROL_SEMS in *; lia|]. exists n. split; [done|].
    replace j with (CONTROL_SEMS + (j - CONTROL_SEMS))%nat in Hn |- * by lia.
    destruct (Hall _ _ _ Hc Hact Hn). split; [lia|]. apply in_range_iff.
    unfold semadj in *. lia. }
  destruct (signal_ops reg) as [|o sops] eqn:Ho.
  - assert (client_ids reg = []) as Hnil.
    { apply (f_equal length) in Ho. unfold signal_ops in Ho. rewrite length_fmap in Ho.
      by destruct (client_ids reg). }
    exists (adj u). rewrite Hl. cbn [fmap option_fmap option_map]. rewrite signal_clients_none by done.
    split; [by destruct u as [[? ?] ?]; simpl in *; subst|]. intros q j. rewrite Hnil.
    rewrite decide_False; [done|]. intros [_ []%not_elem_of_nil].
  - exists a. split; [|exact Ha]. rewrite <- Ho. unfold semop. mstep. rewrite Hl, signal_ops_eq, Hp.
    mstep. by rewrite bumped_clients.
Qed.

Lemma signals_refused p u l i c :
  sems_ok (ipc u) → sems (ipc u) = Some l → length (client_registry (blk (ipc u))) = 16%nat →
  client_registry (blk (ipc u)) !! i = Some c → cl_active c = true →
  semadj u p (CONTROL_SEMS + i) = - SEMAEM - 1 →
  (match signal_ops (client_registry (blk (ipc u))) with
   | [] => mret true | sops => semop (E := E) SEMVMX SEMAEM p sops end) u = (Ret false, u, []).
Proof.
  intros (l' & Hl' & Hlen & _ & Hnn) Hl Hreg Hi Hact Hadj. rewrite Hl in Hl'. injection Hl' as <-.
  set (reg := client_registry (blk (ipc u))) in *.
  assert ((CONTROL_SEMS + i)%nat ∈ ((λ i, (CONTROL_SEMS + i)%nat) <$> client_ids reg)) as Hin.
  { apply elem_of_signal_ids. split; [lia|]. exists c.
    by replace (CONTROL_SEMS + i - CONTROL_SEMS)%nat with i by lia. }
  destruct (signal_ops reg) as [|o sops] eqn:Ho.
  { rewrite signal_ops_eq in Ho. apply fmap_nil_inv in Ho. rewrite Ho in Hin.
    by apply not_elem_of_nil in Hin. }
  rewrite <- Ho. unfold semop. mstep. rewrite Hl, signal_ops_eq.
  rewrite (perform_refused SEMVMX SEMAEM p 1 _ (CONTROL_SEMS + i)); [done|lia|apply NoDup_signal_ids| |done|].
  - intros j (Hle & c' & Hc & _)%elem_of_signal_ids. apply lookup_lt_Some in Hc.
    destruct (lookup_lt_is_Some_2 l j) as [n Hn]; [unfold CONTROL_SEMS in *; lia|]. exists n. split; [done|by eapply Hnn].
  - unfold in_range, semadj in *. apply bool_decide_eq_false. lia.
Qed.

Lemma receive_granted q me target u l n sl :
  sems (ipc u) = Some l → l !! (CONTROL_SEMS + me)%nat = Some n → 0 < n ≤ SEMVMX →
  - SEMAEM - 2 ≤ semadj u q (CONTROL_SEMS + me) < SEMAEM →
  buffer (blk (ipc u)) !! Z.to_nat (target `mod` BUFFER_SLOTS) = Some sl → slot_seq sl = target →
  receive_zerocopy (E := E) SEMVMX SEMAEM q me false target u =
    (Ret (Some (Z.to_nat (target `mod` BUFFER_SLOTS))),
     mk_sys (mk_ipc (blk (ipc u)) (Some (<[(CONTROL_SEMS + me)%nat := n + -1]> l)))
       (<[(q, (CONTROL_SEMS + me)%nat) := semadj u q (CONTROL_SEMS + me) - -1]> (adj u)), []).
Proof.
  intros Hl Hn Hpos Ha Hsl Hseq. unfold receive_zerocopy, acquire.
  assert (allowed SEMVMX SEMAEM q (adj u) (-1) (CONTROL_SEMS + me) n) as Hal.
  { split; [lia|]. apply in_range_iff. unfold semadj in Ha. lia. }
  rewrite (bind_pure _ _ _ _ _ (semop_one _ _ _ _ _ _ _ _ Hl Hn Hal)). cbn [negb]. mstep.
  cbn [ipc blk]. rewrite Hsl. mstep. by rewrite decide_False by (by intros []).
Qed.

Lemma receive_refused q me target u l n :
  sems (ipc u) = Some l → l !! (CONTROL_SEMS + me)%nat = Some n → 0 < n →
  semadj u q (CONTROL_SEMS + me) = SEMAEM →
  receive_zerocopy (E := E) SEMVMX SEMAEM q me false target u = (Ret None, u, []).
Proof.
  intros Hl Hn Hpos Ha. unfold receive_zerocopy, acquire.
  rewrite (bind_pure _ _ _ _ _ (semop_refused q _ (-1) _ _ _ Hl Hn ltac:(lia)
    ltac:(unfold in_range; apply bool_decide_eq_false; lia))). by cbn [negb].
Qed.

Lemma receive_blocks q me target u l :
  sems (ipc u) = Some l → l !! (CONTROL_SEMS + me)%nat = Some 0 →
  receive_zerocopy (E := E) SEMVMX SEMAEM q me false target u = (Blocked, u, []).
Proof.
  intros Hl Hn. unfold receive_zerocopy, acquire, semop, mbind, M_bind, get. rewrite Hl. cbn [perform].
  by rewrite Hn, decide_True by lia.
Qed.

Lemma release_free q me t u my :
  client_registry (blk (ipc u)) !! me = Some my → writer_is_blocked (blk (ipc u)) = false →
  release_frame (E := E) SEMVMX SEMAEM q me t u =
    (Ret tt, set_ipc (set_blk (λ b, set_registry
      (<[me := mk_client (cl_active my) (process_id my) t]> (client_registry b)) b) (ipc u)) u, []).
Proof.
  intros Hme Hwb. unfold release_frame. mstep. rewrite Hme. mstep. rewrite Hwb. cbn [andb].
  unfold lift, on_blk. by run_m.
Qed.
End calls.
