(* ===== verification/SysVTraffic.v ===== *)
(** How long two processes can talk: the undo values of [SysV] grow by one with
    every message from one process to another, and the traffic ends when they
    leave their range. *)
From S2P Require Import Prelude Ethernet Shm SysV SysVProps.
Local Open Scope Z_scope.

Section traffic.
Context {E : Type} (SEMVMX SEMAEM : Z).
Abbreviation M := (M Sys E).

(** The receiver thread of process [q] on message [t]: it takes the frame and,
    when there is one, releases it. *)
Definition take_frame (q : Z) (me : nat) (t : Z) : M (option nat) :=
  got ← receive_zerocopy SEMVMX SEMAEM q me false t;
  _ ← (match got with Some _ => release_frame SEMVMX SEMAEM q me t | None => mret tt end);
  mret got.

(** Process [p], client [ip], sends; its own receiver takes the message, and so
    does process [r], client [ir]. *)
Definition round (p : Z) (ip : nat) (r : Z) (ir : nat) (dst : MAC) (proto : Z) (data : list Z)
    : M (Z * option nat) :=
  sent ← send SEMVMX SEMAEM p None dst proto data (Z.of_nat (length data));
  t ← gets (λ u, publish_sequence_id (blk (ipc u)));
  _ ← take_frame p ip t;
  got ← take_frame r ir t;
  mret (sent, got).

Fixpoint rounds (p : Z) (ip : nat) (r : Z) (ir : nat) (dst : MAC) (proto : Z)
    (msgs : list (list Z)) : M (list (Z * option nat)) :=
  match msgs with
  | [] => mret []
  | data :: msgs =>
      x ← round p ip r ir dst proto data;
      xs ← rounds p ip r ir dst proto msgs;
      mret (x :: xs)
  end.
End traffic.

(** ** Two processes in step *)

Section pair.
Context {E : Type} (SEMVMX SEMAEM : Z) (Hvmx : 1 ≤ SEMVMX) (Haem : 1 ≤ SEMAEM).
Context (p : Z) (ip : nat) (r : Z) (ir : nat) (Hpr : p ≠ r) (Hipr : ip ≠ ir).
Implicit Types u : Sys.

Definition client_read (i : nat) (t : Z) (u : Sys) : Prop :=
  ∃ c, client_registry (blk (ipc u)) !! i = Some c ∧ cl_active c = true ∧ last_read c = t.
Definition tokens (i : nat) (n : Z) (u : Sys) : Prop := sem_is (CONTROL_SEMS + i) n (ipc u).

(** [n] messages after the two started: both have read everything, [p] has
    given [n] signals to [r], which has taken them. *)
Record steady (n : Z) (u : Sys) : Prop := {
  sd_ring : ring_ok (blk (ipc u));
  sd_sems : sems_ok (ipc u);
  sd_claim : semadj u p CLAIM_SEM = 0;
  sd_sender : client_read ip (publish_sequence_id (blk (ipc u))) u;
  sd_reader : client_read ir (publish_sequence_id (blk (ipc u))) u;
  sd_others : ∀ i c, client_registry (blk (ipc u)) !! i = Some c → cl_active c = true → i = ip ∨ i = ir;
  sd_tok_p : tokens ip 0 u;
  sd_tok_r : tokens ir 0 u;
  sd_own : semadj u p (CONTROL_SEMS + ip) = 0;
  sd_given : semadj u p (CONTROL_SEMS + ir) = - n;
  sd_taken : semadj u r (CONTROL_SEMS + ir) = n
}.

(** *** One frame taken *)

Definition read_state (q : Z) (i : nat) (t : Z) (c : ClientState) (n : Z) (l : list Z) (u : Sys) : Sys :=
  mk_sys (mk_ipc (set_registry (<[i := mk_client (cl_active c) (process_id c) t]>
                    (client_registry (blk (ipc u)))) (blk (ipc u)))
            (Some (<[(CONTROL_SEMS + i)%nat := n - 1]> l)))
    (<[(q, (CONTROL_SEMS + i)%nat) := semadj u q (CONTROL_SEMS + i) + 1]> (adj u)).

Lemma take_ok q i t u l n sl c :
  sems (ipc u) = Some l → l !! (CONTROL_SEMS + i)%nat = Some n → 0 < n ≤ SEMVMX →
  - SEMAEM - 2 ≤ semadj u q (CONTROL_SEMS + i) < SEMAEM →
  buffer (blk (ipc u)) !! Z.to_nat (t `mod` BUFFER_SLOTS) = Some sl → slot_seq sl = t →
  client_registry (blk (ipc u)) !! i = Some c → writer_is_blocked (blk (ipc u)) = false →
  take_frame (E := E) SEMVMX SEMAEM q i t u =
    (Ret (Some (Z.to_nat (t `mod` BUFFER_SLOTS))), read_state q i t c n l u, []).
Proof.
  intros Hl Hn Hpos Ha Hsl Hseq Hc Hwb. unfold take_frame.
  rewrite (bind_pure _ _ _ _ _ (receive_granted _ _ _ _ _ _ _ _ _ Hl Hn Hpos Ha Hsl Hseq)).
  rewrite (bind_pure _ _ _ _ _ (release_free _ _ _ _ _ (mk_sys (mk_ipc (blk (ipc u)) _) _) _ Hc Hwb)).
  unfold read_state, set_ipc, set_blk. cbn [ipc blk sems adj].
  by replace (n + -1) with (n - 1) by lia.
Qed.

Lemma take_refused q i t u l n :
  sems (ipc u) = Some l → l !! (CONTROL_SEMS + i)%nat = Some n → 0 < n →
  semadj u q (CONTROL_SEMS + i) = SEMAEM →
  take_frame (E := E) SEMVMX SEMAEM q i t u = (Ret None, u, []).
Proof.
  intros Hl Hn Hpos Ha. unfold take_frame.
  by rewrite (bind_pure _ _ _ _ _ (receive_refused _ _ _ _ _ _ _ _ Hl Hn Hpos Ha)).
Qed.

(** *** The message sent and not yet read *)

Record offered (t : Z) (u : Sys) : Prop := {
  of_ring : ring_ok (blk (ipc u));
  of_sems : sems_ok (ipc u);
  of_claim : semadj u p CLAIM_SEM = 0;
  of_publish : publish_sequence_id (blk (ipc u)) = t;
  of_slot : ∃ sl, buffer (blk (ipc u)) !! Z.to_nat (t `mod` BUFFER_SLOTS) = Some sl ∧ slot_seq sl = t;
  of_flag : writer_is_blocked (blk (ipc u)) = false;
  of_others : ∀ i c, client_registry (blk (ipc u)) !! i = Some c → cl_active c = true → i = ip ∨ i = ir
}.

Lemma offered_read q i t c n l u :
  offered t u → sems (ipc u) = Some l → l !! (CONTROL_SEMS + i)%nat = Some n → 0 < n →
  client_registry (blk (ipc u)) !! i = Some c → offered t (read_state q i t c n l u).
Proof.
  intros [] Hl Hn Hpos Hc. destruct of_ring0 as (Hb & Hr & Hf & Hp & Hcl).
  destruct of_sems0 as (l' & Hl' & Hlen & Hclaim & Hnn). rewrite Hl in Hl'. injection Hl' as <-.
  split; try done.
  - split; [done|]. split; [by cbn; rewrite length_insert|]. done.
  - exists (<[(CONTROL_SEMS + i)%nat := n - 1]> l). split; [done|]. split; [by rewrite length_insert|].
    split; [by rewrite list_lookup_insert_ne by (unfold CONTROL_SEMS, CLAIM_SEM; lia)|].
    intros j m [(<- & <- & _)|[_ Hj]]%list_lookup_insert_Some; [lia|eauto].
  - unfold semadj, read_state. cbn [adj]. rewrite adjustment_insert, decide_False; [done|].
    by intros [= _ Hj].
  - intros j d Hj Hact. cbn in Hj.
    apply list_lookup_insert_Some in Hj as [(-> & <- & _)|[_ Hj]]; eauto.
Qed.

(** What a read of client [i] by [q] changes for the clients and the processes. *)
Lemma read_other q i j t c n l u m :
  sems (ipc u) = Some l → i ≠ j → tokens j m u → tokens j m (read_state q i t c n l u).
Proof.
  unfold tokens, sem_is. intros Hl Hne Ht. rewrite Hl in Ht.
  unfold read_state. cbn [ipc sems mbind option_bind].
  by rewrite list_lookup_insert_ne by lia.
Qed.
Lemma read_own q i t c n l u :
  sems (ipc u) = Some l → l !! (CONTROL_SEMS + i)%nat = Some n → tokens i (n - 1) (read_state q i t c n l u).
Proof.
  unfold tokens, sem_is. intros Hl Hn. unfold read_state. cbn [ipc sems mbind option_bind]. apply list_lookup_insert_eq. by eapply lookup_lt_Some.
Qed.
Lemma read_client q i j t c n l u t' :
  client_registry (blk (ipc u)) !! i = Some c → cl_active c = true →
  client_read j t' u → client_read j (if decide (j = i) then t else t') (read_state q i t c n l u).
Proof.
  intros Hc Ha (d & Hd & Hda & Hdr). unfold client_read. cbn. case_decide as Hji.
  - subst. eexists. rewrite list_lookup_insert_eq by (by eapply lookup_lt_Some). done.
  - exists d. by rewrite list_lookup_insert_ne.
Qed.
Lemma read_adj q i t c n l u q' j :
  semadj (read_state q i t c n l u) q' j =
  (if decide ((q', j) = (q, (CONTROL_SEMS + i)%nat)) then semadj u q (CONTROL_SEMS + i) + 1
   else semadj u q' j).
Proof. unfold semadj at 1, read_state. cbn [adj]. apply adjustment_insert. Qed.

(** *** One message sent *)

Lemma steady_free n u : steady n u → publish_sequence_id (blk (ipc u)) + 1 < 2 ^ 63 →
  slot_free (client_registry (blk (ipc u))) (claim_sequence_id (blk (ipc u))) = true.
Proof.
  intros [] Hlt. destruct sd_ring0 as (_ & _ & _ & Hp & ->). apply slot_free_close; [unfold is_u; lia|].
  intros i c Hc Ha. destruct sd_sender0 as (c1 & H1 & _ & E1). destruct sd_reader0 as (c2 & H2 & _ & E2).
  destruct (sd_others0 _ _ Hc Ha) as [-> | ->].
  - rewrite Hc in H1. injection H1 as ->. lia.
  - rewrite Hc in H2. injection H2 as ->. lia.
Qed.

Lemma sent_token f s i c n :
  client_registry (blk s) !! i = Some c → cl_active c = true →
  sem_is (CONTROL_SEMS + i) n s → sem_is (CONTROL_SEMS + i) (n + 1) (sent f s).
Proof.
  unfold sem_is, sent. cbn [sems blk]. destruct (sems s) as [l|]; [|done].
  cbn [fmap option_fmap option_map mbind option_bind]. intros Hc Ha Hn.
  by rewrite (signal_clients_lookup _ _ _ _ _ Hc Hn), Ha.
Qed.

Lemma sent_slot f s :
  ring_ok (blk s) →
  ∃ sl, buffer (blk (sent f s)) !! Z.to_nat (publish_sequence_id (blk (sent f s)) `mod` BUFFER_SLOTS) = Some sl
        ∧ slot_seq sl = publish_sequence_id (blk (sent f s)).
Proof.
  intros Hr. pose proof Hr as (Hb & _ & _ & Hp & Hc). unfold sent. cbn.
  exists (mk_slot (claim_sequence_id (blk s)) f). split; [|done].
  destruct (slot_in_range (blk s) (claim_sequence_id (blk s)) Hr ltac:(lia)) as (sl & Hsl & _).
  apply list_lookup_insert_eq. by eapply lookup_lt_Some.
Qed.

Lemma prefix_steady n u dst proto data :
  steady n u → Z.of_nat (length data) ≤ ETH_MTU → publish_sequence_id (blk (ipc u)) + 1 < 2 ^ 63 →
  ∃ f a, length (fdata f) = 1500%nat ∧ same_adj a (adj u) ∧
  send (E := E) SEMVMX SEMAEM p None dst proto data (Z.of_nat (length data)) u =
    (_ ← (match signal_ops (client_registry (blk (ipc u))) with
          | [] => mret true | sops => semop SEMVMX SEMAEM p sops end);
     mret (HEADER_SIZE + Z.of_nat (length data)))
    (mk_sys (mk_ipc (blk (sent f (ipc u))) (sems (ipc u))) a).
Proof.
  intros Hst Hlen Hlt. pose proof (steady_free _ _ Hst Hlt) as Hfree. destruct Hst.
  pose proof sd_ring0 as (_ & _ & _ & Hp & Hc).
  destruct (slot_in_range (blk (ipc u)) (claim_sequence_id (blk (ipc u))) sd_ring0 ltac:(lia)) as (sl & Hsl & Hf).
  destruct (send_prefix (E := E) SEMVMX SEMAEM Hvmx Haem p None dst proto data
    (Z.of_nat (length data)) u sl) as (a & Ha & Hrun); try done; try lia.
  eexists _, a. split; [|split; [done|exact Hrun]].
  apply length_slot_write; [done|lia].
Qed.

Lemma send_steady n u dst proto data :
  steady n u → 0 ≤ n ≤ SEMAEM →
  Z.of_nat (length data) ≤ ETH_MTU → publish_sequence_id (blk (ipc u)) + 1 < 2 ^ 63 →
  let t := publish_sequence_id (blk (ipc u)) in
  ∃ u', send (E := E) SEMVMX SEMAEM p None dst proto data (Z.of_nat (length data)) u =
      (Ret (HEADER_SIZE + Z.of_nat (length data)), u', []) ∧
    offered (t + 1) u' ∧ tokens ip 1 u' ∧ tokens ir 1 u' ∧ client_read ip t u' ∧ client_read ir t u' ∧
    semadj u' p (CONTROL_SEMS + ip) = -1 ∧ semadj u' p (CONTROL_SEMS + ir) = - n - 1 ∧
    semadj u' r (CONTROL_SEMS + ir) = n.
Proof.
  intros Hst Hn Hlen Hlt. cbv zeta. destruct (prefix_steady n u dst proto data Hst Hlen Hlt) as (f & a & Hf & Ha & Hrun).
  destruct Hst. set (v := mk_sys (mk_ipc (blk (sent f (ipc u))) (sems (ipc u))) a) in *.
  pose proof sd_sems0 as (l & Hl & Hll & Hcl & Hnn). pose proof sd_ring0 as (_ & Hreg & _ & Hp & Hc).
  pose proof sd_sender0 as (cp & Hcp & Hap & _). pose proof sd_reader0 as (cr & Hcr & Har & _).
  destruct (signals_granted (E := E) SEMVMX SEMAEM p v l) as (a' & Hsig & Ha'); try done.
  { intros i c m Hi Hact Hm. change (client_registry (blk (ipc u)) !! i = Some c) in Hi.
    unfold semadj, v. cbn [adj]. rewrite (Ha p). fold (semadj u p (CONTROL_SEMS + i)).
    unfold tokens, sem_is in *. rewrite Hl in sd_tok_p0, sd_tok_r0. cbn in Hm, sd_tok_p0, sd_tok_r0.
    destruct (sd_others0 _ _ Hi Hact); subst i; simplify_eq; lia. }
  rewrite (bind_pure _ _ _ _ _ Hsig) in Hrun. eexists. split; [exact Hrun|]. clear Hrun Hsig.
  assert (ipc (mk_sys (mk_ipc (blk (ipc v)) (signal_clients (client_registry (blk (ipc v))) <$> sems (ipc v))) a')
          = sent f (ipc u)) as Hipc by done.
  set (u' := mk_sys _ a') in *. assert (∀ q i, semadj u' q i = if decide (q = p ∧ i ∈ ((λ i, (CONTROL_SEMS + i)%nat) <$>
    client_ids (client_registry (blk (ipc u))))) then semadj u q i - 1 else semadj u q i) as Hadj.
  { intros q i. unfold semadj at 1. cbn [adj u']. rewrite Ha'. unfold semadj, v. cbn [adj ipc]. by rewrite (Ha q). }
  clearbody u'. clear Ha' Ha. rewrite <- Hc.
  assert (∀ i c, client_registry (blk (ipc u)) !! i = Some c → cl_active c = true →
    (CONTROL_SEMS + i)%nat ∈ ((λ i, (CONTROL_SEMS + i)%nat) <$> client_ids (client_registry (blk (ipc u))))) as Hids.
  { intros i c Hi Hact. apply elem_of_signal_ids. split; [lia|]. exists c.
    by replace (CONTROL_SEMS + i - CONTROL_SEMS)%nat with i by lia. }
  split; [|split_and!].
  - split; rewrite ?Hipc; try done.
    + by apply ring_ok_sent.
    + by apply sems_ok_sent.
    + rewrite Hadj, decide_False; [done|]. intros (_ & (H & _)%elem_of_signal_ids).
      unfold CONTROL_SEMS, CLAIM_SEM in H. lia.
    + by apply sent_slot.
  - unfold tokens. rewrite Hipc. by eapply (sent_token f (ipc u) ip cp 0).
  - unfold tokens. rewrite Hipc. by eapply (sent_token f (ipc u) ir cr 0).
  - unfold client_read. rewrite Hipc. done.
  - unfold client_read. rewrite Hipc. done.
  - rewrite Hadj, decide_True by (split; eauto). lia.
  - rewrite Hadj, decide_True by (split; eauto). lia.
  - rewrite Hadj, decide_False; [done|]. by intros [-> _].
Qed.

(** *** One round *)

(** A token and the range of its taker: the frame is taken. *)
Lemma take_offered q i t n t0 u :
  offered t u → tokens i n u → 0 < n ≤ SEMVMX → client_read i t0 u →
  - SEMAEM - 2 ≤ semadj u q (CONTROL_SEMS + i) < SEMAEM →
  ∃ l c, sems (ipc u) = Some l ∧ l !! (CONTROL_SEMS + i)%nat = Some n ∧
    client_registry (blk (ipc u)) !! i = Some c ∧ cl_active c = true ∧
    take_frame (E := E) SEMVMX SEMAEM q i t u =
      (Ret (Some (Z.to_nat (t `mod` BUFFER_SLOTS))), read_state q i t c n l u, []).
Proof.
  intros [] Ht Hn (c & Hc & Hact & _) Ha. destruct of_sems0 as (l & Hl & _).
  destruct of_slot0 as (sl & Hsl & Hseq). unfold tokens, sem_is in Ht. rewrite Hl in Ht.
  exists l, c. do 4 (split; [done|]). by eapply take_ok.
Qed.

(** The sender's own receiver takes the message. *)
Lemma own_read t t0 u :
  offered t u → tokens ip 1 u → client_read ip t0 u → client_read ir t0 u →
  semadj u p (CONTROL_SEMS + ip) = -1 →
  ∃ u', take_frame (E := E) SEMVMX SEMAEM p ip t u =
      (Ret (Some (Z.to_nat (t `mod` BUFFER_SLOTS))), u', []) ∧
    offered t u' ∧ tokens ip 0 u' ∧ (∀ m, tokens ir m u → tokens ir m u') ∧
    client_read ip t u' ∧ client_read ir t0 u' ∧ semadj u' p (CONTROL_SEMS + ip) = 0 ∧
    (∀ q, semadj u' q (CONTROL_SEMS + ir) = semadj u q (CONTROL_SEMS + ir)).
Proof.
  intros Ho Ht Hp Hr Ha.
  destruct (take_offered p ip t 1 t0 u) as (l & c & Hl & Hn & Hc & Hact & Hrun); try done; try lia.
  eexists. split; [exact Hrun|]. split_and!.
  - by apply offered_read.
  - by apply (read_own p ip t c 1).
  - intros m Hm. by apply read_other.
  - pose proof (read_client p ip ip t c 1 l u t0 Hc Hact Hp) as H. by rewrite decide_True in H.
  - pose proof (read_client p ip ir t c 1 l u t0 Hc Hact Hr) as H. by rewrite decide_False in H.
  - rewrite read_adj, decide_True by done. lia.
  - intros q. rewrite read_adj, decide_False; [done|]. intros [= _ H]. lia.
Qed.

Lemma steady_offered n u :
  offered (publish_sequence_id (blk (ipc u))) u → tokens ip 0 u → tokens ir 0 u →
  client_read ip (publish_sequence_id (blk (ipc u))) u → client_read ir (publish_sequence_id (blk (ipc u))) u →
  semadj u p (CONTROL_SEMS + ip) = 0 → semadj u p (CONTROL_SEMS + ir) = - n →
  semadj u r (CONTROL_SEMS + ir) = n → steady n u.
Proof. intros [] **. by split. Qed.

(** The state after a send and the own read: what is left to [r]. *)
Lemma round_prefix n u dst proto data :
  steady n u → 0 ≤ n ≤ SEMAEM →
  Z.of_nat (length data) ≤ ETH_MTU → publish_sequence_id (blk (ipc u)) + 1 < 2 ^ 63 →
  let t := publish_sequence_id (blk (ipc u)) in
  ∃ u', round (E := E) SEMVMX SEMAEM p ip r ir dst proto data u =
      (got ← take_frame SEMVMX SEMAEM r ir (t + 1);
       mret (HEADER_SIZE + Z.of_nat (length data), got)) u' ∧
    offered (t + 1) u' ∧ tokens ip 0 u' ∧ tokens ir 1 u' ∧ client_read ip (t + 1) u' ∧
    client_read ir t u' ∧ semadj u' p (CONTROL_SEMS + ip) = 0 ∧
    semadj u' p (CONTROL_SEMS + ir) = - n - 1 ∧ semadj u' r (CONTROL_SEMS + ir) = n.
Proof.
  intros Hst Hn Hlen Hlt. cbv zeta. set (t := publish_sequence_id (blk (ipc u))) in *.
  destruct (send_steady n u dst proto data Hst Hn Hlen Hlt)
    as (u1 & Hsend & Ho & Htp & Htr & Hcp & Hcr & Hap & Hgiven & Htaken).
  unfold round. rewrite (bind_pure _ _ _ _ _ Hsend). mstep. rewrite (of_publish _ _ Ho).
  destruct (own_read _ _ _ Ho Htp Hcp Hcr Hap) as (u2 & Hown & Ho2 & Htp2 & Htr2 & Hcp2 & Hcr2 & Hap2 & Hadj).
  rewrite (bind_pure _ _ _ _ _ Hown). exists u2. split; [done|]. rewrite !Hadj. auto 10.
Qed.

Lemma round_steady n u dst proto data :
  steady n u → 0 ≤ n < SEMAEM →
  Z.of_nat (length data) ≤ ETH_MTU → publish_sequence_id (blk (ipc u)) + 1 < 2 ^ 63 →
  let t := publish_sequence_id (blk (ipc u)) in
  ∃ u', round (E := E) SEMVMX SEMAEM p ip r ir dst proto data u =
      (Ret (HEADER_SIZE + Z.of_nat (length data), Some (Z.to_nat ((t + 1) `mod` BUFFER_SLOTS))), u', []) ∧
    steady (n + 1) u' ∧ publish_sequence_id (blk (ipc u')) = t + 1.
Proof.
  intros Hst Hn Hlen Hlt. cbv zeta.
  destruct (round_prefix n u dst proto data Hst ltac:(lia) Hlen Hlt)
    as (u1 & -> & Ho & Htp & Htr & Hcp & Hcr & Hap & Hgiven & Htaken).
  set (t := publish_sequence_id (blk (ipc u))) in *.
  destruct (take_offered r ir (t + 1) 1 t u1) as (l & c & Hl & Hn1 & Hc & Hact & Hrun); try done; try lia.
  rewrite (bind_pure _ _ _ _ _ Hrun). eexists. split; [done|].
  assert (publish_sequence_id (blk (ipc (read_state r ir (t + 1) c 1 l u1))) = t + 1) as Hpub
    by exact (of_publish _ _ Ho).
  split; [|done]. apply steady_offered; rewrite ?Hpub.
  - by apply offered_read.
  - by apply read_other.
  - by apply (read_own r ir (t + 1) c 1).
  - pose proof (read_client r ir ip (t + 1) c 1 l u1 _ Hc Hact Hcp) as H. by rewrite decide_False in H.
  - pose proof (read_client r ir ir (t + 1) c 1 l u1 _ Hc Hact Hcr) as H. by rewrite decide_True in H.
  - rewrite read_adj, decide_False; [done|]. by intros [= H].
  - rewrite read_adj, decide_False; [lia|]. by intros [= H].
  - rewrite read_adj, decide_True by done. lia.
Qed.

(** The round after which [r] has taken all it may: [r] gets nothing, now and later. *)
Lemma round_limit u dst proto data :
  steady SEMAEM u → Z.of_nat (length data) ≤ ETH_MTU → publish_sequence_id (blk (ipc u)) + 1 < 2 ^ 63 →
  let t := publish_sequence_id (blk (ipc u)) in
  ∃ u', round (E := E) SEMVMX SEMAEM p ip r ir dst proto data u =
      (Ret (HEADER_SIZE + Z.of_nat (length data), None), u', []) ∧
    (∀ t', take_frame (E := E) SEMVMX SEMAEM r ir t' u' = (Ret None, u', [])) ∧
    offered (t + 1) u' ∧ client_read ip (t + 1) u' ∧ client_read ir t u' ∧
    semadj u' p (CONTROL_SEMS + ir) = - SEMAEM - 1.
Proof.
  intros Hst Hlen Hlt. cbv zeta.
  destruct (round_prefix SEMAEM u dst proto data Hst ltac:(lia) Hlen Hlt)
    as (u1 & -> & Ho & Htp & Htr & Hcp & Hcr & Hap & Hgiven & Htaken).
  set (t := publish_sequence_id (blk (ipc u))) in *.
  assert (∀ t', take_frame (E := E) SEMVMX SEMAEM r ir t' u1 = (Ret None, u1, [])) as Hnone.
  { intros t'. destruct (of_sems _ _ Ho) as (l & Hl & _). unfold tokens, sem_is in Htr. rewrite Hl in Htr.
    by apply (take_refused r ir t' u1 l 1). }
  exists u1. rewrite (bind_pure _ _ _ _ _ (Hnone (t + 1))). auto 10.
Qed.

(** A send that the kernel refuses to signal. *)
Lemma send_silent t t0 u dst proto data :
  offered t u → client_read ip t u → client_read ir t0 u → t - 30 ≤ t0 → t + 1 < 2 ^ 63 →
  Z.of_nat (length data) ≤ ETH_MTU → semadj u p (CONTROL_SEMS + ir) = - SEMAEM - 1 →
  ∃ u', send (E := E) SEMVMX SEMAEM p None dst proto data (Z.of_nat (length data)) u =
      (Ret (HEADER_SIZE + Z.of_nat (length data)), u', []) ∧
    sems (ipc u') = sems (ipc u) ∧ publish_sequence_id (blk (ipc u')) = t + 1.
Proof.
  intros [] (c1 & H1 & A1 & E1) (c2 & H2 & A2 & E2) Ht0 Hlt Hlen Ha.
  pose proof of_ring0 as (_ & Hreg & _ & Hp & Hc). rewrite of_publish0 in *.
  assert (slot_free (client_registry (blk (ipc u))) (claim_sequence_id (blk (ipc u))) = true) as Hfree.
  { rewrite Hc. apply slot_free_close; [unfold is_u; lia|].
    intros i c Hi Hact. destruct (of_others0 _ _ Hi Hact); subst i; simplify_eq; lia. }
  destruct (slot_in_range (blk (ipc u)) (claim_sequence_id (blk (ipc u))) of_ring0 ltac:(lia)) as (sl & Hsl & _).
  destruct (send_prefix (E := E) SEMVMX SEMAEM Hvmx Haem p None dst proto data
    (Z.of_nat (length data)) u sl) as (a & Hsame & Hrun); try done; try lia.
  cbv zeta in Hrun. set (f := slot_write _ _ _ _ _ _) in Hrun.
  set (v := mk_sys (mk_ipc (blk (sent f (ipc u))) (sems (ipc u))) a) in *.
  destruct of_sems0 as (l & Hl & Hs).
  pose proof (signals_refused (E := E) SEMVMX SEMAEM p v l ir c2) as Href.
  rewrite (bind_pure _ _ _ false v) in Hrun.
  2:{ apply Href; try done; [by exists l|]. unfold semadj, v. cbn [adj]. by rewrite (Hsame p). }
  eexists. split; [exact Hrun|]. split; [done|]. unfold v, sent. cbn. done.
Qed.

Lemma rounds_steady dst proto msgs : ∀ n u,
  steady n u → 0 ≤ n → n + Z.of_nat (length msgs) ≤ SEMAEM →
  Forall (λ data, Z.of_nat (length data) ≤ ETH_MTU) msgs →
  publish_sequence_id (blk (ipc u)) + Z.of_nat (length msgs) < 2 ^ 63 →
  let t := publish_sequence_id (blk (ipc u)) in
  ∃ u', rounds (E := E) SEMVMX SEMAEM p ip r ir dst proto msgs u =
      (Ret (imap (λ k data, (HEADER_SIZE + Z.of_nat (length data),
                             Some (Z.to_nat ((t + 1 + Z.of_nat k) `mod` BUFFER_SLOTS)))) msgs), u', []) ∧
    steady (n + Z.of_nat (length msgs)) u' ∧
    publish_sequence_id (blk (ipc u')) = t + Z.of_nat (length msgs).
Proof.
  induction msgs as [|data msgs IH]; intros n u Hst Hn Hmax Hlen Hlt; cbv zeta.
  { exists u. cbn [length]. rewrite !Z.add_0_r. done. }
  cbn [length] in *. apply Forall_cons in Hlen as [Hd Hlen].
  destruct (round_steady n u dst proto data Hst ltac:(lia) Hd ltac:(lia)) as (u1 & Hrun & Hst1 & Ht1).
  cbn [rounds]. rewrite (bind_pure _ _ _ _ _ Hrun).
  destruct (IH (n + 1) u1 Hst1 ltac:(lia) ltac:(lia) Hlen ltac:(lia)) as (u2 & Hruns & Hst2 & Ht2).
  rewrite (bind_pure _ _ _ _ _ Hruns). exists u2. split; [|split].
  - cbn [imap]. rewrite Z.add_0_r, Ht1. cbn [mret M_ret].
    unfold mret, M_ret. do 4 f_equal. apply imap_ext. intros k x _. simpl. do 4 f_equal. lia.
  - by replace (n + Z.of_nat (S (length msgs))) with (n + 1 + Z.of_nat (length msgs)) by lia.
  - rewrite Ht2, Ht1. lia.
Qed.

(** *** The end of a process *)

Lemma exit_value u q l i n :
  sems (ipc u) = Some l → l !! i = Some n →
  sem_is i (Z.max 0 (Z.min SEMVMX (n + semadj u q i))) (ipc (exit_process SEMVMX q u)).
Proof.
  intros Hl Hn. unfold sem_is, exit_process, undone. cbn [ipc sems]. rewrite Hl.
  cbn [fmap option_fmap option_map mbind option_bind]. by rewrite list_lookup_imap, Hn.
Qed.

Lemma take_blocks q i t u :
  tokens i 0 u → take_frame (E := E) SEMVMX SEMAEM q i t u = (Blocked, u, []).
Proof.
  unfold tokens, sem_is, take_frame. destruct (sems (ipc u)) as [l|] eqn:Hl; [|done].
  intros Hn. unfold mbind, M_bind. by rewrite (receive_blocks _ _ _ _ _ _ _ Hl Hn).
Qed.
End pair.

(** C20. The undo values end the traffic between two processes. Starting in
    step, process [p] sends [SEMAEM] messages (32767 on Linux) and [r] gets
    every one. The send of the next message succeeds like the others, but [r]
    gets a null frame, then and whenever it tries again. The message after that
    is written and published, its send reports success, and no client is
    signalled, not even [p] itself. *)
Theorem traffic_ends {E} (SEMVMX SEMAEM p r : Z) (ip ir : nat) (dst : MAC) (proto : Z)
    (msgs : list (list Z)) (m1 m2 : list Z) (u : Sys) :
  1 ≤ SEMVMX → 1 ≤ SEMAEM → p ≠ r → ip ≠ ir → steady p ip r ir 0 u →
  Z.of_nat (length msgs) = SEMAEM →
  Forall (λ data, Z.of_nat (length data) ≤ ETH_MTU) (m1 :: m2 :: msgs) →
  publish_sequence_id (blk (ipc u)) + SEMAEM + 2 < 2 ^ 63 →
  let t := publish_sequence_id (blk (ipc u)) in
  let size m := HEADER_SIZE + Z.of_nat (length m) in
  ∃ u1 u2 u3,
    rounds (E := E) SEMVMX SEMAEM p ip r ir dst proto msgs u =
      (Ret (imap (λ k m, (size m, Some (Z.to_nat ((t + 1 + Z.of_nat k) `mod` BUFFER_SLOTS)))) msgs), u1, []) ∧
    round (E := E) SEMVMX SEMAEM p ip r ir dst proto m1 u1 = (Ret (size m1, None), u2, []) ∧
    (∀ t', take_frame (E := E) SEMVMX SEMAEM r ir t' u2 = (Ret None, u2, [])) ∧
    send (E := E) SEMVMX SEMAEM p None dst proto m2 (Z.of_nat (length m2)) u2 = (Ret (size m2), u3, []) ∧
    sems (ipc u3) = sems (ipc u2) ∧ publish_sequence_id (blk (ipc u3)) = t + SEMAEM + 2.
Proof.
  intros Hvmx Haem Hpr Hipr Hst Hlen Hall Hlt. cbv zeta.
  apply Forall_cons in Hall as [Hm1 Hall]. apply Forall_cons in Hall as [Hm2 Hall].
  destruct (rounds_steady (E := E) SEMVMX SEMAEM Hvmx Haem p ip r ir Hpr Hipr dst proto msgs 0 u Hst)
    as (u1 & Hrun & Hst1 & Ht1); [lia|lia|done|lia|].
  exists u1. rewrite Z.add_0_l, Hlen in Hst1.
  destruct (round_limit (E := E) SEMVMX SEMAEM Hvmx Haem p ip r ir Hpr Hipr u1 dst proto m1 Hst1 Hm1)
    as (u2 & Hround & Hnone & Ho & Hcp & Hcr & Ha); [lia|].
  destruct (send_silent (E := E) SEMVMX SEMAEM Hvmx Haem p ip ir Hipr _ _ u2 dst proto m2 Ho Hcp Hcr)
    as (u3 & Hsend & Hsems & Ht3); [lia|lia|done|done|].
  exists u2, u3. repeat (split; [done|]). rewrite Ht3, Ht1. lia.
Qed.

(** The shared memory after [bootstrapIPC] and the registrations of two clients. *)
Definition two_clients (p r : Z) : Sys :=
  mk_sys (mk_ipc (set_registry (mk_client true p 0 :: mk_client true r 0 :: replicate 14 zero_client)
                    init_block) (Some (initial_sems (λ _, true)))) ∅.

Lemma two_clients_steady p r : steady p 0 r 1 0 (two_clients p r).
Proof.
  split; try reflexivity.
  - split; [reflexivity|]. split; [reflexivity|]. split; [|split; [split|]; reflexivity || done].
    intros i sl Hi. apply lookup_replicate in Hi as [-> _]. reflexivity.
  - eexists. split; [reflexivity|]. split; [reflexivity|]. split; [reflexivity|].
    intros i n Hi. apply list_elem_of_lookup_2 in Hi.
    revert n Hi. apply Forall_forall. vm_compute. repeat constructor; congruence.
  - by eexists.
  - by eexists.
  - intros [|[|i]] c Hc Ha; [by left|by right|]. cbn in Hc.
    apply (lookup_replicate 14 zero_client c i) in Hc as [-> _]. done.
Qed.

Lemma traffic_ends_witness :
  let msgs := [[5]; [6]; [7]] in
  ∃ u1 u2 u3 : Sys,
    rounds (E := unit) 32767 3 100 0 200 1 BROADCAST_ADDR 0x88B5 msgs (two_clients 100 200) =
      (Ret (imap (λ k m, (HEADER_SIZE + Z.of_nat (length m),
              Some (Z.to_nat ((0 + 1 + Z.of_nat k) `mod` BUFFER_SLOTS)))) msgs), u1, []) ∧
    round (E := unit) 32767 3 100 0 200 1 BROADCAST_ADDR 0x88B5 [8] u1 =
      (Ret (HEADER_SIZE + 1, None), u2, []) ∧
    (∀ t', take_frame (E := unit) 32767 3 200 1 t' u2 = (Ret None, u2, [])) ∧
    send (E := unit) 32767 3 100 None BROADCAST_ADDR 0x88B5 [9] 1 u2 =
      (Ret (HEADER_SIZE + 1), u3, []) ∧
    sems (ipc u3) = sems (ipc u2) ∧ publish_sequence_id (blk (ipc u3)) = 0 + 3 + 2.
Proof.
  apply (traffic_ends 32767 3 100 200 0 1 BROADCAST_ADDR 0x88B5 [[5]; [6]; [7]] [8] [9]
           (two_clients 100 200)); try done; try lia.
  - apply two_clients_steady.
  - repeat constructor; cbn; unfold ETH_MTU; lia.
Defined.

(** C23. The end of a process changes the semaphores of the others. When [p]
    ends after its message is published and before [r] takes it, the signal is
    taken back, the kernel leaves zero on the semaphore of [r], and [r] waits
    though the message is in its slot; without the end of [p] it takes the
    message at once. When it is [r] that ends, the signals it took come back:
    the next client of its place in the registry finds one signal for each
    message that was read long ago. *)
Theorem exit_moves_signals {E} (SEMVMX SEMAEM p r : Z) (ip ir : nat) (dst : MAC) (proto : Z)
    (data : list Z) (n : Z) (u : Sys) :
  1 ≤ SEMVMX → 1 ≤ SEMAEM → p ≠ r → ip ≠ ir → steady p ip r ir n u → 0 ≤ n < SEMAEM →
  Z.of_nat (length data) ≤ ETH_MTU → publish_sequence_id (blk (ipc u)) + 1 < 2 ^ 63 →
  let t := publish_sequence_id (blk (ipc u)) + 1 in
  (∃ u', send (E := E) SEMVMX SEMAEM p None dst proto data (Z.of_nat (length data)) u =
      (Ret (HEADER_SIZE + Z.of_nat (length data)), u', []) ∧
    (∃ u'', take_frame (E := E) SEMVMX SEMAEM r ir t u' =
      (Ret (Some (Z.to_nat (t `mod` BUFFER_SLOTS))), u'', [])) ∧
    take_frame (E := E) SEMVMX SEMAEM r ir t (exit_process SEMVMX p u') =
      (Blocked, exit_process SEMVMX p u', [])) ∧
  tokens ir (Z.min SEMVMX n) (exit_process SEMVMX r u).
Proof.
  intros Hvmx Haem Hpr Hipr Hst Hn Hlen Hlt. cbv zeta. split.
  - destruct (send_steady (E := E) SEMVMX SEMAEM Hvmx Haem p ip r ir Hpr Hipr n u dst proto data Hst)
      as (u1 & Hsend & Ho & Htp & Htr & Hcp & Hcr & Hap & Hgiven & Htaken); [lia|done..|].
    exists u1. split; [exact Hsend|]. split.
    + destruct (take_offered (E := E) SEMVMX SEMAEM p ip ir Hipr r ir (publish_sequence_id (blk (ipc u)) + 1) 1
        (publish_sequence_id (blk (ipc u))) u1)
        as (l & c & Hl & Hn1 & Hc & Hact & Hrun); try done; try lia. eauto.
    + apply take_blocks. destruct (of_sems _ _ _ _ _ Ho) as (l & Hl & _).
      unfold tokens, sem_is in Htr. rewrite Hl in Htr.
      pose proof (exit_value SEMVMX u1 p l _ 1 Hl Htr) as H. rewrite Hgiven in H.
      unfold tokens. replace 0 with (Z.max 0 (Z.min SEMVMX (1 + (- n - 1)))) by lia. exact H.
  - destruct Hst. destruct sd_sems0 as (l & Hl & _). unfold tokens, sem_is in sd_tok_r0. rewrite Hl in sd_tok_r0.
    pose proof (exit_value SEMVMX u r l _ 0 Hl sd_tok_r0) as H. rewrite sd_taken0 in H.
    unfold tokens. replace (Z.min SEMVMX n) with (Z.max 0 (Z.min SEMVMX (0 + n))) by lia. exact H.
Qed.

Lemma exit_moves_signals_witness :
  (∃ u' : Sys, send (E := unit) 32767 32767 100 None BROADCAST_ADDR 0x88B5 [9] 1 (two_clients 100 200) =
      (Ret (HEADER_SIZE + 1), u', []) ∧
    (∃ u'', take_frame (E := unit) 32767 32767 200 1 (0 + 1) u' = (Ret (Some 1%nat), u'', [])) ∧
    take_frame (E := unit) 32767 32767 200 1 (0 + 1) (exit_process 32767 100 u') =
      (Blocked, exit_process 32767 100 u', [])) ∧
  tokens 1 (Z.min 32767 0) (exit_process 32767 200 (two_clients 100 200)).
Proof.
  apply (exit_moves_signals 32767 32767 100 200 0 1 BROADCAST_ADDR 0x88B5 [9] 0
           (two_clients 100 200)); try done; try lia.
  apply two_clients_steady.
Defined.
