(* ===== verification/SysVLocks.v ===== *)
(** The calls of the engine as sequences of [semop]s and changes of the block,
    of processes that may be killed between any two: what the undo values are
    for. *)
From S2P Require Import Prelude Ethernet Shm SysV SysVProps SysVTraffic.
Local Open Scope Z_scope.

(** ** The calls *)

Inductive call :=
  | Send (src : option MAC) (dst : MAC) (protocol : Z) (data : list Z) (size : Z)
  | Receive (me : nat) (eintr : bool) (target : Z)
  | Release (me : nat) (sequence_id : Z)
  | RegisterService (name : list Z) (type_id : Z)
  | RegisterClient
  | DeregisterClient (me : nat)
  | DestroyEngine (me : nat).

Inductive answer :=
  | Number (z : Z) | Slot (index : option nat) | Place (me : nat) | Done (u : unit).

Section run.
Context {E : Type} (SEMVMX SEMAEM : Z) (p : Z).

Definition run_call (c : call) : M Sys E answer :=
  match c with
  | Send src dst proto data size => x ← send SEMVMX SEMAEM p src dst proto data size; mret (Number x)
  | Receive me eintr t => x ← receive_zerocopy SEMVMX SEMAEM p me eintr t; mret (Slot x)
  | Release me t => x ← release_frame SEMVMX SEMAEM p me t; mret (Done x)
  | RegisterService name ty => x ← registerService SEMVMX SEMAEM p name ty; mret (Number x)
  | RegisterClient => x ← register_client SEMVMX SEMAEM p; mret (Place x)
  | DeregisterClient me => x ← deregister_client SEMVMX SEMAEM p me; mret (Done x)
  | DestroyEngine me => x ← destroy_engine SEMVMX SEMAEM p me; mret (Done x)
  end.

(** The same call in [Shm]. *)
Definition plain_call (c : call) : M Ipc E answer :=
  match c with
  | Send src dst proto data size => x ← Shm.send src dst proto data size; mret (Number x)
  | Receive me eintr t => x ← Shm.receive_zerocopy me eintr t; mret (Slot x)
  | Release me t => x ← Shm.release_frame me t; mret (Done x)
  | RegisterService name ty => x ← Shm.registerService p name ty; mret (Number x)
  | RegisterClient => x ← Shm.register_client p; mret (Place x)
  | DeregisterClient me => x ← Shm.deregister_client me; mret (Done x)
  | DestroyEngine me => x ← Shm.destroy_engine me; mret (Done x)
  end.

(** ** Between two system calls *)

(** A lock is given back by a process that holds it; what a process signals
    otherwise are the semaphores of the clients and the writers. *)
Inductive micro : Sys → Sys → Prop :=
  | MicroBlock u f : micro u (set_ipc (set_blk f (ipc u)) u)
  | MicroTake u l i l' a' :
      sems (ipc u) = Some l → perform SEMVMX SEMAEM p l (adj u) [(i, -1)] = Granted l' a' →
      micro u (mk_sys (mk_ipc (blk (ipc u)) (Some l')) a')
  | MicroSignal u l sops l' a' :
      sems (ipc u) = Some l → Forall (λ o, (WRITER_WAIT_SEM ≤ o.1)%nat ∧ o.2 = 1) sops →
      perform SEMVMX SEMAEM p l (adj u) sops = Granted l' a' →
      micro u (mk_sys (mk_ipc (blk (ipc u)) (Some l')) a')
  | MicroUnlock u l i l' a' :
      sems (ipc u) = Some l → (i < WRITER_WAIT_SEM)%nat → 1 ≤ semadj u p i →
      perform SEMVMX SEMAEM p l (adj u) [(i, 1)] = Granted l' a' →
      micro u (mk_sys (mk_ipc (blk (ipc u)) (Some l')) a')
  | MicroRemove u : micro u (set_ipc (mk_ipc (blk (ipc u)) None) u)
  | MicroExit u : micro u (exit_process SEMVMX p u).
End run.

(** One step of one of the processes [ps]. *)
Definition sys_step (SEMVMX SEMAEM : Z) (ps : list Z) (u v : Sys) : Prop :=
  ∃ p, p ∈ ps ∧ micro SEMVMX SEMAEM p u v.

(** ** Within the limits *)

(** C21. Within the limits of the undo values the engine runs as [Shm] says:
    when process [p] is at least [w + 4] operations away from every limit, [w]
    the tokens of waiting writers, each call of the engine ends, answers and
    changes the shared block and the semaphores exactly like the call without
    undo values. *)
Theorem calls_within_limits {E} (SEMVMX SEMAEM p w : Z) (c : call) (u : Sys) :
  0 ≤ w → room SEMVMX SEMAEM p (w + 4) w u →
  let '(o, s', es) := plain_call (E := E) p c (ipc u) in
  ∃ a', run_call (E := E) SEMVMX SEMAEM p c u = (o, mk_sys s' a', es).
Proof.
  intros Hw Hroom.
  assert (sim (E := E) SEMVMX SEMAEM p (w + 4) w (w + 1) (plain_call p c) (run_call SEMVMX SEMAEM p c)) as Hsim.
  { destruct c; cbn [plain_call run_call].
    all: eapply sim_seq;
      [first [apply sim_release | apply sim_send; exact Hw | apply sim_receive | apply sim_registerService
             | apply sim_register | apply sim_deregister | apply sim_destroy]
      |lia|lia|intros x].
    all: intros j v Hj Hv; exists (adj v); split; [by destruct v|]; destruct v; eapply room_le; [..|exact Hv]; lia. }
  specialize (Hsim 0 u ltac:(lia) ltac:(by rewrite Z.add_0_r)).
  destruct (plain_call p c (ipc u)) as [[o s'] es]. destruct Hsim as (a' & -> & _). by exists a'.
Qed.

Lemma calls_within_limits_witness :
  ∃ a', run_call (E := unit) 32767 32767 100 (Send None BROADCAST_ADDR 0x88B5 [1] 1) (two_clients 100 200) =
    (Ret (Number (HEADER_SIZE + 1)),
     mk_sys (plain_call (E := unit) 100 (Send None BROADCAST_ADDR 0x88B5 [1] 1)
               (ipc (two_clients 100 200))).1.2 a', []).
Proof.
  apply (calls_within_limits (E := unit) 32767 32767 100 0 (Send None BROADCAST_ADDR 0x88B5 [1] 1)
           (two_clients 100 200)).
  - lia.
  - split; [intros i; unfold semadj, adjustment; cbn [adj two_clients]; rewrite lookup_empty; simpl; lia|reflexivity|by intros l [= <-]| |].
    + intros l i n [= <-] Hi. apply list_elem_of_lookup_2 in Hi. revert n Hi.
      apply Forall_forall. vm_compute. repeat constructor; congruence.
    + intros l n [= <-] [= <-]. lia.
Defined.

(** ** Every call is a sequence of steps *)

Section ends.
Context {E : Type} (SEMVMX SEMAEM p : Z) (u0 : Sys).

Definition came (v : Sys) : Prop :=
  rtc (micro SEMVMX SEMAEM p) u0 v ∧ ∀ i, (i < WRITER_WAIT_SEM)%nat → 0 ≤ semadj v p i.
Definition holding (i : nat) (v : Sys) : Prop :=
  came v ∧ ((i < WRITER_WAIT_SEM)%nat → 1 ≤ semadj v p i).

(** However [m] ends, the state came from [u0] by steps of [p]. *)
Definition ends {A} (P : Sys → Prop) (m : M Sys E A) (Q : A → Sys → Prop) : Prop :=
  ∀ u, P u → match m u with
             | (Ret a, u', _) => Q a u'
             | (_, u', _) => came u'
             end.
Abbreviation fine m := (ends came m (λ _, came)).

Lemma ends_bind {A B} P (m : M Sys E A) (f : A → M Sys E B) R Q :
  ends P m R → (∀ a, ends (R a) (f a) Q) → ends P (m ≫= f) Q.
Proof.
  intros Hm Hf u Hu. specialize (Hm u Hu). unfold mbind, M_bind.
  destruct (m u) as [[[a|e| | |] u'] es]; try done.
  specialize (Hf a u' Hm). destruct (f a u') as [[[b|e| | |] u''] es']; done.
Qed.
Lemma ends_ret {A} (P : Sys → Prop) (a : A) (Q : A → Sys → Prop) :
  (∀ u, P u → Q a u) → ends P (mret a) Q.
Proof. intros HQ u Hu. by apply HQ. Qed.
Lemma ends_gets {A} (P : Sys → Prop) (g : Sys → A) : ends P (gets g) (λ _, P).
Proof. by intros u Hu. Qed.
Lemma ends_blocked {A} (Q : A → Sys → Prop) : ends came blocked Q.
Proof. by intros u Hu. Qed.

Lemma ends_checked {A} (P : Sys → Prop) (o : option A) :
  (∀ u, P u → came u) → ends P (checked o) (λ _, P).
Proof. intros HP u Hu. destruct o; [done|by apply HP]. Qed.
Lemma ends_require (b : bool) : fine (if b then mret tt else undefined).
Proof. intros u Hu. by destruct b. Qed.

Lemma came_holding i v : holding i v → came v.
Proof. by intros []. Qed.
Lemma came_next v w : came v → micro SEMVMX SEMAEM p v w →
  (∀ i, (i < WRITER_WAIT_SEM)%nat → 0 ≤ semadj w p i) → came w.
Proof. intros [Hv _] Hw Hnn. split; [by eapply rtc_r|done]. Qed.

Lemma fine_block f : fine (lift (on_blk f)).
Proof.
  intros u Hu. change (came (set_ipc (set_blk f (ipc u)) u)).
  eapply came_next; [exact Hu|constructor|]. apply Hu.
Qed.
Lemma holding_block i f : ends (holding i) (lift (on_blk f)) (λ _, holding i).
Proof.
  intros u [Hu Hi]. change (holding i (set_ipc (set_blk f (ipc u)) u)).
  split; [|exact Hi]. eapply came_next; [exact Hu|constructor|]. apply Hu.
Qed.
Lemma fine_remove : fine (lift remove_sems).
Proof.
  intros u Hu. change (came (set_ipc (mk_ipc (blk (ipc u)) None) u)).
  eapply came_next; [exact Hu|constructor|]. apply Hu.
Qed.
Lemma fine_cleanup {A} msg : fine (lift (cleanupAndThrow (A := A) msg)).
Proof.
  intros u Hu. change (came (set_ipc (mk_ipc (blk (ipc u)) None) u)).
  eapply came_next; [exact Hu|constructor|]. apply Hu.
Qed.

(** One operation that is granted. *)
Lemma perform_one l a i d l' a' :
  perform SEMVMX SEMAEM p l a [(i, d)] = Granted l' a' →
  ∃ n, l !! i = Some n ∧ 0 ≤ n + d ≤ SEMVMX ∧ l' = <[i := n + d]> l ∧
       a' = <[(p, i) := adjustment a p i - d]> a.
Proof.
  cbn [perform]. destruct (l !! i) as [n|]; [|done]. case_decide; [done|]. case_decide; [done|].
  cbv zeta. destruct (in_range _ _); [|done]. intros [= <- <-]. exists n. split; [done|]. split; [lia|done].
Qed.

Lemma ends_acquire i :
  ends came (acquire SEMVMX SEMAEM p i) (λ ok v, if ok then holding i v else came v).
Proof.
  intros u Hu. unfold acquire, semop. mstep. destruct (sems (ipc u)) as [l|] eqn:Hl; [|done].
  destruct (perform _ _ _ _ _ _) as [l' a'| | |] eqn:Hp; mstep; try done.
  pose proof (perform_one _ _ _ _ _ _ Hp) as (n & _ & _ & _ & ->).
  assert (∀ j, semadj u p j ≤ adjustment (<[(p, i):=adjustment (adj u) p i - -1]> (adj u)) p j) as Hle.
  { intros j. rewrite adjustment_insert. unfold semadj. case_decide as H; [injection H as ->|]; lia. }
  split.
  - eapply came_next; [exact Hu|by eapply MicroTake|]. intros j Hj.
    destruct Hu as [_ Hu]. specialize (Hu j Hj). specialize (Hle j). unfold semadj at 1. cbn [adj]. lia.
  - intros Hi. destruct Hu as [_ Hu]. specialize (Hu i Hi). unfold semadj in *. cbn [adj].
    rewrite adjustment_insert, decide_True by done. lia.
Qed.

Lemma ends_unlock i : (i < WRITER_WAIT_SEM)%nat →
  ends (holding i) (signal SEMVMX SEMAEM p i) (λ _, came).
Proof.
  intros Hi u [Hu Hheld]. unfold signal, semop. mstep. destruct (sems (ipc u)) as [l|] eqn:Hl; [|done].
  destruct (perform _ _ _ _ _ _) as [l' a'| | |] eqn:Hp; mstep; try done.
  pose proof (perform_one _ _ _ _ _ _ Hp) as (n & _ & _ & _ & ->).
  eapply came_next; [exact Hu|eapply MicroUnlock; eauto|]. intros j Hj.
  destruct Hu as [_ Hu]. specialize (Hu j Hj). specialize (Hheld Hi). unfold semadj in *. cbn [adj].
  rewrite adjustment_insert. case_decide as H; [injection H as ->|]; lia.
Qed.

Lemma perform_untouched i l' a' sops : ∀ l a,
  perform SEMVMX SEMAEM p l a sops = Granted l' a' → Forall (λ o, o.1 ≠ i) sops →
  l' !! i = l !! i ∧ ∀ q, adjustment a' q i = adjustment a q i.
Proof.
  induction sops as [|[j d] sops IH]; intros l a Hp Hne.
  - injection Hp as <- <-. done.
  - apply Forall_cons in Hne as [Hj Hne]. cbn [perform] in Hp. destruct (l !! j) as [n|]; [|done].
    case_decide; [done|]. case_decide; [done|]. cbv zeta in Hp. destruct (in_range _ _); [|done].
    destruct (IH _ _ Hp Hne) as [-> Ha]. cbn in Hj. split; [by rewrite list_lookup_insert_ne|].
    intros q. rewrite Ha, adjustment_insert, decide_False; [done|]. by intros [= _ ->].
Qed.

Lemma fine_signals sops :
  Forall (λ o, (WRITER_WAIT_SEM ≤ o.1)%nat ∧ o.2 = 1) sops →
  ends came (semop SEMVMX SEMAEM p sops) (λ _, came).
Proof.
  intros Hs u Hu. unfold semop. mstep. destruct (sems (ipc u)) as [l|] eqn:Hl; [|done].
  destruct (perform _ _ _ _ _ _) as [l' a'| | |] eqn:Hp; mstep; try done.
  eapply came_next; [exact Hu|by eapply MicroSignal|]. intros j Hj.
  destruct (perform_untouched j _ _ _ _ _ Hp) as [_ Ha].
  { eapply Forall_impl; [exact Hs|]. intros o [Ho _] Hoj. lia. }
  unfold semadj. cbn [adj]. rewrite Ha. by apply Hu.
Qed.

Lemma signal_ops_signals reg :
  Forall (λ o, (WRITER_WAIT_SEM ≤ o.1)%nat ∧ o.2 = 1) (signal_ops reg).
Proof.
  unfold signal_ops. apply Forall_fmap, Forall_true. intros i. simpl.
  unfold WRITER_WAIT_SEM, CONTROL_SEMS. split; [lia|done].
Qed.

Lemma fine_batch reg :
  ends came (match signal_ops reg with [] => mret true | sops => semop SEMVMX SEMAEM p sops end)
    (λ _, came).
Proof.
  destruct (signal_ops reg) eqn:Ho; [by intros u Hu|]. apply fine_signals. rewrite <- Ho.
  apply signal_ops_signals.
Qed.
Lemma fine_signal_writer : ends came (signal SEMVMX SEMAEM p WRITER_WAIT_SEM) (λ _, came).
Proof. apply fine_signals. by repeat constructor. Qed.
End ends.

(** Through a call: a lock is taken and held until it is given back. *)
Ltac fine_head :=
  first [ apply ends_gets
        | apply ends_checked; first [done | apply came_holding]
        | apply ends_acquire | apply holding_block | apply fine_block
        | apply ends_unlock; unfold DIRECTORY_SEM, REGISTRY_SEM, CLAIM_SEM, WRITER_WAIT_SEM; lia
        | apply fine_batch | apply fine_signal_writer ].
Ltac fine_step :=
  match goal with
  | |- ends _ _ _ _ _ (_ ≫= _) _ => eapply ends_bind; [fine_head|intros ?; cbv beta zeta]
  | |- ends _ _ _ _ _ (if negb ?b then _ else _) _ => destruct b; cbn [negb]
  | |- ends _ _ _ _ _ (if ?b then _ else _) _ => destruct b
  | |- ends _ _ _ _ _ (match ?o with _ => _ end) _ => destruct o
  | |- ends _ _ _ _ _ (mret _) _ => apply ends_ret; intros ? ?; first [done | by eapply came_holding]
  | |- ends _ _ _ _ _ blocked _ => apply ends_blocked
  | |- ends _ _ _ _ _ (lift remove_sems) _ => apply fine_remove
  | |- ends _ _ _ _ _ (lift (cleanupAndThrow _)) _ => apply fine_cleanup
  end.
Ltac fine := repeat fine_step.

Section calls.
Context {E : Type} (SEMVMX SEMAEM p : Z) (u0 : Sys).
Abbreviation fine_call m := (ends (E := E) SEMVMX SEMAEM p u0 (came SEMVMX SEMAEM p u0) m
                               (λ _, came SEMVMX SEMAEM p u0)).

Lemma ends_pre {A} P P' (m : M Sys E A) Q :
  (∀ u, P u → P' u) → ends SEMVMX SEMAEM p u0 P' m Q → ends SEMVMX SEMAEM p u0 P m Q.
Proof. intros HP Hm u Hu. by apply Hm, HP. Qed.

Lemma fine_wait fuel ticket : fine_call (wait_slot SEMVMX SEMAEM p fuel ticket).
Proof.
  induction fuel as [|fuel IH]; cbn [wait_slot]; fine.
  eapply ends_pre; [|exact IH]. by intros u [].
Qed.

Lemma fine_send src dst proto data size : fine_call (send SEMVMX SEMAEM p src dst proto data size).
Proof.
  unfold send. fine. eapply ends_bind; [apply fine_wait|intros ?]. fine.
  eapply (ends_bind _ _ _ _ _ _ _ (λ _, came SEMVMX SEMAEM p u0)); [|intros ?; fine].
  intros u Hu. by case_decide.
Qed.

Lemma fine_deregister me : fine_call (deregister_client SEMVMX SEMAEM p me).
Proof. unfold deregister_client. fine. Qed.

Lemma fine_run c : fine_call (run_call SEMVMX SEMAEM p c).
Proof.
  destruct c; cbn [run_call];
    (eapply (ends_bind _ _ _ _ _ _ _ (λ _, came SEMVMX SEMAEM p u0)); [|intros ?; apply ends_ret; by intros]).
  - apply fine_send.
  - unfold receive_zerocopy. fine.
  - unfold release_frame. fine.
    eapply (ends_bind _ _ _ _ _ _ _ (λ _, came SEMVMX SEMAEM p u0)); [|intros ?; fine].
    match goal with |- context [if ?b then _ else _] => destruct b end;
      [apply fine_signal_writer|by intros u Hu].
  - unfold registerService. fine.
  - unfold register_client. fine.
  - apply fine_deregister.
  - unfold destroy_engine. eapply ends_bind; [apply fine_deregister|intros ?]. fine.
Qed.
End calls.

(** ** The locks *)

Definition total (ps : list Z) (f : Z → Z) : Z := foldr (λ q acc, f q + acc) 0 ps.

Lemma total_cons q ps f : total (q :: ps) f = f q + total ps f.
Proof. done. Qed.

Lemma total_ext ps f g : (∀ q, q ∈ ps → g q = f q) → total ps g = total ps f.
Proof.
  induction ps as [|q ps IH]; intros Heq; [done|]. rewrite !total_cons, (Heq q), IH by set_solver. done.
Qed.

Lemma total_change ps p f g :
  NoDup ps → p ∈ ps → (∀ q, q ≠ p → g q = f q) → total ps g = total ps f + (g p - f p).
Proof.
  induction ps as [|q ps IH]; intros Hnd Hp Heq; [by apply not_elem_of_nil in Hp|].
  apply NoDup_cons in Hnd as [Hq Hnd]. rewrite !total_cons. destruct (decide (q = p)) as [->|Hne].
  - rewrite (total_ext ps f g); [lia|]. intros x Hx. apply Heq. by intros ->.
  - rewrite IH by set_solver. rewrite (Heq q Hne). lia.
Qed.

Lemma total_nonneg ps f : (∀ q, 0 ≤ f q) → 0 ≤ total ps f.
Proof.
  intros Hf. induction ps as [|q ps IH]; [done|]. rewrite total_cons. specialize (Hf q). lia.
Qed.

Lemma total_none ps f : (∀ q, 0 ≤ f q) → total ps f = 0 → ∀ q, q ∈ ps → f q = 0.
Proof.
  intros Hf. induction ps as [|x ps IH]; intros Ht q Hq; [by apply not_elem_of_nil in Hq|].
  rewrite total_cons in Ht. pose proof (total_nonneg ps f Hf). pose proof (Hf x).
  apply elem_of_cons in Hq as [->|Hq]; [lia|]. apply IH; [lia|done].
Qed.

Lemma total_one ps f : NoDup ps → (∀ q, 0 ≤ f q) → total ps f = 1 →
  ∃ p, p ∈ ps ∧ f p = 1 ∧ ∀ q, q ∈ ps → q ≠ p → f q = 0.
Proof.
  intros Hnd Hf. induction ps as [|x ps IH]; intros Ht; [done|]. apply NoDup_cons in Hnd as [Hx Hnd].
  rewrite total_cons in Ht. pose proof (Hf x). pose proof (total_nonneg ps f Hf).
  destruct (decide (f x = 0)) as [E0|E0].
  - destruct IH as (p & Hp & H1 & H2); [done|lia|]. exists p. split; [set_solver|]. split; [done|].
    intros q [->|Hq]%elem_of_cons Hne; [done|by apply H2].
  - exists x. split; [set_solver|]. split; [lia|]. intros q [->|Hq]%elem_of_cons Hne; [done|].
    apply (total_none ps f Hf); [lia|done].
Qed.

Section locks.
Context (SEMVMX SEMAEM : Z) (Hvmx : 1 ≤ SEMVMX) (ps : list Z) (Hnd : NoDup ps).

(** A lock and those that hold it make one. *)
Record locks_ok (u : Sys) : Prop := {
  lk_held : ∀ p i, (i < WRITER_WAIT_SEM)%nat → 0 ≤ semadj u p i;
  lk_one : ∀ l i n, (i < WRITER_WAIT_SEM)%nat → sems (ipc u) = Some l → l !! i = Some n →
    0 ≤ n ∧ n + total ps (λ q, semadj u q i) = 1
}.

(** A semaphore and an adjustment of [p] that change by opposite amounts. *)
Lemma locks_next p u l' a' l :
  p ∈ ps → locks_ok u → sems (ipc u) = Some l →
  (∀ q i, (i < WRITER_WAIT_SEM)%nat → q ≠ p → adjustment a' q i = semadj u q i) →
  (∀ i, (i < WRITER_WAIT_SEM)%nat → 0 ≤ adjustment a' p i) →
  (∀ i n', (i < WRITER_WAIT_SEM)%nat → l' !! i = Some n' →
     ∃ n, l !! i = Some n ∧ 0 ≤ n' ∧ n' + adjustment a' p i = n + semadj u p i) →
  locks_ok (mk_sys (mk_ipc (blk (ipc u)) (Some l')) a').
Proof.
  intros Hp [Hheld Hone] Hl Hother Hself Hval. split.
  - intros q i Hi. unfold semadj. cbn [adj]. destruct (decide (q = p)) as [->|Hne]; [by apply Hself|].
    rewrite Hother by done. by apply Hheld.
  - intros ? i n' Hi [= <-] Hn'. destruct (Hval i n' Hi Hn') as (n & Hn & Hpos & Heq).
    destruct (Hone _ _ _ Hi Hl Hn) as [_ Hsum]. split; [done|].
    rewrite (total_change ps p (λ q, semadj u q i)); [|done|done|].
    + unfold semadj at 2. cbn [adj]. lia.
    + intros q Hq. unfold semadj at 1. cbn [adj]. by apply Hother.
Qed.

(** One operation, which a process makes on a lock it may give back. *)
Lemma locks_single p u l i d n :
  p ∈ ps → locks_ok u → sems (ipc u) = Some l → l !! i = Some n → 0 ≤ n + d →
  ((i < WRITER_WAIT_SEM)%nat → d ≤ semadj u p i) →
  locks_ok (mk_sys (mk_ipc (blk (ipc u)) (Some (<[i := n + d]> l)))
              (<[(p, i) := adjustment (adj u) p i - d]> (adj u))).
Proof.
  intros Hp Hok Hl Hn Hpos Hd. eapply (locks_next p u); try done.
  - intros q j _ Hq. rewrite adjustment_insert, decide_False by congruence. done.
  - intros j Hj. rewrite adjustment_insert. pose proof (lk_held _ Hok p j Hj) as H.
    unfold semadj in *. case_decide as E; [injection E as ->; specialize (Hd Hj)|]; lia.
  - intros j m Hj Hm. rewrite adjustment_insert.
    apply list_lookup_insert_Some in Hm as [(<- & <- & _)|[Hne Hm]].
    + exists n. rewrite decide_True by done. unfold semadj. split; [done|]. lia.
    + exists m. rewrite decide_False by congruence. split; [done|].
      by destruct (lk_one _ Hok _ _ _ Hj Hl Hm).
Qed.

Lemma locks_micro p u v : p ∈ ps → locks_ok u → micro SEMVMX SEMAEM p u v → locks_ok v.
Proof.
  intros Hp Hok Hm. inversion Hm as [? f|? l i l' a' Hl Hperf|? l sops l' a' Hl Hs Hperf
                                    |? l i l' a' Hl Hi Hheld Hperf| |]; subst.
  - destruct Hok. by split.
  - apply perform_one in Hperf as (n & Hn & Hr & -> & ->). eapply locks_single; try done; [lia|].
    intros Hi. pose proof (lk_held _ Hok p i Hi). lia.
  - assert (∀ j, (j < WRITER_WAIT_SEM)%nat → l' !! j = l !! j ∧ ∀ q, adjustment a' q j = semadj u q j) as Hsame.
    { intros j Hj. eapply perform_untouched; [exact Hperf|]. eapply Forall_impl; [exact Hs|].
      intros o [Ho _] Hoj. lia. }
    eapply (locks_next p u); try done.
    + intros q j Hj _. by apply Hsame.
    + intros j Hj. rewrite (proj2 (Hsame j Hj)). by apply (lk_held _ Hok).
    + intros j m Hj Hm'. destruct (Hsame j Hj) as [Hv Ha]. rewrite Hv in Hm'. exists m. rewrite Ha.
      split; [done|]. by destruct (lk_one _ Hok _ _ _ Hj Hl Hm').
  - apply perform_one in Hperf as (n & Hn & Hr & -> & ->). eapply locks_single; try done. lia.
  - destruct Hok as [Hheld _]. split; [exact Hheld|done].
  - destruct (sems (ipc u)) as [l|] eqn:Hl.
    2:{ unfold exit_process. rewrite Hl. split; [|done]. intros q i Hi. unfold semadj. cbn [adj].
        rewrite adjustment_forget. case_decide; [done|]. by apply (lk_held _ Hok). }
    unfold exit_process. rewrite Hl. eapply (locks_next p u); try done.
    + intros q i Hi Hq. rewrite adjustment_forget. by case_decide.
    + intros i Hi. rewrite adjustment_forget. by case_decide.
    + intros i n' Hi Hn'. unfold undone in Hn'. rewrite list_lookup_imap in Hn'.
      destruct (l !! i) as [n|] eqn:Hn; [|done]. injection Hn' as <-. exists n. split; [done|].
      rewrite adjustment_forget, decide_True by done.
      destruct (lk_one _ Hok _ _ _ Hi Hl Hn) as [Hpos Hsum].
      pose proof (lk_held _ Hok p i Hi) as Hp0.
      assert (semadj u p i ≤ total ps (λ q, semadj u q i)) as Hle.
      { rewrite (total_change ps p (λ q, if decide (q = p) then 0 else semadj u q i)); [|done|done|].
        - rewrite decide_True by done. pose proof (total_nonneg ps (λ q, if decide (q = p) then 0 else semadj u q i)) as Ht.
          enough (0 ≤ total ps (λ q, if decide (q = p) then 0 else semadj u q i)) by lia. apply Ht.
          intros q. case_decide; [done|]. by apply (lk_held _ Hok).
        - intros q Hq. by rewrite decide_False. }
      unfold semadj in *. lia.
Qed.

Lemma locks_run u v : rtc (sys_step SEMVMX SEMAEM ps) u v → locks_ok u → locks_ok v.
Proof.
  induction 1 as [u|u w v (p & Hp & Hm) _ IH]; intros Hok; [done|]. by eapply IH, locks_micro.
Qed.
End locks.

Lemma locks_start ps b : locks_ok ps (mk_sys (mk_ipc b (Some (initial_sems (λ _, true)))) ∅).
Proof.
  assert (∀ q i, semadj (mk_sys (mk_ipc b (Some (initial_sems (λ _, true)))) ∅) q i = 0) as H0.
  { intros q i. unfold semadj, adjustment. cbn [adj]. by rewrite lookup_empty. }
  split; [intros q i _; by rewrite H0|].
  intros l i n Hi [= <-] Hn. rewrite (total_ext ps (λ _, 0)) by (intros; apply H0).
  assert (n = 1) as ->.
  { destruct i as [|[|[|i]]]; [by injection Hn..|]. unfold WRITER_WAIT_SEM in Hi. lia. }
  split; [done|]. assert (total ps (λ _, 0) = 0) as ->; [|done].
  induction ps as [|q ps IH]; [done|]. by rewrite total_cons, IH.
Qed.

(** C22. What the undo values are for: from the bootstrap on, whatever the
    processes do and wherever they are killed, each of the three locks (the
    registry, the claims and the directory) is free and held by no process, or
    taken and held by exactly one, and then the end of that process frees it.
    Every call of the engine, however it ends, is such a sequence of steps. *)
Theorem locks_survive_kills {E} (SEMVMX SEMAEM : Z) (ps : list Z) (b : SharedBlock) (u : Sys) :
  1 ≤ SEMVMX → NoDup ps →
  rtc (sys_step SEMVMX SEMAEM ps) (mk_sys (mk_ipc b (Some (initial_sems (λ _, true)))) ∅) u →
  (∀ i l n, (i < WRITER_WAIT_SEM)%nat → sems (ipc u) = Some l → l !! i = Some n →
     (n = 1 ∧ ∀ p, p ∈ ps → semadj u p i = 0) ∨
     (n = 0 ∧ ∃ p, p ∈ ps ∧ semadj u p i = 1 ∧ (∀ q, q ∈ ps → q ≠ p → semadj u q i = 0) ∧
        sem_is i 1 (ipc (exit_process SEMVMX p u)))) ∧
  (∀ p c, p ∈ ps → rtc (sys_step SEMVMX SEMAEM ps) u (run_call (E := E) SEMVMX SEMAEM p c u).1.2).
Proof.
  intros Hvmx Hnd Hsteps.
  assert (locks_ok ps u) as Hok.
  { eapply (locks_run SEMVMX SEMAEM Hvmx ps Hnd); [exact Hsteps|apply locks_start]. }
  split.
  - intros i l n Hi Hl Hn. destruct (lk_one _ _ Hok _ _ _ Hi Hl Hn) as [Hpos Hsum].
    pose proof (λ q, lk_held _ _ Hok q i Hi) as Hnn.
    pose proof (total_nonneg ps (λ q, semadj u q i) Hnn).
    destruct (decide (n = 1)) as [->|Hne].
    + left. split; [done|]. apply (total_none ps (λ q, semadj u q i) Hnn). lia.
    + right. assert (n = 0) as -> by lia. split; [done|].
      destruct (total_one ps (λ q, semadj u q i) Hnd Hnn) as (p & Hp & H1 & H0); [lia|].
      exists p. do 3 (split; [done|]). pose proof (exit_value SEMVMX u p l i 0 Hl Hn) as H'.
      rewrite H1 in H'. by replace (Z.max 0 (Z.min SEMVMX (0 + 1))) with 1 in H' by lia.
  - intros p c Hp. pose proof (fine_run (E := E) SEMVMX SEMAEM p u c u) as Hrun.
    assert (came SEMVMX SEMAEM p u u) as Hu.
    { split; [constructor|]. intros i Hi. by apply (lk_held _ _ Hok). }
    specialize (Hrun Hu). destruct (run_call SEMVMX SEMAEM p c u) as [[o u'] es]. cbn.
    assert (came SEMVMX SEMAEM p u u') as [Hc _] by by destruct o.
    eapply rtc_subrel; [|exact Hc]. intros x y Hxy. by exists p.
Qed.

(** Process 100 is between taking the claim lock and giving it back. *)
Definition claiming : Sys :=
  mk_sys (mk_ipc init_block (Some (<[CLAIM_SEM := 1 + -1]> (initial_sems (λ _, true)))))
    (<[(100, CLAIM_SEM) := adjustment ∅ 100 CLAIM_SEM - -1]> ∅).

Lemma locks_survive_kills_witness :
  (∀ i l n, (i < WRITER_WAIT_SEM)%nat → sems (ipc claiming) = Some l → l !! i = Some n →
     (n = 1 ∧ ∀ p, p ∈ [100; 200] → semadj claiming p i = 0) ∨
     (n = 0 ∧ ∃ p, p ∈ [100; 200] ∧ semadj claiming p i = 1 ∧
        (∀ q, q ∈ [100; 200] → q ≠ p → semadj claiming q i = 0) ∧
        sem_is i 1 (ipc (exit_process 32767 p claiming)))) ∧
  (∀ p c, p ∈ [100; 200] → rtc (sys_step 32767 32767 [100; 200]) claiming
     (run_call (E := unit) 32767 32767 p c claiming).1.2).
Proof.
  apply (locks_survive_kills (E := unit) 32767 32767 [100; 200] init_block claiming).
  - lia.
  - apply (bool_decide_unpack _). vm_compute. exact I.
  - apply rtc_once. exists 100. split; [by left|].
    eapply (MicroTake _ _ _ (mk_sys (mk_ipc init_block (Some (initial_sems (λ _, true)))) ∅)
              (initial_sems (λ _, true)) CLAIM_SEM); reflexivity.
Defined.
