(* ===== verification/Clock.v ===== *)
(** The clock ([api/utils/clock.hpp]) and what the time and group handlers ask
    of the rest of the program. *)
From S2P Require Import Prelude Ethernet Packet.
Local Open Scope Z_scope.

(** Readings of [system_clock] (nanoseconds) within one call, in order, and
    whether [settimeofday] succeeds. *)
Record env := mk_env { clock : nat → Z; settime_ok : bool }.

Record timeval := mk_timeval { tv_sec : Z; tv_usec : Z }.
#[export] Instance timeval_eq_dec : EqDecision timeval.
Proof. solve_decision. Defined.

Definition timeval_us (t : timeval) : Z := tv_sec t * 1000000 + tv_usec t.
Definition timeval_ok (t : timeval) : Prop := 0 ≤ tv_usec t < 1000000.

(** Calls a handler makes on [Protocol] and on the operating system. *)
Inductive call :=
  | Send (from to : Address) (bytes : list Z)
  | SetTimeOfDay (tv : timeval)
  | SetSessionKey (key : Z)
  | UnregisterNearby (m : MAC).
#[export] Instance call_eq_dec : EqDecision call.
Proof. solve_decision. Defined.

Module Clock.
Definition getCurrentTimeMillis (now_ns : Z) : Z := Z.quot now_ns 1000000.
Definition getCurrentTimeSeconds (now_ns : Z) : Z := Z.quot now_ns 1000000000.
Definition getCurrentTimeNanos (now_ns : Z) : Z := now_ns.

(** [new_time_ms] is a [uint64_t]; [tv_sec] takes it as a [time_t]. *)
Definition setClockAbruptly {S} (e : env) (new_time_ms : Z) : M S call bool :=
  let sec := u64 new_time_ms / 1000 in
  let usec := (u64 new_time_ms `mod` 1000) * 1000 in
  _ ← emit (SetTimeOfDay (mk_timeval (i64 sec) (i64 usec)));
  mret (settime_ok e).

(** The new time computed by [setClockOffset]: C++ division truncates. *)
Definition shifted (current : timeval) (offset_ms : Z) : timeval :=
  let offset_sec := Z.quot offset_ms 1000 in
  let offset_usec := Z.rem offset_ms 1000 * 1000 in
  let s := tv_sec current + offset_sec in
  let u := tv_usec current + offset_usec in
  if decide (1000000 ≤ u) then mk_timeval (s + 1) (u - 1000000)
  else if decide (u < 0) then mk_timeval (s - 1) (u + 1000000)
  else mk_timeval s u.

(** [current] is what [gettimeofday] returns, or [None] when it fails. *)
Definition setClockOffset {S} (e : env) (current : option timeval) (offset_ms : Z) : M S call bool :=
  match current with
  | None => mret false
  | Some tv => _ ← emit (SetTimeOfDay (shifted tv offset_ms)); mret (settime_ok e)
  end.

(** [random] is drawn from [5000, 20000], [direction] from {0, 1}. *)
Definition desynchronize {S} (e : env) (random direction : Z) : M S call unit :=
  let random_offset_ms := if decide (direction = 0) then - random else random in
  let current := getCurrentTimeMillis (clock e 0%nat) in
  _ ← setClockAbruptly e (current - random_offset_ms); mret tt.

(** The fractional part the printing functions append. *)
Definition fractional_ms (timestamp_ms : Z) : Z := Z.rem timestamp_ms 1000.
End Clock.

(** A packed segment: header, then payload, as the handlers build it on the stack. *)
Definition sys_segment (t : Segment.MsgType) (timestamp : Z) (payload : list Z) : list Z :=
  Segment.header_bytes t (u64 timestamp) ++ payload.

Lemma sys_segment_drop t ts p : drop 9 (sys_segment t ts p) = p.
Proof. apply drop_app_eq, length_segment_header. Qed.

Lemma sys_segment_type t ts p : Segment.type_ok t → Segment.header_type (sys_segment t ts p) = t.
Proof. apply header_type_bytes. Qed.

Lemma length_sys_segment t ts p : length (sys_segment t ts p) = (9 + length p)%nat.
Proof. unfold sys_segment. by rewrite length_app, length_segment_header. Qed.

Lemma set_abruptly_run {S} (e : env) (ms : Z) (s : S) :
  0 ≤ ms < 2 ^ 63 →
  Clock.setClockAbruptly e ms s =
    (Ret (settime_ok e), s, [SetTimeOfDay (mk_timeval (ms / 1000) ((ms `mod` 1000) * 1000))]).
Proof.
  intros Hms. unfold Clock.setClockAbruptly. rewrite u64_small by (unfold is_u; lia).
  pose proof (Z.mod_pos_bound ms 1000 ltac:(lia)).
  assert (0 ≤ ms / 1000 ≤ ms).
  { split; [apply Z.div_pos; lia|]. apply Z.div_le_upper_bound; lia. }
  rewrite !i64_small by lia. done.
Qed.

Lemma shifted_exact (tv : timeval) (offset_ms : Z) :
  timeval_ok tv →
  timeval_ok (Clock.shifted tv offset_ms) ∧
  timeval_us (Clock.shifted tv offset_ms) = timeval_us tv + offset_ms * 1000.
Proof.
  unfold timeval_ok, Clock.shifted, timeval_us. intros Htv.
  pose proof (Z.quot_rem' offset_ms 1000) as Hqr.
  assert (-1000 < Z.rem offset_ms 1000 < 1000) as Hr.
  { pose proof (Z.rem_bound_abs offset_ms 1000 ltac:(lia)). lia. }
  set (q := Z.quot offset_ms 1000) in *. set (r := Z.rem offset_ms 1000) in *.
  case_decide; [simpl; lia|]. case_decide; simpl; lia.
Qed.

(** [setClockOffset] moves the clock by exactly the offset: from the
    normalised time [gettimeofday] returns it sets the normalised time
    [offset_ms] milliseconds later (earlier when negative), whatever the sign
    and the carry, and reports whether [settimeofday] succeeded. *)
Theorem clock_offset_exact {S} (e : env) (tv : timeval) (offset_ms : Z) (s : S) :
  timeval_ok tv →
  ∃ tv', Clock.setClockOffset e (Some tv) offset_ms s =
           (Ret (settime_ok e), s, [SetTimeOfDay tv']) ∧
         timeval_ok tv' ∧ timeval_us tv' = timeval_us tv + offset_ms * 1000.
Proof.
  intros Htv. exists (Clock.shifted tv offset_ms). split; [done|]. by apply shifted_exact.
Qed.

Lemma clock_offset_exact_witness :
  ∃ tv', Clock.setClockOffset (mk_env (λ _, 0) true) (Some (mk_timeval 10 500)) (-1) tt =
           (Ret true, tt, [SetTimeOfDay tv']) ∧ timeval_us tv' = 9999500.
Proof.
  destruct (clock_offset_exact (mk_env (λ _, 0) true) (mk_timeval 10 500) (-1) tt
              ltac:(unfold timeval_ok; simpl; lia)) as (tv' & Hrun & _ & Hus).
  exists tv'. split; [exact Hrun|]. rewrite Hus. reflexivity.
Defined.
