(* ===== verification/Calendar.v ===== *)
(** Times as text: [getCurrentTimeString] and [getFormattedTimestamp] of
    [api/utils/clock.hpp], with the calendar of [localtime_r] and the format of
    [std::put_time] they use. *)
From Stdlib Require Import Ascii.
From Stdlib Require String.
From S2P Require Import Prelude.
Local Open Scope Z_scope.

(** ** The Gregorian calendar

    [localtime_r] splits a number of seconds since 1970 into days and a time of
    day, and the days into a date.  Years are counted from March, in eras of
    400 years (146097 days). *)
Record tm := mk_tm {
  tm_year : Z;    (* the year itself *)
  tm_mon : Z;     (* 1 to 12 *)
  tm_mday : Z;
  tm_hour : Z;
  tm_min : Z;
  tm_sec : Z
}.

Definition centuries (doe : Z) : Z := Z.min (doe / 36524) 3.
Definition cycles (doe : Z) : Z := Z.min ((doe - 36524 * centuries doe) / 1461) 24.
Definition years (doe : Z) : Z := Z.min ((doe - 36524 * centuries doe - 1461 * cycles doe) / 365) 3.
Definition year_of_era (doe : Z) : Z := 100 * centuries doe + 4 * cycles doe + years doe.
Definition day_of_year (doe : Z) : Z :=
  doe - 36524 * centuries doe - 1461 * cycles doe - 365 * years doe.

(** Month (from March) and day of the month of a day of such a year. *)
Definition month_of_day (doy : Z) : Z := (5 * doy + 2) / 153.
Definition month (mp : Z) : Z := if decide (mp < 10) then mp + 3 else mp - 9.
Definition mday (doy : Z) : Z := doy - (153 * month_of_day doy + 2) / 5 + 1.

Definition civil_of_days (days : Z) : Z * Z * Z :=
  let z := days + 719468 in
  let doe := z `mod` 146097 in
  let doy := day_of_year doe in
  let m := month (month_of_day doy) in
  (year_of_era doe + z / 146097 * 400 + (if decide (m ≤ 2) then 1 else 0), m, mday doy).

(** The seconds a calendar time stands for: what [timegm] computes. *)
Definition days_of_civil (date : Z * Z * Z) : Z :=
  let '(y, m, d) := date in
  let y := if decide (m ≤ 2) then y - 1 else y in
  let yoe := y `mod` 400 in
  let mp := if decide (2 < m) then m - 3 else m + 9 in
  let doy := (153 * mp + 2) / 5 + d - 1 in
  y / 400 * 146097 + (365 * yoe + yoe / 4 - yoe / 100 + doy) - 719468.

(** [offset t] is the zone's distance from UTC at time [t], in seconds. *)
Definition localtime_r (offset : Z → Z) (t : Z) : tm :=
  let l := t + offset t in
  let '(y, m, d) := civil_of_days (l / 86400) in
  let s := l `mod` 86400 in
  mk_tm y m d (s / 3600) ((s / 60) `mod` 60) (s `mod` 60).
Definition seconds_of (x : tm) : Z :=
  days_of_civil (tm_year x, tm_mon x, tm_mday x) * 86400 + tm_hour x * 3600 + tm_min x * 60 + tm_sec x.

Definition leap (y : Z) : bool :=
  bool_decide (y `mod` 4 = 0) && (negb (bool_decide (y `mod` 100 = 0)) || bool_decide (y `mod` 400 = 0)).
Definition days_in (y m : Z) : Z :=
  if decide (m = 2) then (if leap y then 29 else 28)
  else if bool_decide (m = 4) || bool_decide (m = 6) || bool_decide (m = 9) || bool_decide (m = 11) then 30 else 31.
Definition date_ok (date : Z * Z * Z) : Prop :=
  let '(y, m, d) := date in 1 ≤ m ≤ 12 ∧ 1 ≤ d ≤ days_in y m.

(** ** Dates and days *)

(** Divisions by constants are for [lia]. *)
#[local] Ltac Zify.zify_post_hook ::= Z.to_euclidean_division_equations.

Lemma year_of_era_spec doe :
  0 ≤ doe < 146097 →
  0 ≤ year_of_era doe < 400 ∧ 0 ≤ day_of_year doe ≤ 365 ∧
  doe = 365 * year_of_era doe + year_of_era doe / 4 - year_of_era doe / 100 + day_of_year doe ∧
  (day_of_year doe = 365 → leap (year_of_era doe + 1) = true).
Proof.
  intros Hd. unfold year_of_era, day_of_year, years, cycles, centuries.
  set (c := Z.min (doe / 36524) 3). assert (0 ≤ c ≤ 3 ∧ 0 ≤ doe - 36524 * c < 36525 ∧
    (c < 3 → doe - 36524 * c < 36524)) as (Hc & Hr1 & Hr1') by (unfold c; lia).
  set (r1 := doe - 36524 * c) in *. set (q := Z.min (r1 / 1461) 24).
  assert (0 ≤ q ≤ 24 ∧ 0 ≤ r1 - 1461 * q < 1461 ∧ (q = 24 → c < 3 → r1 - 1461 * q < 1460))
    as (Hq & Hr2 & Hr2') by (unfold q; lia).
  set (r2 := r1 - 1461 * q) in *. set (y := Z.min (r2 / 365) 3).
  assert (0 ≤ y ≤ 3 ∧ 0 ≤ r2 - 365 * y ≤ 365 ∧ (r2 - 365 * y = 365 → y = 3)) as (Hy & Hr3 & Hr3')
    by (unfold y; lia).
  split; [lia|]. split; [lia|]. split.
  - assert ((100 * c + 4 * q + y) / 4 = 25 * c + q) as -> by lia.
    assert ((100 * c + 4 * q + y) / 100 = c) as -> by lia. unfold r2, r1. lia.
  - intros H365. specialize (Hr3' H365). unfold leap. apply andb_true_iff.
    split; [apply bool_decide_true; lia|]. apply orb_true_iff.
    destruct (decide (q = 24)) as [Hq24|]; [right|left; rewrite bool_decide_false by lia; done].
    apply bool_decide_true. assert (c = 3) as -> by lia. lia.
Qed.

(** Every day of a year, checked: its month, and the day of the month. *)
Definition day_good (doy : Z) : bool :=
  let m := month (month_of_day doy) in
  (0 <=? month_of_day doy) && (month_of_day doy <? 12) && (1 <=? mday doy) &&
  (mday doy <=? (if decide (doy = 365) then 29 else if decide (m = 2) then 28 else days_in 1 m)).
Lemma days_good : forallb day_good (seqZ 0 366) = true.
Proof. vm_compute. reflexivity. Qed.
Lemma month_of_day_spec doy :
  0 ≤ doy ≤ 365 →
  let mp := month_of_day doy in
  0 ≤ mp < 12 ∧ 1 ≤ mday doy ∧ (doy = 365 → mp = 11 ∧ mday doy = 29) ∧
  (doy ≠ 365 → mday doy ≤ if decide (month mp = 2) then 28 else days_in 1 (month mp)).
Proof.
  intros Hd mp. pose proof days_good as Hall. rewrite forallb_forall in Hall.
  specialize (Hall doy). rewrite <- list_elem_of_In, elem_of_seqZ in Hall. specialize (Hall ltac:(lia)).
  unfold day_good in Hall. fold mp in Hall. rewrite !andb_true_iff in Hall.
  destruct Hall as [[[H1 H2] H3] H4]. split; [lia|]. split; [lia|]. split.
  - intros ->. by vm_compute.
  - intros Hne. rewrite decide_False in H4 by done. lia.
Qed.

Lemma month_spec mp :
  0 ≤ mp < 12 →
  1 ≤ month mp ≤ 12 ∧ (if decide (2 < month mp) then month mp - 3 else month mp + 9) = mp.
Proof. intros Hm. unfold month. repeat case_decide; lia. Qed.

(** The date of a day is a date, and its day is that day. *)
Lemma civil_days z : days_of_civil (civil_of_days z) = z ∧ date_ok (civil_of_days z).
Proof.
  unfold civil_of_days. set (n := z + 719468). set (doe := n `mod` 146097).
  assert (0 ≤ doe < 146097) as Hdoe by (apply Z.mod_pos_bound; lia).
  destruct (year_of_era_spec doe Hdoe) as (Hy & Hd & Heq & Hleap).
  destruct (month_of_day_spec (day_of_year doe) Hd) as (Hm & Hmd & H365 & Hne).
  set (y := year_of_era doe) in *. set (doy := day_of_year doe) in *. set (mp := month_of_day doy) in *.
  set (era := n / 146097). assert (n = 146097 * era + doe) as Hn by (apply Z.div_mod; lia).
  assert (mday doy = doy - (153 * mp + 2) / 5 + 1) as Hmday by done.
  assert (z = n - 719468) as Hz by (unfold n; ring). clearbody mp doy y era doe n.
  destruct (month_spec mp Hm) as [Hmonth Hback].
  split; [|split; [done|]; split; [done|]].
  - unfold days_of_civil.
    assert ((if decide (month mp ≤ 2)
             then y + era * 400 + (if decide (month mp ≤ 2) then 1 else 0) - 1
             else y + era * 400 + (if decide (month mp ≤ 2) then 1 else 0)) = y + era * 400) as ->
      by (destruct (decide (month mp ≤ 2)); lia).
    rewrite Hback.
    rewrite Z.mod_add, Z.div_add by lia. rewrite (Z.mod_small y), (Z.div_small y) by lia.
    assert ((153 * mp + 2) / 5 + mday doy - 1 = doy) as -> by (rewrite Hmday; ring). lia.
  - destruct (decide (doy = 365)) as [Hl|Hl].
    + destruct (H365 Hl) as [Hmp ->]. assert (month mp = 2) as Hm2 by (rewrite Hmp; done).
      rewrite Hm2, decide_True by lia. unfold days_in. rewrite decide_True by done.
      assert (leap (y + era * 400 + 1) = leap (y + 1)) as ->.
      { unfold leap. repeat f_equal; apply bool_decide_ext; lia. }
      rewrite Hleap by done. lia.
    + specialize (Hne Hl). unfold days_in in *. destruct (decide (month mp = 2)); [|lia].
      match goal with |- context [leap ?x] => destruct (leap x) end; lia.
Qed.

(** A time of day and a date are a number of seconds. *)
Lemma seconds_of_localtime offset t : seconds_of (localtime_r offset t) = t + offset t.
Proof.
  unfold localtime_r. set (l := t + offset t). destruct (civil_days (l / 86400)) as [Hd _].
  destruct (civil_of_days (l / 86400)) as [[y m] d]. unfold seconds_of. cbn [tm_year tm_mon tm_mday tm_hour tm_min tm_sec].
  rewrite Hd. clearbody l. clear Hd. lia.
Qed.

(** Times that a [system_clock::time_point] holds, in seconds, lie in the years
    1677 to 2262. *)
Lemma year_four_digits l :
  -9300000000 ≤ l ≤ 9300000000 → 1000 ≤ (civil_of_days (l / 86400)).1.1 < 10000.
Proof.
  intros Hl. unfold civil_of_days. set (n := l / 86400 + 719468).
  assert (611000 ≤ n ≤ 830000) as Hn by (unfold n; lia). clearbody n. clear Hl.
  destruct (year_of_era_spec (n `mod` 146097)) as (Hy & _ & _); [lia|]. simpl.
  set (y := year_of_era _) in *. clearbody y. destruct (decide (month _ ≤ 2)); lia.
Qed.

(** ** Text *)

Definition digit (d : Z) : ascii := ascii_of_nat (Z.to_nat (48 + d)).
Definition digit_value (c : ascii) : Z := Z.of_nat (nat_of_ascii c) - 48.

(** [z] in [n] decimal digits, with leading zeros; longer numbers do not occur. *)
Fixpoint decimal (n : nat) (z : Z) : list ascii :=
  match n with O => [] | S n => decimal n (z / 10) ++ [digit (z `mod` 10)] end.
Definition number (l : list ascii) : Z := foldl (λ a c, 10 * a + digit_value c) 0 l.

Lemma digit_value_digit d : 0 ≤ d < 10 → digit_value (digit d) = d.
Proof.
  intros Hd. unfold digit_value, digit. rewrite nat_ascii_embedding; lia.
Qed.
Lemma number_decimal n z : number (decimal n z) = z `mod` 10 ^ Z.of_nat n.
Proof.
  revert z. induction n as [|n IH]; intros z; [by rewrite Z.mod_1_r|]. simpl decimal.
  unfold number in *. rewrite foldl_app. simpl. rewrite IH, digit_value_digit by (apply Z.mod_pos_bound; lia).
  rewrite Nat2Z.inj_succ, Z.pow_succ_r by lia.
  rewrite (Z.rem_mul_r z 10 (10 ^ Z.of_nat n)) by lia. lia.
Qed.
Lemma length_decimal n z : length (decimal n z) = n.
Proof. revert z. induction n as [|n IH]; intros z; [done|]. simpl. rewrite length_app, IH. simpl. lia. Qed.

Definition char (s : string) : list ascii := String.list_ascii_of_string s.

(** [put_time(&tm, "%Y-%m-%d %H:%M:%S")]. *)
Definition put_time (x : tm) : list ascii :=
  decimal 4 (tm_year x) ++ char "-" ++ decimal 2 (tm_mon x) ++ char "-" ++ decimal 2 (tm_mday x) ++ char " " ++
  decimal 2 (tm_hour x) ++ char ":" ++ decimal 2 (tm_min x) ++ char ":" ++ decimal 2 (tm_sec x).

(** [setw(3) << setfill('0') << z]: the digits of [z], its sign before them, the
    fill on the left. *)
Definition digits_of (z : Z) : list ascii :=
  if decide (z < 10) then decimal 1 z else if decide (z < 100) then decimal 2 z else decimal 3 z.
Definition setw3 (l : list ascii) : list ascii := replicate (3 - length l) "0"%char ++ l.
Definition put_fraction (z : Z) : list ascii :=
  setw3 (if decide (z < 0) then char "-" ++ digits_of (- z) else digits_of z).

Section clock.
Context (offset : Z → Z).

(** [to_time_t] and [duration_cast] truncate towards zero. *)
Definition getCurrentTimeString (now_ns : Z) : string :=
  let t := Z.quot now_ns 1000000000 in
  let fractional_ms := Z.rem (Z.quot now_ns 1000000) 1000 in
  String.string_of_list_ascii (put_time (localtime_r offset t) ++ char "." ++ put_fraction fractional_ms).

(** [milliseconds(timestamp_ms)] is an [int64_t]; the time point counts
    nanoseconds in one, and the multiplication may overflow. *)
Definition getFormattedTimestamp (timestamp_ms : Z) : outcome string :=
  let duration_ms := i64 timestamp_ms in
  let ns := duration_ms * 1000000 in
  if decide (-2 ^ 63 ≤ ns < 2 ^ 63) then
    let t := Z.quot ns 1000000000 in
    let just_ms := timestamp_ms `mod` 1000 in
    Ret (String.string_of_list_ascii (put_time (localtime_r offset t) ++ char "." ++ put_fraction just_ms))
  else Undefined.
End clock.

(** Reading such a text: the milliseconds it stands for, as if in UTC. *)
Definition field (off len : nat) (l : list ascii) : Z := number (slice off len l).
Definition read_time (s : string) : Z :=
  let l := String.list_ascii_of_string s in
  seconds_of (mk_tm (field 0 4 l) (field 5 2 l) (field 8 2 l) (field 11 2 l) (field 14 2 l) (field 17 2 l)) * 1000
  + field 20 3 l.

(** ** Reading back what was printed *)

Lemma slice_decimal off len n z r :
  (n ≤ off)%nat → slice off len (decimal n z ++ r) = slice (off - n) len r.
Proof. intros Hk. unfold slice. rewrite drop_app_ge by (rewrite length_decimal; lia). by rewrite length_decimal. Qed.
Lemma slice_char off len c r : slice (S off) len (char (String c EmptyString) ++ r) = slice off len r.
Proof. done. Qed.
Lemma slice_here {A} len (l r : list A) : length l = len → slice 0 len (l ++ r) = l.
Proof. intros <-. unfold slice. rewrite drop_0. by rewrite take_app_length. Qed.

Lemma decimal_small n z : 0 ≤ z < 10 ^ Z.of_nat n → number (decimal n z) = z.
Proof. intros. rewrite number_decimal. by apply Z.mod_small. Qed.

(** The fields of the text. *)
Ltac to_field := unfold field;
  repeat first [ rewrite slice_here by (rewrite ?length_decimal; reflexivity)
               | rewrite slice_decimal by lia; cbn [Nat.sub] | rewrite slice_char ].

Lemma put_fraction_number z : 0 ≤ z < 1000 → length (put_fraction z) = 3%nat ∧ number (put_fraction z) = z.
Proof.
  intros Hz. unfold put_fraction, digits_of. rewrite decide_False by lia.
  assert (∀ n, number (replicate n "0"%char) = 0) as H0.
  { intros n. induction n as [|n IH]; [done|]. exact IH. }
  assert (∀ n k x, number (replicate n "0"%char ++ decimal k x) = number (decimal k x)) as Hpad.
  { intros n k x. unfold number. rewrite foldl_app. f_equal. apply H0. }
  unfold setw3. repeat case_decide; rewrite length_app, length_replicate, !length_decimal, Hpad, decimal_small by lia;
    split; lia.
Qed.

Lemma tm_eta x : mk_tm (tm_year x) (tm_mon x) (tm_mday x) (tm_hour x) (tm_min x) (tm_sec x) = x.
Proof. by destruct x. Qed.

Lemma local_fields offset t :
  -9200000000 ≤ t ≤ 9300000000 - 100000 → -100000 ≤ offset t ≤ 100000 →
  let x := localtime_r offset t in
  0 ≤ tm_year x < 10 ^ 4 ∧ 0 ≤ tm_mon x < 10 ^ 2 ∧ 0 ≤ tm_mday x < 10 ^ 2 ∧
  0 ≤ tm_hour x < 10 ^ 2 ∧ 0 ≤ tm_min x < 10 ^ 2 ∧ 0 ≤ tm_sec x < 10 ^ 2.
Proof.
  intros Ht Ho x. pose proof (year_four_digits (t + offset t) ltac:(lia)) as Hy.
  destruct (civil_days ((t + offset t) / 86400)) as [_ Hd].
  unfold x, localtime_r. destruct (civil_of_days _) as [[y m] d]. destruct Hd as [Hm Hd].
  assert (days_in y m ≤ 31) by (unfold days_in; repeat case_match; lia). simpl in *.
  set (l := t + offset t) in *. clearbody l. lia.
Qed.

(** The 23 characters, and what they stand for. *)
Lemma read_put_time offset t ms :
  -9200000000 ≤ t ≤ 9300000000 - 100000 → -100000 ≤ offset t ≤ 100000 → 0 ≤ ms < 1000 →
  let s := String.string_of_list_ascii (put_time (localtime_r offset t) ++ char "." ++ put_fraction ms) in
  String.length s = 23%nat ∧ read_time s = (t + offset t) * 1000 + ms.
Proof.
  intros Ht Ho Hms s. pose proof (local_fields offset t Ht Ho) as (Hy & Hm & Hd & Hh & Hmi & Hs).
  destruct (put_fraction_number ms Hms) as [Hfl Hfn].
  set (x := localtime_r offset t) in *.
  assert (String.list_ascii_of_string s = put_time x ++ char "." ++ put_fraction ms) as Hl
    by apply String.list_ascii_of_string_of_list_ascii.
  split.
  - assert (∀ r, String.length r = length (String.list_ascii_of_string r)) as Hlen.
    { intros r. induction r as [|c r IH]; simpl; [done|by rewrite IH]. }
    rewrite Hlen, Hl. unfold put_time. rewrite !length_app, !length_decimal, Hfl. done.
  - unfold read_time. rewrite Hl. unfold put_time. rewrite <- !app_assoc.
    assert (field 20 3 (decimal 4 (tm_year x) ++ char "-" ++ decimal 2 (tm_mon x) ++ char "-" ++
      decimal 2 (tm_mday x) ++ char " " ++ decimal 2 (tm_hour x) ++ char ":" ++ decimal 2 (tm_min x) ++
      char ":" ++ decimal 2 (tm_sec x) ++ char "." ++ put_fraction ms) = ms) as ->.
    { to_field. unfold slice. rewrite drop_0, take_ge by lia. done. }
    to_field. rewrite !decimal_small by done. rewrite tm_eta. unfold x. by rewrite seconds_of_localtime.
Qed.

(** A printed time can be read back. [getCurrentTimeString] writes 23
    characters that stand for the clock's milliseconds in the local zone;
    [getFormattedTimestamp] does the same for every timestamp up to
    9223372036854 milliseconds (the year 2262), and for larger ones up to
    2^63 - 1, which its comment calls safe, the conversion to a time point
    overflows. *)
Theorem clock_text_roundtrip (offset : Z → Z) :
  (∀ t, -100000 ≤ offset t ≤ 100000) →
  (∀ now_ns, 0 ≤ now_ns < 2 ^ 63 →
     let s := getCurrentTimeString offset now_ns in
     String.length s = 23%nat ∧ read_time s = now_ns / 1000000 + 1000 * offset (now_ns / 1000000000)) ∧
  (∀ ms, 0 ≤ ms ≤ 9223372036854 →
     ∃ s, getFormattedTimestamp offset ms = Ret s ∧ String.length s = 23%nat ∧
          read_time s = ms + 1000 * offset (ms / 1000)) ∧
  (∀ ms, 9223372036854 < ms < 2 ^ 63 → getFormattedTimestamp offset ms = Undefined).
Proof.
  intros Hoff. split; [|split].
  - intros now Hnow s. unfold s, getCurrentTimeString.
    rewrite !Z.quot_div_nonneg, Z.rem_mod_nonneg by lia.
    destruct (read_put_time offset (now / 1000000000) ((now / 1000000) `mod` 1000)) as [Hl Hr]; [lia|apply Hoff|lia|].
    split; [done|]. rewrite Hr. set (o := offset _). clearbody o. lia.
  - intros ms Hms. unfold getFormattedTimestamp. rewrite i64_small by lia. rewrite decide_True by lia.
    eexists. split; [done|].
    rewrite Z.quot_div_nonneg by lia.
    assert (ms * 1000000 / 1000000000 = ms / 1000) as -> by lia.
    destruct (read_put_time offset (ms / 1000) (ms `mod` 1000)) as [Hl Hr]; [lia|apply Hoff|lia|].
    split; [done|]. rewrite Hr. set (o := offset _). clearbody o. lia.
  - intros ms Hms. unfold getFormattedTimestamp. rewrite i64_small by lia. by rewrite decide_False by lia.
Qed.

Lemma clock_text_roundtrip_witness :
  getFormattedTimestamp (λ _, -10800) 1761680712123 = Ret "2025-10-28 16:45:12.123"%string ∧
  read_time "2025-10-28 16:45:12.123" = 1761680712123 - 10800000.
Proof.
  destruct (clock_text_roundtrip (λ _, -10800)) as (_ & H & _); [intros; lia|].
  destruct (H 1761680712123) as (s & Hs & _ & Hr); [lia|].
  assert (s = "2025-10-28 16:45:12.123"%string) as -> by (vm_compute in Hs; congruence).
  split; [exact Hs|exact Hr].
Defined.
