(* ===== verification/Debug.v ===== *)
(** What the program prints about frames and values: [api/utils/
    protocol_utils.cpp], latency packets, and the [print_bits] of [api/network/communicator.hpp]
    and [handlers/teds_handler.hpp].  A text is a list of characters; the
    output is the text a call sends to [std::cout] and [printf], which share
    one buffer. *)
From Stdlib Require Import Ascii.
From Stdlib Require String.
From stdpp Require Import pretty.
From S2P Require Import Prelude Ethernet Packet Calendar.
Local Open Scope Z_scope.

Notation text := (list ascii).
Definition endl : text := [ascii_of_nat 10].
Definition dec (z : Z) : text := char (pretty z).

(** [std::bitset<8>(byte)]: the most significant bit first. *)
Definition bit (b : bool) : ascii := if b then "1"%char else "0"%char.
Definition bitset8 (b : Z) : text := (λ i, bit (Z.testbit b i)) <$> [7; 6; 5; 4; 3; 2; 1; 0].

(** [print_bits] of a value: the bytes of its object; of a vector: its elements
    as [unsigned char]. *)
Definition print_label (label : text) : text := match label with [] => [] | _ => label ++ char " " end.
Definition bit_list (bytes : list Z) : text := bytes ≫= λ b, bitset8 b ++ char " ".
Definition print_bits (bytes : list Z) (label : text) : text :=
  print_label label ++ bit_list bytes ++ endl.
Definition print_bits_vector (buffer : list Z) (label : text) : text :=
  match buffer with
  | [] => print_label label ++ char "[EMPTY]" ++ endl
  | _ => print_label label ++ bit_list (u8 <$> buffer) ++ endl
  end.

(** [to_string] and [operator<<] of [definitions/latency_test.hpp]; [PING] is 1
    and [ECHO] is 2. *)
Definition latency_type (type : Z) : text :=
  if decide (type = 1) then char "PING" else if decide (type = 2) then char "ECHO" else char "UNDEFINED".
Definition latency_packet (type sender_id timestamp : Z) : text :=
  char "[Type]: " ++ latency_type type ++ endl ++
  char "[Sender ID]: " ++ dec sender_id ++ endl ++
  char "[Timestamp]: " ++ dec timestamp ++ char " ns" ++ endl.

Section frames.
(** [log_receiving] and [debug_frame] take a buffer, which may be null. *)
Definition log_receiving (buf : option Frame) : text :=
  match buf with
  | None => []
  | Some f =>
      char "--------- Protocol Frame Received ---------" ++ endl ++
      char " data_len=" ++ dec (data_length f) ++
      char " source port=" ++ dec (Packet.sport (fdata f)) ++
      char " destination port=" ++ dec (Packet.dport (fdata f)) ++ endl
  end.

(** [printf("%02x", byte)], separated by colons. *)
Definition hex2 (b : Z) : text := char (hex_byte b).
Fixpoint print_mac (bytes : list Z) : text :=
  match bytes with
  | [] => []
  | [b] => hex2 b
  | b :: bytes => hex2 b ++ char ":" ++ print_mac bytes
  end.
Definition debug_buffer (buf : option Frame) : text :=
  match buf with
  | None => []
  | Some f =>
      char "[Protocol] Receiving frame: data_len=" ++ dec (data_length f) ++
      char " sport=" ++ dec (Packet.sport (fdata f)) ++
      char " dport=" ++ dec (Packet.dport (fdata f)) ++ endl ++
      char "[Protocol] SMAC=" ++ print_mac (addr (shost f)) ++
      char " DMAC=" ++ print_mac (addr (dhost f)) ++ endl
  end.

Definition hex4 (z : Z) : text := hex2 (z / 256) ++ hex2 (z `mod` 256).
Definition sample (bytes : list Z) : text := bytes ≫= λ b, hex2 b ++ char " ".
Definition frame_head (f : Frame) : text :=
  char "--- Ethernet Frame Debug ---" ++ endl ++
  char "  Destination MAC: " ++ char (mac_to_string (dhost f)) ++ endl ++
  char "  Source MAC:      " ++ char (mac_to_string (shost f)) ++ endl ++
  char "  EtherType:       0x" ++ hex4 (ntohs (ftype f)) ++ endl ++
  char "  Data Length:     " ++ dec (data_length f) ++ char " bytes" ++ endl.
Definition debug_frame (f : Frame) : text :=
  let bytes_to_print := Z.to_nat (Z.min 16 (data_length f)) in
  frame_head f ++
  (if decide (0 < bytes_to_print)%nat
   then char "  Payload Sample:  " ++ sample (take bytes_to_print (fdata f)) ++ endl else []) ++
  char "----------------------------" ++ endl.
End frames.

(** ** Reading it back *)

Definition bit_value (c : ascii) : Z := if decide (c = "1"%char) then 1 else 0.
Definition read_bits (l : text) : Z := foldl (λ a c, 2 * a + bit_value c) 0 l.
Definition hex_value (c : ascii) : Z :=
  let n := Z.of_nat (nat_of_ascii c) in if decide (n < 58) then n - 48 else n - 87.
Definition read_hex (l : text) : Z := foldl (λ a c, 16 * a + hex_value c) 0 l.

(** Records of [w] characters and a separator. *)
Fixpoint read_records (read : text → Z) (w n : nat) (l : text) : list Z :=
  match n with O => [] | S n => read (take w l) :: read_records read w n (drop (S w) l) end.

Definition bytes_256 : list Z := seqZ 0 256.
Lemma byte_cases (P : Z → bool) b : byte_ok b → forallb P bytes_256 = true → P b = true.
Proof.
  intros Hb Hall. rewrite forallb_forall in Hall. apply Hall, list_elem_of_In, elem_of_seqZ. lia.
Qed.
Lemma read_bitset8 b : byte_ok b → read_bits (bitset8 b) = b.
Proof.
  intros Hb. apply (byte_cases (λ b, bool_decide (read_bits (bitset8 b) = b))) in Hb; [|vm_compute; reflexivity].
  by apply bool_decide_eq_true in Hb.
Qed.
Lemma read_hex2 b : byte_ok b → read_hex (hex2 b) = b ∧ length (hex2 b) = 2%nat.
Proof.
  intros Hb. apply (byte_cases (λ b, bool_decide (read_hex (hex2 b) = b ∧ length (hex2 b) = 2%nat))) in Hb;
    [|vm_compute; reflexivity].
  by apply bool_decide_eq_true in Hb.
Qed.

Lemma read_records_bind (read : text → Z) (f : Z → text) w sep bytes rest :
  (∀ b, b ∈ bytes → length (f b) = w ∧ read (f b) = b) →
  read_records read w (length bytes) ((bytes ≫= λ b, f b ++ [sep]) ++ rest) = bytes.
Proof.
  induction bytes as [|b bytes IH]; intros Hf; [done|].
  destruct (Hf b) as [Hl Hr]; [set_solver|]. simpl. rewrite <- !app_assoc.
  rewrite take_app_le, take_ge, Hr by lia. f_equal.
  rewrite drop_app_ge by lia. replace (S w - length (f b))%nat with 1%nat by lia.
  simpl. rewrite drop_0. apply IH. intros b' Hb'. apply Hf. set_solver.
Qed.

Lemma char_app a b : char (a +:+ b) = char a ++ char b.
Proof.
  unfold char. induction a as [|x a IH]; [done|].
  change (x :: String.list_ascii_of_string (a +:+ b) = x :: (String.list_ascii_of_string a ++ String.list_ascii_of_string b)).
  by rewrite IH.
Qed.
(** [printf] and [operator<<] write an address alike. *)
Lemma print_mac_hex bytes : print_mac bytes = char (hex_bytes bytes).
Proof.
  induction bytes as [|b [|b' bytes] IH]; [done|done|].
  change (hex2 b ++ char ":" ++ print_mac (b' :: bytes) = char (hex_byte b +:+ ":" +:+ hex_bytes (b' :: bytes))).
  by rewrite IH, !char_app.
Qed.
Lemma read_hex_app l l' : length l' = 2%nat → read_hex (l ++ l') = 256 * read_hex l + read_hex l'.
Proof.
  intros Hl. destruct l' as [|c [|d [|]]]; try done. unfold read_hex. rewrite foldl_app. simpl.
  lia.
Qed.
Lemma read_hex4 z : is_u 16 z → read_hex (hex4 z) = z.
Proof.
  intros Hz. unfold hex4, is_u in *. pose proof (Z.mod_pos_bound z 256).
  assert (0 ≤ z / 256 < 256) by (split; [apply Z.div_pos; lia|apply Z.div_lt_upper_bound; lia]).
  destruct (read_hex2 (z / 256)) as [Hh _]; [lia|]. destruct (read_hex2 (z `mod` 256)) as [Hl Hn]; [lia|].
  rewrite read_hex_app, Hh, Hl by done. pose proof (Z.div_mod z 256). lia.
Qed.

Lemma bits_records bytes rest :
  bytes_ok bytes → read_records read_bits 8 (length bytes) (bit_list bytes ++ rest) = bytes.
Proof.
  intros Hb. apply (read_records_bind read_bits bitset8 8 " "%char). intros b Hb'.
  split; [done|]. apply read_bitset8. rewrite Forall_forall in Hb. by apply Hb.
Qed.
Lemma hex_records bytes rest :
  bytes_ok bytes → read_records read_hex 2 (length bytes) (sample bytes ++ rest) = bytes.
Proof.
  intros Hb. apply (read_records_bind read_hex hex2 2 " "%char). intros b Hb'.
  rewrite Forall_forall in Hb. destruct (read_hex2 b) as [Hh Hl]; [by apply Hb|]. by rewrite Hl.
Qed.

(** What is printed for debugging can be read back. After its label,
    [print_bits] writes the bytes of the value, in order; [debug_frame] writes
    the EtherType in host order, and, when the frame holds data, its first
    bytes up to 16, never more than it holds; and a frame's addresses look the
    same in both dumps. *)
Theorem dumps_read_back (f : Frame) (bytes : list Z) (label : text) :
  bytes_ok bytes → bytes_ok (fdata f) → is_u 16 (ftype f) →
  0 ≤ data_length f ≤ Z.of_nat (length (fdata f)) →
  let n := Nat.min 16 (Z.to_nat (data_length f)) in
  read_records read_bits 8 (length bytes) (drop (length (print_label label)) (print_bits bytes label)) = bytes ∧
  (bytes ≠ [] → print_bits_vector bytes label = print_bits bytes label) ∧
  read_hex (hex4 (ntohs (ftype f))) = ntohs (ftype f) ∧
  (0 < data_length f →
   read_records read_hex 2 n (drop (length (frame_head f ++ char "  Payload Sample:  ")) (debug_frame f))
   = take 16 (take (Z.to_nat (data_length f)) (fdata f))) ∧
  print_mac (addr (shost f)) = char (mac_to_string (shost f)).
Proof.
  intros Hb Hf Ht Hd n. split; [|split; [|split; [|split]]].
  - unfold print_bits. rewrite drop_app_length. by apply bits_records.
  - intros Hne. unfold print_bits_vector, print_bits. destruct bytes as [|b bs]; [done|].
    assert (u8 <$> b :: bs = b :: bs) as ->; [|done]. clear -Hb.
    induction Hb as [|x l Hx _ IH]; [done|]. rewrite fmap_cons, u8_small by done. by f_equal.
  - apply read_hex4. unfold ntohs, htons, is_u in *. pose proof (Z.mod_pos_bound (ftype f) 256).
    pose proof (Z.mod_pos_bound (ftype f / 256) 256). lia.
  - intros Hpos. rewrite take_take. change (Nat.min 16 (Z.to_nat (data_length f))) with n.
    assert (debug_frame f = (frame_head f ++ char "  Payload Sample:  ") ++
      (sample (take n (fdata f)) ++ (endl ++ char "----------------------------" ++ endl))) as ->.
    { unfold debug_frame. rewrite decide_True by lia.
      replace (Z.to_nat (Z.min 16 (data_length f))) with n by lia. by rewrite <- !app_assoc. }
    rewrite drop_app_length.
    assert (length (take n (fdata f)) = n) as Hl by (rewrite length_take; lia).
    rewrite <- Hl at 1. by apply hex_records, Forall_take.
  - apply print_mac_hex.
Qed.

Definition debug_example : Frame := mk_Frame BROADCAST_ADDR MAC_default 0xb588 [171; 1] 2.
Lemma dumps_read_back_witness :
  print_bits [5; 128] (char "type") = char "type 00000101 10000000 " ++ endl ∧
  print_mac (addr (shost debug_example)) = char "00:00:00:00:00:00" ∧
  read_records read_hex 2 2 (drop (length (frame_head debug_example ++ char "  Payload Sample:  "))
    (debug_frame debug_example)) = [171; 1].
Proof.
  split; [reflexivity|]. split; [reflexivity|].
  assert (bytes_ok [171; 1]) as Hb by (repeat constructor; lia).
  exact (proj1 (proj2 (proj2 (proj2 (dumps_read_back debug_example [] [] ltac:(constructor) Hb ltac:(done) ltac:(done)))))
    ltac:(done)).
Defined.
