(* ===== verification/Ptp.v ===== *)
(** Clock synchronisation: [ptp/slave_synchronizer.hpp],
    [ptp/master_synchronizer.hpp], [ptp/ptp_timer_thread.hpp].  A handler is a
    computation on the synchroniser's state whose effects are the calls it makes. *)
From S2P Require Import Prelude Ethernet Packet Clock.
Local Open Scope Z_scope.

Module Slave.
Inductive State := SYNCHRONIZED | AWAITING_SYNC | AWAITING_DELAY_RESP.
#[global] Instance State_eq_dec : EqDecision State.
Proof. solve_decision. Defined.

Record t := mk { t1 : Z; t2 : Z; t3 : Z; t4 : Z; state : State }.
#[global] Instance t_eq_dec : EqDecision t.
Proof. solve_decision. Defined.

Definition start : t := mk 0 0 0 0 SYNCHRONIZED.

Definition set_state (q : State) (s : t) : t := mk (t1 s) (t2 s) (t3 s) (t4 s) q.

(** The clock offset from the four timestamps; C++ division truncates. *)
Definition offset (s : t) : Z :=
  Z.quot (i64 (i64 (i64 (t2 s) - i64 (t1 s)) - i64 (i64 (t4 s) - i64 (t3 s)))) 2.

Definition send_delay_req (e : env) (my_address master_address : Address) : M t call unit :=
  let t3 := u64 (Clock.getCurrentTimeMillis (clock e 1%nat)) in
  _ ← modify (λ s, mk (t1 s) (t2 s) t3 (t4 s) (state s));
  emit (Send my_address master_address
          (sys_segment Segment.PTP t3 (TimePayload.header_bytes TimePayload.DELAY_REQUEST))).

Definition receive_sync (e : env) (payload : list Z) (source_address dest_address : Address)
    : M t call unit :=
  q ← gets state;
  if decide (q ≠ AWAITING_SYNC) then throw "Slave was not waiting for SYNC" else
  _ ← modify (λ s, mk (TimePayload.payload_ts payload)
                      (u64 (Clock.getCurrentTimeMillis (clock e 0%nat))) (t3 s) (t4 s) (state s));
  _ ← modify (set_state AWAITING_DELAY_RESP);
  send_delay_req e dest_address source_address.

Definition synchronize (e : env) : M t call unit :=
  off ← gets offset;
  _ ← modify (λ s, mk 0 0 0 0 (state s));
  let current_local_time_ms := Clock.getCurrentTimeMillis (clock e 0%nat) in
  let true_master_time_ms := i64 (current_local_time_ms - off) in
  adjusted ← Clock.setClockAbruptly e true_master_time_ms;
  if negb adjusted then throw "Failed to adjust clock skew" else mret tt.

Definition receive_delay_resp (e : env) (payload : list Z) : M t call unit :=
  q ← gets state;
  if decide (q ≠ AWAITING_DELAY_RESP) then throw "Slave was not waiting for DELAY_RESP" else
  _ ← modify (λ s, mk (t1 s) (t2 s) (t3 s) (TimePayload.payload_ts payload) (state s));
  _ ← synchronize e;
  modify (set_state SYNCHRONIZED).

(** [size] is the payload size the protocol passes, not the region's length. *)
Definition handle_ptp_message (e : env) (payload : list Z) (size : Z)
    (source_address dest_address : Address) : M t call unit :=
  if decide (size < TimePayload.HEADER_SIZE)
  then throw "PTP payload is too small to contain a header." else
  match TimePayload.header_type payload with
  | TimePayload.SYNC =>
      if decide (size < TimePayload.SYNC_SIZE) then throw "PTP SYNC payload size mismatch."
      else receive_sync e payload source_address dest_address
  | TimePayload.DELAY_RESPONSE =>
      if decide (size < TimePayload.DELAY_RESP_SIZE) then throw "PTP DELAY_RESP payload size mismatch."
      else receive_delay_resp e payload
  | TimePayload.DELAY_REQUEST => mret tt
  | TimePayload.START => mret tt
  | TimePayload.OTHER _ => throw "Unknown SyncType received when handling PTP message"
  end.

Definition request_synchronization (e : env) (my_address : Address) : M t call unit :=
  q ← gets state;
  if decide (q = SYNCHRONIZED) then
    _ ← modify (set_state AWAITING_SYNC);
    emit (Send my_address (Address_broadcast 0)
            (sys_segment Segment.PTP (Clock.getCurrentTimeMillis (clock e 0%nat))
               (TimePayload.header_bytes TimePayload.START)))
  else mret tt.
End Slave.

Module Master.
Definition receive_start (e : env) (external_address source_address : Address) : M unit call unit :=
  let ts := u64 (Clock.getCurrentTimeMillis (clock e 0%nat)) in
  emit (Send external_address source_address
          (sys_segment Segment.PTP ts (TimePayload.ts_bytes TimePayload.SYNC ts))).

Definition receive_delay_req (e : env) (external_address source_address : Address) : M unit call unit :=
  let ts := u64 (Clock.getCurrentTimeMillis (clock e 0%nat)) in
  emit (Send external_address source_address
          (sys_segment Segment.PTP ts (TimePayload.ts_bytes TimePayload.DELAY_RESPONSE ts))).

Definition handle_ptp_message (e : env) (external_address : Address) (payload : list Z) (size : Z)
    (source_address dest_address : Address) : M unit call unit :=
  if decide (size < TimePayload.HEADER_SIZE)
  then throw "PTP payload is too small to contain a header." else
  match TimePayload.header_type payload with
  | TimePayload.START =>
      if decide (size < TimePayload.START_SIZE) then throw "PTP Start payload size mismatch."
      else receive_start e external_address source_address
  | TimePayload.DELAY_REQUEST =>
      if decide (size < TimePayload.DELAY_REQ_SIZE) then throw "PTP DELAY_REQ payload size mismatch."
      else receive_delay_req e external_address source_address
  | TimePayload.DELAY_RESPONSE => mret tt
  | TimePayload.SYNC => mret tt
  | TimePayload.OTHER _ => throw "Unknown SyncType received when handling PTP message"
  end.

(** Empty for masters. *)
Definition request_synchronization (my_address : Address) : M unit call unit := mret tt.
End Master.

(** [PtpTimerThread::start]: a first request, then one per round of the loop.
    A round reads [_running] before and after its sleep. *)
Module Timer.
Fixpoint loop (rounds : list (bool * bool * env)) (my_address : Address) : M Slave.t call unit :=
  match rounds with
  | [] => mret tt
  | (before, after, e) :: rounds =>
      if negb before then mret tt
      else if negb after then mret tt
      else _ ← Slave.request_synchronization e my_address; loop rounds my_address
  end.
Definition thread (e : env) (rounds : list (bool * bool * env)) (my_address : Address)
    : M Slave.t call unit :=
  _ ← Slave.request_synchronization e my_address; loop rounds my_address.
End Timer.

(** ** A complete exchange

    Master and slave run their handlers on the bytes the other sent. *)

Definition at_ms (t t' : Z) (ok : bool) : env :=
  mk_env (λ i, (match i with O => t | _ => t' end) * 1000000) ok.

(** Hand the payload of the one segment sent to the receiver's handler. *)
Definition deliver {S} (r : outcome unit * S * list call)
    (h : list Z → Z → Address → Address → M S call unit) : outcome unit * S * list call :=
  match r with
  | (Ret _, s, [Send from to bytes]) =>
      h (drop 9 bytes) (Z.of_nat (length bytes) - 9) from to s
  | r => r
  end.

(** Times are the master's; the slave's clock is [theta] ahead. START reaches
    the master at [a]; SYNC takes [d1]; the slave answers after [p]; DELAY_REQ
    takes [d2]; DELAY_RESP is handled at [b]. *)
Definition exchange (theta a d1 p d2 b : Z) (ok : bool) (maddr saddr : Address) (s : Slave.t)
    : outcome unit * Slave.t * list call :=
  match Slave.request_synchronization (at_ms (a + theta) 0 ok) saddr s with
  | (Ret _, s, c0) =>
    match deliver (Ret tt, tt, c0) (Master.handle_ptp_message (at_ms a a ok) maddr) with
    | (Ret _, _, c1) =>
      match deliver (Ret tt, s, c1)
              (Slave.handle_ptp_message (at_ms (a + d1 + theta) (a + d1 + p + theta) ok)) with
      | (Ret _, s, c2) =>
        match deliver (Ret tt, tt, c2)
                (Master.handle_ptp_message (at_ms (a + d1 + p + d2) 0 ok) maddr) with
        | (Ret _, _, c3) =>
            deliver (Ret tt, s, c3) (Slave.handle_ptp_message (at_ms (b + theta) 0 ok))
        | (o, _, cs) => (o, s, cs)
        end
      | (o, s, cs) => (o, s, cs)
      end
    | (o, _, cs) => (o, s, cs)
    end
  | r => r
  end.

(** What can reach a slave; the protocol catches the exceptions. *)
Inductive event :=
  | Request (e : env) (my_address : Address)
  | Message (e : env) (payload : list Z) (size : Z) (from to : Address).

Definition handle_event (ev : event) : M Slave.t call unit :=
  match ev with
  | Request e a => Slave.request_synchronization e a
  | Message e p n f t => try_catch (Slave.handle_ptp_message e p n f t) (λ _, mret tt)
  end.
Fixpoint handle_events (evs : list event) : M Slave.t call unit :=
  match evs with [] => mret tt | ev :: evs => _ ← handle_event ev; handle_events evs end.

(** A message of the given type. *)
Definition is_type (t : TimePayload.SyncType) (ev : event) : Prop :=
  match ev with Message _ p _ _ _ => TimePayload.header_type p = t | Request _ _ => False end.

(** ** Lemmas *)

Lemma at_ms_fst t t' ok : Clock.getCurrentTimeMillis (clock (at_ms t t' ok) 0%nat) = t.
Proof. unfold Clock.getCurrentTimeMillis; simpl. by apply Z.quot_mul. Qed.
Lemma at_ms_snd t t' ok : Clock.getCurrentTimeMillis (clock (at_ms t t' ok) 1%nat) = t'.
Proof. unfold Clock.getCurrentTimeMillis; simpl. by apply Z.quot_mul. Qed.

Lemma time_header_ts t ts :
  (match t with TimePayload.OTHER _ => False | _ => True end) →
  TimePayload.header_type (TimePayload.ts_bytes t ts) = t.
Proof. by apply time_header_type. Qed.

Lemma time_ts t ts : is_u 64 ts → TimePayload.payload_ts (TimePayload.ts_bytes t ts) = ts.
Proof. intros ?. rewrite <- (app_nil_r (TimePayload.ts_bytes t ts)). by apply time_payload_ts. Qed.

Lemma length_ts_bytes t ts : length (TimePayload.ts_bytes t ts) = 9%nat.
Proof. unfold TimePayload.ts_bytes, TimePayload.header_bytes. by rewrite length_app, !length_lebytes. Qed.

Definition ms_ok (t : Z) : Prop := 0 ≤ t < 2 ^ 61.
Lemma ms_u64 t : ms_ok t → u64 t = t.
Proof. intros ?. apply u64_small. unfold is_u, ms_ok in *. lia. Qed.
Lemma ms_i64 t : - 2 ^ 62 ≤ t < 2 ^ 62 → i64 t = t.
Proof. intros ?. apply i64_small. lia. Qed.

(** The four steps, each on the bytes of the previous one. *)
Lemma master_on_start maddr saddr e ts :
  Master.handle_ptp_message e maddr
    (drop 9 (sys_segment Segment.PTP ts (TimePayload.header_bytes TimePayload.START)))
    (Z.of_nat (length (sys_segment Segment.PTP ts (TimePayload.header_bytes TimePayload.START))) - 9)
    saddr (Address_broadcast 0) tt =
  Master.receive_start e maddr saddr tt.
Proof.
  rewrite sys_segment_drop, length_sys_segment. unfold Master.handle_ptp_message.
  by rewrite <- (app_nil_r (TimePayload.header_bytes _)), time_header_type.
Qed.

Lemma slave_on_sync e t ts src dst s :
  Slave.state s = Slave.AWAITING_SYNC → is_u 64 t →
  Slave.handle_ptp_message e
    (drop 9 (sys_segment Segment.PTP ts (TimePayload.ts_bytes TimePayload.SYNC t)))
    (Z.of_nat (length (sys_segment Segment.PTP ts (TimePayload.ts_bytes TimePayload.SYNC t))) - 9)
    src dst s =
  let t3 := u64 (Clock.getCurrentTimeMillis (clock e 1%nat)) in
  (Ret tt, Slave.mk t (u64 (Clock.getCurrentTimeMillis (clock e 0%nat))) t3 (Slave.t4 s)
             Slave.AWAITING_DELAY_RESP,
   [Send dst src (sys_segment Segment.PTP t3 (TimePayload.header_bytes TimePayload.DELAY_REQUEST))]).
Proof.
  intros Hs Ht. rewrite sys_segment_drop, length_sys_segment, length_ts_bytes.
  unfold Slave.handle_ptp_message. rewrite time_header_ts by done.
  rewrite !decide_False by (unfold TimePayload.HEADER_SIZE, TimePayload.SYNC_SIZE; lia).
  unfold Slave.receive_sync. mstep. rewrite decide_False by (rewrite Hs; tauto). mstep.
  rewrite time_ts by done. done.
Qed.

Lemma master_on_delay_req maddr saddr dst e ts :
  Master.handle_ptp_message e maddr
    (drop 9 (sys_segment Segment.PTP ts (TimePayload.header_bytes TimePayload.DELAY_REQUEST)))
    (Z.of_nat (length (sys_segment Segment.PTP ts (TimePayload.header_bytes TimePayload.DELAY_REQUEST))) - 9)
    saddr dst tt =
  Master.receive_delay_req e maddr saddr tt.
Proof.
  rewrite sys_segment_drop, length_sys_segment. unfold Master.handle_ptp_message.
  by rewrite <- (app_nil_r (TimePayload.header_bytes _)), time_header_type.
Qed.

Lemma slave_on_delay_resp e t ts src dst s :
  Slave.state s = Slave.AWAITING_DELAY_RESP → is_u 64 t →
  Slave.handle_ptp_message e
    (drop 9 (sys_segment Segment.PTP ts (TimePayload.ts_bytes TimePayload.DELAY_RESPONSE t)))
    (Z.of_nat (length (sys_segment Segment.PTP ts (TimePayload.ts_bytes TimePayload.DELAY_RESPONSE t))) - 9)
    src dst s =
  (_ ← Slave.synchronize e; modify (Slave.set_state Slave.SYNCHRONIZED))
    (Slave.mk (Slave.t1 s) (Slave.t2 s) (Slave.t3 s) t (Slave.state s)).
Proof.
  intros Hs Ht. rewrite sys_segment_drop, length_sys_segment, length_ts_bytes.
  unfold Slave.handle_ptp_message. rewrite time_header_ts by done.
  rewrite !decide_False by (unfold TimePayload.HEADER_SIZE, TimePayload.DELAY_RESP_SIZE; lia).
  unfold Slave.receive_delay_resp. mstep. rewrite decide_False by (rewrite Hs; tauto). mstep.
  by rewrite time_ts.
Qed.

Lemma offset_exact s :
  ms_ok (Slave.t1 s) → ms_ok (Slave.t2 s) → ms_ok (Slave.t3 s) → ms_ok (Slave.t4 s) →
  Slave.offset s = Z.quot ((Slave.t2 s - Slave.t1 s) - (Slave.t4 s - Slave.t3 s)) 2.
Proof.
  unfold ms_ok. intros. unfold Slave.offset.
  rewrite (ms_i64 (Slave.t1 s)), (ms_i64 (Slave.t2 s)), (ms_i64 (Slave.t3 s)), (ms_i64 (Slave.t4 s)) by lia.
  rewrite (ms_i64 (Slave.t2 s - _)), (ms_i64 (Slave.t4 s - _)) by lia. by rewrite ms_i64 by lia.
Qed.

Lemma synchronize_run e s ms :
  Clock.getCurrentTimeMillis (clock e 0%nat) = ms → settime_ok e = true →
  ms_ok (Slave.t1 s) → ms_ok (Slave.t2 s) → ms_ok (Slave.t3 s) → ms_ok (Slave.t4 s) → ms_ok ms →
  ms_ok (ms - Slave.offset s) →
  Slave.offset s =
    Z.quot ((Slave.t2 s - Slave.t1 s) - (Slave.t4 s - Slave.t3 s)) 2 ∧
  Slave.synchronize e s =
    (Ret tt, Slave.mk 0 0 0 0 (Slave.state s),
     [SetTimeOfDay (mk_timeval ((ms - Slave.offset s) / 1000)
                      ((ms - Slave.offset s) `mod` 1000 * 1000))]).
Proof.
  intros Hms Hok H1 H2 H3 H4 Hm Hr. unfold ms_ok in *. split.
  - by apply offset_exact.
  - unfold Slave.synchronize. mstep. rewrite Hms. rewrite ms_i64 by lia.
    pose proof (set_abruptly_run e (ms - Slave.offset s)
                  (Slave.mk 0 0 0 0 (Slave.state s)) ltac:(lia)) as Hrun.
    rewrite (bind_run _ _ _ _ _ _ Hrun). by rewrite Hok.
Qed.

(** The whole exchange, run through the handlers. *)
Lemma exchange_run theta a d1 p d2 b maddr saddr s :
  Slave.state s = Slave.SYNCHRONIZED →
  ms_ok a → ms_ok (a + d1 + theta) → ms_ok (a + d1 + p + theta) → ms_ok (a + d1 + p + d2) →
  ms_ok (b + theta) →
  let off := Z.quot (2 * theta + d1 - d2) 2 in
  ms_ok (b + theta - off) →
  exchange theta a d1 p d2 b true maddr saddr s =
    (Ret tt, Slave.start,
     [SetTimeOfDay (mk_timeval ((b + theta - off) / 1000) ((b + theta - off) `mod` 1000 * 1000))]).
Proof.
  intros Hs Ha H2 H3 H4 Hb off Hr. unfold exchange.
  unfold Slave.request_synchronization at 1. mstep. rewrite decide_True by done. mstep.
  cbn [deliver]. unfold emit at 1. cbn [deliver]. rewrite master_on_start.
  unfold Master.receive_start, emit. rewrite at_ms_fst, (ms_u64 a) by done. cbn [deliver].
  rewrite slave_on_sync; [|done|unfold is_u, ms_ok in *; lia].
  cbn zeta. rewrite at_ms_fst, at_ms_snd, !ms_u64 by done. cbn [deliver].
  rewrite master_on_delay_req. unfold Master.receive_delay_req, emit.
  rewrite at_ms_fst, ms_u64 by done. cbn [deliver].
  rewrite slave_on_delay_resp; [|done|unfold is_u, ms_ok in *; lia]. cbn [Slave.t1 Slave.t2 Slave.t3].
  set (s' := Slave.mk a _ _ _ _).
  destruct (synchronize_run (at_ms (b + theta) 0 true) s' (b + theta)) as [Ho Hrun];
    try done; [apply at_ms_fst| |].
  { rewrite offset_exact by done. unfold s'; cbn [Slave.t1 Slave.t2 Slave.t3 Slave.t4].
    by replace (a + d1 + theta - a - (a + d1 + p + d2 - (a + d1 + p + theta)))
      with (2 * theta + d1 - d2) by lia. }
  rewrite (bind_run _ _ _ _ _ _ Hrun). rewrite Ho. unfold s'; cbn [Slave.t1 Slave.t2 Slave.t3 Slave.t4].
  by replace (a + d1 + theta - a - (a + d1 + p + d2 - (a + d1 + p + theta)))
    with (2 * theta + d1 - d2) by lia.
Qed.

Definition t0 : Slave.t := Slave.start.



(** ** Rejection and loss *)

Lemma request_waiting e a s :
  Slave.state s ≠ Slave.SYNCHRONIZED → Slave.request_synchronization e a s = (Ret tt, s, []).
Proof. intros Hs. unfold Slave.request_synchronization. mstep. by rewrite decide_False. Qed.

Lemma synchronize_throw e s msg s' es :
  Slave.synchronize e s = (Throw msg, s', es) →
  settime_ok e = false ∧ msg = "Failed to adjust clock skew"%string ∧
  s' = Slave.mk 0 0 0 0 (Slave.state s) ∧ ∃ tv, es = [SetTimeOfDay tv].
Proof.
  unfold Slave.synchronize. mstep. unfold Clock.setClockAbruptly. mstep.
  destruct (settime_ok e) eqn:E; run_m; intros [= <- <- <-].
  repeat split; eauto.
Qed.

(** C31. A PTP message the slave rejects leaves no trace: if the handler
    throws, then either the state is unchanged and no call was made, or
    [settimeofday] failed, in which case the slave stays in
    AWAITING_DELAY_RESP with its timestamps cleared. *)
Theorem slave_throw_atomic e payload size from to s msg s' es :
  Slave.handle_ptp_message e payload size from to s = (Throw msg, s', es) →
  (s' = s ∧ es = []) ∨
  (settime_ok e = false ∧ s' = Slave.mk 0 0 0 0 Slave.AWAITING_DELAY_RESP ∧
   TimePayload.header_type payload = TimePayload.DELAY_RESPONSE ∧ ∃ tv, es = [SetTimeOfDay tv]).
Proof.
  unfold Slave.handle_ptp_message. case_decide; [intros [= _ <- <-]; by left|].
  destruct (TimePayload.header_type payload) eqn:Et; try (intros [= _ <- <-]; by left); try done.
  - case_decide; [intros [= _ <- <-]; by left|]. unfold Slave.receive_sync. mstep.
    case_decide; [intros [= _ <- <-]; by left|]. by mstep.
  - case_decide; [intros [= _ <- <-]; by left|]. unfold Slave.receive_delay_resp. mstep.
    case_decide as Hq; [intros [= _ <- <-]; by left|]. mstep.
    assert (Slave.state s = Slave.AWAITING_DELAY_RESP) as Hs.
    { destruct (decide (Slave.state s = Slave.AWAITING_DELAY_RESP)); tauto. }
    set (s1 := Slave.mk _ _ _ _ _).
    destruct (Slave.synchronize e s1) as [[[[]|m| | |] s2] es2] eqn:E.
    + rewrite (bind_run _ _ _ _ _ _ E). done.
    + unfold mbind, M_bind. rewrite E. intros [= -> -> ->]. right.
      apply synchronize_throw in E as (? & _ & -> & ?). unfold s1; cbn [Slave.state].
      rewrite Hs. done.
    + unfold mbind, M_bind. by rewrite E.
    + unfold mbind, M_bind. by rewrite E.
    + unfold mbind, M_bind. by rewrite E.
Qed.

(** The messages that move a waiting slave. *)
Definition awaited (q : Slave.State) : option TimePayload.SyncType :=
  match q with
  | Slave.SYNCHRONIZED => None
  | Slave.AWAITING_SYNC => Some TimePayload.SYNC
  | Slave.AWAITING_DELAY_RESP => Some TimePayload.DELAY_RESPONSE
  end.

Lemma handle_other_type e p n f t s ty :
  awaited (Slave.state s) = Some ty → TimePayload.header_type p ≠ ty →
  try_catch (Slave.handle_ptp_message e p n f t) (λ _, mret tt) s = (Ret tt, s, []).
Proof.
  intros Hw Hne. unfold try_catch, Slave.handle_ptp_message. case_decide; [done|].
  destruct (TimePayload.header_type p) eqn:Et; try done.
  - case_decide; [done|]. unfold Slave.receive_sync. mstep. rewrite decide_True; [done|].
    intros Hs. rewrite Hs in Hw. simplify_eq/=.
  - case_decide; [done|]. unfold Slave.receive_delay_resp. mstep. rewrite decide_True; [done|].
    intros Hs. rewrite Hs in Hw. simplify_eq/=.
Qed.

(** No retry: a slave waits for SYNC or DELAY_RESP, and if that message is
    lost, no other message and no number of requests by the timer thread ever
    makes it leave the waiting state or send anything: the clock is never
    synchronised again. *)
Theorem slave_stuck_after_loss evs s ty :
  awaited (Slave.state s) = Some ty → Forall (λ ev, ¬ is_type ty ev) evs →
  handle_events evs s = (Ret tt, s, []).
Proof.
  intros Hw Hevs. induction Hevs as [|ev evs Hev Hevs IH]; [done|]. simpl.
  assert (handle_event ev s = (Ret tt, s, [])) as Hrun.
  { destruct ev as [e a|e p n f t]; simpl in *; [|by eapply handle_other_type].
    apply request_waiting. intros Hs. by rewrite Hs in Hw. }
  by rewrite (bind_pure _ _ _ _ _ Hrun).
Qed.

Lemma slave_stuck_after_loss_witness :
  let s := Slave.mk 0 0 0 0 Slave.AWAITING_SYNC in
  let evs := [Request (at_ms 360 0 true) (Address_local 1);
              Message (at_ms 400 0 true) [2; 0; 0; 0; 0; 0; 0; 0; 0] 9 (Address_local 1) (Address_local 2);
              Request (at_ms 720 0 true) (Address_local 1)] in
  handle_events evs s = (Ret tt, s, []).
Proof.
  intros s evs. apply (slave_stuck_after_loss evs s TimePayload.SYNC); [reflexivity|].
  repeat constructor; vm_compute; try (intros H; exact H); try congruence.
Defined.

(** The timer thread sends one START in all when the master never
    answers: whatever the number of rounds, its requests amount to the first. *)
Theorem timer_sends_one_start e rounds my_address :
  ∃ bytes, Timer.thread e rounds my_address Slave.start =
    (Ret tt, Slave.set_state Slave.AWAITING_SYNC Slave.start,
     [Send my_address (Address_broadcast 0) bytes]).
Proof.
  eexists. unfold Timer.thread. erewrite bind_run.
  2: { unfold Slave.request_synchronization. mstep. rewrite decide_True by done. mstep. done. }
  assert (∀ s, Slave.state s = Slave.AWAITING_SYNC → Timer.loop rounds my_address s = (Ret tt, s, []))
    as Hloop.
  { intros s Hs. induction rounds as [|[[b1 b2] e'] rounds IH]; [done|]. simpl.
    destruct b1; [|done]. destruct b2; [|done]. simpl.
    rewrite (bind_pure _ _ _ _ _ (request_waiting e' my_address s ltac:(by rewrite Hs))). done. }
  by rewrite Hloop.
Qed.

Lemma slave_throw_atomic_witness :
  let s := Slave.mk 5 6 7 0 Slave.AWAITING_DELAY_RESP in
  let p := TimePayload.ts_bytes TimePayload.SYNC 1000 in
  let r := Slave.handle_ptp_message (at_ms 1 0 true) p 9 (Address_local 1) (Address_local 2) s in
  r.1.2 = s ∧ r.2 = [].
Proof.
  intros s p r.
  destruct (slave_throw_atomic (at_ms 1 0 true) p 9 (Address_local 1) (Address_local 2) s
              "Slave was not waiting for SYNC" r.1.2 r.2) as [H|(H & _)].
  - vm_compute. reflexivity.
  - exact H.
  - discriminate H.
Defined.

(** After a failed [settimeofday] the slave keeps waiting for DELAY_RESP
    with cleared timestamps, and a second DELAY_RESP (a duplicate, say) with
    timestamp [t4] moves its clock forward by half of [t4]. *)
Theorem slave_failed_adjust_corrupts (now t4 ts : Z) src dst :
  ms_ok now → 0 ≤ t4 < 2 ^ 60 → ms_ok (now + t4 / 2) →
  ∃ tv, Slave.handle_ptp_message (at_ms now 0 true)
    (drop 9 (sys_segment Segment.PTP ts (TimePayload.ts_bytes TimePayload.DELAY_RESPONSE t4)))
    9 src dst (Slave.mk 0 0 0 0 Slave.AWAITING_DELAY_RESP) =
    (Ret tt, Slave.start, [SetTimeOfDay tv]) ∧ timeval_us tv = (now + t4 / 2) * 1000.
Proof.
  intros Hn Ht Hr.
  set (s0 := Slave.mk 0 0 0 0 Slave.AWAITING_DELAY_RESP).
  pose proof (slave_on_delay_resp (at_ms now 0 true) t4 ts src dst s0 eq_refl
                ltac:(unfold is_u; lia)) as Hrun.
  rewrite length_sys_segment, length_ts_bytes in Hrun.
  change (Z.of_nat (9 + 9) - 9) with 9 in Hrun. rewrite Hrun. clear Hrun.
  set (s1 := Slave.mk _ _ _ _ _).
  assert (Slave.offset s1 = - (t4 / 2)) as Ho.
  { rewrite offset_exact by (unfold s1, s0, ms_ok; simpl; lia). unfold s1, s0; simpl.
    rewrite Z.quot_opp_l, Z.sub_0_r by lia. by rewrite Z.quot_div_nonneg by lia. }
  destruct (synchronize_run (at_ms now 0 true) s1 now) as [_ Hrun];
    try (unfold s1, s0, ms_ok; simpl; lia); try done.
  - apply at_ms_fst.
  - rewrite Ho. by replace (now - - (t4 / 2)) with (now + t4 / 2) by lia.
  - rewrite (bind_run _ _ _ _ _ _ Hrun). rewrite Ho.
    eexists. split; [reflexivity|]. unfold timeval_us; cbn [tv_sec tv_usec].
    replace (now - - (t4 / 2)) with (now + t4 / 2) by lia.
    pose proof (Z.div_mod (now + t4 / 2) 1000 ltac:(lia)). lia.
Qed.

Lemma slave_failed_adjust_corrupts_witness :
  ∃ tv, Slave.handle_ptp_message (at_ms 2000 0 true)
    (drop 9 (sys_segment Segment.PTP 0 (TimePayload.ts_bytes TimePayload.DELAY_RESPONSE 3000)))
    9 (Address_local 1) (Address_local 2) (Slave.mk 0 0 0 0 Slave.AWAITING_DELAY_RESP) =
    (Ret tt, Slave.start, [SetTimeOfDay tv]) ∧ timeval_us tv = 3500000.
Proof.
  destruct (slave_failed_adjust_corrupts 2000 3000 0 (Address_local 1) (Address_local 2))
    as (tv & Hrun & Hus); try (unfold ms_ok; simpl; lia).
  - vm_compute; split; congruence.
  - exists tv. split; [exact Hrun|]. rewrite Hus. reflexivity.
Defined.
