(* ===== verification/Group.v ===== *)
(** Group membership and key distribution: [groups/group_member_handler.hpp],
    [groups/group_leader_handler.hpp]. *)
From stdpp Require Import sorting.
From S2P Require Import Prelude Ethernet Packet Clock.
Local Open Scope Z_scope.

(** The mutex, the condition variable and the thread objects are represented
    by the points at which the monitor thread releases the lock. *)

Module Member.
(** [payload] is the memory from the payload's first byte on. *)
Definition handle_group_message (payload : list Z) (size : Z) (from : Address) : M unit call unit :=
  match GroupPayload.header_type payload with
  | GroupPayload.KEY_DISTRIBUTION =>
      if decide (size < GroupPayload.KEY_DISTRIBUTION_SIZE) then mret tt
      else emit (SetSessionKey (GroupPayload.key payload))
  | GroupPayload.NOTIFY_LEFT =>
      if decide (size < GroupPayload.NOTIFY_LEFT_SIZE) then mret tt
      else emit (UnregisterNearby (paddr (GroupPayload.member payload)))
  | _ => mret tt
  end.

Definition notify_location_change (e : env) (external_address : Address) : M unit call unit :=
  emit (Send external_address (Address_broadcast 0)
          (sys_segment Segment.GROUP (Clock.getCurrentTimeMillis (clock e 0%nat))
             GroupPayload.join_bytes)).

(** Inherited: nothing. *)
Definition heartbeat_update (client : Address) : M unit call unit := mret tt.
End Member.

Module Leader.
(** A node of the [std::multimap]; its number plays the iterator. *)
Record node := mk_node { n_id : nat; n_expiry : Z; n_client : Address }.

Record t := mk {
  session_key : Z;
  clients_timeout : list node;
  client_lookup : gmap Address nat;
  next_node : nat;
  running : bool
}.

(** [_timeout_duration], in nanoseconds of the steady clock. *)
Definition timeout_duration : Z := 10 * 1000000.

(** [emplace] on a multimap: after the nodes with the same key. *)
Fixpoint emplace (n : node) (l : list node) : list node :=
  match l with
  | [] => [n]
  | m :: l => if decide (n_expiry n < n_expiry m) then n :: m :: l else m :: emplace n l
  end.

Definition live (id : nat) (l : list node) : Prop := id ∈ (n_id <$> l).
#[global] Instance live_dec id l : Decision (live id l).
Proof. unfold live. apply _. Defined.

(** [erase(iterator)]: undefined on an iterator whose node is gone. *)
Definition erase (id : nat) : M t call unit :=
  s ← get;
  if decide (live id (clients_timeout s))
  then put (mk (session_key s) (filter (λ n, n_id n ≠ id) (clients_timeout s))
              (client_lookup s) (next_node s) (running s))
  else undefined.

Definition set_lookup (f : gmap Address nat → gmap Address nat) (s : t) : t :=
  mk (session_key s) (clients_timeout s) (f (client_lookup s)) (next_node s) (running s).

(** [now] is the steady clock. *)
Definition heartbeat_update (now : Z) (client : Address) : M t call unit :=
  let new_expiry := now + timeout_duration in
  look ← gets client_lookup;
  _ ← (match look !! client with Some id => erase id | None => mret tt end);
  s ← get;
  let timer_it := next_node s in
  _ ← put (mk (session_key s) (emplace (mk_node timer_it new_expiry client) (clients_timeout s))
             (client_lookup s) (S timer_it) (running s));
  modify (set_lookup <[client := timer_it]>).

Definition send_key (e : env) (external_address member_address : Address) : M t call unit :=
  key ← gets session_key;
  emit (Send external_address member_address
          (sys_segment Segment.GROUP (Clock.getCurrentTimeNanos (clock e 0%nat))
             (GroupPayload.key_bytes key))).

Definition handle_group_message (e : env) (steady_now : Z) (external_address : Address)
    (payload : list Z) (size : Z) (from : Address) : M t call unit :=
  match GroupPayload.header_type payload with
  | GroupPayload.JOIN_REQUEST =>
      _ ← heartbeat_update steady_now from; send_key e external_address from
  | _ => mret tt
  end.

(** The segment of [send_notify_left] is not packed: [pad1] is the padding
    byte after the 9-byte header, [pad2] the one after the payload's type.
    [client] is not stored in it. *)
Definition send_notify_left (e : env) (pad1 pad2 : Z) (external_address client : Address)
    : M t call unit :=
  let header := Segment.header_bytes Segment.GROUP
                  (u64 (Clock.getCurrentTimeMillis (clock e 0%nat))) in
  emit (Send external_address (Address_broadcast 0)
          (header ++ lebytes 1 pad1 ++ GroupPayload.notify_left_bytes pad2 Address_default)).

(** The inner loop of [monitor_loop], split where it releases the mutex. *)
Definition monitor_pick (e : env) (steady_now pad1 pad2 : Z) (external_address : Address)
    : M t call (option node) :=
  l ← gets clients_timeout;
  match l with
  | n :: _ =>
      if decide (n_expiry n ≤ steady_now)
      then _ ← send_notify_left e pad1 pad2 external_address (n_client n); mret (Some n)
      else mret None
  | [] => mret None
  end.
Definition monitor_clean (n : node) : M t call unit :=
  _ ← modify (set_lookup (delete (n_client n)));
  erase (n_id n).

(** The loop when nothing runs while the mutex is released; one round per
    client at most, so [length] rounds reach its end. *)
Fixpoint monitor_evict (fuel : nat) (e : env) (steady_now pad1 pad2 : Z) (ext : Address)
    : M t call unit :=
  match fuel with
  | O => mret tt
  | S fuel =>
      r ← monitor_pick e steady_now pad1 pad2 ext;
      match r with
      | None => mret tt
      | Some n => _ ← monitor_clean n; monitor_evict fuel e steady_now pad1 pad2 ext
      end
  end.

(** One turn of [monitor_loop]; [timed_out] is the result of [wait_until]. *)
Definition monitor_turn (timed_out : bool) (e : env) (steady_now pad1 pad2 : Z) (ext : Address)
    : M t call unit :=
  s ← get;
  if negb (running s) then mret tt
  else match clients_timeout s with
       | [] => mret tt
       | _ => if timed_out
              then monitor_evict (S (length (clients_timeout s))) e steady_now pad1 pad2 ext
              else mret tt
       end.

(** The constructor: [garbage] is what the member [_session_key] happens to
    hold, [generated] the key drawn. *)
Definition construct (garbage generated : Z) : M t call unit :=
  _ ← put (mk garbage [] ∅ 0 true);
  emit (SetSessionKey generated).

Definition stop_membership_monitor : M t call unit :=
  modify (λ s, mk (session_key s) (clients_timeout s) (client_lookup s) (next_node s) false).

(** Inherited from the interface: leaders do not move. *)
Definition notify_location_change : M t call unit := mret tt.
End Leader.

(** ** The leader's two maps *)

Definition sorted (l : list Leader.node) : Prop :=
  StronglySorted (λ m n, Leader.n_expiry m ≤ Leader.n_expiry n) l.

Record leader_ok (s : Leader.t) : Prop := {
  lo_sorted : sorted (Leader.clients_timeout s);
  lo_nodup : NoDup (Leader.n_id <$> Leader.clients_timeout s);
  lo_fresh : ∀ n, n ∈ Leader.clients_timeout s → (Leader.n_id n < Leader.next_node s)%nat;
  lo_node : ∀ n, n ∈ Leader.clients_timeout s →
    Leader.client_lookup s !! Leader.n_client n = Some (Leader.n_id n);
  lo_look : ∀ a id, Leader.client_lookup s !! a = Some id →
    ∃ n, n ∈ Leader.clients_timeout s ∧ Leader.n_id n = id ∧ Leader.n_client n = a
}.

(** The abstract view: which client expires when. *)
Definition expires (s : Leader.t) (a : Address) (time : Z) : Prop :=
  ∃ n, n ∈ Leader.clients_timeout s ∧ Leader.n_client n = a ∧ Leader.n_expiry n = time.

Lemma elem_of_emplace n l m : m ∈ Leader.emplace n l ↔ m = n ∨ m ∈ l.
Proof.
  induction l as [|k l IH]; simpl; [set_solver|]. case_decide; set_solver.
Qed.

Lemma emplace_sorted n l : sorted l → sorted (Leader.emplace n l).
Proof.
  unfold sorted. induction 1 as [|m l Hs IH Hm]; simpl; [by repeat constructor|].
  case_decide.
  - repeat constructor; [done|done|lia|].
    eapply Forall_impl; [exact Hm|]. simpl. intros. lia.
  - constructor; [done|]. apply Forall_forall. intros k Hk.
    apply elem_of_emplace in Hk as [->|Hk]; [lia|]. rewrite Forall_forall in Hm. by apply Hm.
Qed.

Lemma emplace_nodup n l :
  Leader.n_id n ∉ (Leader.n_id <$> l) → NoDup (Leader.n_id <$> l) →
  NoDup (Leader.n_id <$> Leader.emplace n l).
Proof.
  induction l as [|m l IH]; simpl; intros Hn Hd; [by repeat constructor; set_solver|].
  apply NoDup_cons in Hd as [Hm Hd]. case_decide; simpl.
  - by repeat constructor; set_solver.
  - constructor; [|apply IH; set_solver]. intros Hin. apply list_elem_of_fmap in Hin as (k & Hk & Hin).
    apply elem_of_emplace in Hin as [->|Hin]; [set_solver|]. apply Hm. rewrite Hk.
    by apply list_elem_of_fmap_2.
Qed.

Lemma filter_sorted (P : Leader.node → Prop) `{∀ x, Decision (P x)} l :
  sorted l → sorted (filter P l).
Proof.
  unfold sorted. induction 1 as [|m l Hs IH Hm]; [constructor|].
  rewrite filter_cons. case_decide; [|done]. constructor; [done|].
  apply Forall_forall. intros k Hk. apply list_elem_of_filter in Hk as [_ Hk].
  rewrite Forall_forall in Hm. by apply Hm.
Qed.

Lemma filter_nodup (P : Leader.node → Prop) `{∀ x, Decision (P x)} l :
  NoDup (Leader.n_id <$> l) → NoDup (Leader.n_id <$> filter P l).
Proof.
  intros Hd. apply (sublist_NoDup _ _ Hd). apply fmap_sublist, sublist_filter.
Qed.

Lemma filter_none (P : Leader.node → Prop) `{∀ x, Decision (P x)} l :
  Forall (λ x, ¬ P x) l → filter P l = [].
Proof. induction 1 as [|x l Hx _ IH]; [done|]. by rewrite filter_cons_False. Qed.

Lemma node_inj l m n :
  NoDup (Leader.n_id <$> l) → m ∈ l → n ∈ l → Leader.n_id m = Leader.n_id n → m = n.
Proof.
  induction l as [|k l IH]; simpl; intros Hd Hm Hn He; [by apply not_elem_of_nil in Hm|].
  apply NoDup_cons in Hd as [Hk Hd].
  apply elem_of_cons in Hm as [->|Hm]; apply elem_of_cons in Hn as [->|Hn]; try done.
  - exfalso. apply Hk. rewrite He. by apply list_elem_of_fmap_2.
  - exfalso. apply Hk. rewrite <- He. by apply list_elem_of_fmap_2.
  - by apply IH.
Qed.

(** Erasing the node of a client. *)
Lemma elem_of_erase s a id m :
  leader_ok s → Leader.client_lookup s !! a = Some id →
  m ∈ filter (λ n, Leader.n_id n ≠ id) (Leader.clients_timeout s) ↔
  m ∈ Leader.clients_timeout s ∧ Leader.n_client m ≠ a.
Proof.
  intros Hok Ha. rewrite list_elem_of_filter. split.
  - intros [Hid Hm]. split; [done|]. intros Hc. pose proof (lo_node s Hok m Hm) as Hl.
    rewrite Hc, Ha in Hl. by injection Hl.
  - intros [Hm Hc]. split; [|done]. intros Hid.
    destruct (lo_look s Hok a id Ha) as (n & Hn & Hn1 & Hn2).
    assert (m = n) as -> by (apply (node_inj (Leader.clients_timeout s)); try done; [apply Hok|congruence]).
    done.
Qed.

Lemma erase_run s a id :
  leader_ok s → Leader.client_lookup s !! a = Some id →
  ∀ look, Leader.erase id (Leader.set_lookup look s) =
    (Ret tt, Leader.mk (Leader.session_key s)
       (filter (λ n, Leader.n_id n ≠ id) (Leader.clients_timeout s))
       (look (Leader.client_lookup s)) (Leader.next_node s) (Leader.running s), []).
Proof.
  intros Hok Ha look. unfold Leader.erase. mstep. rewrite decide_True; [done|].
  destruct (lo_look s Hok a id Ha) as (n & Hn & <- & _). unfold Leader.live; simpl.
  by apply list_elem_of_fmap_2.
Qed.

(** Inserting a fresh node for a client that has none. *)
Lemma insert_ok s a exp l :
  leader_ok s → sorted l → NoDup (Leader.n_id <$> l) →
  (∀ m, m ∈ l ↔ m ∈ Leader.clients_timeout s ∧ Leader.n_client m ≠ a) →
  let n := Leader.mk_node (Leader.next_node s) exp a in
  leader_ok (Leader.mk (Leader.session_key s) (Leader.emplace n l)
    (<[a := Leader.next_node s]> (Leader.client_lookup s)) (S (Leader.next_node s)) (Leader.running s)).
Proof.
  intros Hok Hs Hd Hl n. split; simpl.
  - by apply emplace_sorted.
  - apply emplace_nodup; [|done]. simpl. intros Hin. apply list_elem_of_fmap in Hin as (m & Hm & Hin).
    apply Hl in Hin as [Hin _]. pose proof (lo_fresh s Hok m Hin). lia.
  - intros m Hm. apply elem_of_emplace in Hm as [->|Hm]; [simpl; lia|].
    apply Hl in Hm as [Hm _]. pose proof (lo_fresh s Hok m Hm). lia.
  - intros m Hm. apply elem_of_emplace in Hm as [->|Hm]; [by rewrite lookup_insert_eq|].
    apply Hl in Hm as [Hm Hc]. rewrite lookup_insert_ne by done. by apply Hok.
  - intros b id Hb. apply lookup_insert_Some in Hb as [[<- <-]|[Hne Hb]].
    + exists n. split; [apply elem_of_emplace; by left|done].
    + destruct (lo_look s Hok b id Hb) as (m & Hm & ? & Hm2). exists m.
      split; [|done]. apply elem_of_emplace. right. apply Hl. split; [done|congruence].
Qed.

Lemma heartbeat_run now a s :
  leader_ok s →
  ∃ l, Leader.heartbeat_update now a s =
    (Ret tt, Leader.mk (Leader.session_key s)
       (Leader.emplace (Leader.mk_node (Leader.next_node s) (now + Leader.timeout_duration) a) l)
       (<[a := Leader.next_node s]> (Leader.client_lookup s)) (S (Leader.next_node s))
       (Leader.running s), []) ∧
    sorted l ∧ NoDup (Leader.n_id <$> l) ∧
    (∀ m, m ∈ l ↔ m ∈ Leader.clients_timeout s ∧ Leader.n_client m ≠ a).
Proof.
  intros Hok. unfold Leader.heartbeat_update. mstep.
  destruct (Leader.client_lookup s !! a) as [id|] eqn:Ha.
  - exists (filter (λ n, Leader.n_id n ≠ id) (Leader.clients_timeout s)).
    pose proof (erase_run s a id Hok Ha (λ m, m)) as Hrun.
    replace (Leader.set_lookup _ s) with s in Hrun by (by destruct s).
    rewrite (bind_pure _ _ _ _ _ Hrun). mstep. split; [done|]. split; [|split].
    + apply filter_sorted, Hok.
    + apply filter_nodup, Hok.
    + intros m. by apply elem_of_erase.
  - exists (Leader.clients_timeout s). mstep. split; [done|]. split; [apply Hok|split; [apply Hok|]].
    intros m. split; [|by intros []]. intros Hm. split; [done|]. intros Hc.
    pose proof (lo_node s Hok m Hm) as Hl. rewrite Hc, Ha in Hl. done.
Qed.

(** C24. A heartbeat registers the client or renews it: it never touches a
    dangling iterator, keeps the two maps of the leader consistent (one node
    per client, in order of expiry, each reachable from the lookup table), sets
    the client's expiry to 10 ms from now and leaves every other client's. *)
Theorem heartbeat_renews now a s :
  leader_ok s →
  ∃ s', Leader.heartbeat_update now a s = (Ret tt, s', []) ∧ leader_ok s' ∧
    ∀ b time, expires s' b time ↔
      (b = a ∧ time = now + Leader.timeout_duration) ∨ (b ≠ a ∧ expires s b time).
Proof.
  intros Hok. destruct (heartbeat_run now a s Hok) as (l & Hrun & Hs & Hd & Hl).
  eexists. split; [exact Hrun|]. split; [by apply insert_ok|].
  intros b time. unfold expires; simpl. split.
  - intros (n & Hn & <- & <-). apply elem_of_emplace in Hn as [->|Hn]; [by left|].
    apply Hl in Hn as [Hn Hc]. right. split; [done|]. by exists n.
  - intros [[-> ->]|[Hne (n & Hn & <- & <-)]].
    + eexists. split; [apply elem_of_emplace; by left|done].
    + exists n. split; [|done]. apply elem_of_emplace. right. by apply Hl.
Qed.

(** One eviction. *)
Lemma clean_run s n l :
  leader_ok s → Leader.clients_timeout s = n :: l →
  let s' := Leader.mk (Leader.session_key s) l (delete (Leader.n_client n) (Leader.client_lookup s))
              (Leader.next_node s) (Leader.running s) in
  Leader.monitor_clean n s = (Ret tt, s', []) ∧ leader_ok s'.
Proof.
  intros Hok Hl s'.
  assert (n ∈ Leader.clients_timeout s) as Hn by (rewrite Hl; set_solver).
  pose proof (lo_node s Hok n Hn) as Ha.
  assert (filter (λ m, Leader.n_id m ≠ Leader.n_id n) (Leader.clients_timeout s) = l) as Hf.
  { pose proof (lo_nodup s Hok) as Hd. rewrite Hl in *. simpl in Hd. apply NoDup_cons in Hd as [Hd _].
    rewrite filter_cons_False by tauto. clear - Hd. induction l as [|m l IH]; [done|].
    simpl in Hd. rewrite filter_cons_True by set_solver. f_equal. apply IH. set_solver. }
  split.
  { unfold Leader.monitor_clean. mstep.
    by rewrite (erase_run s _ _ Hok Ha), Hf. }
  assert (∀ m, m ∈ l ↔ m ∈ Leader.clients_timeout s ∧ Leader.n_client m ≠ Leader.n_client n) as Hm.
  { intros m. rewrite <- Hf. by apply elem_of_erase. }
  split; unfold s'; simpl.
  - pose proof (lo_sorted s Hok) as Hs. rewrite Hl in Hs. by inversion Hs.
  - pose proof (lo_nodup s Hok) as Hd. rewrite Hl in Hd. simpl in Hd. by apply NoDup_cons in Hd as [_ Hd].
  - intros m Hin. apply (lo_fresh s Hok). by apply Hm.
  - intros m Hin. apply Hm in Hin as [Hin Hc]. rewrite lookup_delete_ne by congruence. by apply Hok.
  - intros b id Hb. apply lookup_delete_Some in Hb as [Hne Hb].
    destruct (lo_look s Hok b id Hb) as (m & Hin & Hid & Hc). exists m.
    split; [|done]. apply Hm. split; [done|congruence].
Qed.

Lemma evict_run e now p1 p2 ext fuel s :
  leader_ok s → (length (Leader.clients_timeout s) < fuel)%nat →
  ∃ s' es, Leader.monitor_evict fuel e now p1 p2 ext s = (Ret tt, s', es) ∧ leader_ok s' ∧
    (∀ b time, expires s' b time ↔ expires s b time ∧ now < time) ∧
    length es = length (filter (λ n, Leader.n_expiry n ≤ now) (Leader.clients_timeout s)).
Proof.
  revert s. induction fuel as [|fuel IH]; intros s Hok Hlen; [lia|]. simpl.
  unfold Leader.monitor_pick at 1. mstep.
  destruct (Leader.clients_timeout s) as [|n l] eqn:Hl.
  { mstep. exists s, []. split; [done|]. split; [done|]. split; [|done].
    intros b time. unfold expires. rewrite Hl. set_solver. }
  case_decide as Hexp; mstep.
  - destruct (clean_run s n l Hok Hl) as [Hc Hok'].
    set (s1 := Leader.mk _ l _ _ _) in *.
    destruct (IH s1 Hok') as (s' & es & Hrun & Hok'' & Hex & Hes); [simpl in *; lia|].
    unfold Leader.send_notify_left. erewrite bind_run by reflexivity. mstep.
    rewrite (bind_pure _ _ _ _ _ Hc), Hrun. eexists s', (_ :: es). split; [reflexivity|].
    split; [done|]. split.
    + intros b time. rewrite Hex. unfold expires, s1; simpl. rewrite Hl. split.
      * intros [(m & Hm & ? & ?) ?]. split; [|done]. exists m. split; [set_solver|done].
      * intros [(m & Hm & ? & ?) ?]. split; [|done]. exists m. split; [|done].
        apply elem_of_cons in Hm as [->|Hm]; [lia|done].
    + rewrite filter_cons_True by done. simpl. by rewrite Hes.
  - exists s, []. split; [done|]. split; [done|].
    assert (Forall (λ m, now < Leader.n_expiry m) (n :: l)) as Hall.
    { pose proof (lo_sorted s Hok) as Hs. rewrite Hl in Hs. inversion Hs as [|? ? _ Hm]; subst.
      constructor; [lia|]. eapply Forall_impl; [exact Hm|]. simpl. intros. lia. }
    split.
    + intros b time. unfold expires. rewrite Hl. rewrite Forall_forall in Hall.
      split; [|tauto]. intros (m & Hm & ? & <-). split; [by exists m|by apply Hall].
    + rewrite filter_none; [done|]. eapply Forall_impl; [exact Hall|]. simpl. intros. lia.
Qed.

(** The membership monitor evicts exactly the expired clients: when its
    wait times out it terminates, sends one notification per expired client,
    and leaves precisely the clients whose time has not come, the two maps
    consistent. *)
Theorem monitor_evicts_expired e now p1 p2 ext s :
  leader_ok s → Leader.running s = true →
  ∃ s' es, Leader.monitor_turn true e now p1 p2 ext s = (Ret tt, s', es) ∧ leader_ok s' ∧
    (∀ b time, expires s' b time ↔ expires s b time ∧ now < time) ∧
    length es = length (filter (λ n, Leader.n_expiry n ≤ now) (Leader.clients_timeout s)).
Proof.
  intros Hok Hr. unfold Leader.monitor_turn. mstep. rewrite Hr. cbn [negb].
  destruct (Leader.clients_timeout s) as [|n l] eqn:Hl.
  - exists s, []. split; [done|]. split; [done|]. split; [|done].
    intros b time. unfold expires. rewrite Hl. set_solver.
  - rewrite <- Hl. apply evict_run; [done|lia].
Qed.

(** Use after erase: the monitor releases the mutex to send its
    notification; if the client it is evicting sends a heartbeat in between,
    the node the monitor then erases is already gone. *)
Theorem monitor_heartbeat_race e now p1 p2 ext s n l now' :
  leader_ok s → Leader.clients_timeout s = n :: l → Leader.n_expiry n ≤ now →
  ∃ es, (r ← Leader.monitor_pick e now p1 p2 ext;
         _ ← Leader.heartbeat_update now' (Leader.n_client n);
         match r with Some n => Leader.monitor_clean n | None => mret tt end) s =
    (Undefined, Leader.set_lookup (delete (Leader.n_client n))
                  (Leader.heartbeat_update now' (Leader.n_client n) s).1.2, es).
Proof.
  intros Hok Hl Hexp. unfold Leader.monitor_pick. mstep. rewrite Hl, decide_True by done. mstep.
  unfold Leader.send_notify_left. erewrite bind_run by reflexivity. mstep.
  destruct (heartbeat_run now' (Leader.n_client n) s Hok) as (k & Hrun & _ & _ & Hk).
  rewrite (bind_pure _ _ _ _ _ Hrun), Hrun. unfold Leader.monitor_clean. mstep.
  unfold Leader.erase. mstep. simpl. rewrite decide_False; [eexists; reflexivity|].
  assert (n ∈ Leader.clients_timeout s) as Hn by (rewrite Hl; set_solver).
  unfold Leader.live. intros Hin. apply list_elem_of_fmap in Hin as (m & Hid & Hm).
  apply elem_of_emplace in Hm as [->|Hm]; simpl in Hid.
  - pose proof (lo_fresh s Hok n Hn). lia.
  - apply Hk in Hm as [Hm Hc]. apply Hc. f_equal. symmetry.
    by apply (node_inj (Leader.clients_timeout s)); [apply Hok|..].
Qed.

(** ** Witness states *)

Definition leader_new : Leader.t := Leader.mk 7 [] ∅ 0 true.
Lemma leader_new_ok : leader_ok leader_new.
Proof.
  split; simpl; try constructor; try (intros n Hn; by apply not_elem_of_nil in Hn). done.
Qed.

Definition client_a : Address := mk_Address (mk_MAC [2; 0; 0; 0; 0; 1]) 0.
Definition client_b : Address := mk_Address (mk_MAC [2; 0; 0; 0; 0; 2]) 0.
Definition env0 : env := mk_env (λ _, 1000000) true.

(** A client that joined at time 0. *)
Definition leader_one : Leader.t := (Leader.heartbeat_update 0 client_a leader_new).1.2.
Lemma leader_one_ok : leader_ok leader_one.
Proof.
  destruct (heartbeat_run 0 client_a leader_new leader_new_ok) as (l & Hrun & Hs & Hd & Hl).
  unfold leader_one. rewrite Hrun. cbn [fst snd]. apply insert_ok; auto using leader_new_ok.
Qed.

Lemma heartbeat_renews_witness :
  ∃ s', Leader.heartbeat_update 5 client_b leader_one = (Ret tt, s', []) ∧
    expires s' client_b 10000005 ∧ (expires s' client_a 10000000).
Proof.
  destruct (heartbeat_renews 5 client_b leader_one leader_one_ok) as (s' & Hrun & _ & Hex).
  exists s'. split; [exact Hrun|]. split; apply Hex; [left; split; reflexivity|].
  right. split; [discriminate|]. eexists. split; [apply list_elem_of_here|]. split; reflexivity.
Defined.

Lemma monitor_evicts_expired_witness :
  ∃ s' es, Leader.monitor_turn true env0 20000000 0 0 client_b leader_one = (Ret tt, s', es) ∧
    length es = 1%nat.
Proof.
  destruct (monitor_evicts_expired env0 20000000 0 0 client_b leader_one leader_one_ok eq_refl)
    as (s' & es & Hrun & _ & _ & Hlen).
  exists s', es. split; [exact Hrun|]. rewrite Hlen. vm_compute. reflexivity.
Defined.

Lemma monitor_heartbeat_race_witness :
  ∃ es s', (r ← Leader.monitor_pick env0 20000000 0 0 client_b;
         _ ← Leader.heartbeat_update 20000001 client_a;
         match r with Some n => Leader.monitor_clean n | None => mret tt end) leader_one =
    (Undefined, s', es).
Proof.
  destruct (monitor_heartbeat_race env0 20000000 0 0 client_b leader_one
    (Leader.mk_node 0 10000000 client_a) [] 20000001 leader_one_ok) as [es Hes].
  - vm_compute. reflexivity.
  - vm_compute. congruence.
  - exists es. eexists. exact Hes.
Defined.

(** ** What travels between leader and members *)

Lemma member_on_key e ts k ext :
  is_u 64 k →
  let seg := sys_segment Segment.GROUP ts (GroupPayload.key_bytes k) in
  Member.handle_group_message (drop 9 seg) (Z.of_nat (length seg) - 9) ext e =
  (Ret tt, e, [SetSessionKey k]).
Proof.
  intros Hk seg. unfold seg. rewrite sys_segment_drop, length_sys_segment.
  unfold Member.handle_group_message.
  assert (GroupPayload.header_type (GroupPayload.key_bytes k) = GroupPayload.KEY_DISTRIBUTION) as ->
    by (by apply group_header_type).
  assert (length (GroupPayload.key_bytes k) = 9%nat) as ->
    by (unfold GroupPayload.key_bytes; by rewrite length_app, !length_lebytes).
  rewrite decide_False by (unfold GroupPayload.KEY_DISTRIBUTION_SIZE; lia).
  rewrite <- (app_nil_r (GroupPayload.key_bytes k)), group_key_bytes by done. done.
Qed.

(** The key the leader hands out is not the group's key: the constructor
    stores the generated key in shared memory only, and a JOIN is answered with
    the never-initialised member, which the joining member then installs. *)
Theorem leader_distributes_uninitialised garbage generated e now ext member s0 :
  is_u 64 garbage →
  ∃ s seg,
    (_ ← Leader.construct garbage generated;
     Leader.handle_group_message e now ext GroupPayload.join_bytes 1 member) s0 =
      (Ret tt, s, [SetSessionKey generated; Send ext member seg]) ∧
    Member.handle_group_message (drop 9 seg) (Z.of_nat (length seg) - 9) ext tt =
      (Ret tt, tt, [SetSessionKey garbage]).
Proof.
  intros Hg. eexists _, _. split.
  - unfold Leader.construct. mstep. erewrite bind_run by reflexivity.
    unfold Leader.handle_group_message.
    change (GroupPayload.header_type GroupPayload.join_bytes) with GroupPayload.JOIN_REQUEST.
    unfold Leader.heartbeat_update. mstep. cbn [Leader.client_lookup]. rewrite lookup_empty. mstep.
    unfold Leader.send_key. mstep. reflexivity.
  - by apply member_on_key.
Qed.

Lemma leader_distributes_uninitialised_witness :
  ∃ s seg,
    (_ ← Leader.construct 0 99;
     Leader.handle_group_message env0 0 client_b GroupPayload.join_bytes 1 client_a) leader_new =
      (Ret tt, s, [SetSessionKey 99; Send client_b client_a seg]) ∧
    Member.handle_group_message (drop 9 seg) (Z.of_nat (length seg) - 9) client_b tt =
      (Ret tt, tt, [SetSessionKey 0]).
Proof.
  apply (leader_distributes_uninitialised 0 99 env0 0 client_b client_a leader_new).
  split; [reflexivity|constructor].
Defined.

(** NOTIFY_LEFT is not understood by its receivers: the sender's struct is
    padded, so the member reads the padding byte as the payload type. The
    message never names the client that left; depending on the padding it is
    ignored, unregisters a bogus address, or overwrites the session key. *)
Theorem notify_left_misread e p1 p2 ext client s :
  is_u 8 p1 → is_u 8 p2 →
  ∃ seg, Leader.send_notify_left e p1 p2 ext client s =
           (Ret tt, s, [Send ext (Address_broadcast 0) seg]) ∧ length seg = 20%nat ∧
    Member.handle_group_message (drop 9 seg) (Z.of_nat (length seg) - 9) ext tt =
      (Ret tt, tt, if decide (p1 = 1) then [SetSessionKey (2 + 256 * p2)]
                   else if decide (p1 = 2) then [UnregisterNearby (mk_MAC [p2; 0; 0; 0; 0; 0])]
                   else []).
Proof.
  intros H1 H2. eexists. split; [reflexivity|].
  set (h := Segment.header_bytes _ _).
  assert (length h = 9%nat) as Hh by apply length_segment_header.
  unfold GroupPayload.notify_left_bytes.
  rewrite (lebytes_byte p1), (lebytes_byte p2), (lebytes_byte (GroupPayload.type_code _)) by done.
  split; [by rewrite !length_app, Hh|]. rewrite length_app, Hh, drop_app_eq by done.
  unfold Member.handle_group_message, GroupPayload.header_type, slice.
  assert (leval [p1] = p1) as Hv by (rewrite leval_cons, leval_nil by done; lia).
  cbn [app drop take]. rewrite Hv.
  unfold GroupPayload.type_of_code. unfold is_u in *.
  destruct (decide (p1 = 1)) as [->|]; [|destruct (decide (p1 = 2)) as [->|]].
  - simpl. unfold emit, GroupPayload.key, slice. do 3 f_equal. simpl.
    rewrite !leval_cons, leval_nil by lia. f_equal. lia.
  - done.
  - destruct (decide (p1 = 0)); [done|]. by repeat case_decide.
Qed.

Lemma notify_left_misread_witness :
  ∃ seg, Leader.send_notify_left env0 0 0 client_b client_a leader_new =
           (Ret tt, leader_new, [Send client_b (Address_broadcast 0) seg]) ∧
    Member.handle_group_message (drop 9 seg) (Z.of_nat (length seg) - 9) client_b tt = (Ret tt, tt, []).
Proof.
  destruct (notify_left_misread env0 0 0 client_b client_a leader_new) as (seg & Hrun & _ & Hm);
    try (unfold is_u; lia).
  exists seg. split; [exact Hrun|exact Hm].
Defined.
