(* ===== verification/Nic.v ===== *)
(** The network interface: [api/network/nic.hpp] over the two engines
    ([engines/raw_socket_engine.hpp] here, [engines/smh_engine.hpp] in [Shm]).
    A process has an internal NIC (shared memory) and, on a gateway, an
    external one (raw socket); the [if constexpr] tests on the engine are
    tests on a [kind]. *)
From S2P Require Import Prelude Ethernet Packet Clock Observer Shm.
Local Open Scope Z_scope.

Inductive kind := SHM | RAW.
#[export] Instance kind_eq_dec : EqDecision kind.
Proof. solve_decision. Defined.

(** A heap-allocated [FrameBuffer]: it owns a frame, or it is a view of the
    shared slot [fb_slot]. *)
Record fbuf := mk_fbuf {
  fb_own : option Frame;
  fb_slot : nat;
  fb_seq : Z;
  fb_quad : bool
}.

(** The state of both NICs of one process, with the shared memory they see. *)
Record nics := mk_nics {
  ipc : Ipc;
  me : nat;                    (* _client_slot_index *)
  my_mac : MAC;                (* RawSocketEngine::_my_mac *)
  rx : list (list Z);          (* packets waiting in the socket *)
  quadrant : Z;                (* the external NIC's _quadrant *)
  fixed_location : bool;
  heap : gmap nat fbuf;        (* live FrameBuffer objects *)
  next_buf : nat;
  next_seq : Z;                (* next_sequence_to_read of the receiver thread *)
  local_obs : observed unit Z; (* the one observer of a NIC is Protocol *)
  ext_obs : observed unit Z
}.

Definition set_ipc (i : Ipc) (s : nics) : nics := mk_nics i (me s) (my_mac s) (rx s) (quadrant s)
  (fixed_location s) (heap s) (next_buf s) (next_seq s) (local_obs s) (ext_obs s).
Definition set_rx (l : list (list Z)) (s : nics) : nics := mk_nics (ipc s) (me s) (my_mac s) l
  (quadrant s) (fixed_location s) (heap s) (next_buf s) (next_seq s) (local_obs s) (ext_obs s).
Definition set_quadrant (q : Z) (s : nics) : nics := mk_nics (ipc s) (me s) (my_mac s) (rx s) q
  (fixed_location s) (heap s) (next_buf s) (next_seq s) (local_obs s) (ext_obs s).
Definition set_fixed (f : bool) (s : nics) : nics := mk_nics (ipc s) (me s) (my_mac s) (rx s)
  (quadrant s) f (heap s) (next_buf s) (next_seq s) (local_obs s) (ext_obs s).
Definition set_heap (h : gmap nat fbuf) (s : nics) : nics := mk_nics (ipc s) (me s) (my_mac s)
  (rx s) (quadrant s) (fixed_location s) h (next_buf s) (next_seq s) (local_obs s) (ext_obs s).
Definition bump_buf (s : nics) : nics := mk_nics (ipc s) (me s) (my_mac s) (rx s) (quadrant s)
  (fixed_location s) (heap s) (S (next_buf s)) (next_seq s) (local_obs s) (ext_obs s).
Definition set_next_seq (z : Z) (s : nics) : nics := mk_nics (ipc s) (me s) (my_mac s) (rx s)
  (quadrant s) (fixed_location s) (heap s) (next_buf s) z (local_obs s) (ext_obs s).
Definition set_obs (k : kind) (o : observed unit Z) (s : nics) : nics := mk_nics (ipc s) (me s)
  (my_mac s) (rx s) (quadrant s) (fixed_location s) (heap s) (next_buf s) (next_seq s)
  (if decide (k = SHM) then o else local_obs s) (if decide (k = RAW) then o else ext_obs s).
Definition get_obs (k : kind) (s : nics) : observed unit Z :=
  match k with SHM => local_obs s | RAW => ext_obs s end.

(** What leaves the process: packets on the wire, changes of the system clock. *)
Inductive effect := Sendto (bytes : list Z) | Settime (tv : timeval).

(** The environment of one call: system clock readings, what [sendto]
    returns, and the steady clock. *)
Record netenv := mk_netenv { e_env : env; e_sendto : list Z → Z; e_steady : Z }.

Definition on_ipc {A} (m : M Ipc effect A) : M nics effect A := zoom ipc set_ipc m.

(** ** Engines

    What [NIC] uses of its engine. *)
Class Engine (k : kind) := {
  engine_address : nics → MAC;
  engine_send : netenv → MAC → MAC → Z → list Z → Z → M nics effect Z
}.

#[export] Instance ShmEngine : Engine SHM := {
  engine_address := λ _, LOCAL_ADDR;
  engine_send := λ _ src dst prot data size, on_ipc (Shm.send (Some src) dst prot data size)
}.

Module RawSocketEngine.
(** The frame put on the wire: our own address replaces [src_mac]. *)
Definition wire_frame (my_mac dst_mac : MAC) (protocol : Z) (data : list Z) : list Z :=
  addr dst_mac ++ addr my_mac ++ lebytes 2 (htons protocol) ++ data.

Definition send (e : netenv) (src_mac dst_mac : MAC) (protocol : Z) (data : list Z) (size : Z)
    : M nics effect Z :=
  if decide (ETH_MTU < size) then mret (-1) else
  s ← get;
  payload ← checked (read_mem 0 (Z.to_nat size) data);
  let frame := wire_frame (my_mac s) dst_mac protocol payload in
  _ ← emit (Sendto frame);
  mret (e_sendto e frame).

(** [recvfrom] on the non-blocking socket: the bytes copied, or [None]
    (EWOULDBLOCK, -1) when no packet waits. Longer packets are truncated. *)
Definition receive (buffer_size : nat) : M nics effect (option (list Z)) :=
  s ← get;
  match rx s with
  | [] => mret None
  | p :: rest => _ ← put (set_rx rest s); mret (Some (take buffer_size p))
  end.
End RawSocketEngine.

#[export] Instance RawEngine : Engine RAW := {
  engine_address := my_mac;
  engine_send := RawSocketEngine.send
}.

(** ** The NIC *)

Definition buf_frame (s : nics) (b : fbuf) : option Frame :=
  match fb_own b with
  | Some f => Some f
  | None => slot_frame <$> buffer (blk (ipc s)) !! fb_slot b
  end.

(** [recvfrom] into an uninitialised [Frame]: [garbage] is what the data array
    held. The length field is computed by the caller. *)
Definition frame_of_bytes (garbage : list Z) (bytes : list Z) : Frame :=
  let mem := splice 0 bytes (frame_header_bytes Frame_zero ++ garbage) in
  mk_Frame (mk_MAC (slice 0 6 mem)) (mk_MAC (slice 6 6 mem)) (leval (slice 12 2 mem))
    (drop 14 mem) (u32 (Z.of_nat (length bytes) - HEADER_SIZE)).

Module NIC.
Section nic.
Context (k : kind) `{Engine k}.

(** [location()] calls [get_location()]. *)
Definition get_location : M nics effect Z :=
  match k with SHM => on_ipc Shm.get_location | RAW => gets quadrant end.
Definition location : M nics effect Z := get_location.
Definition address : M nics effect MAC := gets engine_address.

(** [init_nic]: the threads it starts are the turns below; the thread that
    changes quadrants runs on an external NIC that is not fixed. *)
Definition init_nic (fixed : bool) : M nics effect unit :=
  match k with SHM => mret tt | RAW => modify (set_fixed fixed) end.

(** [attach]/[detach] of the protocol, the NIC's only observer. *)
Definition attach (prot : Z) : M nics effect unit :=
  modify (λ s, set_obs k (Observer.attach (Some tt) prot (get_obs k s)) s).
Definition detach (prot : Z) : M nics effect unit :=
  modify (λ s, set_obs k (Observer.detach (Some tt) prot (get_obs k s)) s).

Definition new_buffer (b : fbuf) : M nics effect nat :=
  s ← get;
  _ ← put (bump_buf (set_heap (<[next_buf s := b]> (heap s)) s));
  mret (next_buf s).

Definition alloc (src dst : MAC) (prot size : Z) : M nics effect (option nat) :=
  if decide (ETH_MTU < size) then mret None else
  id ← new_buffer (mk_fbuf (Some (mk_Frame dst src prot (fdata Frame_zero) size)) 0 0 false);
  mret (Some id).

(** [delete buf]: undefined on an object that is not live. *)
Definition delete_buffer (id : nat) : M nics effect unit :=
  s ← get;
  match heap s !! id with
  | None => undefined
  | Some _ => put (set_heap (delete id (heap s)) s)
  end.

Definition free (id : nat) : M nics effect unit :=
  s ← get;
  b ← checked (heap s !! id);
  _ ← (match fb_own b, k with
       | None, SHM => on_ipc (release_frame (me s) (fb_seq b))
       | _, _ => mret tt
       end);
  delete_buffer id.

Definition data (id : nat) : M nics effect Frame :=
  s ← get;
  b ← checked (heap s !! id);
  checked (buf_frame s b).

(** Write the frame of an owning buffer through [data()]. *)
Definition write_data (id : nat) (f : Frame) : M nics effect unit :=
  s ← get;
  b ← checked (heap s !! id);
  match fb_own b with
  | Some _ => put (set_heap (<[id := mk_fbuf (Some f) (fb_slot b) (fb_seq b) (fb_quad b)]> (heap s)) s)
  | None => undefined
  end.

(** [send(FrameBuffer* )]; the call with a null buffer returns -1. *)
Definition send (e : netenv) (buf : option nat) : M nics effect Z :=
  match buf with
  | None => mret (-1)
  | Some id =>
      f ← data id;
      engine_send e (shost f) (dhost f) (ftype f) (fdata f) (data_length f)
  end.

(** The comparison reads the first byte of the data, whatever its length. *)
Definition filter_location (id : nat) : M nics effect bool :=
  f ← data id;
  loc ← location;
  mret (negb (bool_decide (Packet.location (fdata f) = loc))).

(** Shared-memory services; the raw-socket instantiation has none. *)
Definition set_session_key (key : Z) : M nics effect unit :=
  match k with SHM => on_ipc (Shm.set_session_key key) | RAW => mret tt end.
Definition get_session_key : M nics effect Z :=
  match k with SHM => on_ipc Shm.get_session_key
  | RAW => throw "Session key should be located at NIC<ShmEngine" end.
Definition register_nearby_entity (a : MAC) : M nics effect unit :=
  match k with SHM => on_ipc (Shm.register_nearby_entity a) | RAW => mret tt end.
Definition unregister_nearby_entity (a : MAC) : M nics effect unit :=
  match k with SHM => on_ipc (Shm.unregister_nearby_entity a) | RAW => mret tt end.
Definition reset_entities_nearby : M nics effect unit :=
  match k with SHM => on_ipc Shm.reset_entities_nearby | RAW => mret tt end.
Definition is_entity_nearby (a : MAC) : M nics effect bool :=
  match k with SHM => on_ipc (Shm.is_entity_nearby a) | RAW => mret false end.
Definition get_entities_nearby : M nics effect (list MAC) :=
  match k with SHM => on_ipc Shm.get_entities_nearby | RAW => mret [] end.
Definition set_location (q : Z) : M nics effect unit :=
  match k with SHM => on_ipc (Shm.set_location q) | RAW => modify (set_quadrant q) end.
Definition registerComponentService (pid : Z) (name : list Z) (type_id : Z) : M nics effect Z :=
  on_ipc (Shm.registerService pid name type_id).
Definition lookupByType (type_id : Z) : M nics effect Z := on_ipc (Shm.lookupServiceByType type_id).
Definition set_fixed_location (is_fixed : bool) : M nics effect unit := modify (set_fixed is_fixed).
End nic.

(** ** Receiving

    [notify] ends in the protocol's [update], which works on the whole state
    [S] of the process; [update k prot id] is that call. *)
Section receiving.
Context {S : Type} (view : S → nics) (upd : nics → S → S).
Context (update : kind → Z → nat → M S effect unit).

Definition on_nics {A} (m : M nics effect A) : M S effect A := zoom view upd m.

Definition notify (k : kind) (prot : Z) (id : nat) : M S effect bool :=
  obs ← gets (λ s, get_obs k (view s));
  Observer.notify (λ _, update k prot id) prot obs.

(** One turn of the loop of [handle_receive] (raw socket): [false] when the
    socket is empty. *)
Definition receive_one (garbage : list Z) : M S effect bool :=
  r ← on_nics (RawSocketEngine.receive 1514);
  match r with
  | None => mret false
  | Some bytes =>
      if decide (length bytes = 0%nat) then mret false else
      let f := frame_of_bytes garbage bytes in
      mac ← on_nics (address RAW);
      if mac_eqb (shost f) mac then mret true else
      id ← on_nics (new_buffer (mk_fbuf (Some f) 0 0 false));
      drop ← on_nics (filter_location RAW id);
      if (drop : bool) then _ ← on_nics (free RAW id); mret true else
      handled ← notify RAW (ntohs (ftype f)) id;
      _ ← (if (handled : bool) then mret tt else on_nics (delete_buffer id));
      mret true
  end.
Fixpoint handle_receive (fuel : nat) (garbage : list Z) : M S effect unit :=
  match fuel with
  | O => mret tt
  | Datatypes.S fuel =>
      more ← receive_one garbage;
      if (more : bool) then handle_receive fuel garbage else mret tt
  end.

(** One turn of [_receiver_thread] (shared memory). *)
Definition receiver_turn (eintr : bool) : M S effect unit :=
  s ← gets view;
  r ← on_nics (on_ipc (receive_zerocopy (me s) eintr (next_seq s)));
  match r with
  | None => mret tt
  | Some slot =>
      ms ← gets (λ s, buffer (blk (ipc (view s))) !! slot);
      ms ← checked ms;
      _ ← on_nics (modify (set_next_seq (u64 (next_seq s + 1))));
      id ← on_nics (new_buffer (mk_fbuf None slot (slot_seq ms) false));
      handled ← notify SHM (ntohs (ftype (slot_frame ms))) id;
      if (handled : bool) then mret tt else on_nics (free SHM id)
  end.

(** The dirty buffer that announces a change of quadrant; [notify]'s result is
    ignored. *)
Definition ETHER_TYPE : Z := 0x88B5.
Definition protocol_quadrant_change : M S effect unit :=
  mac ← on_nics (address RAW);
  r ← on_nics (alloc mac mac ETHER_TYPE 0);
  match r with
  | None => mret tt
  | Some id =>
      _ ← on_nics (modify (λ s, set_heap (alter (λ b, mk_fbuf (fb_own b) (fb_slot b) (fb_seq b) true)
                                            id (heap s)) s));
      _ ← notify RAW ETHER_TYPE id;
      mret tt
  end.

(** One move of [_quadrant_changer]: [draws] are the generator's numbers; the
    first one that differs from the current quadrant is taken. *)
Fixpoint pick_quadrant (current : Z) (draws : list Z) : option Z :=
  match draws with
  | [] => None
  | q :: draws => if decide (q = current) then pick_quadrant current draws else Some q
  end.
Definition quadrant_changer_turn (draws : list Z) : M S effect unit :=
  s ← gets view;
  match pick_quadrant (quadrant s) draws with
  | None => blocked
  | Some q => _ ← on_nics (set_location RAW q); protocol_quadrant_change
  end.
End receiving.
End NIC.
