(* ===== verification/Lifecycle.v ===== *)
(** Starting and stopping: the socket a [RawSocketEngine] owns
    ([engines/raw_socket_engine.hpp]) and the threads of a NIC
    ([api/network/nic.hpp]) and of the synchronisation timer
    ([ptp/ptp_timer_thread.hpp]), interleaved with the thread that destroys
    them. *)
From S2P Require Import Prelude Ethernet.
Local Open Scope Z_scope.

(** ** The raw socket *)

Module RawSocket.
(** The answers of the system calls: [None] and [false] are failures, [errno]
    their description. *)
Record kernel := mk_kernel {
  k_socket : option Z;
  k_setown : bool;
  k_getfl : option Z;
  k_setfl : bool;
  k_ifindex : option Z;
  k_hwaddr : option MAC;
  k_bind : bool;
  k_errno : string
}.

Record sockaddr_ll := mk_sockaddr {
  sll_family : Z;
  sll_protocol : Z;     (* never assigned *)
  sll_ifindex : Z;
  sll_halen : Z
}.

(** The object, with the descriptors the process has open and, for the socket,
    its owner, flags and address. *)
Record t := mk {
  fds : gset Z;
  sock : Z;
  owned : bool;
  flags : Z;
  sockaddr : sockaddr_ll;
  my_mac : MAC;
  bound : option sockaddr_ll
}.

Definition O_NONBLOCK : Z := 0x800.
Definition O_ASYNC : Z := 0x2000.
Definition AF_PACKET : Z := 17.
Definition ETH_ALEN : Z := 6.
Definition ifname : string := "eth0".

Abbreviation R := (M t unit).

Definition close : R unit := modify (λ s,
  mk (fds s ∖ {[sock s]}) (sock s) (owned s) (flags s) (sockaddr s) (my_mac s) (bound s)).
Definition close_throw (msg : string) : R unit := _ ← close; throw msg.

Definition construct (k : kernel) : R unit :=
  match k_socket k with
  | None => throw "Failed to create raw socket"
  | Some fd =>
      _ ← modify (λ s, mk (fds s ∪ {[fd]}) fd (owned s) (flags s) (sockaddr s) (my_mac s) (bound s));
      if negb (k_setown k) then close_throw "Failed to set socket owner (F_SETOWN)" else
      _ ← modify (λ s, mk (fds s) (sock s) true (flags s) (sockaddr s) (my_mac s) (bound s));
      match k_getfl k with
      | None => close_throw "Failed to get socket flags (F_GETFL)"
      | Some fl =>
          if negb (k_setfl k) then close_throw "Failed to set non-blocking/async flags (F_SETFL)" else
          _ ← modify (λ s, mk (fds s) (sock s) (owned s) (Z.lor (Z.lor fl O_NONBLOCK) O_ASYNC)
                             (sockaddr s) (my_mac s) (bound s));
          match k_ifindex k with
          | None => close_throw ("Failed to get interface index for " +:+ ifname +:+ ": " +:+ k_errno k)
          | Some i =>
              _ ← modify (λ s, mk (fds s) (sock s) (owned s) (flags s)
                                 (mk_sockaddr AF_PACKET (sll_protocol (sockaddr s)) i ETH_ALEN)
                                 (my_mac s) (bound s));
              match k_hwaddr k with
              | None => close_throw ("Failed to get MAC address for " +:+ ifname +:+ ": " +:+ k_errno k)
              | Some mac =>
                  _ ← modify (λ s, mk (fds s) (sock s) (owned s) (flags s) (sockaddr s) mac (bound s));
                  if negb (k_bind k)
                  then close_throw ("Failed to bind raw socket to interface " +:+ ifname)
                  else modify (λ s, mk (fds s) (sock s) (owned s) (flags s) (sockaddr s) (my_mac s)
                                      (Some (sockaddr s)))
              end
          end
      end
  end.

Definition destroy : R unit :=
  s ← get; if decide (0 ≤ sock s) then close else mret tt.

(** Every answer is a success. *)
Definition all_ok (k : kernel) : Prop :=
  is_Some (k_socket k) ∧ k_setown k = true ∧ is_Some (k_getfl k) ∧ k_setfl k = true ∧
  is_Some (k_ifindex k) ∧ is_Some (k_hwaddr k) ∧ k_bind k = true.
End RawSocket.

Lemma flag_nonblock fl : Z.testbit (Z.lor (Z.lor fl RawSocket.O_NONBLOCK) RawSocket.O_ASYNC) 11 = true.
Proof. rewrite !Z.lor_spec. change (Z.testbit RawSocket.O_NONBLOCK 11) with true. by rewrite orb_true_r. Qed.
Lemma flag_async fl : Z.testbit (Z.lor (Z.lor fl RawSocket.O_NONBLOCK) RawSocket.O_ASYNC) 13 = true.
Proof. rewrite !Z.lor_spec. change (Z.testbit RawSocket.O_ASYNC 13) with true. by rewrite orb_true_r. Qed.


Definition kernel0 (bind_ok : bool) : RawSocket.kernel :=
  RawSocket.mk_kernel (Some 3) true (Some 2) true (Some 2) (Some (mk_MAC [2; 0; 0; 0; 0; 1])) bind_ok "".
Definition object0 : RawSocket.t :=
  RawSocket.mk {[0; 1; 2]} 0 false 0 (RawSocket.mk_sockaddr 0 0 0 0) MAC_default None.


(** ** Threads that are asked to stop

    A system is given by its possible next states when nothing happens
    outside; [effort] bounds how often it moves. *)
Section runs.
Context {S : Type} (next : S → list S) (inv : S → Prop) (effort : S → nat).
Context (next_inv : ∀ s s', inv s → s' ∈ next s → inv s').
Context (next_effort : ∀ s s', inv s → s' ∈ next s → (effort s' < effort s)%nat).

Definition moves (s s' : S) : Prop := s' ∈ next s.

Lemma runs_bounded s : inv s → ∀ n s', nsteps moves n s s' → (n ≤ effort s)%nat.
Proof using next_inv next_effort.
  intros Hi n s' Hn. induction Hn as [|n s0 s1 s2 Hs _ IH]; [lia|].
  specialize (IH (next_inv _ _ Hi Hs)). pose proof (next_effort _ _ Hi Hs). lia.
Qed.

(** However it moves, it comes to rest, and the rest states are the maximal ones. *)
Lemma runs_rest s : inv s → ∃ s', rtc moves s s' ∧ next s' = [] ∧ inv s'.
Proof using next_inv next_effort.
  remember (effort s) as n eqn:Hn. revert s Hn. induction (lt_wf n) as [n _ IH]. intros s -> Hi.
  destruct (next s) as [|s1 l] eqn:He; [by exists s|].
  assert (s1 ∈ next s) as Hs1 by (rewrite He; set_solver).
  destruct (IH (effort s1)) with (s := s1) as (s' & Hs' & Hr); [by apply next_effort|done|by eapply next_inv|].
  exists s'. split; [by eapply rtc_l|done].
Qed.
End runs.

(** [NIC<RawSocketEngine>]: the signal waiter, the quadrant changer if there is
    one, and the destructor. *)
Module RawNic.
Inductive waiter := WTest | WSigwait | WHandle | WDone.
Inductive changer := QNone | QSleep | QTest | QMove | QDone.
Inductive owner := OAlive | OFlagged | OJoinSignal | OJoinChanger | OReturned.

Record t := mk { running : bool; pending : bool; w : waiter; q : changer; o : owner }.

Definition waiter_next (s : t) : list t :=
  match w s with
  | WTest => [mk (running s) (pending s) (if running s then WSigwait else WDone) (q s) (o s)]
  | WSigwait => if pending s then [mk (running s) false WHandle (q s) (o s)] else []
  | WHandle => [mk (running s) (pending s) WTest (q s) (o s)]
  | WDone => []
  end.
Definition changer_next (s : t) : list t :=
  match q s with
  | QSleep => [mk (running s) (pending s) (w s) QTest (o s)]
  | QTest => [mk (running s) (pending s) (w s) (if running s then QMove else QDone) (o s)]
  | QMove => [mk (running s) (pending s) (w s) QSleep (o s)]
  | QNone | QDone => []
  end.
(** [~NIC]: lower [_running], [pthread_kill], join, join. *)
Definition owner_next (s : t) : list t :=
  match o s with
  | OAlive | OReturned => []
  | OFlagged => [mk (running s) true (w s) (q s) OJoinSignal]
  | OJoinSignal => match w s with WDone => [mk (running s) (pending s) (w s) (q s) OJoinChanger] | _ => [] end
  | OJoinChanger =>
      match q s with QNone | QDone => [mk (running s) (pending s) (w s) (q s) OReturned] | _ => [] end
  end.
Definition next (s : t) : list t := waiter_next s ++ changer_next s ++ owner_next s.

Definition init_nic (fixed_location : bool) : t :=
  mk true false WTest (if fixed_location then QNone else QSleep) OAlive.
Definition destroy (s : t) : t := mk false (pending s) (w s) (q s) OFlagged.
(** The kernel signals a packet. *)
Definition signal (s : t) : t := mk (running s) true (w s) (q s) (o s).

(** Being destroyed: the flag is down, and a thread that the signal was meant
    for has it pending or has left [sigwait]. *)
Definition stopping (s : t) : Prop :=
  running s = false ∧ o s ≠ OAlive ∧
  (o s = OFlagged ∨ w s ≠ WSigwait ∨ pending s = true) ∧
  (o s = OJoinChanger ∨ o s = OReturned → w s = WDone) ∧
  (o s = OReturned → q s = QNone ∨ q s = QDone).
Definition effort (s : t) : nat :=
  match w s with WSigwait => 3 | WHandle => 2 | WTest => 1 | WDone => 0 end +
  match q s with QMove => 3 | QSleep => 2 | QTest => 1 | _ => 0 end +
  match o s with OFlagged => 3 | OJoinSignal => 2 | OJoinChanger => 1 | _ => 0 end.
End RawNic.

Ltac cases_next H :=
  unfold RawNic.next in H; rewrite !elem_of_app in H; destruct H as [H|[H|H]];
  unfold RawNic.waiter_next, RawNic.changer_next, RawNic.owner_next in H; simpl in H;
  repeat case_match; simplify_eq/=; rewrite ?elem_of_cons, ?elem_of_nil in H; destruct_or?; simplify_eq/=.

Lemma raw_stopping_next s s' : RawNic.stopping s → s' ∈ RawNic.next s → RawNic.stopping s'.
Proof.
  destruct s as [r p w q o]. intros (Hr & Ho & Hp & Hw & Hq) Hs. simpl in *. subst r.
  cases_next Hs; unfold RawNic.stopping; simpl; naive_solver.
Qed.
Lemma raw_effort_next s s' : RawNic.stopping s → s' ∈ RawNic.next s → (RawNic.effort s' < RawNic.effort s)%nat.
Proof.
  destruct s as [r p w q o]. intros (Hr & Ho & Hp & Hw & Hq) Hs. simpl in *. subst r.
  cases_next Hs; unfold RawNic.effort; simpl; try lia; naive_solver lia.
Qed.

Lemma raw_rest s : RawNic.stopping s → RawNic.next s = [] → RawNic.o s = RawNic.OReturned.
Proof.
  destruct s as [r p w q o]. intros (Hr & Ho & Hp & Hw & Hq) Hs. simpl in *. subst r.
  unfold RawNic.next, RawNic.waiter_next, RawNic.changer_next, RawNic.owner_next in Hs. simpl in Hs.
  repeat case_match; simplify_eq/=; naive_solver.
Qed.


(** A waiter that has tested the flag just before it is lowered. *)
Definition about_to_wait : RawNic.t := RawNic.mk true false RawNic.WSigwait RawNic.QSleep RawNic.OAlive.

(** [NIC<ShmEngine>]: the receiving thread and the destructor, which has no
    means of waking it. *)
Module ShmNic.
Inductive receiver := RTest | RWait | RHandle | RDone.
Inductive owner := OAlive | OJoin | OReturned.
(** [tokens] is the client's semaphore; the set may have been removed. *)
Record t := mk { running : bool; tokens : nat; removed : bool; r : receiver; o : owner }.

Definition receiver_next (s : t) : list t :=
  match r s with
  | RTest => [mk (running s) (tokens s) (removed s) (if running s then RWait else RDone) (o s)]
  | RWait =>
      if removed s then [mk (running s) (tokens s) (removed s) RHandle (o s)]
      else match tokens s with
           | O => []
           | S n => [mk (running s) n (removed s) RHandle (o s)]
           end
  | RHandle => [mk (running s) (tokens s) (removed s) RTest (o s)]
  | RDone => []
  end.
Definition owner_next (s : t) : list t :=
  match o s, r s with
  | OJoin, RDone => [mk (running s) (tokens s) (removed s) (r s) OReturned]
  | _, _ => []
  end.
Definition next (s : t) : list t := receiver_next s ++ owner_next s.

Definition init_nic : t := mk true 0 false RTest OAlive.
Definition destroy (s : t) : t := mk false (tokens s) (removed s) (r s) OJoin.
(** Somebody sends a message; the last process to leave removes the semaphores. *)
Definition post (s : t) : t := mk (running s) (S (tokens s)) (removed s) (r s) (o s).
Definition remove (s : t) : t := mk (running s) (tokens s) true (r s) (o s).

Definition stopping (s : t) : Prop := running s = false ∧ o s ≠ OAlive ∧ (o s = OReturned → r s = RDone).
Definition effort (s : t) : nat :=
  match r s with RWait => 3 | RHandle => 2 | RTest => 1 | RDone => 0 end +
  match o s with OJoin => 1 | _ => 0 end.
End ShmNic.

Lemma shm_stopping_next s s' :
  ShmNic.stopping s → s' ∈ ShmNic.next s →
  ShmNic.stopping s' ∧ (ShmNic.effort s' < ShmNic.effort s)%nat.
Proof.
  destruct s as [ru n rm r o]. intros (Hr & Ho & Hd) Hs. simpl in *. subst ru.
  unfold ShmNic.next, ShmNic.receiver_next, ShmNic.owner_next in Hs. simpl in Hs.
  repeat case_match; simplify_eq/=; rewrite ?elem_of_cons, ?elem_of_nil in Hs; destruct_or?; simplify_eq/=;
    unfold ShmNic.stopping, ShmNic.effort; simpl; naive_solver lia.
Qed.

(** Asleep on an empty semaphore. *)
Definition asleep (s : ShmNic.t) : Prop :=
  ShmNic.r s = ShmNic.RWait ∧ ShmNic.tokens s = 0%nat ∧ ShmNic.removed s = false.

Lemma shm_stopping_inv s s' : ShmNic.stopping s → s' ∈ ShmNic.next s → ShmNic.stopping s'.
Proof. intros. by apply (shm_stopping_next s s'). Qed.
Lemma shm_effort_next s s' :
  ShmNic.stopping s → s' ∈ ShmNic.next s → (ShmNic.effort s' < ShmNic.effort s)%nat.
Proof. intros. by apply (shm_stopping_next s s'). Qed.
Lemma shm_destroy_stopping s : ShmNic.stopping (ShmNic.destroy s).
Proof. by destruct s. Qed.

(** Once the flag is down nobody begins to wait, so it stays awake. *)
Lemma shm_awake_next s s' :
  ShmNic.stopping s ∧ ¬ asleep s → s' ∈ ShmNic.next s → ShmNic.stopping s' ∧ ¬ asleep s'.
Proof.
  intros [Hi Ha] Hs. split; [by eapply shm_stopping_inv|]. revert Hi Ha Hs.
  destruct s as [ru n rm r o]. intros (Hr & Ho & Hd) Ha Hs. unfold asleep in *. simpl in *. subst ru.
  unfold ShmNic.next, ShmNic.receiver_next, ShmNic.owner_next in Hs. simpl in Hs.
  repeat case_match; simplify_eq/=; rewrite ?elem_of_cons, ?elem_of_nil in Hs; destruct_or?; simplify_eq/=;
    naive_solver.
Qed.

Lemma shm_awake_rest s :
  ShmNic.stopping s ∧ ¬ asleep s → ShmNic.next s = [] → ShmNic.o s = ShmNic.OReturned.
Proof.
  destruct s as [ru n rm r o]. intros [(Hr & Ho & Hd) Ha] Hs. unfold asleep in Ha. simpl in *. subst ru.
  unfold ShmNic.next, ShmNic.receiver_next, ShmNic.owner_next in Hs. simpl in Hs.
  repeat case_match; simplify_eq/=; naive_solver.
Qed.

(** Awake while stopping, it returns, however it moves. *)
Lemma shm_awake_returns s :
  ShmNic.stopping s → ¬ asleep s →
  (∀ s', rtc (moves ShmNic.next) s s' → ShmNic.next s' = [] → ShmNic.o s' = ShmNic.OReturned) ∧
  ∃ s', rtc (moves ShmNic.next) s s' ∧ ShmNic.o s' = ShmNic.OReturned.
Proof.
  intros Hi Ha. split.
  - intros s' Hs. apply shm_awake_rest. clear -Hs Hi Ha.
    induction Hs as [|x y z Hm _ IH]; [done|]. destruct (shm_awake_next x y) as [? ?]; auto.
  - destruct (runs_rest ShmNic.next (λ s, ShmNic.stopping s ∧ ¬ asleep s) ShmNic.effort shm_awake_next) with (s := s)
      as (s' & Hs & Hn & Hr); [intros x y [? _]; by apply shm_effort_next|done|].
    exists s'. split; [done|by apply shm_awake_rest].
Qed.

(** C38. Destroying an internal NIC returns exactly when its receiving thread
    is not asleep: the destructor's run, at most four moves long, ends with
    both threads joined, except when the thread waits on an empty semaphore;
    then nothing moves at all until somebody sends another message (or removes
    the semaphores), after which it returns. *)
Theorem shm_nic_stops (s : ShmNic.t) :
  let d := ShmNic.destroy s in
  (∀ n s', nsteps (moves ShmNic.next) n d s' → (n ≤ 4)%nat) ∧
  (asleep s → (∀ s', rtc (moves ShmNic.next) d s' → s' = d ∧ ShmNic.o s' = ShmNic.OJoin) ∧
     ∀ d', d' = ShmNic.post d ∨ d' = ShmNic.remove d →
       ∃ s', rtc (moves ShmNic.next) d' s' ∧ ShmNic.o s' = ShmNic.OReturned) ∧
  (¬ asleep s → (∀ s', rtc (moves ShmNic.next) d s' → ShmNic.next s' = [] → ShmNic.o s' = ShmNic.OReturned) ∧
     ∃ s', rtc (moves ShmNic.next) d s' ∧ ShmNic.o s' = ShmNic.OReturned).
Proof.
  intros d. pose proof (shm_destroy_stopping s) as Hd. fold d in Hd. split; [|split].
  - intros n s' Hn.
    pose proof (runs_bounded ShmNic.next ShmNic.stopping ShmNic.effort shm_stopping_inv shm_effort_next d Hd n s' Hn).
    assert (ShmNic.effort d ≤ 4)%nat; [|lia].
    unfold ShmNic.effort. destruct (ShmNic.r d), (ShmNic.o d); lia.
  - intros (Hw & Ht & Hm). split.
    + intros s' Hs. assert (ShmNic.next d = []) as Hn.
      { subst d. destruct s as [ru n rm r o]. simpl in *. by subst. }
      assert (ShmNic.o d = ShmNic.OJoin) as Ho by done. clearbody d.
      destruct Hs as [|x y z Hs _]; [done|]. unfold moves in Hs. rewrite Hn in Hs. set_solver.
    + intros d' Hd'. apply shm_awake_returns; [by destruct Hd' as [-> | ->]|].
      destruct Hd' as [-> | ->]; unfold asleep; simpl; naive_solver.
  - intros Ha. apply shm_awake_returns; [done|]. intros (? & ? & ?). apply Ha. by destruct s.
Qed.

Definition nic_asleep : ShmNic.t := ShmNic.mk true 0 false ShmNic.RWait ShmNic.OAlive.
Definition nic_handling : ShmNic.t := ShmNic.mk true 0 false ShmNic.RHandle ShmNic.OAlive.
Lemma shm_nic_stops_witness :
  rtc (moves ShmNic.next) ShmNic.init_nic nic_asleep ∧
  (∀ s', rtc (moves ShmNic.next) (ShmNic.destroy nic_asleep) s' → ShmNic.o s' ≠ ShmNic.OReturned) ∧
  ∃ s', rtc (moves ShmNic.next) (ShmNic.destroy nic_handling) s' ∧ ShmNic.o s' = ShmNic.OReturned.
Proof.
  split; [apply rtc_once; vm_compute; left|]. split.
  - destruct (shm_nic_stops nic_asleep) as (_ & Hs & _).
    destruct Hs as [Hs _]; [by repeat split|]. intros s' Hr. destruct (Hs s' Hr) as [_ ->]. discriminate.
  - destruct (shm_nic_stops nic_handling) as (_ & _ & Hs). apply Hs. intros (Hw & _). discriminate.
Defined.

(** [PtpTimerThread]: [start], the thread's loop, [stop] and its destructor.
    [requests] counts the calls of [request_synchronization]. *)
Module Timer.
Inductive thread := TNone | TFirst | TRequest0 | TTest | TSleep | TRetest | TRequest | TDone.
Inductive owner := OAlive | OJoin | OReturned.
Record t := mk { running : bool; th : thread; o : owner; requests : nat }.

Definition construct : t := mk false TNone OAlive 0.
Definition start (s : t) : t := mk true TFirst (o s) (requests s).
(** A second [stop] finds nothing to join. *)
Definition stop (s : t) : t :=
  mk false (th s) (match th s with TNone => OReturned | _ => OJoin end) (requests s).
Definition thread_next (s : t) : list t :=
  let goto th' := [mk (running s) th' (o s) (requests s)] in
  let request := [mk (running s) TTest (o s) (S (requests s))] in
  match th s with
  | TNone | TDone => []
  | TFirst => goto TRequest0
  | TRequest0 => request
  | TTest => if running s then goto TSleep else goto TDone
  | TSleep => goto TRetest
  | TRetest => if running s then goto TRequest else goto TDone
  | TRequest => request
  end.
Definition owner_next (s : t) : list t :=
  match o s, th s with
  | OJoin, TDone => [mk (running s) TNone OReturned (requests s)]
  | _, _ => []
  end.
Definition next (s : t) : list t := thread_next s ++ owner_next s.

Definition stopping (s : t) : Prop :=
  running s = false ∧ o s ≠ OAlive ∧ (o s = OReturned ↔ th s = TNone).
Definition effort (s : t) : nat :=
  match th s with
  | TFirst => 4 | TRequest0 | TRequest => 3 | TSleep => 3 | TRetest => 2 | TTest => 2 | TDone => 1 | TNone => 0
  end.
(** The requests the thread can still make. *)
Definition due (s : t) : nat := match th s with TFirst | TRequest0 | TRequest => 1 | _ => 0 end.
End Timer.

Ltac timer_cases Hs :=
  unfold Timer.next, Timer.thread_next, Timer.owner_next in Hs; simpl in Hs;
  repeat case_match; simplify_eq/=; rewrite ?elem_of_cons, ?elem_of_nil in Hs; destruct_or?; simplify_eq/=.

Lemma timer_stopping_inv s s' : Timer.stopping s → s' ∈ Timer.next s → Timer.stopping s'.
Proof.
  destruct s as [ru th o n]. intros (Hr & Ho & Hd) Hs. simpl in *. subst ru.
  timer_cases Hs; unfold Timer.stopping; simpl; naive_solver.
Qed.
Lemma timer_effort_next s s' : Timer.stopping s → s' ∈ Timer.next s → (Timer.effort s' < Timer.effort s)%nat.
Proof.
  destruct s as [ru th o n]. intros (Hr & Ho & Hd) Hs. simpl in *. subst ru.
  timer_cases Hs; unfold Timer.effort; simpl; lia.
Qed.
Lemma timer_due_next s s' :
  Timer.stopping s → s' ∈ Timer.next s → (Timer.requests s' + Timer.due s' = Timer.requests s + Timer.due s)%nat.
Proof.
  destruct s as [ru th o n]. intros (Hr & Ho & Hd) Hs. simpl in *. subst ru.
  timer_cases Hs; unfold Timer.due; simpl; lia.
Qed.
Lemma timer_requests_next s s' : s' ∈ Timer.next s → (Timer.requests s ≤ Timer.requests s')%nat.
Proof.
  destruct s as [ru th o n]. intros Hs. timer_cases Hs; simpl; lia.
Qed.
Lemma timer_rest s : Timer.stopping s → Timer.next s = [] → Timer.o s = Timer.OReturned ∧ Timer.due s = 0%nat.
Proof.
  destruct s as [ru th o n]. intros (Hr & Ho & Hd) Hs. simpl in *. subst ru.
  unfold Timer.next, Timer.thread_next, Timer.owner_next in Hs. simpl in Hs.
  repeat case_match; simplify_eq/=; naive_solver.
Qed.

(** Stopping the synchronisation timer always returns, from any state of
    its thread: at most four moves remain, rest means joined, and in the
    meantime exactly the requests that were already decided are made, the
    first one after [start] even when [stop] comes first, and otherwise at most
    the one whose test the thread had passed; after [stop] has returned
    nothing is requested. *)
Theorem timer_stops (s s' : Timer.t) (n : nat) :
  Timer.o s = Timer.OAlive →
  nsteps (moves Timer.next) n (Timer.stop s) s' →
  (n ≤ 4)%nat ∧
  (Timer.requests s ≤ Timer.requests s' ≤ Timer.requests s + Timer.due s)%nat ∧
  (Timer.next s' = [] → Timer.o s' = Timer.OReturned ∧ Timer.requests s' = Timer.requests s + Timer.due s)%nat ∧
  (Timer.o s' = Timer.OReturned → Timer.next s' = []) ∧
  ∃ s2, rtc (moves Timer.next) s' s2 ∧ Timer.o s2 = Timer.OReturned.
Proof.
  intros Ha Hn. assert (Timer.stopping (Timer.stop s)) as Hs.
  { destruct s as [? th ? ?]; simpl in *; subst. unfold Timer.stopping. destruct th; simpl; naive_solver. }
  assert (Timer.stopping s' ∧ (Timer.requests s' + Timer.due s' = Timer.requests s + Timer.due s)%nat
          ∧ (Timer.requests s ≤ Timer.requests s')%nat) as (Hs' & Hdue & Hge).
  { clear Ha. assert (Timer.requests (Timer.stop s) = Timer.requests s) as <- by done.
    assert (Timer.due (Timer.stop s) = Timer.due s) as <- by done. revert Hs Hn. generalize (Timer.stop s).
    intros x Hs Hn. induction Hn as [|n x y z Hm _ IH]; [done|].
    destruct (IH (timer_stopping_inv _ _ Hs Hm)) as (? & Hd & ?).
    pose proof (timer_due_next _ _ Hs Hm). split; [done|].
    pose proof (timer_requests_next _ _ Hm). lia. }
  split; [|split; [lia|split; [|split]]].
  - pose proof (runs_bounded Timer.next Timer.stopping Timer.effort timer_stopping_inv timer_effort_next
      _ Hs n s' Hn). assert (Timer.effort (Timer.stop s) ≤ 4)%nat; [|lia].
    unfold Timer.effort. destruct (Timer.th (Timer.stop s)); lia.
  - intros Hr. destruct (timer_rest s' Hs' Hr) as [? Hz]. split; [done|lia].
  - intros Hr. destruct Hs' as (_ & _ & Hd). apply Hd in Hr. destruct s'; simpl in *; subst.
    unfold Timer.next, Timer.owner_next; simpl. by case_match.
  - destruct (runs_rest Timer.next Timer.stopping Timer.effort timer_stopping_inv timer_effort_next s' Hs')
      as (s2 & Hr & Hn2 & Hi). exists s2. split; [done|]. by apply timer_rest.
Qed.

Lemma timer_stops_witness :
  let s := Timer.start Timer.construct in
  ∃ s', rtc (moves Timer.next) (Timer.stop s) s' ∧ Timer.o s' = Timer.OReturned.
Proof.
  intros s. apply (timer_stops s (Timer.stop s) 0); [reflexivity|constructor].
Defined.
