(* ===== verification/Monitor.v ===== *)
(** The leader's membership monitor as a thread: [monitor_loop] of
    [groups/group_leader_handler.hpp] cut where it waits and where it releases
    its mutex, interleaved with heartbeats, the passing of time and
    [stop_membership_monitor]. *)
From S2P Require Import Prelude Ethernet Packet Clock Group Lifecycle.
Local Open Scope Z_scope.

(** Where the monitor is. It holds [_mutex] in [MTest] and [MEvict]; the others
    hold it only within one step. *)
Inductive pc :=
  | MLock                                   (* unique_lock lock(_mutex) *)
  | MTest                                   (* while (_running) *)
  | MWait                                   (* _cv.wait *)
  | MPred                                   (* ... woken: its predicate *)
  | MUntil (e : Z)                          (* _cv.wait_until *)
  | MWoken (timed_out : bool)               (* ... and its result *)
  | MEvict (now : Z)                        (* the inner while, now read *)
  | MClean (now : Z) (n : Leader.node)      (* announced; lock.lock() and the clean up *)
  | MDone
  | MUndefined.
Inductive stopper := SNone | SNotify | SJoin | SReturned.
#[export] Instance stopper_eq_dec : EqDecision stopper.
Proof. solve_decision. Defined.

Record t := mk { leader : Leader.t; clock : Z; m : pc; st : stopper }.

Definition holding (x : pc) : bool := match x with MTest | MEvict _ => true | _ => false end.
Definition at_pc (x : pc) (s : t) : t := mk (leader s) (clock s) x (st s).
Definition with_leader (l : Leader.t) (s : t) : t := mk l (clock s) (m s) (st s).

(** [_cv.notify_one]: a wait whose time has passed may report either. *)
Definition wake (timed_out : bool) (s : t) : t :=
  match m s with
  | MWait => at_pc MPred s
  | MUntil e => at_pc (MWoken (timed_out && bool_decide (e ≤ clock s))) s
  | _ => s
  end.

Section monitor.
Context (e : env) (pad1 pad2 : Z) (ext : Address).

(** One step of the monitor's own. *)
Definition monitor_step (s : t) : option t :=
  let clients := Leader.clients_timeout (leader s) in
  match m s with
  | MLock => Some (at_pc MTest s)
  | MTest =>
      if Leader.running (leader s) then
        match clients with
        | [] => Some (at_pc MWait s)
        | n :: _ => Some (at_pc (MUntil (Leader.n_expiry n)) s)
        end
      else Some (at_pc MDone s)
  | MPred =>
      if negb (bool_decide (clients = [])) || negb (Leader.running (leader s))
      then Some (at_pc MTest s) else Some (at_pc MWait s)
  | MWoken true => Some (at_pc (MEvict (clock s)) s)
  | MWoken false => Some (at_pc MTest s)
  | MEvict now =>
      match Leader.monitor_pick e now pad1 pad2 ext (leader s) with
      | (Ret (Some n), l, _) => Some (at_pc (MClean now n) (with_leader l s))
      | (Ret None, l, _) => Some (at_pc MTest (with_leader l s))
      | (_, l, _) => Some (at_pc MUndefined (with_leader l s))
      end
  | MClean now n =>
      match Leader.monitor_clean n (leader s) with
      | (Ret _, l, _) => Some (at_pc (MEvict now) (with_leader l s))
      | (_, l, _) => Some (at_pc MUndefined (with_leader l s))
      end
  | MWait | MUntil _ | MDone | MUndefined => None
  end.

(** [wait_until] ends because its time has come. *)
Definition time_out (s : t) : option t :=
  match m s with
  | MUntil d => if decide (d ≤ clock s) then Some (at_pc (MWoken true) s) else None
  | _ => None
  end.

(** A join request arrives: [heartbeat_update], under the mutex throughout. *)
Definition heartbeat (client : Address) (timed_out : bool) (s : t) : option t :=
  if holding (m s) then None
  else match Leader.heartbeat_update (clock s) client (leader s) with
       | (Ret _, l, _) => Some (wake timed_out (with_leader l s))
       | (_, l, _) => Some (at_pc MUndefined (with_leader l s))
       end.

(** [stop_membership_monitor]: lower [_running] under the mutex, notify, join. *)
Definition stop (s : t) : option t :=
  match st s with
  | SNone =>
      if holding (m s) then None
      else Some (mk (Leader.stop_membership_monitor (leader s)).1.2 (clock s) (m s) SNotify)
  | _ => None
  end.
Definition stop_notify (timed_out : bool) (s : t) : option t :=
  match st s with
  | SNotify => let s' := wake timed_out s in Some (mk (leader s') (clock s') (m s') SJoin)
  | _ => None
  end.
Definition stop_join (s : t) : option t :=
  match st s, m s with
  | SJoin, MDone => Some (mk (leader s) (clock s) (m s) SReturned)
  | _, _ => None
  end.

Inductive action :=
  | AMonitor
  | ATimeout
  | ASpurious
  | AHeartbeat (client : Address) (timed_out : bool)
  | AStop
  | ANotify (timed_out : bool)
  | AJoin
  | ATick (d : N).

Definition act (a : action) (s : t) : option t :=
  match a with
  | AMonitor => monitor_step s
  | ATimeout => time_out s
  | ASpurious => match m s with MWait | MUntil _ => Some (wake false s) | _ => None end
  | AHeartbeat client b => heartbeat client b s
  | AStop => stop s
  | ANotify b => stop_notify b s
  | AJoin => stop_join s
  | ATick d => Some (mk (leader s) (clock s + Z.of_N d) (m s) (st s))
  end.

Fixpoint acts (l : list action) (s : t) : option t :=
  match l with [] => Some s | a :: l => s' ← act a s; acts l s' end.

(** The race of [Group.monitor_heartbeat_race]: the client that is being
    announced sends a heartbeat before its node is erased. *)
Definition renews (a : action) (s : t) : bool :=
  match a, m s with
  | AHeartbeat client _, MClean _ n => bool_decide (client = Leader.n_client n)
  | _, _ => false
  end.
Fixpoint no_renewal (l : list action) (s : t) : bool :=
  match l with
  | [] => true
  | a :: l => negb (renews a s) && from_option (no_renewal l) true (act a s)
  end.

(** [start_membership_monitor]. *)
Definition start (garbage now : Z) : t := mk (Leader.mk garbage [] ∅ 0 true) now MLock SNone.

(** What moves when nothing arrives and no time passes. *)
Definition next (s : t) : list t :=
  omap (λ a, act a s) [AMonitor; ATimeout; ANotify true; ANotify false; AJoin].

Definition expired (s : t) : list Leader.node :=
  filter (λ n, Leader.n_expiry n ≤ clock s) (Leader.clients_timeout (leader s)).
Definition effort (s : t) : nat :=
  let k := (2 * length (expired s))%nat in
  match m s with
  | MLock | MPred | MWoken false => k + 6
  | MTest => match expired s with [] => 1 | _ => k + 5 end
  | MUntil d => if decide (d ≤ clock s) then k + 4 else 0
  | MWoken true => k + 3
  | MEvict now => if decide (now = clock s) then k + 2 else k + 7
  | MClean now _ => if decide (now = clock s) then k + 1 else k + 6
  | MWait | MDone | MUndefined => 0
  end + match st s with SNotify => k + 8 | SJoin => 1 | _ => 0 end.

(** ** The invariant *)

(** What is known of the leader and the time at each place. *)
Definition pc_ok (l : Leader.t) (clk : Z) (x : pc) : Prop :=
  match x with
  | MClean now n => n ∈ Leader.clients_timeout l ∧ Leader.n_expiry n ≤ now ∧ now ≤ clk
  | MEvict now => now ≤ clk
  | MWait => Leader.clients_timeout l = []
  | MUntil d => ∀ n, n ∈ Leader.clients_timeout l → d ≤ Leader.n_expiry n
  | MUndefined => False
  | MDone => Leader.running l = false
  | _ => True
  end.
Definition pc_sleeps (x : pc) : bool := match x with MWait | MUntil _ => true | _ => false end.

Record monitor_ok (s : t) : Prop := {
  mo_leader : leader_ok (leader s);
  mo_pc : pc_ok (leader s) (clock s) (m s);
  mo_running : Leader.running (leader s) = bool_decide (st s = SNone);
  mo_awake : st s = SJoin → pc_sleeps (m s) = false;
  mo_returned : st s = SReturned → m s = MDone
}.

Lemma clean_any l n :
  leader_ok l → n ∈ Leader.clients_timeout l →
  ∃ l', Leader.monitor_clean n l = (Ret tt, l', []) ∧ leader_ok l' ∧
    Leader.running l' = Leader.running l ∧
    (∀ x, x ∈ Leader.clients_timeout l' ↔
       x ∈ Leader.clients_timeout l ∧ Leader.n_client x ≠ Leader.n_client n) ∧
    Leader.clients_timeout l' = filter (λ x, Leader.n_id x ≠ Leader.n_id n) (Leader.clients_timeout l).
Proof.
  intros Hok Hn. pose proof (lo_node l Hok n Hn) as Ha. eexists. split.
  { unfold Leader.monitor_clean. mstep. by rewrite (erase_run l _ _ Hok Ha). }
  assert (∀ x, x ∈ filter (λ x, Leader.n_id x ≠ Leader.n_id n) (Leader.clients_timeout l) ↔
    x ∈ Leader.clients_timeout l ∧ Leader.n_client x ≠ Leader.n_client n) as Hx
    by (intros x; by apply elem_of_erase).
  split; [|by split; [|split]].
  split; cbn -[filter].
  - by apply filter_sorted, Hok.
  - by apply filter_nodup, Hok.
  - intros x Hin. apply (lo_fresh l Hok). by apply Hx.
  - intros x Hin. apply Hx in Hin as [Hin Hc]. rewrite lookup_delete_ne by congruence. by apply Hok.
  - intros b id Hb. apply lookup_delete_Some in Hb as [Hne Hb].
    destruct (lo_look l Hok b id Hb) as (x & Hin & Hid & Hc). exists x.
    split; [|done]. apply Hx. split; [done|congruence].
Qed.

Lemma pick_run now l :
  ∃ es, Leader.monitor_pick e now pad1 pad2 ext l =
    (Ret (match Leader.clients_timeout l with
          | n :: _ => if decide (Leader.n_expiry n ≤ now) then Some n else None
          | [] => None
          end), l, es).
Proof.
  unfold Leader.monitor_pick. mstep. destruct (Leader.clients_timeout l) as [|n k]; [by eexists|].
  case_decide; [|by eexists]. unfold Leader.send_notify_left. erewrite bind_run by reflexivity. by eexists.
Qed.

Lemma earliest l n k :
  leader_ok l → Leader.clients_timeout l = n :: k → ∀ x, x ∈ n :: k → Leader.n_expiry n ≤ Leader.n_expiry x.
Proof.
  intros Hok Hl x Hx. pose proof (lo_sorted l Hok) as Hs. rewrite Hl in Hs. inversion Hs as [|? ? _ Hf]; subst.
  rewrite Forall_forall in Hf. apply elem_of_cons in Hx as [->|Hx]; [lia|by apply Hf].
Qed.

(** The monitor's own steps keep the invariant. *)
Lemma pc_move x y l clk stp :
  monitor_ok (mk l clk x stp) → x ≠ MDone → pc_ok l clk y → (pc_sleeps y = true → Leader.running l = true) →
  monitor_ok (mk l clk y stp).
Proof.
  intros [Hl Hp Hr Ha Hret] Hx Hy Hs. split; simpl in *; try done.
  - intros ->. destruct (pc_sleeps y); [|done]. by rewrite (Hs eq_refl) in Hr.
  - intros ->. by destruct (Hx (Hret eq_refl)).
Qed.

Lemma monitor_step_ok s s' : monitor_ok s → monitor_step s = Some s' → monitor_ok s'.
Proof.
  intros Hi Hs. pose proof (mo_leader s Hi) as Hl. pose proof (mo_pc s Hi) as Hp.
  unfold monitor_step in Hs. destruct s as [l clk x stp]; simpl in *.
  destruct x as [| | | |d|[]|now|now n| |]; try done.
  - simplify_eq. by eapply pc_move.
  - destruct (Leader.running l) eqn:Hrun; [|simplify_eq; by eapply pc_move].
    destruct (Leader.clients_timeout l) as [|n k] eqn:Hk; simplify_eq; eapply pc_move; try done.
    simpl. rewrite Hk. by apply (earliest l n k).
  - destruct (bool_decide (Leader.clients_timeout l = [])) eqn:Hb; simpl in Hs;
      [|simplify_eq; by eapply pc_move].
    apply bool_decide_eq_true in Hb. destruct (Leader.running l) eqn:Hrun; simpl in Hs; simplify_eq; by eapply pc_move.
  - simplify_eq. eapply pc_move; [done..|simpl; lia|done].
  - simplify_eq. by eapply pc_move.
  - destruct (pick_run now l) as [es He]. rewrite He in Hs.
    destruct (Leader.clients_timeout l) as [|n k] eqn:Hk; [|case_decide]; simplify_eq; eapply pc_move; try done.
    simpl. rewrite Hk. split; [set_solver|done].
  - destruct Hp as (Hn & Hexp & Hclk).
    destruct (clean_any l n Hl Hn) as (l' & Hcl & Hok & Hrun & _ & _). rewrite Hcl in Hs. simplify_eq.
    destruct Hi as [_ _ Hr Ha Hret]. simpl in *. split; simpl; try done; [by rewrite Hrun|].
    intros ->. by specialize (Hret eq_refl).
Qed.

Lemma wake_ok b s : monitor_ok s → monitor_ok (wake b s).
Proof.
  intros Hi. destruct s as [l clk x stp]; destruct x; try done; unfold wake; simpl; by eapply pc_move.
Qed.
Lemma wake_awake b s : pc_sleeps (m (wake b s)) = false.
Proof. unfold wake. destruct (m s) eqn:Hm; simpl; by rewrite ?Hm. Qed.
Lemma wake_leader b s : leader (wake b s) = leader s ∧ clock (wake b s) = clock s ∧ st (wake b s) = st s.
Proof. unfold wake. by destruct (m s). Qed.

Lemma heartbeat_ok client b s s' :
  monitor_ok s → act (AHeartbeat client b) s = Some s' → renews (AHeartbeat client b) s = false → monitor_ok s'.
Proof.
  intros [Hl Hp Hr Ha Hret] Hs Hren. unfold act, heartbeat in Hs. destruct (holding (m s)) eqn:Hh; [done|].
  destruct (heartbeat_run (clock s) client (leader s) Hl) as (k & Hrun & Hks & Hkd & Hk).
  rewrite Hrun in Hs. simplify_eq.
  pose proof (insert_ok (leader s) client (clock s + Leader.timeout_duration) k Hl Hks Hkd Hk) as Hok. simpl in Hok.
  destruct s as [l clk x stp]; simpl in *.
  destruct x as [| | | |d|?|now|now n| |]; try done; unfold wake; simpl; split; simpl; try done;
    try (intros ->; by specialize (Hret eq_refl)).
  destruct Hp as (Hn & Hexp & Hclk). split; [|done].
  apply elem_of_emplace. right. apply Hk. split; [done|]. apply bool_decide_eq_false in Hren. congruence.
Qed.

Lemma pc_ok_later l clk clk' x : clk ≤ clk' → pc_ok l clk x → pc_ok l clk' x.
Proof. intros Hle. destruct x; simpl; try done; [lia|]. intros (? & ? & ?). split; [done|]. lia. Qed.

Lemma act_ok a s s' : monitor_ok s → act a s = Some s' → renews a s = false → monitor_ok s'.
Proof.
  intros Hi Hs Hren.
  destruct a as [| | |client b| |b| |d]; try (unfold act, time_out, stop, stop_notify, stop_join in Hs).
  - by eapply monitor_step_ok.
  - destruct s as [l clk x stp]; simpl in *.
    destruct x; try done. case_decide; simplify_eq. by eapply pc_move.
  - simpl in Hs. destruct (m s); simplify_eq; by apply wake_ok.
  - by eapply heartbeat_ok.
  - destruct Hi as [Hl Hp Hr Ha Hret]. destruct s as [l clk x stp]; simpl in *.
    destruct stp; try done. destruct (holding x) eqn:Hh; simplify_eq. split; simpl; try done.
    + by destruct Hl; split.
    + by destruct x.
  - simpl in Hs. destruct (st s) eqn:Hst; try done. simplify_eq.
    destruct (wake_leader b s) as (Hwl & Hwc & Hws). destruct (wake_ok b s Hi) as [Hl Hp Hr Ha Hret].
    split; simpl; try done.
    + by rewrite Hr, Hws, Hst.
    + intros _. apply wake_awake.
  - destruct Hi as [Hl Hp Hr Ha Hret]. destruct s as [l clk x stp]; simpl in *.
    by destruct stp, x; simplify_eq; split.
  - destruct Hi as [Hl Hp Hr Ha Hret]. simpl in Hs. simplify_eq. split; simpl; try done.
    eapply pc_ok_later; [|done]. lia.
Qed.

Lemma start_ok garbage now : monitor_ok (start garbage now).
Proof.
  split; simpl; try done. split; simpl; try done; [constructor|constructor|..]; try set_solver.
Qed.

Lemma acts_ok l s s' : monitor_ok s → acts l s = Some s' → no_renewal l s = true → monitor_ok s'.
Proof.
  revert s. induction l as [|a l IH]; intros s Hi Hs Hn; simpl in *; [by simplify_eq|].
  destruct (act a s) as [s1|] eqn:Ha; [|done]. simpl in *. apply andb_prop in Hn as [Hren Hn].
  apply (IH s1); [|done|done]. apply (act_ok a s); [done..|]. by apply negb_true_iff.
Qed.

(** ** Coming to rest *)

Definition own (a : action) : Prop :=
  match a with AMonitor | ATimeout | ANotify _ | AJoin => True | _ => False end.
Lemma elem_of_next s s' : s' ∈ next s → ∃ a, own a ∧ act a s = Some s'.
Proof.
  unfold next. rewrite list_elem_of_omap. intros (a & Ha & Hs). exists a. split; [|done].
  repeat (apply elem_of_cons in Ha as [->|Ha]; [done|]). by apply not_elem_of_nil in Ha.
Qed.
Lemma next_ok s s' : monitor_ok s → s' ∈ next s → monitor_ok s'.
Proof.
  intros Hi Hs. apply elem_of_next in Hs as (a & Ha & Hs). apply (act_ok a s); [done..|].
  destruct a; try done.
Qed.

Lemma expired_nil s d :
  (∀ n, n ∈ Leader.clients_timeout (leader s) → d ≤ Leader.n_expiry n) → clock s < d → expired s = [].
Proof.
  intros Hd Hlt. apply filter_none, Forall_forall. intros n Hn. specialize (Hd n Hn). lia.
Qed.
Lemma clean_expired (l : list Leader.node) (clk : Z) n :
  n ∈ l → Leader.n_expiry n ≤ clk →
  Nat.lt (length (filter (λ x, Leader.n_expiry x ≤ clk) (filter (λ x, Leader.n_id x ≠ Leader.n_id n) l)))
    (length (filter (λ x, Leader.n_expiry x ≤ clk) l)).
Proof.
  intros Hn Hexp. rewrite list_filter_filter.
  rewrite (list_filter_iff _ (λ x, Leader.n_id x ≠ Leader.n_id n ∧ Leader.n_expiry x ≤ clk)) by (intros x; tauto).
  rewrite <- list_filter_filter. apply (length_filter_lt _ _ n); [by apply list_elem_of_filter|naive_solver].
Qed.

Lemma monitor_effort s s' :
  monitor_ok s → monitor_step s = Some s' → (effort s' < effort s)%nat.
Proof.
  intros Hi Hs. pose proof (mo_leader s Hi) as Hl. pose proof (mo_pc s Hi) as Hp.
  unfold monitor_step in Hs. destruct s as [l clk x stp]; simpl in *.
  destruct x as [| | | |d|[]|now|now n| |]; try done.
  - simplify_eq. unfold effort; simpl. unfold expired; simpl. destruct (filter _ _); simpl; destruct stp; lia.
  - destruct (Leader.running l) eqn:Hrun.
    2:{ simplify_eq. unfold effort; simpl. unfold expired; simpl. destruct (filter _ _); simpl; destruct stp; lia. }
    destruct (Leader.clients_timeout l) as [|n k] eqn:Hk; simplify_eq; unfold effort; simpl;
      unfold expired; simpl; rewrite Hk; [simpl; destruct stp; lia|].
    case_decide as Hexp; [|destruct (filter _ _); simpl; destruct stp; lia].
    rewrite filter_cons_True by done. simpl. destruct stp; lia.
  - assert (s' = at_pc MTest (mk l clk MPred stp) ∨ s' = at_pc MWait (mk l clk MPred stp)) as [-> | ->]
      by (case_match; simplify_eq; auto);
      unfold effort; simpl; unfold expired; simpl; destruct (filter _ _); simpl; destruct stp; lia.
  - simplify_eq. unfold effort; simpl. unfold expired; simpl. rewrite decide_True by done. destruct stp; lia.
  - simplify_eq. unfold effort; simpl. unfold expired; simpl. destruct (filter _ _); simpl; destruct stp; lia.
  - destruct (pick_run now l) as [es He]. rewrite He in Hs.
    destruct (Leader.clients_timeout l) as [|n k] eqn:Hk.
    { simplify_eq. unfold effort; simpl. unfold expired; simpl. rewrite Hk. simpl.
      case_decide; destruct stp; lia. }
    case_decide as Hexp; simplify_eq; unfold effort; simpl; unfold expired; simpl.
    + case_decide; destruct stp; lia.
    + case_decide as Hnow; [|destruct (filter _ _); simpl; destruct stp; lia]. subst now.
      rewrite filter_none; [simpl; destruct stp; lia|]. rewrite Hk. apply Forall_forall. intros x Hx.
      pose proof (earliest l n k Hl Hk x Hx). lia.
  - destruct Hp as (Hn & Hexp & Hclk).
    destruct (clean_any l n Hl Hn) as (l' & Hcl & Hok & Hrun & _ & Hf). rewrite Hcl in Hs. simplify_eq.
    unfold effort; simpl. unfold expired; simpl. rewrite Hf.
    pose proof (clean_expired (Leader.clients_timeout l) clk n Hn ltac:(lia)).
    case_decide; destruct stp; lia.
Qed.

Lemma next_effort s s' : monitor_ok s → s' ∈ next s → (effort s' < effort s)%nat.
Proof.
  intros Hi Hs. apply elem_of_next in Hs as (a & Ha & Hs).
  destruct a as [| | |client b| |b| |d]; try done; unfold act, time_out, stop_notify, stop_join in Hs.
  - by apply monitor_effort.
  - destruct s as [l clk x stp]; simpl in *. destruct x; try done. case_decide; simplify_eq.
    unfold effort; simpl. rewrite decide_True by done. unfold expired; simpl. destruct stp; lia.
  - simpl in Hs. destruct s as [l clk x stp]; simpl in *. destruct stp; try done. simplify_eq.
    unfold wake. destruct x; unfold effort; simpl; unfold expired; simpl; try lia.
    + destruct (b && _); simpl; case_decide; lia.
  - destruct s as [l clk x stp]; simpl in *. destruct stp, x; simplify_eq. unfold effort; simpl. lia.
Qed.

(** Clients that are not due stay, and nobody is added. *)
Definition keeps_clients (s s' : t) : Prop :=
  clock s' = clock s ∧
  (∀ n, n ∈ Leader.clients_timeout (leader s') → n ∈ Leader.clients_timeout (leader s)) ∧
  (∀ n, n ∈ Leader.clients_timeout (leader s) → clock s < Leader.n_expiry n →
        n ∈ Leader.clients_timeout (leader s')) ∧
  (st s' = SNone ↔ st s = SNone).

Lemma keeps_same s s' :
  clock s' = clock s → leader s' = leader s → (st s' = SNone ↔ st s = SNone) → keeps_clients s s'.
Proof. intros Hc Hl Hs. unfold keeps_clients. by rewrite Hl. Qed.

Lemma next_keeps s s' : monitor_ok s → s' ∈ next s → keeps_clients s s'.
Proof.
  intros Hi Hs. pose proof (mo_leader s Hi) as Hl. pose proof (mo_pc s Hi) as Hp.
  apply elem_of_next in Hs as (a & Ha & Hs). destruct a as [| | |client b| |b| |d]; try done;
    unfold act, time_out, stop_notify, stop_join in Hs.
  - unfold monitor_step in Hs. destruct s as [l clk x stp]; simpl in *.
    destruct x as [| | | |d|[]|now|now n| |]; try done;
      try (repeat case_match; simplify_eq; by apply keeps_same).
    + destruct (pick_run now l) as [es He]. rewrite He in Hs. repeat case_match; simplify_eq; by apply keeps_same.
    + destruct Hp as (Hn & Hexp & Hclk).
      destruct (clean_any l n Hl Hn) as (l' & Hcl & _ & _ & _ & Hf). rewrite Hcl in Hs. simplify_eq.
      split; [done|]. simpl. rewrite Hf. split; [|split; [|done]].
      * intros x Hx. by apply list_elem_of_filter in Hx as [_ Hx].
      * intros x Hx Hlt. apply list_elem_of_filter. split; [|done]. intros Hid.
        assert (x = n) as -> by (by apply (node_inj (Leader.clients_timeout l)); [apply Hl|..]). lia.
  - destruct (m s); try done. case_decide; simplify_eq. by apply keeps_same.
  - destruct (st s) eqn:Hst; simplify_eq. destruct (wake_leader b s) as (Hwl & Hwc & _).
    apply keeps_same; [done..|]. simpl. by rewrite Hst.
  - destruct (st s) eqn:Hst, (m s); simplify_eq. apply keeps_same; [done..|]. simpl. by rewrite Hst.
Qed.

Lemma moves_keep s s' : monitor_ok s → rtc (moves next) s s' → monitor_ok s' ∧ keeps_clients s s'.
Proof.
  intros Hi Hs. induction Hs as [s|s s1 s' Hm _ IH]; [split; [done|by apply keeps_same]|].
  destruct IH as [Hi' (Hc' & Hsub' & Hk' & Hst')]; [by eapply next_ok|]. split; [done|].
  destruct (next_keeps s s1 Hi Hm) as (Hc & Hsub & Hk & Hst). split; [congruence|]. split; [by auto|].
  split; [|by rewrite Hst', Hst]. intros n Hn Hlt. apply Hk'; [by apply Hk|]. by rewrite Hc.
Qed.

Lemma rest_expired s :
  monitor_ok s → next s = [] →
  (st s = SNone → ∀ n, n ∈ Leader.clients_timeout (leader s) → clock s < Leader.n_expiry n) ∧
  (st s ≠ SNone → st s = SReturned).
Proof.
  intros [Hl Hp Hr Ha Hret] Hn.
  assert (∀ a, a ∈ [AMonitor; ATimeout; ANotify true; ANotify false; AJoin] → act a s = None) as Hnone.
  { intros a Hin. destruct (act a s) as [s1|] eqn:Hs; [|done]. exfalso.
    assert (s1 ∈ next s) as Hs1 by (apply list_elem_of_omap; by exists a). rewrite Hn in Hs1. set_solver. }
  pose proof (Hnone AMonitor ltac:(set_solver)) as Hm. pose proof (Hnone ATimeout ltac:(set_solver)) as Ht.
  pose proof (Hnone (ANotify true) ltac:(set_solver)) as Hno. pose proof (Hnone AJoin ltac:(set_solver)) as Hj.
  clear Hnone Hn. unfold act, monitor_step, time_out, stop_notify, stop_join in *. destruct s as [l clk x stp]; simpl in *.
  destruct x as [| | | |d|[]|now|now n| |]; simpl in *; try done.
  - by repeat case_match.
  - rewrite Hp. split; [intros _ n Hn; set_solver|]. destruct stp; try done; by (specialize (Ha eq_refl) || specialize (Hret eq_refl)).
  - by repeat case_match.
  - case_decide; [done|]. split; [intros _ n Hn; specialize (Hp n Hn); lia|].
    destruct stp; try done; by (specialize (Ha eq_refl) || specialize (Hret eq_refl)).
  - by repeat case_match.
  - by repeat case_match.
  - rewrite Hp in Hr. destruct stp; try done.
Qed.
End monitor.

(** C25. The membership monitor is safe under any interleaving with
    heartbeats, time and its stopping, as long as the client it is announcing
    does not renew at that moment: it runs into no undefined behaviour, keeps
    the leader's two maps consistent, announces only clients whose time has
    passed, sleeps without a limit only while nobody is registered, and
    otherwise never sleeps beyond the earliest expiry. *)
Theorem monitor_thread_safe (e : env) (pad1 pad2 : Z) (ext : Address) (garbage now : Z) (l : list action) (s : t) :
  acts e pad1 pad2 ext l (start garbage now) = Some s →
  no_renewal e pad1 pad2 ext l (start garbage now) = true →
  m s ≠ MUndefined ∧ leader_ok (leader s) ∧
  (∀ now' n, m s = MClean now' n →
     n ∈ Leader.clients_timeout (leader s) ∧ Leader.n_expiry n ≤ now' ∧ now' ≤ clock s) ∧
  (m s = MWait → Leader.clients_timeout (leader s) = []) ∧
  (∀ d, m s = MUntil d → ∀ n, n ∈ Leader.clients_timeout (leader s) → d ≤ Leader.n_expiry n).
Proof.
  intros Hs Hn. destruct (acts_ok e pad1 pad2 ext l _ s (start_ok garbage now) Hs Hn) as [Hl Hp _ _ _].
  split; [intros Hm; by rewrite Hm in Hp|]. split; [done|].
  split; [intros now' n Hm; by rewrite Hm in Hp|].
  split; [intros Hm; by rewrite Hm in Hp|intros d Hm; by rewrite Hm in Hp].
Qed.

(** C26. The monitor keeps up, and it can be stopped. Left alone, it comes to
    rest after at most [effort] moves; at rest the registered clients are
    exactly those that were registered and whose time has not come; and if
    [stop_membership_monitor] was called, it has returned: its notification is
    not lost, wherever the monitor was. *)
Theorem monitor_keeps_up (e : env) (pad1 pad2 : Z) (ext : Address) (garbage now : Z) (l : list action) (s : t) :
  acts e pad1 pad2 ext l (start garbage now) = Some s →
  no_renewal e pad1 pad2 ext l (start garbage now) = true →
  (∀ k s', nsteps (moves (next e pad1 pad2 ext)) k s s' → (k ≤ effort s)%nat) ∧
  (∃ s', rtc (moves (next e pad1 pad2 ext)) s s' ∧ next e pad1 pad2 ext s' = []) ∧
  ∀ s', rtc (moves (next e pad1 pad2 ext)) s s' → next e pad1 pad2 ext s' = [] →
    (st s = SNone → ∀ n, n ∈ Leader.clients_timeout (leader s') ↔
       n ∈ Leader.clients_timeout (leader s) ∧ clock s < Leader.n_expiry n) ∧
    (st s ≠ SNone → st s' = SReturned).
Proof.
  intros Hs Hn. pose proof (acts_ok e pad1 pad2 ext l _ s (start_ok garbage now) Hs Hn) as Hi. split; [|split].
  - exact (runs_bounded _ monitor_ok effort (next_ok e pad1 pad2 ext) (next_effort e pad1 pad2 ext) s Hi).
  - destruct (runs_rest _ monitor_ok effort (next_ok e pad1 pad2 ext) (next_effort e pad1 pad2 ext) s Hi)
      as (s' & Hr & Hrest & _). by exists s'.
  - intros s' Hr Hrest. destruct (moves_keep e pad1 pad2 ext s s' Hi Hr) as [Hi' (Hc & Hsub & Hk & Hst)].
    destruct (rest_expired e pad1 pad2 ext s' Hi' Hrest) as [Hexp Hret]. rewrite <- Hst. split; [|done].
    intros Hnone n. split; [|by intros []; apply Hk]. intros Hin. split; [by apply Hsub|].
    rewrite <- Hc. by apply Hexp.
Qed.

Definition env0 : env := mk_env (λ _, 0) true.
(** A client joins and its time passes. *)
Definition demo : list action :=
  [AMonitor; AMonitor; AHeartbeat Address_default false; AMonitor; AMonitor; ATick (Z.to_N Leader.timeout_duration)].

Lemma monitor_thread_safe_witness :
  ∃ s, acts env0 0 0 Address_default (take 5 demo) (start 7 100) = Some s ∧
    m s = MUntil (100 + Leader.timeout_duration) ∧
    ∀ n, n ∈ Leader.clients_timeout (leader s) → 100 + Leader.timeout_duration ≤ Leader.n_expiry n.
Proof.
  destruct (acts env0 0 0 Address_default (take 5 demo) (start 7 100)) as [s|] eqn:Hs; [|by vm_compute in Hs].
  destruct (monitor_thread_safe env0 0 0 Address_default 7 100 (take 5 demo) s Hs ltac:(vm_compute; reflexivity))
    as (_ & _ & _ & _ & Hu).
  exists s. split; [reflexivity|]. assert (m s = MUntil (100 + Leader.timeout_duration)) as Hm.
  { vm_compute in Hs. injection Hs as <-. reflexivity. }
  split; [exact Hm|]. exact (Hu _ Hm).
Defined.

Lemma monitor_keeps_up_witness :
  (∃ s s', acts env0 0 0 Address_default demo (start 7 100) = Some s ∧
    rtc (moves (next env0 0 0 Address_default)) s s' ∧ ∀ n, n ∉ Leader.clients_timeout (leader s')) ∧
  ∃ s s', acts env0 0 0 Address_default [AMonitor; AMonitor; AStop] (start 7 100) = Some s ∧ m s = MWait ∧
    rtc (moves (next env0 0 0 Address_default)) s s' ∧ st s' = SReturned.
Proof.
  split.
  - destruct (acts env0 0 0 Address_default demo (start 7 100)) as [s|] eqn:Hs; [|by vm_compute in Hs].
    destruct (monitor_keeps_up env0 0 0 Address_default 7 100 demo s Hs ltac:(vm_compute; reflexivity))
      as (_ & (s' & Hr & Hn) & Hrest).
    exists s, s'. split; [reflexivity|]. split; [exact Hr|]. intros n Hin.
    destruct (Hrest s' Hr Hn) as [Hex _]. clear Hrest. vm_compute in Hs. injection Hs as <-.
    apply (Hex eq_refl) in Hin as [Hin Hlt]. simpl in Hin, Hlt.
    apply elem_of_cons in Hin as [->|Hin]; [simpl in Hlt; lia|by apply not_elem_of_nil in Hin].
  - destruct (acts env0 0 0 Address_default [AMonitor; AMonitor; AStop] (start 7 100)) as [s|] eqn:Hs;
      [|by vm_compute in Hs].
    destruct (monitor_keeps_up env0 0 0 Address_default 7 100 _ s Hs ltac:(vm_compute; reflexivity))
      as (_ & (s' & Hr & Hn) & Hrest).
    exists s, s'. split; [reflexivity|]. split; [by vm_compute in Hs; injection Hs as <-|]. split; [exact Hr|].
    destruct (Hrest s' Hr Hn) as [_ Hret]. apply Hret. vm_compute in Hs. by injection Hs as <-.
Defined.
