(* ===== verification/Protocol.v ===== *)
(** The protocol: [api/network/protocol.hpp], with the calls the
    synchronisers and group handlers make on it.  The state is that of one
    process; [gw] is the template parameter: an external NIC exists. *)
From S2P Require Import Prelude Ethernet Packet Teds Crypto Clock Observer Shm Ptp Group Nic.
Local Open Scope Z_scope.

Definition ETHERNET_PROTOCOL_NUMBER : Z := 0x88B5.
Definition TYPE_BASED_ROUTING_PORT : Z := 0.
Definition MSG_AUTH_CODE_SIZE : Z := 8.

(** [std::unique_ptr<ISynchronizer>] and [std::unique_ptr<IGroupHandler>]. *)
Inductive synchronizer := SlaveSync (s : Slave.t) | MasterSync.
Inductive group_handler := MemberHandler | LeaderHandler (l : Leader.t).
Inductive PtpRole := MASTER | SLAVE.
Inductive GroupRole := LEADER | MEMBER.

Record pstate := mk_pstate {
  nic : nics;
  local_nic : bool;                 (* _local_nic is not null *)
  external_nic : bool;              (* _external_nic is not null *)
  ports : observed nat Z;           (* _port_observed: communicators by number *)
  types : observed nat Z;           (* _type_observed *)
  queues : gmap nat (queue nat);    (* each communicator's queue of buffers *)
  sync : option synchronizer;
  group : option group_handler;
  timer : bool;                     (* the PTP timer thread runs *)
  crypto : CryptoService.state
}.

Definition set_nic (n : nics) (s : pstate) : pstate := mk_pstate n (local_nic s) (external_nic s)
  (ports s) (types s) (queues s) (sync s) (group s) (timer s) (crypto s).
Definition set_nics (l x : bool) (s : pstate) : pstate := mk_pstate (nic s) l x
  (ports s) (types s) (queues s) (sync s) (group s) (timer s) (crypto s).
Definition set_ports (o : observed nat Z) (s : pstate) : pstate := mk_pstate (nic s) (local_nic s)
  (external_nic s) o (types s) (queues s) (sync s) (group s) (timer s) (crypto s).
Definition set_types (o : observed nat Z) (s : pstate) : pstate := mk_pstate (nic s) (local_nic s)
  (external_nic s) (ports s) o (queues s) (sync s) (group s) (timer s) (crypto s).
Definition set_queues (q : gmap nat (queue nat)) (s : pstate) : pstate := mk_pstate (nic s)
  (local_nic s) (external_nic s) (ports s) (types s) q (sync s) (group s) (timer s) (crypto s).
Definition set_sync (o : option synchronizer) (s : pstate) : pstate := mk_pstate (nic s)
  (local_nic s) (external_nic s) (ports s) (types s) (queues s) o (group s) (timer s) (crypto s).
Definition set_group (o : option group_handler) (s : pstate) : pstate := mk_pstate (nic s)
  (local_nic s) (external_nic s) (ports s) (types s) (queues s) (sync s) o (timer s) (crypto s).
Definition set_timer (t : bool) (s : pstate) : pstate := mk_pstate (nic s) (local_nic s)
  (external_nic s) (ports s) (types s) (queues s) (sync s) (group s) t (crypto s).

Abbreviation P := (M pstate effect).
Definition on_nic {A} (m : M nics effect A) : P A := NIC.on_nics nic set_nic m.

(** A computation whose outcome is already known. *)
Definition of_outcome {S E A} (o : outcome A) : M S E A := λ s, (o, s, []).

(** Unsigned 32-bit and 64-bit sizes of the code. *)
Definition segment_size (data_length : Z) : Z :=
  u32 (data_length - PACKET_HEADER_SIZE - MSG_AUTH_CODE_SIZE).

Module Protocol.
Section protocol.
Context (gw : bool) (e : netenv).

(** ** Sending *)

Definition get_session_key : P Z := on_nic (NIC.get_session_key SHM).
Definition set_session_key (key : Z) : P unit := on_nic (NIC.set_session_key SHM key).

(** A [MAC] converts to an [Address] with port 0. *)
Definition get_external_address : P Address :=
  if gw then mac ← on_nic (NIC.address RAW); mret (mk_Address mac 0)
  else throw "get_external_address() called in a non-gateway protocol".

(** The packet built in the frame's data array, from [memcpy] of the payload to
    [memcpy] of the code. *)
Definition build_packet (crypto : CryptoService.state) (loc : Z) (from to : Address)
    (payload : list Z) (size key : Z) (mem : list Z) : outcome (list Z) :=
  let mem := Packet.construct loc (port from) (port to) mem in
  let mem := splice 5 payload mem in
  match CryptoService.generate_mac crypto mem (u32 (PACKET_HEADER_SIZE + size)) key with
  | Ret mac => Ret (splice (5 + Z.to_nat size) (lebytes 8 mac) mem)
  | Throw m => Throw m | Blocked => Blocked | Undefined => Undefined | Terminate => Terminate
  end.

(** [size] bytes of [data] are sent; reading or writing past the end of the
    payload or of the data array is undefined. *)
Definition _send_frame (k : kind) `{Engine k} (from to : Address) (data : list Z) (size : Z) : P Z :=
  exists_ ← gets (match k with SHM => local_nic | RAW => external_nic end);
  if negb exists_ then mret (-1) else
  let total_size := u32 (PACKET_HEADER_SIZE + size + MSG_AUTH_CODE_SIZE) in
  if decide (ETH_MTU < total_size) then mret (-1) else
  buf ← on_nic (NIC.alloc (paddr from) (paddr to) ETHERNET_PROTOCOL_NUMBER total_size);
  match buf with
  | None => mret (-1)
  | Some id =>
      f ← on_nic (NIC.data id);
      loc ← on_nic (NIC.location k);
      payload ← checked (read_mem 0 (Z.to_nat size) data);
      _ ← (if decide (5 + size ≤ ETH_MTU) then mret tt else undefined);
      key ← get_session_key;
      crypto ← gets crypto;
      mem ← of_outcome (build_packet crypto loc from to payload size key (fdata f));
      _ ← on_nic (NIC.write_data id (set_fdata mem f));
      on_nic (NIC.send k e (Some id))
  end.

Definition send_local_frame (from to : Address) (data : list Z) (size : Z) : P Z :=
  _send_frame SHM from to data size.
Definition send_remote_frame (from to : Address) (data : list Z) (size : Z) : P Z :=
  _send_frame RAW from to data size.

Definition send (from to : Address) (data : list Z) (size : Z) : P Z :=
  if gw then
    ext ← on_nic (NIC.address RAW);
    loc ← on_nic (NIC.address SHM);
    if mac_neb (paddr to) ext && mac_neb (paddr to) loc
    then send_remote_frame from to data size
    else send_local_frame from to data size
  else send_local_frame from to data size.

(** ** Receiving into a message *)

(** The return value, the source, and the bytes copied to [data] ([size] bytes
    long); the three pointers are not null. *)
Definition receive (buf : nat) (size : Z) : P (Z * Address * list Z) :=
  f ← on_nic (NIC.data buf);
  let from := mk_Address (shost f) (Packet.sport (fdata f)) in
  let bytes_to_copy := Z.min size (segment_size (data_length f)) in
  bytes ← checked (read_mem 0 (Z.to_nat bytes_to_copy) (Packet.data (fdata f)));
  mret (i32 bytes_to_copy, from, bytes).

Definition free (buf : nat) : P unit :=
  l ← gets local_nic;
  if (l : bool) then on_nic (NIC.free SHM buf) else on_nic (NIC.delete_buffer buf).

(** ** Observers *)

(** [Communicator::update] on either subject: append to the communicator's queue. *)
Definition queue_incoming_buffer (obs buf : nat) : P unit :=
  s ← get;
  q ← checked (queues s !! obs);
  q ← of_outcome (queue_update buf q);
  put (set_queues (<[obs := q]> (queues s)) s).

Definition notify_communicator (port : Z) (buf : nat) : P unit :=
  if decide (port = TYPE_BASED_ROUTING_PORT) then
    f ← on_nic (NIC.data buf);
    let raw_segment := Packet.data (fdata f) in
    let seg_payload_size :=
      u32 (data_length f - PACKET_HEADER_SIZE - MSG_AUTH_CODE_SIZE - Z.of_nat Segment.HEADER_SIZE) in
    let t := TEDS.extract_type (Segment.header_type raw_segment) (drop 9 raw_segment) seg_payload_size in
    if decide (t ≠ TEDS.INVALID) then
      obs ← gets types;
      handled ← notify (λ o, queue_incoming_buffer o buf) t obs;
      if (handled : bool) then mret tt else on_nic (NIC.free SHM buf)
    else on_nic (NIC.free SHM buf)
  else
    obs ← gets ports;
    handled ← notify (λ o, queue_incoming_buffer o buf) port obs;
    if (handled : bool) then mret tt else on_nic (NIC.free SHM buf).
(** ** Handlers

    A handler runs on its own state and then its calls are carried out, in
    order; every handler makes its calls last. *)

Definition run_call (c : call) : P unit :=
  match c with
  | Send from to bytes => _ ← send from to bytes (Z.of_nat (length bytes)); mret tt
  | SetTimeOfDay tv => emit (Settime tv)
  | SetSessionKey key => set_session_key key
  | UnregisterNearby m => on_nic (NIC.unregister_nearby_entity SHM m)
  end.
Fixpoint run_calls (cs : list call) : P unit :=
  match cs with [] => mret tt | c :: cs => _ ← run_call c; run_calls cs end.
Definition run_handler {T} (m : M T call unit) (t : T) (store : T → pstate → pstate) : P unit :=
  match m t with
  | (o, t', cs) => _ ← modify (store t'); _ ← run_calls cs; of_outcome o
  end.

(** The virtual calls; a null handler is dereferenced. *)
Definition handle_ptp_message (payload : list Z) (size : Z) (from to : Address) : P unit :=
  o ← gets sync;
  match o with
  | None => undefined
  | Some (SlaveSync t) =>
      run_handler (Slave.handle_ptp_message (e_env e) payload size from to) t
        (λ t, set_sync (Some (SlaveSync t)))
  | Some MasterSync =>
      ext ← get_external_address;
      run_handler (Master.handle_ptp_message (e_env e) ext payload size from to) tt (λ _ s, s)
  end.

Definition handle_group_message (payload : list Z) (size : Z) (from : Address) : P unit :=
  o ← gets group;
  match o with
  | None => undefined
  | Some MemberHandler => run_handler (Member.handle_group_message payload size from) tt (λ _ s, s)
  | Some (LeaderHandler l) =>
      ext ← get_external_address;
      run_handler (Leader.handle_group_message (e_env e) (e_steady e) ext payload size from) l
        (λ l, set_group (Some (LeaderHandler l)))
  end.

Definition notify_location_change : P unit :=
  o ← gets group;
  match o with
  | None => undefined
  | Some MemberHandler =>
      ext ← get_external_address;
      run_handler (Member.notify_location_change (e_env e) ext) tt (λ _ s, s)
  | Some (LeaderHandler l) =>
      run_handler Leader.notify_location_change l (λ l, set_group (Some (LeaderHandler l)))
  end.

(** Body of the timer thread's request. *)
Definition request_synchronization (my_address : Address) : P unit :=
  o ← gets sync;
  match o with
  | Some (SlaveSync t) =>
      run_handler (Slave.request_synchronization (e_env e) my_address) t
        (λ t, set_sync (Some (SlaveSync t)))
  | _ => mret tt
  end.

(** ** Arrival of a frame *)

(** [packet] is the frame's data array. Every branch of the [switch] returns,
    so the heartbeat after it is never reached. *)
Definition filter_system_messages (packet : list Z) (packet_length : Z) (source_address dest_address : Address)
    : P bool :=
  ext ← on_nic (NIC.address RAW);
  if mac_eqb ext (paddr dest_address) || mac_eqb BROADCAST_ADDR (paddr dest_address) then
    let raw_segment := Packet.data packet in
    let seg_size := u64 (packet_length - PACKET_HEADER_SIZE - MSG_AUTH_CODE_SIZE) in
    let segment_payload := drop 9 raw_segment in
    let payload_size := u64 (seg_size - 9) in
    match Segment.header_type raw_segment with
    | Segment.PTP =>
        _ ← handle_ptp_message segment_payload payload_size source_address dest_address; mret true
    | Segment.GROUP =>
        _ ← handle_group_message segment_payload payload_size source_address; mret true
    | _ => mret false
    end
  else mret false.

Definition update_local (buf : nat) : P unit :=
  f ← on_nic (NIC.data buf);
  let dest_port := Packet.dport (fdata f) in
  if mac_eqb (dhost f) BROADCAST_ADDR then
    x ← gets external_nic;
    _ ← (if gw && x then
           mac ← on_nic (NIC.address RAW);
           let from := mk_Address mac (Packet.sport (fdata f)) in
           let to := mk_Address (dhost f) dest_port in
           _ ← send from to (Packet.data (fdata f)) (segment_size (data_length f)); mret tt
         else mret tt);
    if decide (dest_port = TYPE_BASED_ROUTING_PORT) then notify_communicator dest_port buf
    else on_nic (NIC.free SHM buf)
  else notify_communicator dest_port buf.

(** The dirty buffer of the external NIC. *)
Definition update_quadrant_change (buf : nat) : P unit :=
  _ ← notify_location_change;
  _ ← on_nic (NIC.reset_entities_nearby SHM);
  loc ← on_nic (NIC.location RAW);
  _ ← on_nic (NIC.set_location SHM loc);
  on_nic (NIC.free RAW buf).

(** Verification of the code and delivery to the internal network. *)
Definition deliver_verified (buf : nat) (f : Frame) : P unit :=
  let from := mk_Address (shost f) (Packet.sport (fdata f)) in
  let data_to_check_size := data_length f - MSG_AUTH_CODE_SIZE in
  crypto ← gets crypto;
  key ← get_session_key;
  expected_mac ← of_outcome (CryptoService.generate_mac crypto (fdata f) data_to_check_size key);
  received ← checked (read_mem (Z.to_nat data_to_check_size) 8 (fdata f));
  if decide (expected_mac ≠ leval received) then on_nic (NIC.free RAW buf) else
  _ ← send from (mk_Address LOCAL_ADDR (Packet.dport (fdata f))) (Packet.data (fdata f))
        (segment_size (data_length f));
  on_nic (NIC.free RAW buf).

Definition update_external (buf : nat) : P unit :=
  s ← get;
  b ← checked (heap (nic s) !! buf);
  if fb_quad b then update_quadrant_change buf else
  f ← on_nic (NIC.data buf);
  let from := mk_Address (shost f) (Packet.sport (fdata f)) in
  let to := mk_Address (dhost f) (Packet.dport (fdata f)) in
  _ ← on_nic (NIC.register_nearby_entity SHM (paddr from));
  if decide (data_length f < PACKET_HEADER_SIZE + MSG_AUTH_CODE_SIZE) then on_nic (NIC.free RAW buf) else
  r ← try_catch (b ← filter_system_messages (fdata f) (data_length f) from to; mret (Some b))
                (λ _, mret None);
  match r with
  | Some false => deliver_verified buf f
  | _ => on_nic (NIC.free RAW buf)
  end.

(** [update]: which NIC notifies decides the branch. *)
Definition update (k : kind) (prot : Z) (buf : nat) : P unit :=
  match k with
  | SHM => update_local buf
  | RAW => if gw then update_external buf else mret tt
  end.

(** The NICs' receiving loops, with [update] as the observer they call. *)
Definition receive_one (garbage : list Z) : P bool := NIC.receive_one nic set_nic update garbage.
Definition handle_receive (fuel : nat) (garbage : list Z) : P unit :=
  NIC.handle_receive nic set_nic update fuel garbage.
Definition receiver_turn (eintr : bool) : P unit := NIC.receiver_turn nic set_nic update eintr.
Definition quadrant_changer_turn (draws : list Z) : P unit :=
  NIC.quadrant_changer_turn nic set_nic update draws.

(** ** Initialisation *)

Definition update_quadrant (q : Z) : P unit :=
  _ ← on_nic (NIC.set_location SHM q);
  _ ← on_nic (NIC.set_location RAW q);
  notify_location_change.

Definition init_clock_synchronization (role : PtpRole) : P unit :=
  match role with
  | SLAVE => _ ← modify (set_sync (Some (SlaveSync Slave.start))); modify (set_timer true)
  | MASTER => modify (set_sync (Some MasterSync))
  end.

(** [garbage] and [generated] are those of [Leader.construct]. *)
Definition init_group_role (role : GroupRole) (garbage generated : Z) : P unit :=
  match role with
  | MEMBER =>
      _ ← modify (set_group (Some MemberHandler));
      on_nic (NIC.init_nic RAW false)
  | LEADER =>
      _ ← run_handler (Leader.construct garbage generated) (Leader.mk 0 [] ∅ 0 false)
            (λ l, set_group (Some (LeaderHandler l)));
      on_nic (NIC.init_nic RAW true)
  end.

Definition init_gateway (q : Z) (ptp_role : PtpRole) (group_role : GroupRole) (garbage generated : Z)
    : P unit :=
  _ ← modify (set_nics true true);
  _ ← on_nic (NIC.attach SHM ETHERNET_PROTOCOL_NUMBER);
  _ ← on_nic (NIC.attach RAW ETHERNET_PROTOCOL_NUMBER);
  _ ← on_nic (NIC.init_nic SHM false);
  _ ← init_clock_synchronization ptp_role;
  _ ← init_group_role group_role garbage generated;
  update_quadrant q.

Definition init_component : P unit :=
  l ← gets local_nic;
  if (l : bool) then mret tt else
  _ ← modify (set_nics true false);
  _ ← on_nic (NIC.attach SHM ETHERNET_PROTOCOL_NUMBER);
  on_nic (NIC.init_nic SHM false).

(** The destructor. *)
Definition destroy : P unit :=
  s ← get;
  _ ← (if local_nic s then on_nic (NIC.detach SHM ETHERNET_PROTOCOL_NUMBER) else mret tt);
  _ ← (if gw && external_nic s then on_nic (NIC.detach RAW ETHERNET_PROTOCOL_NUMBER) else mret tt);
  modify (set_timer false).

(** ** Listeners and delegates *)

Definition attach_port_listener (obs : nat) (port : Z) : P unit :=
  modify (λ s, set_ports (attach (Some obs) port (ports s)) s).
Definition detach_port_listener (obs : nat) (port : Z) : P unit :=
  modify (λ s, set_ports (detach (Some obs) port (ports s)) s).
Definition attach_type_listener (obs : nat) (type : Z) : P unit :=
  modify (λ s, set_types (attach (Some obs) type (types s)) s).
Definition detach_type_listener (obs : nat) (type : Z) : P unit :=
  modify (λ s, set_types (detach (Some obs) type (types s)) s).
Definition is_entity_nearby (a : Address) : P bool := on_nic (NIC.is_entity_nearby SHM (paddr a)).
Definition get_entities_nearby : P (list MAC) := on_nic (NIC.get_entities_nearby SHM).
Definition reset_entities_nearby : P unit := on_nic (NIC.reset_entities_nearby SHM).
Definition unregister_nearby_entity (a : MAC) : P unit := on_nic (NIC.unregister_nearby_entity SHM a).
End protocol.
End Protocol.
