(* ===== verification/ProtocolLemmas.v ===== *)
(** Lemmas on the protocol's building blocks: running NIC computations inside
    the process, packets, and frames that carry a packet. *)
From S2P Require Import Prelude Ethernet Packet Crypto Observer Shm Nic Protocol.
Local Open Scope Z_scope.

(** ** Running computations on a part of the state *)

Lemma nic_set_nic n s : nic (set_nic n s) = n.
Proof. done. Qed.
Lemma set_nic_set n n' s : set_nic n (set_nic n' s) = set_nic n s.
Proof. done. Qed.
Lemma set_nic_id s : set_nic (nic s) s = s.
Proof. by destruct s. Qed.
Lemma set_ipc_id n : set_ipc (ipc n) n = n.
Proof. by destruct n. Qed.

Lemma on_nic_pure {A B} (m : M nics effect A) (f : A → P B) s a n :
  m (nic s) = (Ret a, n, []) → (on_nic m ≫= f) s = f a (set_nic n s).
Proof. intros Hm. apply bind_pure. unfold on_nic, NIC.on_nics, zoom. by rewrite Hm. Qed.

Lemma on_nic_same {A B} (m : M nics effect A) (f : A → P B) s a :
  m (nic s) = (Ret a, nic s, []) → (on_nic m ≫= f) s = f a s.
Proof. intros Hm. rewrite (on_nic_pure _ _ _ _ _ Hm). by rewrite set_nic_id. Qed.

Lemma on_nic_run {A} (m : M nics effect A) s o n es :
  m (nic s) = (o, n, es) → on_nic m s = (o, set_nic n s, es).
Proof. intros Hm. unfold on_nic, NIC.on_nics, zoom. by rewrite Hm. Qed.

Lemma on_ipc_run {A} (m : M Ipc effect A) n o i es :
  m (ipc n) = (o, i, es) → on_ipc m n = (o, set_ipc i n, es).
Proof. intros Hm. unfold on_ipc, zoom. by rewrite Hm. Qed.

Lemma on_ipc_same {A} (m : M Ipc effect A) n o es :
  m (ipc n) = (o, ipc n, es) → on_ipc m n = (o, n, es).
Proof. intros Hm. rewrite (on_ipc_run _ _ _ _ _ Hm). by rewrite set_ipc_id. Qed.

Lemma get_session_key_run s :
  Protocol.get_session_key s = (Ret (session_key (blk (ipc (nic s)))), s, []).
Proof.
  unfold Protocol.get_session_key. erewrite on_nic_run; [by rewrite set_nic_id|].
  by apply on_ipc_same.
Qed.

Lemma get_session_key_bind {B} (f : Z → P B) s :
  (Protocol.get_session_key ≫= f) s = f (session_key (blk (ipc (nic s)))) s.
Proof. apply bind_pure, get_session_key_run. Qed.

Lemma nic_data_run id n b f :
  heap n !! id = Some b → buf_frame n b = Some f → NIC.data id n = (Ret f, n, []).
Proof. intros Hb Hf. unfold NIC.data. mstep. rewrite Hb. mstep. by rewrite Hf. Qed.

Lemma nic_location_run k n :
  NIC.location k n =
    (Ret (match k with SHM => location (blk (ipc n)) | RAW => quadrant n end), n, []).
Proof. destruct k; [|done]. unfold NIC.location, NIC.get_location. by apply on_ipc_same. Qed.

(** The process [s] looking at the shared memory [i]. *)
Definition seeing (i : Ipc) (s : pstate) : pstate := set_nic (set_ipc i (nic s)) s.

(** ** Packets *)

Definition packet_bytes (loc sp dp : Z) (payload : list Z) (mac : Z) : list Z :=
  Packet.header_bytes loc sp dp ++ payload ++ lebytes 8 mac.

Lemma length_packet_bytes loc sp dp payload mac :
  length (packet_bytes loc sp dp payload mac) = (13 + length payload)%nat.
Proof.
  unfold packet_bytes. rewrite !length_app, length_header_bytes, length_lebytes. lia.
Qed.

Lemma packet_bytes_ok loc sp dp payload mac :
  bytes_ok payload → bytes_ok (packet_bytes loc sp dp payload mac).
Proof. intros. unfold packet_bytes. auto using header_bytes_ok, lebytes_ok with api. Qed.

(** The frame's data starts with the packet; the rest of the array is stale. *)
Record carries (f : Frame) (loc sp dp : Z) (payload : list Z) (mac : Z) : Prop := {
  ca_data : ∃ rest, fdata f = packet_bytes loc sp dp payload mac ++ rest;
  ca_array : length (fdata f) = 1500%nat;
  ca_len : data_length f = 13 + Z.of_nat (length payload);
  ca_loc : is_u 8 loc;
  ca_sp : is_u 16 sp;
  ca_dp : is_u 16 dp;
  ca_payload : bytes_ok payload;
  ca_mac : is_u 64 mac
}.

Section carried.
Context {f loc sp dp payload mac} (Hf : carries f loc sp dp payload mac).

Lemma carries_size : (13 + length payload ≤ 1500)%nat.
Proof using Hf.
  destruct (ca_data _ _ _ _ _ _ Hf) as [rest Hr]. pose proof (ca_array _ _ _ _ _ _ Hf) as Ha.
  rewrite Hr, length_app, length_packet_bytes in Ha. lia.
Qed.

Lemma carries_location : Packet.location (fdata f) = loc.
Proof using Hf.
  destruct (ca_data _ _ _ _ _ _ Hf) as [rest ->]. unfold packet_bytes. rewrite <- !app_assoc.
  apply packet_location, Hf.
Qed.
Lemma carries_sport : Packet.sport (fdata f) = sp.
Proof using Hf.
  destruct (ca_data _ _ _ _ _ _ Hf) as [rest ->]. unfold packet_bytes. rewrite <- !app_assoc.
  apply packet_sport, Hf.
Qed.
Lemma carries_dport : Packet.dport (fdata f) = dp.
Proof using Hf.
  destruct (ca_data _ _ _ _ _ _ Hf) as [rest ->]. unfold packet_bytes. rewrite <- !app_assoc.
  apply packet_dport, Hf.
Qed.

Lemma carries_payload : take (length payload) (Packet.data (fdata f)) = payload.
Proof using Hf.
  destruct (ca_data _ _ _ _ _ _ Hf) as [rest ->]. unfold packet_bytes. rewrite <- !app_assoc.
  rewrite packet_data. by apply take_app_eq.
Qed.

Lemma carries_segment_size : segment_size (data_length f) = Z.of_nat (length payload).
Proof using Hf.
  unfold segment_size. rewrite (ca_len _ _ _ _ _ _ Hf). unfold PACKET_HEADER_SIZE, MSG_AUTH_CODE_SIZE,
    LOCATION_HEADER_SIZE, PORT_HEADER_SIZE.
  pose proof carries_size. rewrite u32_small; unfold is_u; lia.
Qed.

Lemma carries_read n :
  (n ≤ length payload)%nat → read_mem 0 n (Packet.data (fdata f)) = Some (take n payload).
Proof using Hf.
  intros Hn. rewrite read_mem_in.
  - unfold slice. rewrite drop_0. f_equal.
    transitivity (take n (take (length payload) (Packet.data (fdata f)))).
    + rewrite take_take. f_equal. lia.
    + by rewrite carries_payload.
  - unfold Packet.data. rewrite length_drop, (ca_array _ _ _ _ _ _ Hf). pose proof carries_size. lia.
Qed.

Lemma carries_received_mac :
  read_mem (Z.to_nat (data_length f - MSG_AUTH_CODE_SIZE)) 8 (fdata f) = Some (lebytes 8 mac).
Proof using Hf.
  rewrite (ca_len _ _ _ _ _ _ Hf). unfold MSG_AUTH_CODE_SIZE.
  replace (Z.to_nat (13 + Z.of_nat (length payload) - 8)) with (5 + length payload)%nat by lia.
  pose proof carries_size. rewrite read_mem_in by (rewrite (ca_array _ _ _ _ _ _ Hf); lia).
  destruct (ca_data _ _ _ _ _ _ Hf) as [rest ->]. unfold packet_bytes.
  rewrite app_assoc, <- app_assoc. rewrite slice_app_skip.
  - by rewrite take_app_eq by apply length_lebytes.
  - rewrite length_app, length_header_bytes. lia.
Qed.

(** The MAC depends on the header and the payload only. *)
Lemma carries_generate_mac p `{MacLaws p} key :
  generate_mac p (fdata f) (data_length f - MSG_AUTH_CODE_SIZE) key =
  generate_mac p (Packet.header_bytes loc sp dp ++ payload) (5 + Z.of_nat (length payload)) key.
Proof using Hf.
  pose proof carries_size as Hs. rewrite (ca_len _ _ _ _ _ _ Hf). unfold MSG_AUTH_CODE_SIZE.
  replace (13 + Z.of_nat (length payload) - 8) with (5 + Z.of_nat (length payload)) by lia.
  pose proof (length_header_bytes loc sp dp) as Hl.
  assert (Z.to_nat (5 + Z.of_nat (length payload)) = length (Packet.header_bytes loc sp dp ++ payload))
    as Hn by (rewrite length_app; lia).
  apply mac_prefix.
  - rewrite (ca_array _ _ _ _ _ _ Hf). lia.
  - rewrite length_app. lia.
  - rewrite Hn. destruct (ca_data _ _ _ _ _ _ Hf) as [rest ->]. unfold packet_bytes.
    rewrite app_assoc, <- app_assoc, take_app_length. by rewrite take_ge by lia.
Qed.
End carried.

(** ** The packet the sender builds *)

Lemma build_packet_ok p `{MacLaws p} loc from to payload key mem :
  is_u 16 (port from) → is_u 16 (port to) → is_u 8 loc → bytes_ok payload → is_u 64 key →
  (13 + length payload ≤ 1500)%nat → length mem = 1500%nat → bytes_ok mem →
  ∃ mac rest, is_u 64 mac ∧
    generate_mac p (Packet.header_bytes loc (port from) (port to) ++ payload)
      (5 + Z.of_nat (length payload)) key = Ret mac ∧
    Protocol.build_packet (Some p) loc from to payload (Z.of_nat (length payload)) key mem =
      Ret (packet_bytes loc (port from) (port to) payload mac ++ rest) ∧
    length (packet_bytes loc (port from) (port to) payload mac ++ rest) = 1500%nat ∧ bytes_ok rest.
Proof.
  intros Hf Ht Hloc Hp Hkey Hlen Hm Hmok.
  set (h := Packet.header_bytes loc (port from) (port to)).
  assert (length h = 5%nat) as Hh by apply length_header_bytes.
  destruct (mac_total (h ++ payload) (5 + Z.of_nat (length payload)) key) as (mac & Hmac & Hmu).
  { rewrite length_app. lia. }
  { apply Forall_app_2; [apply header_bytes_ok|done]. }
  { done. }
  exists mac, (drop (13 + length payload) mem). split; [done|]. split; [done|].
  assert (length (packet_bytes loc (port from) (port to) payload mac ++
            drop (13 + length payload) mem) = 1500%nat) as Hl.
  { rewrite length_app, length_packet_bytes, length_drop. lia. }
  split; [|split; [done|by apply Forall_drop]]. unfold Protocol.build_packet. rewrite packet_construct by lia. fold h.
  assert (splice 5 payload (h ++ drop 5 mem) = h ++ payload ++ drop (5 + length payload) mem) as ->.
  { unfold splice. rewrite take_app_eq by done. do 2 f_equal.
    rewrite drop_app_ge by lia. rewrite drop_drop, Hh. f_equal. lia. }
  assert (u32 (PACKET_HEADER_SIZE + Z.of_nat (length payload)) = 5 + Z.of_nat (length payload)) as ->.
  { unfold PACKET_HEADER_SIZE, LOCATION_HEADER_SIZE, PORT_HEADER_SIZE.
    rewrite u32_small; [lia|unfold is_u; lia]. }
  unfold CryptoService.generate_mac, CryptoService.getProvider.
  rewrite (mac_prefix (h ++ payload ++ drop (5 + length payload) mem) (h ++ payload)).
  - rewrite Hmac. f_equal. unfold splice, packet_bytes. fold h.
    replace (5 + Z.to_nat (Z.of_nat (length payload)))%nat with (length (h ++ payload))
      by (rewrite length_app; lia).
    rewrite !(app_assoc h payload), take_app_length, length_lebytes.
    rewrite drop_app_ge by lia. rewrite drop_drop, <- !app_assoc. do 4 f_equal.
    rewrite length_app. lia.
  - rewrite !length_app, length_drop. lia.
  - rewrite length_app. lia.
  - replace (Z.to_nat (5 + Z.of_nat (length payload))) with (length (h ++ payload))
      by (rewrite length_app; lia).
    rewrite app_assoc, take_app_length. by rewrite take_ge by lia.
Qed.

(** ** Sending *)

(** The sender's process is set up: NICs, crypto provider and session key. *)
Record sender_ok (p : ICryptoProvider) (s : pstate) : Prop := {
  so_local : local_nic s = true;
  so_crypto : crypto s = Some p;
  so_key : is_u 64 (session_key (blk (ipc (nic s))));
  so_loc : is_u 8 (location (blk (ipc (nic s))));
  so_quad : is_u 8 (quadrant (nic s))
}.

Definition nic_loc (k : kind) (n : nics) : Z :=
  match k with SHM => location (blk (ipc n)) | RAW => quadrant n end.

(** The state when the frame is handed to the engine: one more live buffer. *)
Definition with_frame (f : Frame) (s : pstate) : pstate :=
  set_nic (bump_buf (set_heap (<[next_buf (nic s) := mk_fbuf (Some f) 0 0 false]> (heap (nic s))) (nic s))) s.

Record message_ok (from to : Address) (payload : list Z) : Prop := {
  mo_from : is_u 16 (port from);
  mo_to : is_u 16 (port to);
  mo_bytes : bytes_ok payload;
  mo_size : (13 + length payload ≤ 1500)%nat
}.

(** The size of a frame's data, and the buffer for it. *)
Lemma total_size_eq n : 0 ≤ n ≤ 1487 → u32 (PACKET_HEADER_SIZE + n + MSG_AUTH_CODE_SIZE) = 13 + n.
Proof.
  intros. unfold PACKET_HEADER_SIZE, LOCATION_HEADER_SIZE, PORT_HEADER_SIZE, MSG_AUTH_CODE_SIZE.
  rewrite u32_small; [lia|unfold is_u; lia].
Qed.
Lemma alloc_run from to prot size s : size ≤ ETH_MTU →
  NIC.alloc from to prot size (nic s)
  = (Ret (Some (next_buf (nic s))), nic (with_frame (mk_Frame to from prot (fdata Frame_zero) size) s), []).
Proof.
  intros. unfold NIC.alloc. rewrite decide_False by lia. unfold NIC.new_buffer. by mstep.
Qed.

Lemma send_frame_bytes p `{MacLaws p} k `{Engine k} e from to data payload s :
  sender_ok p s → message_ok from to payload → (k = RAW → external_nic s = true) →
  read_mem 0 (length payload) data = Some payload →
  ∃ f mac, bytes_ok (fdata f) ∧ carries f (nic_loc k (nic s)) (port from) (port to) payload mac ∧
    dhost f = paddr to ∧ shost f = paddr from ∧ ftype f = ETHERNET_PROTOCOL_NUMBER ∧
    generate_mac p (Packet.header_bytes (nic_loc k (nic s)) (port from) (port to) ++ payload)
      (5 + Z.of_nat (length payload)) (session_key (blk (ipc (nic s)))) = Ret mac ∧
    Protocol._send_frame e k from to data (Z.of_nat (length payload)) s =
      on_nic (NIC.send k e (Some (next_buf (nic s)))) (with_frame f s).
Proof.
  intros [Hloc Hcr Hkey Hl Hq] [Hfrom Hto Hpay Hsize] Hext Hdata.
  assert (is_u 8 (nic_loc k (nic s))) as Hnl by (by destruct k).
  destruct (build_packet_ok p (nic_loc k (nic s)) from to payload
              (session_key (blk (ipc (nic s)))) (replicate 1500 0))
    as (mac & rest & Hmu & Hmac & Hbuild & Hlen & Hrest); try done.
  { apply bytes_ok_replicate. lia. }
  set (mem := packet_bytes _ _ _ payload mac ++ rest) in *.
  exists (mk_Frame (paddr to) (paddr from) ETHERNET_PROTOCOL_NUMBER mem
            (13 + Z.of_nat (length payload))), mac.
  split; [apply Forall_app_2; [by apply packet_bytes_ok|done]|]. split; [split; simpl; eauto|]. do 4 (split; [done|]).
  unfold Protocol._send_frame. mstep.
  assert ((match k with SHM => local_nic | RAW => external_nic end) s = true) as Hnn.
  { destruct k; [done|by apply Hext]. }
  rewrite Hnn. cbn [negb].
  rewrite total_size_eq by lia. rewrite decide_False by (unfold ETH_MTU; lia).
  set (f0 := mk_Frame (paddr to) (paddr from) ETHERNET_PROTOCOL_NUMBER (fdata Frame_zero)
               (13 + Z.of_nat (length payload))).
  assert (13 + Z.of_nat (length payload) ≤ ETH_MTU) as Hmtu by (unfold ETH_MTU; lia).
  rewrite (on_nic_pure _ _ _ _ _ (alloc_run _ _ _ _ _ Hmtu)). fold f0.
  change (set_nic (nic (with_frame f0 s)) s) with (with_frame f0 s).
  erewrite on_nic_same.
  2:{ eapply nic_data_run; [apply lookup_insert_eq|reflexivity]. }
  erewrite on_nic_same by apply nic_location_run.
  rewrite Nat2Z.id, Hdata. mstep.
  rewrite decide_True by (unfold ETH_MTU; lia). mstep. rewrite get_session_key_bind. mstep.
  change (crypto (with_frame f0 s)) with (crypto s). rewrite Hcr.
  change (fdata f0) with (replicate 1500 0).
  change (session_key (blk (ipc (nic (with_frame f0 s))))) with (session_key (blk (ipc (nic s)))).
  assert ((match k with
           | SHM => location (blk (ipc (nic (with_frame f0 s))))
           | RAW => quadrant (nic (with_frame f0 s)) end) = nic_loc k (nic s)) as -> by (by destruct k).
  rewrite Hbuild. rewrite (bind_pure (of_outcome (Ret mem)) _ _ mem (with_frame f0 s)) by done.
  erewrite on_nic_pure.
  2:{ unfold NIC.write_data. mstep. cbn [nic with_frame set_nic].
      cbn [heap bump_buf set_heap]. rewrite lookup_insert_eq. mstep. reflexivity. }
  f_equal. unfold with_frame, set_heap, bump_buf. cbn. by rewrite insert_insert_eq.
Qed.

Lemma send_frame_build p `{MacLaws p} k `{Engine k} e from to data payload s :
  sender_ok p s → message_ok from to payload → (k = RAW → external_nic s = true) →
  read_mem 0 (length payload) data = Some payload →
  ∃ f mac, carries f (nic_loc k (nic s)) (port from) (port to) payload mac ∧
    dhost f = paddr to ∧ shost f = paddr from ∧ ftype f = ETHERNET_PROTOCOL_NUMBER ∧
    generate_mac p (Packet.header_bytes (nic_loc k (nic s)) (port from) (port to) ++ payload)
      (5 + Z.of_nat (length payload)) (session_key (blk (ipc (nic s)))) = Ret mac ∧
    Protocol._send_frame e k from to data (Z.of_nat (length payload)) s =
      on_nic (NIC.send k e (Some (next_buf (nic s)))) (with_frame f s).
Proof.
  intros. destruct (send_frame_bytes p k e from to data payload s) as (f & mac & _ & Hf); [done..|].
  by exists f, mac.
Qed.

Lemma carries_take f loc sp dp payload mac :
  carries f loc sp dp payload mac →
  read_mem 0 (Z.to_nat (data_length f)) (fdata f) = Some (packet_bytes loc sp dp payload mac).
Proof.
  intros Hf. pose proof (carries_size Hf). rewrite (ca_len _ _ _ _ _ _ Hf).
  rewrite read_mem_in by (rewrite (ca_array _ _ _ _ _ _ Hf); lia).
  destruct (ca_data _ _ _ _ _ _ Hf) as [rest ->]. unfold slice. rewrite drop_0.
  rewrite take_app_eq; [done|]. rewrite length_packet_bytes. lia.
Qed.

(** What goes on the wire. *)
Lemma nic_send_raw e f loc sp dp payload mac s :
  carries f loc sp dp payload mac →
  let bytes := RawSocketEngine.wire_frame (my_mac (nic s)) (dhost f) (ftype f)
                 (packet_bytes loc sp dp payload mac) in
  on_nic (NIC.send RAW e (Some (next_buf (nic s)))) (with_frame f s) =
    (Ret (e_sendto e bytes), with_frame f s, [Sendto bytes]).
Proof.
  intros Hf bytes. pose proof (carries_size Hf).
  assert (NIC.send RAW e (Some (next_buf (nic s))) (nic (with_frame f s)) =
    (Ret (e_sendto e bytes), nic (with_frame f s), [Sendto bytes])) as Hrun.
  { unfold NIC.send. erewrite bind_pure.
    2:{ eapply nic_data_run; [apply lookup_insert_eq|reflexivity]. }
    cbn [engine_send RawEngine]. unfold RawSocketEngine.send.
    rewrite decide_False by (rewrite (ca_len _ _ _ _ _ _ Hf); unfold ETH_MTU; lia).
    mstep. rewrite (carries_take _ _ _ _ _ _ Hf). mstep. done. }
  rewrite (on_nic_run _ _ _ _ _ Hrun). by rewrite set_nic_id.
Qed.

(** The frame as it lies in the shared slot. *)
Definition in_slot (f old : Frame) : Frame :=
  slot_write (Some (shost f)) (dhost f) (ftype f) (fdata f) (data_length f) old.

Lemma carries_in_slot f loc sp dp payload mac old :
  carries f loc sp dp payload mac → length (fdata old) = 1500%nat →
  carries (in_slot f old) loc sp dp payload mac.
Proof.
  intros Hf Hold. pose proof (carries_size Hf) as Hs. pose proof (carries_take _ _ _ _ _ _ Hf) as Ht.
  destruct Hf as [Hd Ha Hlen ? ? ? ? ?].
  rewrite read_mem_in in Ht by (rewrite Hlen, Ha; lia). unfold slice in Ht. rewrite drop_0 in Ht.
  injection Ht as Ht. split; try done.
  - unfold in_slot, slot_write; simpl. rewrite Ht. unfold splice. rewrite take_0. cbn [app]. eauto.
  - apply length_slot_write; [done|]. rewrite Hlen. unfold ETH_MTU. lia.
Qed.

(** The ring has a free slot and no writer is in the middle of a send. *)
Record ring_ready (i : Ipc) : Prop := {
  rr_sems : sems_ok i;
  rr_ring : ring_ok (blk i);
  rr_next : publish_sequence_id (blk i) + 1 < 2 ^ 63;
  rr_free : slot_free (client_registry (blk i)) (claim_sequence_id (blk i)) = true
}.

Lemma nic_send_shm e f loc sp dp payload mac s :
  carries f loc sp dp payload mac → ring_ready (ipc (nic s)) →
  ∃ old, length (fdata old) = 1500%nat ∧
    on_nic (NIC.send SHM e (Some (next_buf (nic s)))) (with_frame f s) =
      (Ret (HEADER_SIZE + data_length f),
       set_nic (set_ipc (sent (in_slot f old) (ipc (nic s))) (nic (with_frame f s))) s, []).
Proof.
  intros Hf [Hsems Hring Hnext Hfree]. pose proof (carries_size Hf).
  destruct (slot_in_range (blk (ipc (nic s))) (claim_sequence_id (blk (ipc (nic s)))) Hring)
    as (sl & Hsl & Hlen); [destruct Hring as (_ & _ & _ & ? & ?); lia|].
  exists (slot_frame sl). split; [done|].
  assert (Shm.send (E := effect) (Some (shost f)) (dhost f) (ftype f) (fdata f) (data_length f)
            (ipc (nic s)) = (Ret (HEADER_SIZE + data_length f),
                             sent (in_slot f (slot_frame sl)) (ipc (nic s)), [])) as Hrun.
  { apply send_free; try done; rewrite (ca_len _ _ _ _ _ _ Hf);
      [unfold ETH_MTU|rewrite (ca_array _ _ _ _ _ _ Hf)]; lia. }
  erewrite on_nic_run; [reflexivity|].
  unfold NIC.send. erewrite bind_pure.
  2:{ eapply nic_data_run; [apply lookup_insert_eq|reflexivity]. }
  cbn [engine_send ShmEngine]. rewrite (on_ipc_run _ (nic (with_frame f s)) _ _ _ Hrun). done.
Qed.

(** ** Receiving from outside *)

(** Only the list of nearby vehicles differs. *)
Definition with_nearby (n : Z) (l : list MAC) (s : pstate) : pstate :=
  set_nic (set_ipc (mk_ipc (set_nearby n l (blk (ipc (nic s)))) (sems (ipc (nic s)))) (nic s)) s.

Lemma register_nearby_run a s :
  nearby_lock (blk (ipc (nic s))) = false →
  ∃ n l, ∀ B (f : unit → P B), (on_nic (NIC.register_nearby_entity SHM a) ≫= f) s = f tt (with_nearby n l s).
Proof.
  intros Hl. pose proof (register_run (E := effect) a _ Hl) as Hrun.
  set (b := blk (ipc (nic s))) in *.
  assert (∃ n l, register_nearby_entity (E := effect) a (ipc (nic s)) =
    (Ret tt, mk_ipc (set_nearby n l b) (sems (ipc (nic s))), [])) as (n & l & Hr).
  { destruct (nearby_scan b a) as [i|] eqn:Hs.
    - exists (nearby_count b), (nearby_entities b). rewrite Hrun. unfold set_blk. fold b. rewrite Hs.
      by destruct b.
    - destruct (decide (nearby_count b < MAX_NEARBY_ENTITIES)) as [Hc|Hc].
      + eexists _, _. rewrite Hrun. unfold set_blk. fold b. rewrite Hs, decide_True by done. done.
      + exists (nearby_count b), (nearby_entities b). rewrite Hrun. unfold set_blk. fold b.
        rewrite Hs, decide_False by done. by destruct b. }
  exists n, l. intros B f. apply on_nic_pure. unfold NIC.register_nearby_entity.
  by rewrite (on_ipc_run _ _ _ _ _ Hr).
Qed.

(** The buffer the external NIC hands over. *)
Definition owned (buf : nat) (f : Frame) (s : pstate) : Prop :=
  heap (nic s) !! buf = Some (mk_fbuf (Some f) 0 0 false).
Definition heap_ok (s : pstate) : Prop :=
  ∀ id b, heap (nic s) !! id = Some b → (id < next_buf (nic s))%nat.

Definition without (buf : nat) (s : pstate) : pstate :=
  set_nic (set_heap (delete buf (heap (nic s))) (nic s)) s.

Lemma free_owned k buf f s :
  owned buf f s → on_nic (NIC.free k buf) s = (Ret tt, without buf s, []).
Proof.
  intros Hb. apply on_nic_run. unfold NIC.free. mstep. rewrite Hb. mstep.
  unfold fb_own. unfold NIC.delete_buffer. mstep. by rewrite Hb.
Qed.

Definition is_system (t : Segment.MsgType) : bool :=
  match t with Segment.PTP | Segment.GROUP => true | _ => false end.

Lemma filter_pass gw e packet len src dst s :
  is_system (Segment.header_type (Packet.data packet)) = false →
  Protocol.filter_system_messages gw e packet len src dst s = (Ret false, s, []).
Proof.
  intros Hs. unfold Protocol.filter_system_messages.
  assert (NIC.address RAW (nic s) = (Ret (my_mac (nic s)), nic s, [])) as Ha by done.
  rewrite (on_nic_same _ _ _ _ Ha). destruct (_ || _); [|done].
  by destruct (Segment.header_type (Packet.data packet)).
Qed.

(** A complete frame: everything up to the system filter. *)
Lemma update_external_filter gw e buf f s :
  owned buf f s → 13 ≤ data_length f → nearby_lock (blk (ipc (nic s))) = false →
  let from := mk_Address (shost f) (Packet.sport (fdata f)) in
  let to := mk_Address (dhost f) (Packet.dport (fdata f)) in
  ∃ n l, Protocol.update_external gw e buf s =
    (r ← try_catch (b ← Protocol.filter_system_messages gw e (fdata f) (data_length f) from to;
                    mret (Some b)) (λ _, mret None);
     match r with
     | Some false => Protocol.deliver_verified gw e buf f
     | _ => on_nic (NIC.free RAW buf)
     end) (with_nearby n l s).
Proof.
  intros Hb Hlen Hlock from to. unfold Protocol.update_external. mstep. rewrite Hb. mstep.
  cbn [fb_quad].
  erewrite on_nic_same by (eapply nic_data_run; [exact Hb|reflexivity]).
  destruct (register_nearby_run (paddr from) s Hlock) as (n & l & Hrun).
  exists n, l. rewrite Hrun. rewrite decide_False; [done|].
  unfold PACKET_HEADER_SIZE, LOCATION_HEADER_SIZE, PORT_HEADER_SIZE, MSG_AUTH_CODE_SIZE. lia.
Qed.

Lemma update_external_data gw e buf f s :
  owned buf f s → 13 ≤ data_length f → nearby_lock (blk (ipc (nic s))) = false →
  is_system (Segment.header_type (Packet.data (fdata f))) = false →
  ∃ n l, Protocol.update_external gw e buf s = Protocol.deliver_verified gw e buf f (with_nearby n l s).
Proof.
  intros Hb Hlen Hlock Hs.
  destruct (update_external_filter gw e buf f s Hb Hlen Hlock) as (n & l & ->). exists n, l.
  rewrite (bind_pure (try_catch _ _) _ _ (Some false) (with_nearby n l s)); [done|].
  unfold try_catch, mbind, M_bind. by rewrite filter_pass.
Qed.

(** ** Verification and delivery inside *)

Lemma read_mem_all {A} (l : list A) : read_mem 0 (length l) l = Some l.
Proof. rewrite read_mem_in by lia. unfold slice. by rewrite drop_0, take_ge by lia. Qed.

(** A code that is not the expected one: the buffer is freed, nothing else. *)
Lemma deliver_reject p `{MacLaws p} gw e buf f loc sp dp payload mac m s :
  carries f loc sp dp payload mac → owned buf f s → crypto s = Some p →
  generate_mac p (Packet.header_bytes loc sp dp ++ payload) (5 + Z.of_nat (length payload))
    (session_key (blk (ipc (nic s)))) = Ret m → m ≠ mac →
  Protocol.deliver_verified gw e buf f s = (Ret tt, without buf s, []).
Proof.
  intros Hf Hb Hc Hm Hne. unfold Protocol.deliver_verified. mstep. rewrite get_session_key_bind.
  rewrite Hc. unfold CryptoService.generate_mac, CryptoService.getProvider.
  rewrite (carries_generate_mac Hf p), Hm.
  rewrite (bind_pure (of_outcome (Ret m)) _ s m s) by done.
  rewrite (carries_received_mac Hf). mstep.
  rewrite leval_small by (exact (ca_mac _ _ _ _ _ _ Hf)). rewrite decide_True by done.
  by eapply free_owned.
Qed.

(** The expected code: the frame is sent on to the internal network. *)
Lemma deliver_accept p `{MacLaws p} e buf f loc sp dp payload mac s :
  carries f loc sp dp payload mac → owned buf f s → heap_ok s → sender_ok p s →
  ring_ready (ipc (nic s)) →
  generate_mac p (Packet.header_bytes loc sp dp ++ payload) (5 + Z.of_nat (length payload))
    (session_key (blk (ipc (nic s)))) = Ret mac →
  ∃ g mac' old, carries g (location (blk (ipc (nic s)))) sp dp payload mac' ∧
    dhost g = LOCAL_ADDR ∧ shost g = shost f ∧ ftype g = ETHERNET_PROTOCOL_NUMBER ∧
    length (fdata old) = 1500%nat ∧
    Protocol.deliver_verified true e buf f s =
      (Ret tt,
       set_nic (set_ipc (sent (in_slot g old) (ipc (nic s)))
         (set_heap (delete buf (heap (nic (with_frame g s)))) (nic (with_frame g s)))) s, []).
Proof.
  intros Hf Hb Hheap Hs Hring Hm.
  assert (message_ok (mk_Address (shost f) sp) (mk_Address LOCAL_ADDR dp) payload) as Hmsg.
  { split; simpl; try apply Hf. apply (carries_size Hf). }
  destruct (send_frame_build p SHM e _ _ (Packet.data (fdata f)) payload s Hs Hmsg)
    as (g & mac' & Hg & Hd & Hsh & Hty & _ & Hsend); [done|..].
  { rewrite (carries_read Hf) by done. by rewrite take_ge. }
  destruct (nic_send_shm e g _ _ _ _ _ s Hg Hring) as (old & Hold & Hnic).
  exists g, mac', old. do 5 (split; [done|]).
  unfold Protocol.deliver_verified. mstep. rewrite get_session_key_bind.
  rewrite (so_crypto _ _ Hs). unfold CryptoService.generate_mac, CryptoService.getProvider.
  rewrite (carries_generate_mac Hf p), Hm.
  rewrite (bind_pure (of_outcome (Ret mac)) _ s mac s) by done.
  rewrite (carries_received_mac Hf). mstep.
  rewrite leval_small by (exact (ca_mac _ _ _ _ _ _ Hf)). rewrite decide_False by tauto.
  rewrite (carries_sport Hf), (carries_dport Hf), (carries_segment_size Hf).
  unfold Protocol.send.
  assert (∀ k `{Engine k}, NIC.address k (nic s) = (Ret (engine_address (nic s)), nic s, [])) as Ha by done.
  rewrite bind_assoc, (on_nic_same _ _ _ _ (Ha RAW _)). rewrite bind_assoc, (on_nic_same _ _ _ _ (Ha SHM _)).
  cbn [engine_address ShmEngine paddr].
  replace (mac_neb LOCAL_ADDR LOCAL_ADDR) with false by done. rewrite andb_false_r.
  unfold Protocol.send_local_frame.
  rewrite (bind_pure _ _ _ _ _ (eq_trans Hsend Hnic)).
  assert (buf ≠ next_buf (nic s)) as Hne by (intros ->; specialize (Hheap _ _ Hb); lia).
  erewrite free_owned; [reflexivity|].
  unfold owned. cbn. by rewrite lookup_insert_ne.
Qed.
