(* ===== verification/ProtocolProps.v ===== *)
(** Properties of the protocol: what it puts on the wire, what it lets in, and
    what the system messages can do. *)
From S2P Require Import Prelude Ethernet Packet Crypto Clock Observer Shm Ptp Group Nic Protocol ProtocolLemmas.
Local Open Scope Z_scope.

(** ** Concrete processes for the witnesses *)

Definition mac_a : MAC := mk_MAC [2; 0; 0; 0; 0; 1].
Definition mac_b : MAC := mk_MAC [2; 0; 0; 0; 0; 2].
Definition proto_obs : observed unit Z := mk_observed [Some tt] [ETHERNET_PROTOCOL_NUMBER].

(** A vehicle with two engine clients, the gateway (0) and a component (1), and session key 77. *)
Definition ipc0 : Ipc :=
  set_blk (λ b, set_key 77 (set_registry (<[0%nat := mk_client true 1 0]>
                              (<[1%nat := mk_client true 2 0]> (client_registry b))) b))
    (mk_ipc init_block (Some (initial_sems (λ _, true)))).
Definition nics0 (mac : MAC) : nics :=
  mk_nics ipc0 0 mac [] 0 false ∅ 0 1 proto_obs proto_obs.
Definition gateway0 (mac : MAC) : pstate :=
  mk_pstate (nics0 mac) true true (mk_observed [] []) (mk_observed [] []) ∅
    (Some (SlaveSync Slave.start)) (Some MemberHandler) true (Some XorCryptoProvider).
Definition nenv0 : netenv := mk_netenv (mk_env (λ _, 0) true) (λ l, Z.of_nat (length l)) 0.

Lemma gateway0_sender mac : sender_ok XorCryptoProvider (gateway0 mac).
Proof. split; unfold is_u; simpl; done || lia. Qed.

Lemma ipc0_ready : ring_ready ipc0.
Proof.
  split; [| |simpl; lia|done].
  - exists (initial_sems (λ _, true)). split; [done|]. split; [done|]. split; [done|].
    intros i n Hi. assert (Forall (λ n, 0 ≤ n) (initial_sems (λ _, true))) as Hall.
    { unfold initial_sems. simpl. repeat constructor; lia. }
    by eapply Forall_lookup_1 in Hall.
  - split; [done|]. split; [done|]. split; [|simpl; lia]. intros i sl Hi.
    apply (lookup_replicate_1 32 zero_slot) in Hi as [-> _]. done.
Qed.

(** ** Sending to the network *)

(** The gateway's [send] to an address that is neither its own nor local. *)
Lemma gateway_send_remote p `{MacLaws p} e from to payload s :
  sender_ok p s → message_ok from to payload → external_nic s = true →
  mac_eqb (paddr to) (my_mac (nic s)) = false → mac_eqb (paddr to) LOCAL_ADDR = false →
  ∃ f mac,
    carries f (quadrant (nic s)) (port from) (port to) payload mac ∧
    generate_mac p (Packet.header_bytes (quadrant (nic s)) (port from) (port to) ++ payload)
      (5 + Z.of_nat (length payload)) (session_key (blk (ipc (nic s)))) = Ret mac ∧
    let bytes := RawSocketEngine.wire_frame (my_mac (nic s)) (paddr to) ETHERNET_PROTOCOL_NUMBER
      (packet_bytes (quadrant (nic s)) (port from) (port to) payload mac) in
    Protocol.send true e from to payload (Z.of_nat (length payload)) s =
      (Ret (e_sendto e bytes), with_frame f s, [Sendto bytes]).
Proof.
  intros Hs Hm Hx Hne Hnl.
  destruct (send_frame_build p RAW e from to payload payload s Hs Hm (λ _, Hx) (read_mem_all _))
    as (f & mac & Hf & Hd & Hsh & Hty & Hmac & Hrun).
  exists f, mac. split; [done|]. split; [done|]. intros bytes.
  unfold Protocol.send.
  assert (∀ k `{Engine k}, NIC.address k (nic s) = (Ret (engine_address (nic s)), nic s, [])) as Ha by done.
  rewrite (on_nic_same _ _ _ _ (Ha RAW _)), (on_nic_same _ _ _ _ (Ha SHM _)).
  cbn [engine_address ShmEngine RawEngine]. unfold mac_neb. rewrite Hne, Hnl. cbn [negb andb].
  unfold Protocol.send_remote_frame. rewrite Hrun.
  pose proof (nic_send_raw e f _ _ _ _ _ s Hf) as Hnic. cbv zeta in Hnic. rewrite Hd, Hty in Hnic.
  exact Hnic.
Qed.

(** C17. A gateway's send to the network puts exactly one packet on the wire:
    destination, its own MAC, the protocol number in network order, then
    quadrant, ports, payload, and the MAC over header and payload under the
    session key; the engine's result is returned. *)
Theorem gateway_send_wire p `{MacLaws p} e from to payload s :
  sender_ok p s → message_ok from to payload → external_nic s = true →
  mac_eqb (paddr to) (my_mac (nic s)) = false → mac_eqb (paddr to) LOCAL_ADDR = false →
  ∃ mac s',
    generate_mac p (Packet.header_bytes (quadrant (nic s)) (port from) (port to) ++ payload)
      (5 + Z.of_nat (length payload)) (session_key (blk (ipc (nic s)))) = Ret mac ∧
    let bytes := addr (paddr to) ++ addr (my_mac (nic s)) ++ [0x88; 0xB5] ++
      Packet.header_bytes (quadrant (nic s)) (port from) (port to) ++ payload ++ lebytes 8 mac in
    Protocol.send true e from to payload (Z.of_nat (length payload)) s =
      (Ret (e_sendto e bytes), s', [Sendto bytes]) ∧ ipc (nic s') = ipc (nic s).
Proof.
  intros Hs Hm Hx Hne Hnl.
  destruct (gateway_send_remote p e from to payload s Hs Hm Hx Hne Hnl) as (f & mac & _ & Hmac & Hrun).
  exists mac, (with_frame f s). split; [done|]. intros bytes. by split.
Qed.

Lemma gateway_send_wire_witness :
  ∃ mac s', let bytes := addr BROADCAST_ADDR ++ addr mac_a ++ [0x88; 0xB5] ++
      Packet.header_bytes 0 1000 7 ++ [1; 2; 3] ++ lebytes 8 mac in
    Protocol.send true nenv0 (mk_Address mac_a 1000) (Address_broadcast 7) [1; 2; 3] 3 (gateway0 mac_a) =
      (Ret (Z.of_nat (length bytes)), s', [Sendto bytes]).
Proof.
  destruct (gateway_send_wire XorCryptoProvider nenv0 (mk_Address mac_a 1000) (Address_broadcast 7)
    [1; 2; 3] (gateway0 mac_a)) as (mac & s' & _ & Hrun & _).
  - apply gateway0_sender.
  - split; unfold is_u; simpl; try lia. repeat constructor; lia.
  - reflexivity.
  - reflexivity.
  - reflexivity.
  - exists mac, s'. exact Hrun.
Defined.

(** [n] sends in a row. *)
Fixpoint sends (n : nat) (e : netenv) (from to : Address) (payload : list Z) : P unit :=
  match n with
  | O => mret tt
  | S n => _ ← Protocol.send true e from to payload (Z.of_nat (length payload)); sends n e from to payload
  end.

(** Every frame sent leaks its buffer: [_send_frame] never frees what it
    allocates, so [n] sends leave [n] more live buffers. *)
Theorem sends_leak_buffers p `{MacLaws p} e from to payload n s :
  sender_ok p s → message_ok from to payload → external_nic s = true →
  mac_eqb (paddr to) (my_mac (nic s)) = false → mac_eqb (paddr to) LOCAL_ADDR = false → heap_ok s →
  ∃ s' es, sends n e from to payload s = (Ret tt, s', es) ∧ length es = n ∧
    size (heap (nic s')) = (n + size (heap (nic s)))%nat.
Proof.
  revert s. induction n as [|n IH]; intros s Hs Hm Hx Hne Hnl Hh; [by exists s, []|].
  destruct (gateway_send_remote p e from to payload s Hs Hm Hx Hne Hnl) as (f & mac & _ & _ & Hrun).
  destruct (IH (with_frame f s)) as (s' & es & Hs' & Hes & Hsize); try done.
  { split; apply Hs. }
  { intros id b Hid. cbn in Hid. apply lookup_insert_Some in Hid as [[<- _]|[_ Hid]]; cbn; [lia|].
    apply Hh in Hid. lia. }
  exists s', (Sendto (RawSocketEngine.wire_frame (my_mac (nic s)) (paddr to) ETHERNET_PROTOCOL_NUMBER
    (packet_bytes (quadrant (nic s)) (port from) (port to) payload mac)) :: es).
  split; [|split; [simpl; lia|]].
  - cbn [sends]. by rewrite (bind_run _ _ _ _ _ _ Hrun), Hs'.
  - rewrite Hsize. cbn. rewrite map_size_insert_None; [lia|].
    destruct (heap (nic s) !! next_buf (nic s)) as [b|] eqn:E; [|done]. apply Hh in E. lia.
Qed.

Lemma sends_leak_buffers_witness :
  ∃ s' es, sends 3 nenv0 (mk_Address mac_a 1000) (Address_broadcast 7) [1; 2; 3] (gateway0 mac_a) =
    (Ret tt, s', es) ∧ size (heap (nic s')) = 3%nat.
Proof.
  destruct (sends_leak_buffers XorCryptoProvider nenv0 (mk_Address mac_a 1000) (Address_broadcast 7)
    [1; 2; 3] 3 (gateway0 mac_a)) as (s' & es & Hrun & _ & Hsize).
  - apply gateway0_sender.
  - split; unfold is_u; simpl; try lia. repeat constructor; lia.
  - reflexivity.
  - reflexivity.
  - reflexivity.
  - intros id b Hid. discriminate Hid.
  - exists s', es. split; [exact Hrun|]. rewrite Hsize. reflexivity.
Defined.

(** ** Receiving from the network *)

(** Everything but the list of nearby vehicles is as before. *)
Definition same_ring (i j : Ipc) : Prop :=
  ∃ n l, j = mk_ipc (set_nearby n l (blk i)) (sems i).

(** C16. A frame whose code is not the one computed from its header, its
    payload and the gateway's session key is dropped: the update returns, the
    shared ring, the queues and the handlers are untouched, nothing is sent,
    and exactly the frame's buffer is freed. *)
Theorem forged_frame_dropped p `{MacLaws p} gw e buf f loc sp dp payload mac m s :
  owned buf f s → carries f loc sp dp payload mac → crypto s = Some p →
  nearby_lock (blk (ipc (nic s))) = false →
  is_system (Segment.header_type (Packet.data (fdata f))) = false →
  generate_mac p (Packet.header_bytes loc sp dp ++ payload) (5 + Z.of_nat (length payload))
    (session_key (blk (ipc (nic s)))) = Ret m → m ≠ mac →
  ∃ i, same_ring (ipc (nic s)) i ∧
    Protocol.update_external gw e buf s =
      (Ret tt, set_nic (set_heap (delete buf (heap (nic s))) (set_ipc i (nic s))) s, []).
Proof.
  intros Hb Hf Hc Hlock Hsys Hm Hne. pose proof (carries_size Hf).
  destruct (update_external_data gw e buf f s Hb) as (n & l & ->); try done.
  { rewrite (ca_len _ _ _ _ _ _ Hf). lia. }
  exists (mk_ipc (set_nearby n l (blk (ipc (nic s)))) (sems (ipc (nic s)))).
  split; [by exists n, l|].
  by rewrite (deliver_reject p gw e buf f loc sp dp payload mac m (with_nearby n l s)).
Qed.

(** C15. A frame with the expected code is delivered inside: it is published in
    the ring of the vehicle's shared memory as one frame to the local address,
    with the original source and ports, carrying the same payload, and the
    buffer of the network frame is freed. *)
Theorem verified_frame_delivered p `{MacLaws p} e buf f loc sp dp payload mac s :
  owned buf f s → carries f loc sp dp payload mac → sender_ok p s → heap_ok s →
  nearby_lock (blk (ipc (nic s))) = false → ring_ready (ipc (nic s)) →
  is_system (Segment.header_type (Packet.data (fdata f))) = false →
  generate_mac p (Packet.header_bytes loc sp dp ++ payload) (5 + Z.of_nat (length payload))
    (session_key (blk (ipc (nic s)))) = Ret mac →
  ∃ i g s' mac', same_ring (ipc (nic s)) i ∧
    Protocol.update_external true e buf s = (Ret tt, s', []) ∧
    ipc (nic s') = sent g i ∧ heap (nic s') !! buf = None ∧
    carries g (location (blk (ipc (nic s)))) sp dp payload mac' ∧
    dhost g = LOCAL_ADDR ∧ shost g = shost f ∧ ftype g = htons ETHERNET_PROTOCOL_NUMBER.
Proof.
  intros Hb Hf Hs Hheap Hlock Hring Hsys Hm. pose proof (carries_size Hf).
  destruct (update_external_data true e buf f s Hb) as (n & l & ->); try done.
  { rewrite (ca_len _ _ _ _ _ _ Hf). lia. }
  destruct (deliver_accept p e buf f loc sp dp payload mac (with_nearby n l s))
    as (g & mac' & old & Hg & Hd & Hsh & Hty & Hold & Hrun); try done.
  { split; apply Hs. }
  { split; apply Hring. }
  exists (mk_ipc (set_nearby n l (blk (ipc (nic s)))) (sems (ipc (nic s)))), (in_slot g old).
  eexists _, mac'. split; [by exists n, l|]. split; [exact Hrun|]. split; [done|].
  split; [cbn; apply lookup_delete_eq|]. split; [by apply carries_in_slot|].
  unfold in_slot, slot_write; simpl. by rewrite Hty.
Qed.

(** A non-system segment from [mac_a] for port 1000, in a frame under the given code. *)
Definition data_payload : list Z := Segment.get_bytes (Segment.mk Segment.CONTROL 5 [9; 8; 7]).
Definition data_frame (mac : Z) : Frame :=
  mk_Frame BROADCAST_ADDR mac_a (htons ETHERNET_PROTOCOL_NUMBER)
    (packet_bytes 0 1000 1000 data_payload mac ++ replicate (1500 - 25) 0) 25.
Definition received (f : Frame) : pstate :=
  with_frame f (gateway0 mac_b).

Lemma data_frame_carries mac : is_u 64 mac → carries (data_frame mac) 0 1000 1000 data_payload mac.
Proof.
  intros Hm. split; unfold is_u; simpl; try lia; try done.
  - by eexists.
  - unfold data_payload. repeat constructor; vm_compute; congruence.
Qed.

Lemma received_heap f : heap_ok (received f).
Proof.
  intros id b Hid. cbn in Hid. apply lookup_insert_Some in Hid as [[<- _]|[_ Hid]]; [simpl; lia|done].
Qed.

Lemma received_sender f : sender_ok XorCryptoProvider (received f).
Proof. split; apply (gateway0_sender mac_b). Qed.

Definition good_mac : Z :=
  match generate_mac XorCryptoProvider (Packet.header_bytes 0 1000 1000 ++ data_payload) 17 77 with
  | Ret m => m | _ => 0 end.

Lemma forged_frame_dropped_witness :
  ∃ i, Protocol.update_external true nenv0 0 (received (data_frame 12345)) =
    (Ret tt, set_nic (set_heap ∅ (set_ipc i (nic (received (data_frame 12345)))))
               (received (data_frame 12345)), []).
Proof.
  destruct (forged_frame_dropped XorCryptoProvider true nenv0 0 (data_frame 12345) 0 1000 1000
    data_payload 12345 good_mac (received (data_frame 12345))) as (i & _ & Hrun).
  - reflexivity.
  - apply data_frame_carries. unfold is_u. lia.
  - reflexivity.
  - reflexivity.
  - vm_compute. reflexivity.
  - vm_compute. reflexivity.
  - vm_compute. congruence.
  - exists i. exact Hrun.
Defined.

Lemma verified_frame_delivered_witness :
  ∃ i g s', Protocol.update_external true nenv0 0 (received (data_frame good_mac)) = (Ret tt, s', []) ∧
    ipc (nic s') = sent g i ∧ dhost g = LOCAL_ADDR ∧ shost g = mac_a.
Proof.
  destruct (verified_frame_delivered XorCryptoProvider nenv0 0 (data_frame good_mac) 0 1000 1000
    data_payload good_mac (received (data_frame good_mac)))
    as (i & g & s' & mac' & _ & H1 & H2 & _ & _ & H3 & H4 & _).
  - reflexivity.
  - apply data_frame_carries. vm_compute. split; congruence.
  - apply received_sender.
  - apply received_heap.
  - reflexivity.
  - exact ipc0_ready.
  - vm_compute. reflexivity.
  - vm_compute. reflexivity.
  - exists i, g, s'. split; [exact H1|]. split; [exact H2|]. split; [exact H3|exact H4].
Defined.

(** ** System messages *)

Definition with_key (k : Z) (s : pstate) : pstate :=
  set_nic (set_ipc (set_blk (set_key k) (ipc (nic s))) (nic s)) s.

(** A KEY_DISTRIBUTION seen by a member gateway, before any check of the code. *)
Lemma install_key gw e buf f s :
  owned buf f s → 13 ≤ data_length f → nearby_lock (blk (ipc (nic s))) = false →
  group s = Some MemberHandler →
  mac_eqb (my_mac (nic s)) (dhost f) || mac_eqb BROADCAST_ADDR (dhost f) = true →
  Segment.header_type (Packet.data (fdata f)) = Segment.GROUP →
  GroupPayload.header_type (drop 14 (fdata f)) = GroupPayload.KEY_DISTRIBUTION →
  9 ≤ u64 (u64 (data_length f - 13) - 9) →
  ∃ n l, Protocol.update_external gw e buf s =
    (Ret tt, without buf (with_key (GroupPayload.key (drop 14 (fdata f))) (with_nearby n l s)), []).
Proof.
  intros Hb Hlen Hlock Hg Hdst Hseg Hgt Hsize.
  destruct (update_external_filter gw e buf f s Hb Hlen Hlock) as (n & l & ->). exists n, l.
  set (s1 := with_nearby n l s).
  set (k := GroupPayload.key (drop 14 (fdata f))).
  assert (drop 9 (Packet.data (fdata f)) = drop 14 (fdata f)) as Hdrop.
  { unfold Packet.data. by rewrite drop_drop. }
  assert (∀ src dst, paddr dst = dhost f →
    Protocol.filter_system_messages gw e (fdata f) (data_length f) src dst s1 =
      (Ret true, with_key k s1, [])) as Hfilter.
  { intros src dst Hd. unfold Protocol.filter_system_messages.
    assert (NIC.address RAW (nic s1) = (Ret (my_mac (nic s1)), nic s1, [])) as Ha by done.
    rewrite (on_nic_same _ _ _ _ Ha), Hd. change (my_mac (nic s1)) with (my_mac (nic s)).
    rewrite Hdst, Hseg, Hdrop. unfold Protocol.handle_group_message. mstep.
    change (group s1) with (group s). rewrite Hg. unfold Protocol.run_handler.
    unfold Member.handle_group_message. rewrite Hgt. rewrite decide_False.
    2:{ unfold GroupPayload.KEY_DISTRIBUTION_SIZE, PACKET_HEADER_SIZE, LOCATION_HEADER_SIZE,
          PORT_HEADER_SIZE, MSG_AUTH_CODE_SIZE.
        replace (data_length f - (1 + 4) - 8) with (data_length f - 13) by lia. lia. }
    done. }
  rewrite (bind_pure (try_catch _ _) _ _ (Some true) (with_key k s1)).
  2:{ unfold try_catch, mbind, M_bind. by rewrite Hfilter. }
  erewrite free_owned; [reflexivity|]. exact Hb.
Qed.

(** Group messages are handled before, and without, any check of the
    message authentication code: whoever sends a KEY_DISTRIBUTION to a member
    gateway (or to the broadcast address) installs the session key of its
    choice, whatever code the frame carries. *)
Theorem key_distribution_unauthenticated gw e buf f loc sp dp ts k mac s :
  owned buf f s → is_u 64 k →
  carries f loc sp dp (sys_segment Segment.GROUP ts (GroupPayload.key_bytes k)) mac →
  nearby_lock (blk (ipc (nic s))) = false → group s = Some MemberHandler →
  mac_eqb (my_mac (nic s)) (dhost f) || mac_eqb BROADCAST_ADDR (dhost f) = true →
  ∃ s', Protocol.update_external gw e buf s = (Ret tt, s', []) ∧
    session_key (blk (ipc (nic s'))) = k ∧ heap (nic s') = delete buf (heap (nic s)).
Proof.
  intros Hb Hk Hf Hlock Hg Hdst. pose proof (carries_size Hf) as Hsz.
  assert (length (sys_segment Segment.GROUP ts (GroupPayload.key_bytes k)) = 18%nat) as Hl.
  { rewrite length_sys_segment. unfold GroupPayload.key_bytes. by rewrite length_app, !length_lebytes. }
  pose proof (ca_len _ _ _ _ _ _ Hf) as Hlen. rewrite Hl in Hlen.
  destruct (ca_data _ _ _ _ _ _ Hf) as [rest Hd].
  assert (Packet.data (fdata f) =
    sys_segment Segment.GROUP ts (GroupPayload.key_bytes k) ++ lebytes 8 mac ++ rest) as Hdata.
  { rewrite Hd. unfold packet_bytes. rewrite <- !app_assoc. apply packet_data. }
  assert (drop 14 (fdata f) = GroupPayload.key_bytes k ++ lebytes 8 mac ++ rest) as Hdrop.
  { change 14%nat with (5 + 9)%nat. rewrite <- drop_drop. fold (Packet.data (fdata f)). rewrite Hdata.
    unfold sys_segment. rewrite <- app_assoc. apply drop_app_eq, length_segment_header. }
  destruct (install_key gw e buf f s) as (n & l & Hrun); try done.
  - rewrite Hlen. lia.
  - rewrite Hdata. unfold sys_segment. rewrite <- app_assoc. by apply header_type_bytes.
  - rewrite Hdrop. unfold GroupPayload.key_bytes. rewrite <- app_assoc. by apply group_header_type.
  - rewrite Hlen. vm_compute. congruence.
  - eexists. split; [exact Hrun|]. split; [|done]. cbn. rewrite Hdrop. by apply group_key_bytes.
Qed.

(** Size checks of system messages are void on short frames: only 13 bytes
    are required, and for 13 to 21 the unsigned payload size wraps around. A
    member then installs as session key eight bytes (positions 15 to 22 of the
    data array) that do not all belong to the frame. *)
Theorem short_system_frame_accepted gw e buf f s :
  owned buf f s → 13 ≤ data_length f ≤ 21 → nearby_lock (blk (ipc (nic s))) = false →
  group s = Some MemberHandler →
  mac_eqb (my_mac (nic s)) (dhost f) || mac_eqb BROADCAST_ADDR (dhost f) = true →
  Segment.header_type (Packet.data (fdata f)) = Segment.GROUP →
  GroupPayload.header_type (drop 14 (fdata f)) = GroupPayload.KEY_DISTRIBUTION →
  ∃ s', Protocol.update_external gw e buf s = (Ret tt, s', []) ∧
    session_key (blk (ipc (nic s'))) = leval (slice 15 8 (fdata f)).
Proof.
  intros Hb Hlen Hlock Hg Hdst Hseg Hgt.
  destruct (install_key gw e buf f s) as (n & l & Hrun); try done; try lia.
  - rewrite (u64_small (data_length f - 13)) by (unfold is_u; lia).
    unfold u64. replace (data_length f - 13 - 9) with (data_length f - 22 + (-1 + 1) * 2 ^ 64) by lia.
    rewrite Z.add_0_r. rewrite <- (Z.mod_unique (data_length f - 22) (2 ^ 64) (-1) (data_length f - 22 + 2 ^ 64));
      lia.
  - eexists. split; [exact Hrun|]. cbn. unfold GroupPayload.key, slice. by rewrite drop_drop.
Qed.

Definition key_frame : Frame :=
  mk_Frame BROADCAST_ADDR mac_a (htons ETHERNET_PROTOCOL_NUMBER)
    (packet_bytes 0 0 0 (sys_segment Segment.GROUP 0 (GroupPayload.key_bytes 4242)) 0 ++
     replicate (1500 - 31) 0) 31.
Lemma key_frame_carries :
  carries key_frame 0 0 0 (sys_segment Segment.GROUP 0 (GroupPayload.key_bytes 4242)) 0.
Proof.
  split; unfold is_u; simpl; try lia; try done.
  - by eexists.
  - repeat constructor; vm_compute; congruence.
Qed.

Lemma key_distribution_unauthenticated_witness :
  ∃ s', Protocol.update_external true nenv0 0 (received key_frame) = (Ret tt, s', []) ∧
    session_key (blk (ipc (nic s'))) = 4242.
Proof.
  destruct (key_distribution_unauthenticated true nenv0 0 key_frame 0 0 0 0 4242 0 (received key_frame))
    as (s' & Hrun & Hk & _).
  - reflexivity.
  - unfold is_u. lia.
  - exact key_frame_carries.
  - reflexivity.
  - reflexivity.
  - reflexivity.
  - exists s'. split; [exact Hrun|exact Hk].
Defined.

Definition short_frame : Frame := mk_Frame BROADCAST_ADDR mac_a (htons ETHERNET_PROTOCOL_NUMBER)
  ([0; 0; 0; 0; 0; 3; 0; 0; 0; 0; 0; 0; 0; 0; 1] ++ replicate 1485 7) 15.

Lemma short_system_frame_accepted_witness :
  ∃ s', Protocol.update_external true nenv0 0 (received short_frame) = (Ret tt, s', []) ∧
    session_key (blk (ipc (nic s'))) = 0x0707070707070707.
Proof.
  destruct (short_system_frame_accepted true nenv0 0 short_frame (received short_frame))
    as (s' & Hrun & Hk).
  - reflexivity.
  - simpl. lia.
  - reflexivity.
  - reflexivity.
  - reflexivity.
  - vm_compute. reflexivity.
  - vm_compute. reflexivity.
  - exists s'. split; [exact Hrun|]. rewrite Hk. vm_compute. reflexivity.
Defined.
