(* ===== verification/Communicator.v ===== *)
(** Messages and communicators: [definitions/message.hpp],
    [api/network/communicator.hpp]. A communicator is named by a number; its
    queue of buffers is part of the process state, where the protocol's
    observers reach it. *)
From S2P Require Import Prelude Ethernet Packet Teds Clock Observer Nic Protocol.
Local Open Scope Z_scope.

(** [_payload] is a [std::vector<char>]: its elements and its capacity. *)
Record Message := mk_Message {
  m_source : Address;
  m_destination : Address;
  m_type : Segment.MsgType;
  m_payload : list Z;
  m_capacity : nat;
  m_timestamp : Z
}.

Module MessageOps.
(** The constructors. Signed timestamps are converted to [uint64_t]. *)
Definition response (ts : Z) (dest : Address) (teds_type value : Z) : Message :=
  let payload := TEDS.create_response_payload teds_type value in
  mk_Message Address_default dest Segment.TEDS payload (length payload) ts.
Definition response_now (e : env) (dest : Address) (teds_type value : Z) : Message :=
  response (u64 (Clock.getCurrentTimeNanos (clock e 0%nat))) dest teds_type value.
Definition control (ts : Z) (dest : Address) (control_data : list Z) : Message :=
  mk_Message Address_default dest Segment.CONTROL control_data (length control_data) ts.
Definition control_now (dest : Address) (control_data : list Z) : Message := control 0 dest control_data.
Definition sized (buffer_size : nat) : Message :=
  mk_Message Address_default Address_default Segment.CONTROL (replicate buffer_size 0) buffer_size 0.
Definition empty : Message := sized 0.

(** [vector::resize] within the capacity: new elements are zero, whatever the
    memory held. [mem] is the memory from the first element on. *)
Definition resized (mem : list Z) (old_size new_size : nat) : list Z :=
  if decide (new_size ≤ old_size)%nat then take new_size mem
  else take old_size mem ++ replicate (new_size - old_size) 0.

Definition set_source (a : Address) (m : Message) : Message :=
  mk_Message a (m_destination m) (m_type m) (m_payload m) (m_capacity m) (m_timestamp m).
End MessageOps.

Record communicator := mk_communicator {
  c_id : nat;
  c_address : Address;
  c_subscribed : gset Z       (* _subscribed_types *)
}.

Module Communicator.
Section communicator.
Context (gw : bool) (e : netenv).

Definition construct (id : nat) (address : Address) : P communicator :=
  _ ← modify (λ s, set_queues (<[id := mk_queue 0 []]> (queues s)) s);
  _ ← Protocol.attach_port_listener id (port address);
  mret (mk_communicator id address ∅).

Fixpoint detach_types (id : nat) (ts : list Z) : P unit :=
  match ts with
  | [] => mret tt
  | t :: ts => _ ← Protocol.detach_type_listener id t; detach_types id ts
  end.
Definition destroy (c : communicator) : P unit :=
  _ ← Protocol.detach_port_listener (c_id c) (port (c_address c));
  _ ← detach_types (c_id c) (elements (c_subscribed c));
  modify (λ s, set_queues (delete (c_id c) (queues s)) s).

Definition send (c : communicator) (m : Message) : P bool :=
  let bytes := Segment.get_bytes (Segment.mk (m_type m) (m_timestamp m) (m_payload m)) in
  r ← Protocol.send gw e (c_address c) (m_destination m) bytes (Z.of_nat (length bytes));
  mret (bool_decide (0 < r)).

(** Wait for a buffer and pop it; [None] when the queue is empty. *)
Definition pop (c : communicator) : P (option nat) :=
  s ← get;
  q ← checked (queues s !! c_id c);
  n ← of_outcome (sem_p (q_sem q));
  match q_data q with
  | [] => _ ← put (set_queues (<[c_id c := mk_queue n []]> (queues s)) s); mret None
  | buf :: rest => _ ← put (set_queues (<[c_id c := mk_queue n rest]> (queues s)) s); mret (Some buf)
  end.

(** The result and the message as [receive] leaves it. *)
Definition receive (c : communicator) (m : Message) : P (bool * Message) :=
  r ← pop c;
  match r with
  | None => mret (false, m)
  | Some buf =>
      '(total, from, bytes) ← Protocol.receive buf (Z.of_nat (m_capacity m));
      _ ← Protocol.free buf;
      (* the copy overwrites the elements from the first on *)
      let mem := bytes ++ drop (length bytes) (m_payload m) in
      let written := mk_Message (m_source m) (m_destination m) (m_type m)
                       (take (length (m_payload m)) mem) (m_capacity m) (m_timestamp m) in
      if decide (total ≤ 0) then mret (false, written)
      else if decide (total < Z.of_nat Segment.HEADER_SIZE) then mret (false, written)
      else
        let payload_size := (Z.to_nat total - Segment.HEADER_SIZE)%nat in
        (* memmove to the front, then resize *)
        let moved := splice 0 (slice Segment.HEADER_SIZE payload_size mem) mem in
        mret (true, mk_Message from (m_destination m) (Segment.header_type mem)
                      (MessageOps.resized moved (length (m_payload m)) payload_size)
                      (m_capacity m) (Segment.header_timestamp mem))
  end.

Definition subscribe_to_type (c : communicator) (type_id : Z) : P communicator :=
  _ ← Protocol.attach_type_listener (c_id c) type_id;
  mret (mk_communicator (c_id c) (c_address c) ({[type_id]} ∪ c_subscribed c)).

Definition subscribe_to_requests (c : communicator) (type_id : Z) : P communicator :=
  subscribe_to_type c (TEDS.make_request_type type_id).

Definition send_interest_message (c : communicator) (base_type_id interval_ms : Z) : P unit :=
  let payload := TEDS.create_request_payload base_type_id interval_ms in
  let bytes := Segment.get_bytes (Segment.mk Segment.TEDS 0 payload) in
  _ ← Protocol.send gw e (c_address c) (Address_broadcast TYPE_BASED_ROUTING_PORT) bytes
        (Z.of_nat (length bytes));
  mret tt.

Definition subscribe_to_responses (c : communicator) (type_id interval_ms : Z) : P communicator :=
  c ← subscribe_to_type c (TEDS.make_response_type type_id);
  _ ← send_interest_message c type_id interval_ms;
  mret c.
End communicator.
End Communicator.

(** What the message handlers use of the [Communicator<LocalProtocol>&] they
    are given. *)
Class Comm (S E : Type) := {
  comm_address : M S E Address;
  comm_send : Message → M S E bool
}.

(** The communicator itself: [view] finds the process state in [S]. *)
Definition communicator_comm {S} (view : S → pstate) (upd : pstate → S → S) (c : S → communicator)
    (gw : bool) (e : netenv) : Comm S effect := {|
  comm_address := gets (λ s, c_address (c s));
  comm_send := λ m, o ← gets c; zoom view upd (Communicator.send gw e o m)
|}.

(** A communicator that records the messages it is asked to send. *)
Definition recording (a : Address) : Comm unit Message := {|
  comm_address := mret a;
  comm_send := λ m, _ ← emit m; mret true
|}.
