(* ===== verification/EndToEnd.v ===== *)
(** End to end: a message sent by one communicator, across the shared ring and
    the network, and received by another. *)
From S2P Require Import Prelude Ethernet Packet Teds Crypto Clock Observer Shm.
From S2P Require Import Ptp Group Nic Protocol ProtocolLemmas ProtocolProps Communicator.
Local Open Scope Z_scope.

(** ** The receiver thread of a process *)

(** The state once the thread has taken slot [slot], message [t], and made the view. *)
Definition taken (slot : nat) (t n : Z) (s : pstate) : pstate :=
  let x := nic s in
  let x := set_ipc (set_sem (CONTROL_SEMS + me x) (n - 1) (ipc x)) x in
  let x := set_next_seq (u64 (t + 1)) x in
  set_nic (bump_buf (set_heap (<[next_buf x := mk_fbuf None slot t false]> (heap x)) x)) s.

(** Message [t], published with frame [f], waits for the process. *)
Record incoming (s : pstate) (t n : Z) (f : Frame) : Prop := {
  in_seq : next_seq (nic s) = t;
  in_sem : sem_is (CONTROL_SEMS + me (nic s)) n (ipc (nic s));
  in_pos : 0 < n;
  in_slot_frame : buffer (blk (ipc (nic s))) !! Z.to_nat (t `mod` BUFFER_SLOTS) = Some (mk_slot t f);
  in_type : ntohs (ftype f) = ETHERNET_PROTOCOL_NUMBER;
  in_obs : local_obs (nic s) = proto_obs
}.

Ltac as_on_nic :=
  match goal with |- context [NIC.on_nics nic set_nic ?m ≫= _] =>
    change (NIC.on_nics nic set_nic m) with (on_nic m) end.

Lemma receiver_turn_run gw e s t n f s' es :
  incoming s t n f →
  Protocol.update_local gw e (next_buf (nic s)) (taken (Z.to_nat (t `mod` BUFFER_SLOTS)) t n s)
    = (Ret tt, s', es) →
  Protocol.receiver_turn gw e false s = (Ret tt, s', es).
Proof.
  intros [Hseq Hsem Hpos Hslot Hty Hobs] Hupd.
  unfold Protocol.receiver_turn, NIC.receiver_turn. mstep. rewrite Hseq.
  set (idx := Z.to_nat (t `mod` BUFFER_SLOTS)) in *.
  set (i1 := set_sem (CONTROL_SEMS + me (nic s)) (n - 1) (ipc (nic s))).
  assert (receive_zerocopy (E := effect) (me (nic s)) false t (ipc (nic s)) = (Ret (Some idx), i1, [])) as Hrec.
  { unfold receive_zerocopy. pose proof (semop_wait_run (E := effect) _ _ _ Hsem) as Hw.
    rewrite decide_True in Hw by done. rewrite (bind_pure _ _ _ _ _ Hw). cbn [negb]. mstep.
    change (buffer (blk (set_sem (CONTROL_SEMS + me (nic s)) (n - 1) (ipc (nic s)))))
      with (buffer (blk (ipc (nic s)))). fold idx. rewrite Hslot. mstep.
    by rewrite decide_False by tauto. }
  as_on_nic.
  rewrite (on_nic_pure _ _ _ _ _ (on_ipc_run _ _ _ _ _ Hrec)). mstep.
  change (buffer (blk (ipc (nic (set_nic (set_ipc i1 (nic s)) s))))) with (buffer (blk (ipc (nic s)))).
  rewrite Hslot. mstep. cbn [slot_frame slot_seq].
  as_on_nic.
  erewrite (on_nic_pure (modify _)) by reflexivity.
  as_on_nic.
  erewrite (on_nic_pure (NIC.new_buffer _)) by reflexivity.
  rewrite Hty. unfold NIC.notify. mstep.
  match goal with |- (_ ≫= _) ?st = _ => change st with (taken idx t n s) end.
  change (get_obs SHM (nic (taken idx t n s))) with (local_obs (nic s)). rewrite Hobs.
  unfold Observer.notify, proto_obs. cbn [notify_loop observers conditions].
  rewrite decide_True by done. mstep. cbn [Protocol.update].
  erewrite bind_run by exact Hupd. mstep. cbn. by rewrite ?app_nil_r.
Qed.

(** What a communicator listens on: its port, or a type it subscribed to. *)
Inductive route := ByPort (p : Z) | ByType (t : Z).

Definition observes (r : route) (c : nat) (s : pstate) : Prop :=
  match r with
  | ByPort p => ports s = mk_observed [Some c] [p]
  | ByType t => types s = mk_observed [Some c] [t]
  end.

(** A segment sent to port [dp] goes by [r]; port 0 routes by type. *)
Definition addressed (r : route) (dp : Z) (seg : Segment.t) : Prop :=
  match r with
  | ByPort p => dp = p ∧ p ≠ TYPE_BASED_ROUTING_PORT
  | ByType t => dp = TYPE_BASED_ROUTING_PORT ∧ t ≠ TEDS.INVALID ∧
      TEDS.extract_type (Segment.type seg) (Segment.payload seg) (Z.of_nat (length (Segment.payload seg))) = t
  end.

(** The type is read from the frame as from the segment. *)
Lemma carries_extract_type f loc sp dp seg mac :
  carries f loc sp dp (Segment.get_bytes seg) mac → Segment.ok seg →
  let raw := Packet.data (fdata f) in
  TEDS.extract_type (Segment.header_type raw) (drop 9 raw)
    (u32 (data_length f - PACKET_HEADER_SIZE - MSG_AUTH_CODE_SIZE - Z.of_nat Segment.HEADER_SIZE)) =
  TEDS.extract_type (Segment.type seg) (Segment.payload seg) (Z.of_nat (length (Segment.payload seg))).
Proof.
  intros Hf (Ht & _ & _) raw. pose proof (carries_size Hf) as Hs.
  pose proof (ca_len _ _ _ _ _ _ Hf) as Hl.
  assert (∃ rest, raw = Segment.header_bytes (Segment.type seg) (Segment.timestamp seg) ++
                        Segment.payload seg ++ rest) as [rest Hraw].
  { destruct (ca_data _ _ _ _ _ _ Hf) as [rest Hr]. exists (lebytes 8 mac ++ rest). unfold raw.
    rewrite Hr. unfold packet_bytes. by rewrite <- !app_assoc, packet_data, get_bytes_eq, <- app_assoc. }
  rewrite Hraw, header_type_bytes by done. rewrite drop_app_eq by apply length_segment_header.
  rewrite get_bytes_eq, length_app, length_segment_header in Hl, Hs.
  unfold PACKET_HEADER_SIZE, LOCATION_HEADER_SIZE, PORT_HEADER_SIZE, MSG_AUTH_CODE_SIZE, Segment.HEADER_SIZE.
  rewrite Hl. rewrite u32_small by (unfold is_u; lia).
  replace (_ - _ - _ - _) with (Z.of_nat (length (Segment.payload seg))) by lia.
  unfold TEDS.extract_type. do 2 (case_decide; [done|]). unfold TEDS.header_type, slice.
  rewrite !drop_0. by rewrite take_app_le by lia.
Qed.

Lemma queue_incoming_run c buf q s :
  queues s !! c = Some q → q_sem q < INT_MAX →
  Protocol.queue_incoming_buffer c buf s =
    (Ret tt, set_queues (<[c := mk_queue (q_sem q + 1) (q_data q ++ [buf])]> (queues s)) s, []).
Proof.
  intros Hq Hmax. unfold Protocol.queue_incoming_buffer. mstep. rewrite Hq. mstep.
  unfold queue_update, sem_v. rewrite decide_False by lia.
  by rewrite (bind_pure (of_outcome (Ret _)) _ s _ s) by done.
Qed.

(** A frame for what one communicator listens on goes to its queue. *)
Lemma notify_communicator_run buf f loc sp dp seg mac r c q s :
  heap (nic s) !! buf ≫= buf_frame (nic s) = Some f → carries f loc sp dp (Segment.get_bytes seg) mac →
  Segment.ok seg → addressed r dp seg → observes r c s →
  queues s !! c = Some q → q_sem q < INT_MAX →
  Protocol.notify_communicator dp buf s =
    (Ret tt, set_queues (<[c := mk_queue (q_sem q + 1) (q_data q ++ [buf])]> (queues s)) s, []).
Proof.
  intros Hb Hf Hok Hr Hobs Hq Hmax.
  destruct (heap (nic s) !! buf) as [b|] eqn:Hbuf; [|done]. simpl in Hb.
  pose proof (nic_data_run _ _ _ _ Hbuf Hb) as Hdata. unfold Protocol.notify_communicator.
  destruct r as [p|t]; destruct Hr as [-> Hr]; cbn [observes] in Hobs.
  - rewrite decide_False by done. mstep. rewrite Hobs. unfold Observer.notify.
    cbn [notify_loop observers conditions]. rewrite decide_True by done. mstep.
    by rewrite (bind_pure _ _ _ _ _ (queue_incoming_run _ _ _ _ Hq Hmax)).
  - destruct Hr as [Ht Hx]. rewrite decide_True by done. rewrite (on_nic_same _ _ _ _ Hdata).
    rewrite (carries_extract_type _ _ _ _ _ _ Hf Hok), Hx. rewrite decide_True by done. mstep.
    rewrite Hobs. unfold Observer.notify.
    cbn [notify_loop observers conditions]. rewrite decide_True by done. mstep.
    by rewrite (bind_pure _ _ _ _ _ (queue_incoming_run _ _ _ _ Hq Hmax)).
Qed.

(** A unicast frame is only for the vehicle. *)
Lemma update_local_unicast gw e buf f loc sp dp seg mac r c q s :
  heap (nic s) !! buf ≫= buf_frame (nic s) = Some f → carries f loc sp dp (Segment.get_bytes seg) mac →
  Segment.ok seg → mac_eqb (dhost f) BROADCAST_ADDR = false → addressed r dp seg → observes r c s →
  queues s !! c = Some q → q_sem q < INT_MAX →
  Protocol.update_local gw e buf s =
    (Ret tt, set_queues (<[c := mk_queue (q_sem q + 1) (q_data q ++ [buf])]> (queues s)) s, []).
Proof.
  intros Hb Hf Hok Hd Hr Hobs Hq Hmax.
  pose proof (notify_communicator_run _ _ _ _ _ _ _ _ _ _ _ Hb Hf Hok Hr Hobs Hq Hmax) as Hn.
  destruct (heap (nic s) !! buf) as [b|] eqn:Hbuf; [|done]. simpl in Hb.
  unfold Protocol.update_local. rewrite (on_nic_same _ _ _ _ (nic_data_run _ _ _ _ Hbuf Hb)).
  by rewrite Hd, (carries_dport Hf).
Qed.

(** ** Taking a message out *)

(** The content of a message filled from the bytes of a segment. *)
Lemma message_of_segment seg cap :
  Segment.ok seg → (9 + length (Segment.payload seg) ≤ cap)%nat →
  let bytes := Segment.get_bytes seg in
  let mem := bytes ++ drop (length bytes) (replicate cap 0) in
  let n := (length bytes - Segment.HEADER_SIZE)%nat in
  Segment.header_type mem = Segment.type seg ∧ Segment.header_timestamp mem = Segment.timestamp seg ∧
  MessageOps.resized (splice 0 (slice Segment.HEADER_SIZE n mem) mem) cap n = Segment.payload seg.
Proof.
  intros (Ht & Hts & Hp) Hcap bytes mem n.
  assert (bytes = Segment.header_bytes (Segment.type seg) (Segment.timestamp seg) ++ Segment.payload seg)
    as Hb by apply get_bytes_eq.
  assert (length bytes = 9 + length (Segment.payload seg))%nat as Hl
    by (by rewrite Hb, length_app, length_segment_header).
  assert (n = length (Segment.payload seg)) as Hn by (unfold n, Segment.HEADER_SIZE; lia).
  assert (slice Segment.HEADER_SIZE n mem = Segment.payload seg) as Hs.
  { unfold mem. rewrite Hb, <- app_assoc.
    rewrite slice_app_skip by apply length_segment_header. by apply take_app_eq. }
  split; [|split].
  - unfold mem. rewrite Hb, <- app_assoc. by apply header_type_bytes.
  - unfold mem. rewrite Hb, <- app_assoc. by apply header_timestamp_bytes.
  - unfold MessageOps.resized. rewrite decide_True by lia. rewrite Hs. unfold splice. rewrite take_0.
    cbn [app]. rewrite Hn. by apply take_app_eq.
Qed.

(** Freeing the view of message [t]: it becomes the last one read. *)
Definition released (buf : nat) (t : Z) (c : ClientState) (s : pstate) : pstate :=
  let i := set_blk (set_registry (<[me (nic s) := mk_client (cl_active c) (process_id c) t]>
             (client_registry (blk (ipc (nic s)))))) (ipc (nic s)) in
  set_nic (set_heap (delete buf (heap (nic s))) (set_ipc i (nic s))) s.

Lemma free_view buf slot t c s :
  local_nic s = true → heap (nic s) !! buf = Some (mk_fbuf None slot t false) →
  client_registry (blk (ipc (nic s))) !! me (nic s) = Some c →
  writer_is_blocked (blk (ipc (nic s))) = false →
  Protocol.free buf s = (Ret tt, released buf t c s, []).
Proof.
  intros Hl Hb Hc Hw. unfold Protocol.free. mstep. rewrite Hl.
  assert (release_frame (E := effect) (me (nic s)) t (ipc (nic s)) =
    (Ret tt, set_blk (set_registry (<[me (nic s) := mk_client (cl_active c) (process_id c) t]>
       (client_registry (blk (ipc (nic s)))))) (ipc (nic s)), [])) as Hrel.
  { unfold release_frame. mstep. rewrite Hc. mstep. rewrite Hw. unfold on_blk. mstep.
    cbn [andb]. by mstep. }
  erewrite on_nic_run; [reflexivity|]. unfold NIC.free. mstep. rewrite Hb. mstep. cbn [fb_own fb_seq].
  rewrite (bind_pure _ _ _ _ _ (on_ipc_run _ _ _ _ _ Hrel)). unfold NIC.delete_buffer. mstep.
  cbn [heap set_ipc]. rewrite Hb. done.
Qed.

(** A buffer at the front of the queue holds a view of a complete message. *)
Lemma receive_run c cap buf rest n slot t cl f loc sp dp seg mac s :
  queues s !! c_id c = Some (mk_queue n (buf :: rest)) → 0 < n →
  local_nic s = true → heap (nic s) !! buf = Some (mk_fbuf None slot t false) →
  buffer (blk (ipc (nic s))) !! slot = Some (mk_slot t f) →
  client_registry (blk (ipc (nic s))) !! me (nic s) = Some cl →
  writer_is_blocked (blk (ipc (nic s))) = false →
  carries f loc sp dp (Segment.get_bytes seg) mac → Segment.ok seg →
  (9 + length (Segment.payload seg) ≤ cap)%nat →
  Communicator.receive c (MessageOps.sized cap) s =
    (Ret (true, mk_Message (mk_Address (shost f) sp) Address_default (Segment.type seg)
                  (Segment.payload seg) cap (Segment.timestamp seg)),
     released buf t cl (set_queues (<[c_id c := mk_queue (n - 1) rest]> (queues s)) s), []).
Proof.
  intros Hq Hn Hl Hb Hslot Hreg Hw Hf Hok Hcap.
  unfold Communicator.receive, Communicator.pop. mstep. rewrite Hq. mstep. unfold sem_p.
  cbn [q_sem q_data]. rewrite decide_True by done.
  rewrite (bind_pure (of_outcome (Ret (n - 1))) _ s (n - 1) s) by done. mstep.
  set (s1 := set_queues _ s).
  destruct (message_of_segment seg cap Hok Hcap) as (Hty & Hts & Hpl).
  set (bytes := Segment.get_bytes seg) in *.
  assert (length bytes = 9 + length (Segment.payload seg))%nat as Hlen.
  { unfold bytes. by rewrite get_bytes_eq, length_app, length_segment_header. }
  assert (Protocol.receive buf (Z.of_nat cap) s1 =
            (Ret (Z.of_nat (length bytes), mk_Address (shost f) sp, bytes), s1, [])) as Hrec.
  { unfold Protocol.receive.
    erewrite on_nic_same.
    2:{ eapply nic_data_run; [exact Hb|]. unfold buf_frame. cbn [fb_own fb_slot].
        change (buffer (blk (ipc (nic s1)))) with (buffer (blk (ipc (nic s)))). by rewrite Hslot. }
    cbn [slot_frame]. rewrite (carries_segment_size Hf), (carries_sport Hf).
    rewrite Z.min_r by lia. rewrite Nat2Z.id, (carries_read Hf) by done. rewrite take_ge by done.
    mstep. rewrite i32_small; [done|]. pose proof (carries_size Hf). lia. }
  rewrite (bind_pure _ _ _ _ _ Hrec). cbn [m_capacity MessageOps.sized].
  rewrite (bind_pure _ _ _ _ _ (free_view buf slot t cl s1 Hl Hb Hreg Hw)).
  rewrite !decide_False by (unfold Segment.HEADER_SIZE; lia).
  unfold MessageOps.sized. cbn [m_payload m_destination].
  rewrite Nat2Z.id, length_replicate, Hty, Hts, Hpl. done.
Qed.

(** ** Within a vehicle *)

(** A process whose one communicator [c] listens on [r] and has read everything. *)
Record listener (c : communicator) (r : route) (cl : ClientState) (s : pstate) : Prop := {
  li_local : local_nic s = true;
  li_obs : local_obs (nic s) = proto_obs;
  li_observes : observes r (c_id c) s;
  li_queue : queues s !! c_id c = Some (mk_queue 0 []);
  li_seq : next_seq (nic s) = claim_sequence_id (blk (ipc (nic s)));
  li_client : client_registry (blk (ipc (nic s))) !! me (nic s) = Some cl;
  li_active : cl_active cl = true;
  li_heap : heap (nic s) !! next_buf (nic s) = None
}.

Definition seg_of (m : Message) : Segment.t := Segment.mk (m_type m) (m_timestamp m) (m_payload m).

(** Once frame [g] is published, it waits for every active client. *)
Lemma sent_incoming g i cl s :
  ring_ready i → ipc (nic s) = i → next_seq (nic s) = claim_sequence_id (blk i) →
  client_registry (blk i) !! me (nic s) = Some cl → cl_active cl = true →
  local_obs (nic s) = proto_obs → ftype g = htons ETHERNET_PROTOCOL_NUMBER →
  ∃ n, incoming (seeing (sent g i) s) (claim_sequence_id (blk i)) n g.
Proof.
  intros [Hsems Hring Hnext Hfree] Hi Hseq Hcl Hact Hobs Hty.
  set (t := claim_sequence_id (blk i)).
  assert (0 ≤ t) as Ht by (destruct Hring as (_ & _ & _ & ? & ?); lia).
  destruct (slot_in_range (blk i) t Hring Ht) as (old & Hold & _).
  destruct Hsems as (l & Hsl & Hll & _ & Hnn).
  destruct (lookup_lt_is_Some_2 l (CONTROL_SEMS + me (nic s))) as [n Hn].
  { apply lookup_lt_Some in Hcl. destruct Hring as (_ & Hr & _). unfold CONTROL_SEMS. lia. }
  pose proof (Hnn _ _ Hn) as Hn0. exists (n + 1).
  split; try done; [|lia| |by rewrite Hty, ntohs_htons by (unfold is_u, ETHERNET_PROTOCOL_NUMBER; lia)].
  - unfold sem_is, seeing, sent; cbn [nic set_nic ipc set_ipc me sems]. rewrite Hsl.
    cbn [fmap option_fmap option_map mbind option_bind].
    rewrite (signal_clients_lookup _ _ _ cl n) by done. by rewrite Hact.
  - unfold seeing, sent; simpl. apply list_lookup_insert_eq. by eapply lookup_lt_Some.
Qed.

(** The receiver, once frame [g] for it is published. *)
Lemma listener_receives gw e c r dp cl cap seg g loc sp mac i s :
  listener c r cl s → ipc (nic s) = i → ring_ready i → addressed r dp seg →
  carries g loc sp dp (Segment.get_bytes seg) mac → Segment.ok seg →
  (9 + length (Segment.payload seg) ≤ cap)%nat →
  dhost g = LOCAL_ADDR → ftype g = htons ETHERNET_PROTOCOL_NUMBER →
  ∃ s1 s2,
    Protocol.receiver_turn gw e false (seeing (sent g i) s) = (Ret tt, s1, []) ∧
    Communicator.receive c (MessageOps.sized cap) s1 =
      (Ret (true, mk_Message (mk_Address (shost g) sp) Address_default (Segment.type seg)
                    (Segment.payload seg) cap (Segment.timestamp seg)), s2, []) ∧
    heap (nic s2) = heap (nic s) ∧ queues s2 = queues s ∧
    client_registry (blk (ipc (nic s2))) !! me (nic s) =
      Some (mk_client (cl_active cl) (process_id cl) (claim_sequence_id (blk i))).
Proof.
  intros [Hl Hobs Hports Hq Hseq Hcl Hact Hheap] Hi Hring Hr Hg Hok Hcap Hd Hty.
  set (t := claim_sequence_id (blk i)). rewrite Hi in Hseq, Hcl.
  destruct (sent_incoming g i cl s) as [n Hin]; try done. fold t in Hin.
  set (s0 := seeing (sent g i) s) in *. set (slot := Z.to_nat (t `mod` BUFFER_SLOTS)).
  pose proof (in_slot_frame _ _ _ _ Hin) as Hslot. fold slot in Hslot.
  set (buf := next_buf (nic s)). set (s1 := taken slot t n s0).
  assert (heap (nic s1) !! buf = Some (mk_fbuf None slot t false)) as Hbuf by apply lookup_insert_eq.
  eexists _, _. split.
  - eapply receiver_turn_run; [exact Hin|].
    apply (update_local_unicast gw e buf g loc sp dp seg mac r (c_id c) (mk_queue 0 []) s1); try done.
    + rewrite Hbuf. cbn [mbind option_bind]. unfold buf_frame; cbn [fb_own fb_slot].
      change (buffer (blk (ipc (nic s1)))) with (buffer (blk (ipc (nic s0)))). by rewrite Hslot.
    + by rewrite Hd.
  - split.
    + eapply (receive_run c cap buf [] (0 + 1));
        [apply lookup_insert_eq|lia|exact Hl|exact Hbuf|exact Hslot|exact Hcl| |exact Hg|done|done].
      done.
    + split; [|split].
      * cbn. apply delete_insert_id. exact Hheap.
      * cbn. rewrite insert_insert_eq. by apply insert_id.
      * cbn. apply list_lookup_insert_eq. by eapply lookup_lt_Some.
Qed.

(** What a component sends is published in the ring. *)
Lemma protocol_publishes p `{MacLaws p} e from to payload s :
  sender_ok p s → ring_ready (ipc (nic s)) → message_ok from to payload →
  ∃ f g mac r,
    Protocol.send false e from to payload (Z.of_nat (length payload)) s =
      (Ret r, set_nic (set_ipc (sent g (ipc (nic s))) (nic (with_frame f s))) s, []) ∧ 0 < r ∧
    carries g (location (blk (ipc (nic s)))) (port from) (port to) payload mac ∧
    dhost g = paddr to ∧ shost g = paddr from ∧ ftype g = htons ETHERNET_PROTOCOL_NUMBER.
Proof.
  intros Hs Hring Hm.
  destruct (send_frame_build p SHM e _ _ _ _ s Hs Hm ltac:(done) (read_mem_all _))
    as (f & mac & Hf & Hfd & Hfs & Hft & _ & Hbuild).
  destruct (nic_send_shm e f _ _ _ _ _ s Hf Hring) as (old & Hold & Hnic).
  exists f, (in_slot f old), mac. eexists. split; [|split; [|split; [by apply (carries_in_slot f _ _ _ _ _ old)|]]].
  - unfold Protocol.send, Protocol.send_local_frame. exact (eq_trans Hbuild Hnic).
  - rewrite (ca_len _ _ _ _ _ _ Hf). unfold HEADER_SIZE. lia.
  - unfold in_slot, slot_write; simpl. by rewrite Hfd, Hfs, Hft.
Qed.

Lemma component_publishes p `{MacLaws p} e msg c s :
  sender_ok p s → ring_ready (ipc (nic s)) →
  message_ok (c_address c) (m_destination msg) (Segment.get_bytes (seg_of msg)) →
  ∃ g mac s', Communicator.send false e c msg s = (Ret true, s', []) ∧
    ipc (nic s') = sent g (ipc (nic s)) ∧
    carries g (location (blk (ipc (nic s)))) (port (c_address c)) (port (m_destination msg))
      (Segment.get_bytes (seg_of msg)) mac ∧
    dhost g = paddr (m_destination msg) ∧ shost g = paddr (c_address c) ∧
    ftype g = htons ETHERNET_PROTOCOL_NUMBER.
Proof.
  intros Hs Hring Hm.
  destruct (protocol_publishes p e _ _ _ s Hs Hring Hm) as (f & g & mac & r & Hsend & Hr & Hg).
  exists g, mac. eexists. split; [|split; [|exact Hg]].
  - unfold Communicator.send.
    change (Segment.mk (m_type msg) (m_timestamp msg) (m_payload msg)) with (seg_of msg).
    rewrite (bind_pure _ _ _ _ _ Hsend). by rewrite bool_decide_true.
  - done.
Qed.

(** C3. A message sent by one component to another in the same vehicle, to its
    port or to a type it subscribed to, arrives: [send] succeeds, one turn of the other's receiver thread
    queues it, and [receive] returns it with the sender's address, type,
    timestamp and payload unchanged; afterwards the receiver's queue and
    buffers are as before and its slot of the ring is released. *)
Theorem local_message_delivered p `{MacLaws p} e e' msg ca sa cc sc r cl cap :
  sender_ok p sa → ring_ready (ipc (nic sa)) → Segment.ok (seg_of msg) →
  message_ok (c_address ca) (m_destination msg) (Segment.get_bytes (seg_of msg)) →
  paddr (m_destination msg) = LOCAL_ADDR → addressed r (port (m_destination msg)) (seg_of msg) →
  listener cc r cl sc → ipc (nic sc) = ipc (nic sa) →
  (9 + length (m_payload msg) ≤ cap)%nat →
  ∃ sa' sc1 sc2 got,
    Communicator.send false e ca msg sa = (Ret true, sa', []) ∧
    Protocol.receiver_turn false e' false (seeing (ipc (nic sa')) sc) = (Ret tt, sc1, []) ∧
    Communicator.receive cc (MessageOps.sized cap) sc1 = (Ret (true, got), sc2, []) ∧
    m_source got = c_address ca ∧ m_type got = m_type msg ∧
    m_timestamp got = m_timestamp msg ∧ m_payload got = m_payload msg ∧
    heap (nic sc2) = heap (nic sc) ∧ queues sc2 = queues sc ∧
    client_registry (blk (ipc (nic sc2))) !! me (nic sc) =
      Some (mk_client (cl_active cl) (process_id cl) (claim_sequence_id (blk (ipc (nic sa))))).
Proof.
  intros Hs Hring Hok Hm Hd Hp Hli Hipc Hcap.
  destruct (component_publishes p e msg ca sa Hs Hring Hm)
    as (g & mac & sa' & Hsend & Hisa & Hg & Hgd & Hgs & Hgt).
  destruct (listener_receives false e' cc r _ cl cap (seg_of msg) g _ _ _ (ipc (nic sa)) sc
    Hli Hipc Hring Hp Hg Hok Hcap) as (sc1 & sc2 & H1 & H2 & H3 & H4 & H5); [by rewrite Hgd|done|].
  exists sa', sc1, sc2. eexists. split; [exact Hsend|]. rewrite Hisa.
  split; [exact H1|]. split; [exact H2|]. simpl. rewrite Hgs. by destruct (c_address ca).
Qed.

(** ** Between vehicles *)

(** A packet off the wire, as the frame [recvfrom] fills. *)
Lemma frame_of_wire garbage src dst loc sp dp payload mac :
  length garbage = 1500%nat → mac_ok src → mac_ok dst →
  is_u 8 loc → is_u 16 sp → is_u 16 dp → bytes_ok payload → is_u 64 mac →
  (13 + length payload ≤ 1500)%nat →
  let bytes := RawSocketEngine.wire_frame src dst ETHERNET_PROTOCOL_NUMBER
                 (packet_bytes loc sp dp payload mac) in
  let f := frame_of_bytes garbage bytes in
  length bytes = (27 + length payload)%nat ∧
  dhost f = dst ∧ shost f = src ∧ ntohs (ftype f) = ETHERNET_PROTOCOL_NUMBER ∧
  carries f loc sp dp payload mac.
Proof.
  intros Hg [Hs _] [Hd _] ? ? ? Hp ? Hsize bytes f.
  set (pk := packet_bytes loc sp dp payload mac).
  assert (length pk = 13 + length payload)%nat as Hpk by apply length_packet_bytes.
  unfold ADDR_LEN in *.
  assert (length bytes = 27 + length payload)%nat as Hl.
  { unfold bytes, RawSocketEngine.wire_frame. fold pk. rewrite !length_app, length_lebytes. lia. }
  set (mem := splice 0 bytes (frame_header_bytes Frame_zero ++ garbage)).
  assert (mem = addr dst ++ addr src ++ lebytes 2 (htons ETHERNET_PROTOCOL_NUMBER) ++ pk ++
                drop (length bytes) (frame_header_bytes Frame_zero ++ garbage)) as Hmem.
  { unfold mem, splice. rewrite take_0. unfold bytes at 1, RawSocketEngine.wire_frame. fold pk.
    by rewrite <- !app_assoc. }
  assert (length (frame_header_bytes Frame_zero) = 14%nat) as Hh by done.
  assert (drop 14 mem = pk ++ drop (length bytes) (frame_header_bytes Frame_zero ++ garbage)) as Hdata.
  { rewrite Hmem, (app_assoc (addr dst)), (app_assoc (addr dst ++ addr src)).
    apply drop_app_eq. rewrite !length_app, length_lebytes. lia. }
  split; [done|]. unfold f, frame_of_bytes. fold mem. cbn [dhost shost ftype].
  split; [|split; [|split]].
  - destruct dst as [d]; cbn [addr] in *. f_equal. rewrite Hmem. unfold slice. rewrite drop_0.
    by apply take_app_eq.
  - destruct src as [a]; cbn [addr] in *. f_equal. rewrite Hmem, slice_app_skip by done.
    by apply take_app_eq.
  - rewrite Hmem, app_assoc, slice_app_skip by (rewrite length_app; lia).
    rewrite take_app_eq by apply length_lebytes. done.
  - split; cbn [fdata data_length]; try done.
    + rewrite Hdata. by eexists.
    + rewrite Hdata, length_app, length_drop, length_app. lia.
    + rewrite Hl. unfold HEADER_SIZE. rewrite u32_small; [lia|unfold is_u; lia].
Qed.

(** A gateway that waits for packets in the quadrant of the sender. *)
Record awaiting (loc : Z) (bytes : list Z) (rest : list (list Z)) (s : pstate) : Prop := {
  aw_rx : rx (nic s) = bytes :: rest;
  aw_obs : ext_obs (nic s) = proto_obs;
  aw_quad : quadrant (nic s) = loc;
  aw_heap : heap_ok s;
  aw_lock : nearby_lock (blk (ipc (nic s))) = false
}.

(** The state in which [update] is called: the packet read, its frame in a buffer. *)
Definition arrived (f : Frame) (rest : list (list Z)) (s : pstate) : pstate :=
  with_frame f (set_nic (set_rx rest (nic s)) s).

Lemma receive_one_run e garbage loc bytes rest f s s' es :
  awaiting loc bytes rest s → f = frame_of_bytes garbage bytes →
  (0 < length bytes ≤ 1514)%nat → mac_eqb (shost f) (my_mac (nic s)) = false →
  ntohs (ftype f) = ETHERNET_PROTOCOL_NUMBER → Packet.location (fdata f) = loc →
  Protocol.update_external true e (next_buf (nic s)) (arrived f rest s) = (Ret tt, s', es) →
  Protocol.receive_one true e garbage s = (Ret true, s', es).
Proof.
  intros [Hrx Hobs Hq _ _] Hf Hlen Hne Hty Hl Hupd.
  unfold Protocol.receive_one, NIC.receive_one.
  assert (RawSocketEngine.receive 1514 (nic s) =
    (Ret (Some bytes), set_rx rest (nic s), [])) as Hrec.
  { unfold RawSocketEngine.receive. mstep. rewrite Hrx. mstep. by rewrite take_ge by lia. }
  as_on_nic. rewrite (on_nic_pure _ _ _ _ _ Hrec). rewrite decide_False by lia. rewrite <- Hf.
  as_on_nic. erewrite on_nic_same by reflexivity. cbn [engine_address RawEngine].
  change (my_mac (nic (set_nic (set_rx rest (nic s)) s))) with (my_mac (nic s)). rewrite Hne.
  as_on_nic. erewrite on_nic_pure by reflexivity.
  match goal with |- (_ ≫= _) ?st = _ => change st with (arrived f rest s) end.
  change (next_buf (nic (set_nic (set_rx rest (nic s)) s))) with (next_buf (nic s)).
  assert (NIC.filter_location RAW (next_buf (nic s)) (nic (arrived f rest s)) =
    (Ret false, nic (arrived f rest s), [])) as Hfl.
  { unfold NIC.filter_location. erewrite bind_pure.
    2:{ eapply nic_data_run; [apply lookup_insert_eq|reflexivity]. }
    erewrite bind_pure by apply nic_location_run.
    change (quadrant (nic (arrived f rest s))) with (quadrant (nic s)).
    rewrite Hl, Hq. by rewrite bool_decide_true. }
  as_on_nic. rewrite (on_nic_same _ _ _ _ Hfl). rewrite Hty. unfold NIC.notify. mstep.
  change (get_obs RAW (nic (arrived f rest s))) with (ext_obs (nic s)). rewrite Hobs.
  unfold Observer.notify, proto_obs. cbn [notify_loop observers conditions].
  rewrite decide_True by done. mstep. cbn [Protocol.update].
  erewrite bind_run by exact Hupd. mstep. cbn. by rewrite ?app_nil_r.
Qed.

(** A data segment: not one the gateway keeps for itself. *)
Definition data_segment (seg : Segment.t) : Prop :=
  Segment.ok seg ∧ is_system (Segment.type seg) = false.

Lemma data_segment_type f loc sp dp seg mac :
  carries f loc sp dp (Segment.get_bytes seg) mac → data_segment seg →
  is_system (Segment.header_type (Packet.data (fdata f))) = false.
Proof.
  intros Hf [(Ht & _ & _) Hs]. destruct (ca_data _ _ _ _ _ _ Hf) as [rest ->].
  unfold packet_bytes. rewrite <- !app_assoc, packet_data, get_bytes_eq, <- app_assoc.
  by rewrite header_type_bytes.
Qed.

(** The receiving gateway: from the wire to its vehicle's ring. *)
Lemma wire_to_ring p `{MacLaws p} e garbage src dst sp dp seg mac rest s :
  let payload := Segment.get_bytes seg in
  let bytes := RawSocketEngine.wire_frame src dst ETHERNET_PROTOCOL_NUMBER
                 (packet_bytes (quadrant (nic s)) sp dp payload mac) in
  sender_ok p s → awaiting (quadrant (nic s)) bytes rest s → ring_ready (ipc (nic s)) →
  length garbage = 1500%nat → mac_ok src → mac_ok dst → is_u 16 sp → is_u 16 dp → is_u 64 mac →
  (13 + length payload ≤ 1500)%nat → data_segment seg → mac_eqb src (my_mac (nic s)) = false →
  generate_mac p (Packet.header_bytes (quadrant (nic s)) sp dp ++ payload)
    (5 + Z.of_nat (length payload)) (session_key (blk (ipc (nic s)))) = Ret mac →
  ∃ i g s' mac', same_ring (ipc (nic s)) i ∧
    Protocol.receive_one true e garbage s = (Ret true, s', []) ∧ ipc (nic s') = sent g i ∧
    carries g (location (blk (ipc (nic s)))) sp dp payload mac' ∧
    dhost g = LOCAL_ADDR ∧ shost g = src ∧ ftype g = htons ETHERNET_PROTOCOL_NUMBER.
Proof.
  intros payload bytes Hs Haw Hring Hgl Hsrc Hdst Hsp Hdp Hmu Hsize Hseg Hne Hmac.
  assert (bytes_ok payload) as Hpay.
  { unfold payload. rewrite get_bytes_eq. apply Forall_app_2; [apply segment_header_ok|apply Hseg]. }
  destruct (frame_of_wire garbage src dst (quadrant (nic s)) sp dp payload mac)
    as (Hlen & Hd & Hsh & Hty & Hf); try done; [by apply (so_quad _ _ Hs)|].
  fold bytes in Hlen, Hd, Hsh, Hty, Hf. set (f := frame_of_bytes garbage bytes) in *.
  set (s1 := arrived f rest s). set (buf := next_buf (nic s)).
  assert (owned buf f s1) as Hown by apply lookup_insert_eq.
  assert (heap_ok s1) as Hheap.
  { intros id b Hid. cbn in Hid. apply lookup_insert_Some in Hid as [[<- _]|[_ Hid]]; cbn; [lia|].
    apply (aw_heap _ _ _ _ Haw) in Hid. lia. }
  pose proof (carries_size Hf) as Hcs.
  destruct (update_external_data true e buf f s1 Hown) as (n & l & Hupd).
  { rewrite (ca_len _ _ _ _ _ _ Hf). lia. }
  { exact (aw_lock _ _ _ _ Haw). }
  { by eapply data_segment_type. }
  destruct (deliver_accept p e buf f _ _ _ _ _ (with_nearby n l s1) Hf Hown Hheap)
    as (g & mac' & old & Hg & Hgd & Hgs & Hgt & Hold & Hrun); try done.
  { split; apply Hs. }
  { split; apply Hring. }
  exists (mk_ipc (set_nearby n l (blk (ipc (nic s)))) (sems (ipc (nic s)))), (in_slot g old).
  eexists _, mac'. split; [by exists n, l|]. split.
  - eapply (receive_one_run e garbage _ bytes rest f); try done.
    + rewrite Hlen. lia.
    + by rewrite Hsh.
    + apply (carries_location Hf).
    + exact (eq_trans Hupd Hrun).
  - split; [done|]. split; [by apply carries_in_slot|].
    unfold in_slot, slot_write; simpl. by rewrite Hgt, Hgs, Hsh.
Qed.

Lemma same_ring_ready i j : same_ring i j → ring_ready i → ring_ready j.
Proof. intros (n & l & ->) [? ? ? ?]. by split. Qed.

Lemma listener_seeing c r cl i j s :
  same_ring i j → ipc (nic s) = i → listener c r cl s → listener c r cl (seeing j s).
Proof.
  intros (n & l & ->) Hi [? ? ? ? Hseq Hcl ? ?]. rewrite Hi in Hseq, Hcl.
  by split.
Qed.

(** From the wire to the component in the vehicle of the receiving gateway. *)
Lemma wire_to_listener p `{MacLaws p} e e' garbage src dst sp dp seg mac rest s c sc r cl cap :
  let payload := Segment.get_bytes seg in
  let bytes := RawSocketEngine.wire_frame src dst ETHERNET_PROTOCOL_NUMBER
                 (packet_bytes (quadrant (nic s)) sp dp payload mac) in
  sender_ok p s → awaiting (quadrant (nic s)) bytes rest s → ring_ready (ipc (nic s)) →
  length garbage = 1500%nat → mac_ok src → mac_ok dst → is_u 16 sp → is_u 16 dp → is_u 64 mac →
  (13 + length payload ≤ 1500)%nat → data_segment seg → mac_eqb src (my_mac (nic s)) = false →
  generate_mac p (Packet.header_bytes (quadrant (nic s)) sp dp ++ payload)
    (5 + Z.of_nat (length payload)) (session_key (blk (ipc (nic s)))) = Ret mac →
  listener c r cl sc → ipc (nic sc) = ipc (nic s) → addressed r dp seg →
  (9 + length (Segment.payload seg) ≤ cap)%nat →
  ∃ s' sc1 sc2,
    Protocol.receive_one true e garbage s = (Ret true, s', []) ∧
    Protocol.receiver_turn false e' false (seeing (ipc (nic s')) sc) = (Ret tt, sc1, []) ∧
    Communicator.receive c (MessageOps.sized cap) sc1 =
      (Ret (true, mk_Message (mk_Address src sp) Address_default (Segment.type seg)
                    (Segment.payload seg) cap (Segment.timestamp seg)), sc2, []).
Proof.
  intros payload bytes Hs Haw Hring Hgl Hsrc Hdst Hsp Hdp Hmu Hsize Hseg Hne Hmac Hli Hipc Hadr Hcap.
  destruct (wire_to_ring p e garbage src dst sp dp seg mac rest s)
    as (i & g & s' & mac' & Hi & Hrecv & Hipc' & Hg & Hgd & Hgs & Hgt); try done.
  destruct (listener_receives false e' c r dp cl cap seg g (location (blk (ipc (nic s)))) sp mac' i
              (seeing i sc)) as (sc1 & sc2 & H1 & H2 & _); try done.
  { by eapply listener_seeing. }
  { by eapply same_ring_ready. }
  { apply Hseg. }
  exists s', sc1, sc2. split; [exact Hrecv|]. rewrite Hipc', <- Hgs. split; [exact H1|exact H2].
Qed.

(** C2. A message crosses the network: the sending gateway puts one packet on
    the wire; a gateway in the same quadrant that holds the same session key
    verifies it and publishes it in its vehicle; the component listening on the
    destination port, or on the type when the port is 0, receives the type, timestamp and payload that were sent,
    with the sending gateway's MAC and the sender's port as the source. *)
Theorem network_message_delivered p `{MacLaws p} ea eb ec garbage from to seg rest sa sb cc sc r cl cap :
  (* the sending gateway *)
  sender_ok p sa → external_nic sa = true → mac_ok (my_mac (nic sa)) → mac_ok (paddr to) →
  message_ok from to (Segment.get_bytes seg) → data_segment seg →
  mac_eqb (paddr to) (my_mac (nic sa)) = false → mac_eqb (paddr to) LOCAL_ADDR = false →
  (* the receiving gateway *)
  sender_ok p sb → ring_ready (ipc (nic sb)) → length garbage = 1500%nat →
  mac_eqb (my_mac (nic sa)) (my_mac (nic sb)) = false →
  quadrant (nic sb) = quadrant (nic sa) →
  session_key (blk (ipc (nic sb))) = session_key (blk (ipc (nic sa))) →
  (* the component in its vehicle *)
  listener cc r cl sc → ipc (nic sc) = ipc (nic sb) → addressed r (port to) seg →
  (9 + length (Segment.payload seg) ≤ cap)%nat →
  ∃ bytes sa',
    Protocol.send true ea from to (Segment.get_bytes seg) (Z.of_nat (length (Segment.get_bytes seg))) sa =
      (Ret (e_sendto ea bytes), sa', [Sendto bytes]) ∧
    (awaiting (quadrant (nic sa)) bytes rest sb →
     ∃ sb' sc1 sc2 got,
       Protocol.receive_one true eb garbage sb = (Ret true, sb', []) ∧
       Protocol.receiver_turn false ec false (seeing (ipc (nic sb')) sc) = (Ret tt, sc1, []) ∧
       Communicator.receive cc (MessageOps.sized cap) sc1 = (Ret (true, got), sc2, []) ∧
       m_source got = mk_Address (my_mac (nic sa)) (port from) ∧ m_type got = Segment.type seg ∧
       m_timestamp got = Segment.timestamp seg ∧ m_payload got = Segment.payload seg).
Proof.
  intros Hsa Hx Hma Hmt Hm Hseg Hne Hnl Hsb Hring Hgl Hneb Hq Hk Hli Hipc Hp Hcap.
  destruct (gateway_send_remote p ea from to _ sa Hsa Hm Hx Hne Hnl) as (f & mac & Hf & Hmac & Hrun).
  eexists _, _. split; [exact Hrun|]. intros Haw. rewrite <- Hq in Haw, Hmac, Hf. rewrite <- Hk in Hmac.
  destruct (wire_to_listener p eb ec garbage (my_mac (nic sa)) (paddr to) (port from) (port to) seg mac
              rest sb cc sc r cl cap) as (sb' & sc1 & sc2 & H1 & H2 & H3); try done; try apply Hm.
  { apply (ca_mac _ _ _ _ _ _ Hf). }
  exists sb', sc1, sc2. eexists. split; [exact H1|]. split; [exact H2|]. by split; [exact H3|].
Qed.

(** ** From one vehicle to another *)

(** A gateway that has read everything in its ring, and that no type listener uses. *)
Record relay (cl : ClientState) (s : pstate) : Prop := {
  re_ext : external_nic s = true;
  re_mac : mac_ok (my_mac (nic s));
  re_mac_bcast : mac_eqb BROADCAST_ADDR (my_mac (nic s)) = false;
  re_obs : local_obs (nic s) = proto_obs;
  re_types : types s = mk_observed [] [];
  re_seq : next_seq (nic s) = claim_sequence_id (blk (ipc (nic s)));
  re_client : client_registry (blk (ipc (nic s))) !! me (nic s) = Some cl;
  re_active : cl_active cl = true
}.

(** A broadcast frame in the gateway's ring goes out and its view is freed. *)
Lemma update_local_broadcast p `{MacLaws p} e buf slot t cl f loc sp dp payload mac s :
  heap (nic s) !! buf = Some (mk_fbuf None slot t false) → (buf < next_buf (nic s))%nat →
  buffer (blk (ipc (nic s))) !! slot = Some (mk_slot t f) → carries f loc sp dp payload mac →
  (dp = TYPE_BASED_ROUTING_PORT → types s = mk_observed [] []) →
  dhost f = BROADCAST_ADDR → sender_ok p s → external_nic s = true →
  mac_eqb BROADCAST_ADDR (my_mac (nic s)) = false →
  client_registry (blk (ipc (nic s))) !! me (nic s) = Some cl →
  writer_is_blocked (blk (ipc (nic s))) = false →
  ∃ g mac',
    generate_mac p (Packet.header_bytes (quadrant (nic s)) sp dp ++ payload)
      (5 + Z.of_nat (length payload)) (session_key (blk (ipc (nic s)))) = Ret mac' ∧ is_u 64 mac' ∧
    let bytes := RawSocketEngine.wire_frame (my_mac (nic s)) BROADCAST_ADDR ETHERNET_PROTOCOL_NUMBER
      (packet_bytes (quadrant (nic s)) sp dp payload mac') in
    Protocol.update_local true e buf s = (Ret tt, released buf t cl (with_frame g s), [Sendto bytes]).
Proof.
  intros Hb Hlt Hslot Hf Hty Hd Hs Hx Hne Hcl Hw.
  assert (NIC.data buf (nic s) = (Ret f, nic s, [])) as Hdata.
  { eapply nic_data_run; [exact Hb|]. unfold buf_frame; cbn [fb_own fb_slot]. by rewrite Hslot. }
  assert (message_ok (mk_Address (my_mac (nic s)) sp) (mk_Address BROADCAST_ADDR dp) payload) as Hm.
  { split; simpl; try apply Hf. apply (carries_size Hf). }
  destruct (send_frame_build p RAW e _ _ (Packet.data (fdata f)) payload s Hs Hm (λ _, Hx))
    as (g & mac' & Hg & Hgd & _ & Hgt & Hmac & Hbuild).
  { rewrite (carries_read Hf) by done. by rewrite take_ge. }
  exists g, mac'. split; [exact Hmac|]. split; [apply (ca_mac _ _ _ _ _ _ Hg)|]. intros bytes.
  pose proof (nic_send_raw e g _ _ _ _ _ s Hg) as Hnic. cbv zeta in Hnic. rewrite Hgd, Hgt in Hnic.
  change (on_nic (NIC.send RAW e (Some (next_buf (nic s)))) (with_frame g s) =
    (Ret (e_sendto e bytes), with_frame g s, [Sendto bytes])) in Hnic.
  set (s2 := with_frame g s) in *.
  assert (heap (nic s2) !! buf = Some (mk_fbuf None slot t false)) as Hb2.
  { unfold s2; simpl. rewrite lookup_insert_ne by lia. exact Hb. }
  assert (on_nic (NIC.free SHM buf) s2 = (Ret tt, released buf t cl s2, [])) as Hfree.
  { pose proof (free_view buf slot t cl s2 (so_local _ _ Hs) Hb2 Hcl Hw) as Hfree.
    unfold Protocol.free in Hfree. revert Hfree. mstep.
    by replace (local_nic s2) with true by (symmetry; apply Hs). }
  unfold Protocol.update_local. rewrite (on_nic_same _ _ _ _ Hdata), Hd.
  replace (mac_eqb BROADCAST_ADDR BROADCAST_ADDR) with true by done. mstep. rewrite Hx. cbn [andb].
  assert (∀ k `{Engine k}, NIC.address k (nic s) = (Ret (engine_address (nic s)), nic s, [])) as Ha by done.
  rewrite bind_assoc, (on_nic_same _ _ _ _ (Ha RAW _)). unfold Protocol.send at 1.
  rewrite !bind_assoc, (on_nic_same _ _ _ _ (Ha RAW _)), bind_assoc, (on_nic_same _ _ _ _ (Ha SHM _)).
  cbn [engine_address ShmEngine RawEngine paddr]. unfold mac_neb at 1. rewrite Hne.
  replace (mac_neb BROADCAST_ADDR LOCAL_ADDR) with true by done. cbn [negb andb].
  rewrite (carries_sport Hf), (carries_dport Hf), (carries_segment_size Hf).
  unfold Protocol.send_remote_frame. rewrite (bind_run _ _ _ _ _ _ (eq_trans Hbuild Hnic)). mstep.
  destruct (decide (dp = TYPE_BASED_ROUTING_PORT)) as [->|Hp].
  - assert (NIC.data buf (nic s2) = (Ret f, nic s2, [])) as Hdata2.
    { eapply nic_data_run; [exact Hb2|]. unfold buf_frame; cbn [fb_own fb_slot].
      change (blk (ipc (nic s2))) with (blk (ipc (nic s))). by rewrite Hslot. }
    unfold Protocol.notify_communicator. rewrite decide_True by done.
    rewrite (on_nic_same _ _ _ _ Hdata2). cbv zeta. case_decide; [|by rewrite Hfree]. mstep.
    rewrite (Hty eq_refl : types s2 = _). unfold Observer.notify. cbn [notify_loop observers conditions].
    mstep. by rewrite Hfree.
  - by rewrite Hfree.
Qed.

(** C1. A broadcast crosses from vehicle to vehicle: the component's [send]
    succeeds; one turn of its gateway's receiver thread puts exactly one packet
    on the wire and releases its view of the ring; a gateway of another vehicle
    in the same quadrant with the same session key verifies the packet and
    publishes it there; and the component listening on the port, or subscribed
    to the type when the port is 0, receives type, timestamp and payload as they
    were sent, from the MAC of the sending gateway and the port of the sender. *)
Theorem broadcast_reaches_other_vehicle p `{MacLaws p} ea eg eb ec garbage msg ca sa clg ga rest gb cc sc r cl cap :
  let seg := seg_of msg in
  (* the sending component *)
  sender_ok p sa → ring_ready (ipc (nic sa)) → data_segment seg →
  message_ok (c_address ca) (m_destination msg) (Segment.get_bytes seg) →
  paddr (m_destination msg) = BROADCAST_ADDR →
  (* its gateway *)
  sender_ok p ga → relay clg ga → ipc (nic ga) = ipc (nic sa) →
  (* the gateway of the other vehicle *)
  sender_ok p gb → ring_ready (ipc (nic gb)) → length garbage = 1500%nat →
  mac_eqb (my_mac (nic ga)) (my_mac (nic gb)) = false → quadrant (nic gb) = quadrant (nic ga) →
  session_key (blk (ipc (nic gb))) = session_key (blk (ipc (nic sa))) →
  (* the component in that vehicle *)
  listener cc r cl sc → ipc (nic sc) = ipc (nic gb) → addressed r (port (m_destination msg)) seg →
  (9 + length (m_payload msg) ≤ cap)%nat →
  ∃ sa' ga' bytes,
    Communicator.send false ea ca msg sa = (Ret true, sa', []) ∧
    Protocol.receiver_turn true eg false (seeing (ipc (nic sa')) ga) = (Ret tt, ga', [Sendto bytes]) ∧
    client_registry (blk (ipc (nic ga'))) !! me (nic ga) =
      Some (mk_client (cl_active clg) (process_id clg) (claim_sequence_id (blk (ipc (nic sa))))) ∧
    (awaiting (quadrant (nic ga)) bytes rest gb →
     ∃ gb' sc1 sc2 got,
       Protocol.receive_one true eb garbage gb = (Ret true, gb', []) ∧
       Protocol.receiver_turn false ec false (seeing (ipc (nic gb')) sc) = (Ret tt, sc1, []) ∧
       Communicator.receive cc (MessageOps.sized cap) sc1 = (Ret (true, got), sc2, []) ∧
       m_source got = mk_Address (my_mac (nic ga)) (port (c_address ca)) ∧ m_type got = m_type msg ∧
       m_timestamp got = m_timestamp msg ∧ m_payload got = m_payload msg).
Proof.
  intros seg Hsa Hra Hseg Hm Hd Hga [Hx Hmac Hne Hobs Hty Hseq Hcl Hact] Hia Hgb Hrb Hgl Hneb Hq Hk
    Hli Hib Hadr Hcap.
  destruct (component_publishes p ea msg ca sa Hsa Hra Hm)
    as (f & mac & sa' & Hsend & Hisa & Hf & Hfd & _ & Hft).
  rewrite Hia in Hseq, Hcl.
  destruct (sent_incoming f (ipc (nic sa)) clg ga) as [n Hin]; try done.
  set (t := claim_sequence_id (blk (ipc (nic sa)))) in *.
  set (slot := Z.to_nat (t `mod` BUFFER_SLOTS)).
  set (g0 := seeing (sent f (ipc (nic sa))) ga) in *. set (g1 := taken slot t n g0).
  destruct (update_local_broadcast p eg (next_buf (nic g0)) slot t clg f (location (blk (ipc (nic sa))))
      (port (c_address ca)) (port (m_destination msg)) (Segment.get_bytes seg) mac g1)
    as (h & mac' & Hmac' & Hmu & Hrun); try done.
  { apply lookup_insert_eq. }
  { simpl; lia. }
  { apply (in_slot_frame _ _ _ _ Hin). }
  { by rewrite Hfd, Hd. }
  { destruct Hga. split; try done; simpl; by rewrite <- Hia. }
  change (quadrant (nic g1)) with (quadrant (nic ga)) in Hrun, Hmac'.
  change (session_key (blk (ipc (nic g1)))) with (session_key (blk (ipc (nic sa)))) in Hmac'.
  rewrite <- Hq in Hrun, Hmac'. rewrite <- Hk in Hmac'.
  eexists sa', _, _. split; [exact Hsend|]. split; [|split].
  { rewrite Hisa. eapply receiver_turn_run; [exact Hin|exact Hrun]. }
  { cbn. apply list_lookup_insert_eq. by eapply lookup_lt_Some. }
  intros Haw. rewrite <- Hq in Haw.
  destruct (wire_to_listener p eb ec garbage (my_mac (nic ga)) BROADCAST_ADDR (port (c_address ca))
    (port (m_destination msg)) seg mac' rest gb cc sc r cl cap) as (gb' & sc1 & sc2 & H1 & H2 & H3);
    try done; try apply Hm; [exact broadcast_ok|].
  exists gb', sc1, sc2. eexists. split; [exact H1|]. split; [exact H2|]. by split; [exact H3|].
Qed.

(** C10. Gateways with different session keys cannot talk: a data packet sent
    under one key is read from the socket by the other gateway and dropped; its
    ring and its heap of buffers are as before. *)
Theorem different_keys_dropped p `{MacLaws p} ea eb garbage from to seg rest sa sb :
  sender_ok p sa → external_nic sa = true → mac_ok (my_mac (nic sa)) → mac_ok (paddr to) →
  message_ok from to (Segment.get_bytes seg) → data_segment seg →
  mac_eqb (paddr to) (my_mac (nic sa)) = false → mac_eqb (paddr to) LOCAL_ADDR = false →
  sender_ok p sb → length garbage = 1500%nat →
  mac_eqb (my_mac (nic sa)) (my_mac (nic sb)) = false →
  quadrant (nic sb) = quadrant (nic sa) →
  session_key (blk (ipc (nic sb))) ≠ session_key (blk (ipc (nic sa))) →
  ∃ bytes sa',
    Protocol.send true ea from to (Segment.get_bytes seg) (Z.of_nat (length (Segment.get_bytes seg))) sa =
      (Ret (e_sendto ea bytes), sa', [Sendto bytes]) ∧
    (awaiting (quadrant (nic sa)) bytes rest sb →
     ∃ sb', Protocol.receive_one true eb garbage sb = (Ret true, sb', []) ∧
       same_ring (ipc (nic sb)) (ipc (nic sb')) ∧ heap (nic sb') = heap (nic sb)).
Proof.
  intros Hsa Hx Hma Hmt Hm Hseg Hne Hnl Hsb Hgl Hneb Hq Hk.
  destruct (gateway_send_remote p ea from to _ sa Hsa Hm Hx Hne Hnl) as (f0 & mac & Hf0 & Hmac & Hrun).
  eexists _, _. split; [exact Hrun|]. intros Haw.
  destruct (frame_of_wire garbage (my_mac (nic sa)) (paddr to) (quadrant (nic sa)) (port from) (port to)
              (Segment.get_bytes seg) mac) as (Hlen & Hd & Hsh & Hty & Hf);
    try done; try apply Hm; try apply Hf0.
  set (bytes := RawSocketEngine.wire_frame _ _ _ _) in *.
  set (f := frame_of_bytes garbage bytes) in *.
  set (s1 := arrived f rest sb). pose proof (carries_size Hf) as Hcs.
  set (payload := Segment.get_bytes seg) in *.
  destruct (mac_total (Packet.header_bytes (quadrant (nic sa)) (port from) (port to) ++ payload)
    (5 + Z.of_nat (length payload)) (session_key (blk (ipc (nic sb))))) as (m & Hm' & _).
  { rewrite length_app, length_header_bytes. lia. }
  { apply Forall_app_2; [apply header_bytes_ok|apply Hm]. }
  { apply Hsb. }
  destruct (update_external_data true eb (next_buf (nic sb)) f s1) as (n & l & Hupd).
  { apply lookup_insert_eq. }
  { rewrite (ca_len _ _ _ _ _ _ Hf). lia. }
  { exact (aw_lock _ _ _ _ Haw). }
  { by eapply data_segment_type. }
  pose proof (deliver_reject p true eb (next_buf (nic sb)) f _ _ _ _ mac m (with_nearby n l s1) Hf) as Hrej.
  eexists. split; [|split].
  - eapply (receive_one_run eb garbage _ bytes rest f); try done.
    + rewrite Hlen. lia.
    + by rewrite Hsh.
    + apply (carries_location Hf).
    + refine (eq_trans Hupd (Hrej _ _ Hm' _)).
      * apply lookup_insert_eq.
      * apply Hsb.
      * intros ->. apply Hk. by eapply mac_key; [apply Hsb|apply Hsa|exact Hm'|exact Hmac].
  - by exists n, l.
  - cbn. apply delete_insert_id. destruct (heap (nic sb) !! next_buf (nic sb)) as [b|] eqn:E; [|done].
    apply (aw_heap _ _ _ _ Haw) in E. lia.
Qed.

(** ** Concrete runs *)

Definition comm0 : communicator := mk_communicator 0 (mk_Address LOCAL_ADDR 1000) ∅.
(** A component process (client 1) whose communicator listens on port 1000. *)
Definition component0 : pstate :=
  mk_pstate (mk_nics ipc0 1 mac_b [] 0 false ∅ 0 1 proto_obs proto_obs) true false
    (mk_observed [Some 0%nat] [1000]) (mk_observed [] []) {[0%nat := mk_queue 0 []]}
    None None false (Some XorCryptoProvider).
Lemma component0_listener : listener comm0 (ByPort 1000) (mk_client true 2 0) component0.
Proof. split; done. Qed.
Lemma component0_sender : sender_ok XorCryptoProvider component0.
Proof. split; unfold is_u; simpl; done || lia. Qed.

Definition seg0 : Segment.t := Segment.mk Segment.CONTROL 5 [9; 8; 7].
Definition addr_a : Address := mk_Address mac_a 1001.
Definition bcast : Address := Address_broadcast 1000.
(** The packet gateway A sends under key 77, and a gateway with it in its socket. *)
Definition wire0 : list Z :=
  match (Protocol.send true nenv0 addr_a bcast (Segment.get_bytes seg0) 12 (gateway0 mac_a)).2 with
  | [Sendto bytes] => bytes | _ => [] end.
Definition gateway_b (key : Z) : pstate :=
  let n := nic (gateway0 mac_b) in
  set_nic (set_rx [wire0] (set_ipc (set_blk (set_key key) (ipc n)) n)) (gateway0 mac_b).

Lemma wire0_sent bytes sa r :
  Protocol.send true nenv0 addr_a bcast (Segment.get_bytes seg0) 12 (gateway0 mac_a) =
    (r, sa, [Sendto bytes]) → bytes = wire0.
Proof. intros H. unfold wire0. by rewrite H. Qed.

Lemma gateway_b_awaiting key : awaiting 0 wire0 [] (gateway_b key).
Proof. split; done. Qed.
Lemma gateway_b_sender key : is_u 64 key → sender_ok XorCryptoProvider (gateway_b key).
Proof. intros. split; try done; unfold is_u; simpl; lia. Qed.
Lemma seg0_ok : data_segment seg0.
Proof. split; [|done]. split; [done|]. split; [unfold is_u; simpl; lia|]. repeat constructor; lia. Qed.
Lemma seg0_message from to : is_u 16 (port from) → is_u 16 (port to) →
  message_ok from to (Segment.get_bytes seg0).
Proof. intros. split; try done; [|vm_compute; lia]. repeat constructor; vm_compute; congruence. Qed.
Lemma mac_a_ok : mac_ok mac_a.
Proof. split; [done|]. repeat constructor; lia. Qed.

Lemma local_message_delivered_witness :
  ∃ sa' sc1 sc2 got,
    Communicator.send false nenv0 comm0 (MessageOps.control 5 (Address_local 1000) [9; 8; 7]) component0 =
      (Ret true, sa', []) ∧
    Protocol.receiver_turn false nenv0 false (seeing (ipc (nic sa')) component0) = (Ret tt, sc1, []) ∧
    Communicator.receive comm0 (MessageOps.sized 1024) sc1 = (Ret (true, got), sc2, []) ∧
    m_payload got = [9; 8; 7] ∧ m_timestamp got = 5.
Proof.
  destruct (local_message_delivered XorCryptoProvider nenv0 nenv0
    (MessageOps.control 5 (Address_local 1000) [9; 8; 7]) comm0 component0 comm0 component0
    (ByPort 1000) (mk_client true 2 0) 1024) as (sa' & sc1 & sc2 & got & H1 & H2 & H3 & _ & _ & H4 & H5 & _).
  - exact component0_sender.
  - exact ipc0_ready.
  - apply seg0_ok.
  - apply (seg0_message comm0.(c_address) (Address_local 1000)); unfold is_u; simpl; lia.
  - reflexivity.
  - split; [reflexivity|discriminate].
  - exact component0_listener.
  - reflexivity.
  - simpl. lia.
  - exists sa', sc1, sc2, got. split; [exact H1|]. split; [exact H2|]. split; [exact H3|].
    split; [exact H5|exact H4].
Defined.

Lemma network_message_delivered_witness :
  ∃ sb' sc1 sc2 got,
    Protocol.receive_one true nenv0 (replicate 1500 0) (gateway_b 77) = (Ret true, sb', []) ∧
    Protocol.receiver_turn false nenv0 false (seeing (ipc (nic sb')) component0) = (Ret tt, sc1, []) ∧
    Communicator.receive comm0 (MessageOps.sized 1024) sc1 = (Ret (true, got), sc2, []) ∧
    m_source got = addr_a ∧ m_payload got = [9; 8; 7].
Proof.
  destruct (network_message_delivered XorCryptoProvider nenv0 nenv0 nenv0 (replicate 1500 0)
    addr_a bcast seg0 [] (gateway0 mac_a) (gateway_b 77) comm0 component0 (ByPort 1000) (mk_client true 2 0) 1024)
    as (bytes & sa' & Hsend & Hrecv).
  - apply gateway0_sender.
  - reflexivity.
  - exact mac_a_ok.
  - exact broadcast_ok.
  - apply seg0_message; unfold is_u; simpl; lia.
  - exact seg0_ok.
  - reflexivity.
  - reflexivity.
  - apply gateway_b_sender. unfold is_u. lia.
  - exact ipc0_ready.
  - reflexivity.
  - reflexivity.
  - reflexivity.
  - reflexivity.
  - exact component0_listener.
  - reflexivity.
  - split; [reflexivity|discriminate].
  - simpl. lia.
  - apply wire0_sent in Hsend as ->.
    destruct (Hrecv (gateway_b_awaiting 77)) as (sb' & sc1 & sc2 & got & H1 & H2 & H3 & H4 & _ & _ & H5).
    exists sb', sc1, sc2, got. split; [exact H1|]. split; [exact H2|]. split; [exact H3|].
    split; [exact H4|exact H5].
Defined.

(** An interest in the temperature, broadcast by [component0] through gateway A,
    and a component of the other vehicle that provides it. *)
Definition request_type : Z := TEDS.make_request_type TEDS.TEMPERATURE.
Definition interest_message : Message :=
  mk_Message Address_default (Address_broadcast TYPE_BASED_ROUTING_PORT) Segment.TEDS
    (TEDS.create_request_payload TEDS.TEMPERATURE 100) 8 3.
Definition provider0 : pstate :=
  set_types (mk_observed [Some 0%nat] [request_type]) (set_ports (mk_observed [] []) component0).
Definition wire1 : list Z :=
  let sa := (Communicator.send false nenv0 comm0 interest_message component0).1.2 in
  match (Protocol.receiver_turn true nenv0 false (seeing (ipc (nic sa)) (gateway0 mac_a))).2 with
  | [Sendto bytes] => bytes | _ => [] end.
Definition gateway_c : pstate :=
  set_nic (set_rx [wire1] (nic (gateway0 mac_b))) (gateway0 mac_b).

Lemma wire1_sent bytes sa ga r r' :
  Communicator.send false nenv0 comm0 interest_message component0 = (r, sa, []) →
  Protocol.receiver_turn true nenv0 false (seeing (ipc (nic sa)) (gateway0 mac_a)) = (r', ga, [Sendto bytes]) →
  bytes = wire1.
Proof. intros H1 H2. unfold wire1. by rewrite H1; cbn [fst snd]; rewrite H2. Qed.

Lemma gateway0_relay : relay (mk_client true 1 0) (gateway0 mac_a).
Proof. split; try done. exact mac_a_ok. Qed.
Lemma provider0_listener : listener comm0 (ByType request_type) (mk_client true 2 0) provider0.
Proof. split; done. Qed.
Lemma interest_message_ok : data_segment (seg_of interest_message).
Proof.
  split; [|done]. split; [done|]. split; [unfold is_u; simpl; lia|].
  repeat constructor; vm_compute; congruence.
Qed.

Lemma broadcast_reaches_other_vehicle_witness :
  ∃ sa' ga' gb' sc1 sc2 got,
    Communicator.send false nenv0 comm0 interest_message component0 = (Ret true, sa', []) ∧
    Protocol.receiver_turn true nenv0 false (seeing (ipc (nic sa')) (gateway0 mac_a)) =
      (Ret tt, ga', [Sendto wire1]) ∧
    Protocol.receive_one true nenv0 (replicate 1500 0) gateway_c = (Ret true, gb', []) ∧
    Protocol.receiver_turn false nenv0 false (seeing (ipc (nic gb')) provider0) = (Ret tt, sc1, []) ∧
    Communicator.receive comm0 (MessageOps.sized 1024) sc1 = (Ret (true, got), sc2, []) ∧
    m_source got = mk_Address mac_a 1000 ∧ m_payload got = m_payload interest_message.
Proof.
  destruct (broadcast_reaches_other_vehicle XorCryptoProvider nenv0 nenv0 nenv0 nenv0 (replicate 1500 0)
    interest_message comm0 component0 (mk_client true 1 0) (gateway0 mac_a) [] gateway_c comm0 provider0
    (ByType request_type) (mk_client true 2 0) 1024) as (sa' & ga' & bytes & H1 & H2 & _ & Hrecv).
  - exact component0_sender.
  - exact ipc0_ready.
  - exact interest_message_ok.
  - split; [vm_compute; split; congruence..| |vm_compute; lia]. repeat constructor; vm_compute; congruence.
  - reflexivity.
  - apply gateway0_sender.
  - exact gateway0_relay.
  - reflexivity.
  - split; apply (gateway0_sender mac_b).
  - exact ipc0_ready.
  - reflexivity.
  - reflexivity.
  - reflexivity.
  - reflexivity.
  - exact provider0_listener.
  - reflexivity.
  - split; [reflexivity|]. split; [vm_compute; discriminate|reflexivity].
  - simpl. lia.
  - pose proof (wire1_sent _ _ _ _ _ H1 H2) as ->.
    destruct Hrecv as (gb' & sc1 & sc2 & got & H3 & H4 & H5 & H6 & _ & _ & H7); [split; done|].
    exists sa', ga', gb', sc1, sc2, got. split; [exact H1|]. split; [exact H2|]. split; [exact H3|].
    split; [exact H4|]. split; [exact H5|]. split; [exact H6|exact H7].
Defined.

Lemma different_keys_dropped_witness :
  ∃ sb', Protocol.receive_one true nenv0 (replicate 1500 0) (gateway_b 78) = (Ret true, sb', []) ∧
    heap (nic sb') = ∅.
Proof.
  destruct (different_keys_dropped XorCryptoProvider nenv0 nenv0 (replicate 1500 0)
    addr_a bcast seg0 [] (gateway0 mac_a) (gateway_b 78)) as (bytes & sa' & Hsend & Hrecv).
  - apply gateway0_sender.
  - reflexivity.
  - exact mac_a_ok.
  - exact broadcast_ok.
  - apply seg0_message; unfold is_u; simpl; lia.
  - exact seg0_ok.
  - reflexivity.
  - reflexivity.
  - apply gateway_b_sender. unfold is_u. lia.
  - reflexivity.
  - reflexivity.
  - reflexivity.
  - discriminate.
  - apply wire0_sent in Hsend as ->.
    destruct (Hrecv (gateway_b_awaiting 78)) as (sb' & H1 & _ & H2).
    exists sb'. split; [exact H1|exact H2].
Defined.

(** ** A client that registers late *)

Lemma slowest_reader_bounds reg t : 0 ≤ t → Forall (λ c, 0 ≤ last_read c) reg →
  0 ≤ slowest_reader reg t ≤ t ∧ ∀ c, c ∈ reg → cl_active c = true → slowest_reader reg t ≤ last_read c.
Proof.
  unfold slowest_reader. intros Ht Hr. revert t Ht. induction Hr as [|c reg Hc Hr IH]; intros t Ht; simpl.
  { split; [lia|]. by intros c ?%not_elem_of_nil. }
  set (t' := if cl_active c then Z.min t (last_read c) else t).
  assert (0 ≤ t' ≤ t ∧ (cl_active c = true → t' ≤ last_read c)) as [Ht' Hc'].
  { unfold t'. destruct (cl_active c); split; try done; lia. }
  destruct (IH t') as [H1 H2]; [lia|]. split; [lia|].
  intros d [->|Hd]%elem_of_cons Ha; [|by apply H2]. specialize (Hc' Ha). lia.
Qed.

Lemma slot_held reg c t : c ∈ reg → cl_active c = true → Forall (λ c, 0 ≤ last_read c) reg →
  last_read c + BUFFER_SLOTS ≤ t → is_u 64 t → slot_free reg t = false.
Proof.
  intros Hc Ha Hr Ht Hu. unfold slot_free.
  destruct (slowest_reader_bounds reg t) as [H1 H2]; [unfold is_u in Hu; lia|done|].
  specialize (H2 c Hc Ha). unfold BUFFER_SLOTS in *. unfold is_u in Hu.
  rewrite u64_small by (unfold is_u; lia). rewrite bool_decide_false by lia.
  rewrite orb_false_r. unfold readers_active. apply negb_false_iff.
  rewrite existsb_exists. exists c. split; [|done]. by apply list_elem_of_In.
Qed.

Section late.
Context (gw : bool) (e : netenv).

Fixpoint receiver_turns (k : nat) : P unit :=
  match k with O => mret tt | S k => _ ← Protocol.receiver_turn gw e false; receiver_turns k end.

(** The state with [n] signals left for this client. *)
Definition signalled (n : Z) (s : pstate) : pstate :=
  set_nic (set_ipc (set_sem (CONTROL_SEMS + me (nic s)) n (ipc (nic s))) (nic s)) s.

Lemma mismatched_turn n slot s :
  sem_is (CONTROL_SEMS + me (nic s)) n (ipc (nic s)) → 0 < n →
  buffer (blk (ipc (nic s))) !! Z.to_nat (next_seq (nic s) `mod` BUFFER_SLOTS) = Some slot →
  slot_seq slot ≠ next_seq (nic s) →
  Protocol.receiver_turn gw e false s = (Ret tt, signalled (n - 1) s, []).
Proof.
  intros Hsem Hn Hslot Hne. unfold Protocol.receiver_turn, NIC.receiver_turn. mstep.
  set (i1 := set_sem (CONTROL_SEMS + me (nic s)) (n - 1) (ipc (nic s))).
  assert (receive_zerocopy (E := effect) (me (nic s)) false (next_seq (nic s)) (ipc (nic s)) = (Ret None, i1, []))
    as Hrec.
  { unfold receive_zerocopy. pose proof (semop_wait_run (E := effect) _ _ _ Hsem) as Hw.
    rewrite decide_True in Hw by done. rewrite (bind_pure _ _ _ _ _ Hw). cbn [negb]. mstep.
    change (buffer (blk (set_sem (CONTROL_SEMS + me (nic s)) (n - 1) (ipc (nic s)))))
      with (buffer (blk (ipc (nic s)))). rewrite Hslot. mstep. by rewrite decide_True by done. }
  as_on_nic. by rewrite (on_nic_pure _ _ _ _ _ (on_ipc_run _ _ _ _ _ Hrec)).
Qed.
End late.

(** A client that joins late is deaf and holds the ring: its receiving
    thread starts at sequence 1 although it registered behind the messages
    already published. Once slot 1 holds another message, every signal it gets
    is consumed without delivering anything, changing its sequence or
    advancing its [last_read]; when the signals are used up it waits; and
    while it stays registered no writer gets a slot 32 or more tickets past
    its [last_read]. *)
Theorem late_joiner_deaf (gw : bool) (e : netenv) (k : nat) (slot : MessageSlot) (c : ClientState) (s : pstate) :
  next_seq (nic s) = 1 → buffer (blk (ipc (nic s))) !! 1%nat = Some slot → slot_seq slot ≠ 1 →
  sem_is (CONTROL_SEMS + me (nic s)) (Z.of_nat k) (ipc (nic s)) →
  client_registry (blk (ipc (nic s))) !! me (nic s) = Some c → cl_active c = true →
  Forall (λ c, 0 ≤ last_read c) (client_registry (blk (ipc (nic s)))) →
  receiver_turns gw e k s = (Ret tt, signalled 0 s, []) ∧
  Protocol.receiver_turn gw e false (signalled 0 s) = (Blocked, signalled 0 s, []) ∧
  ∀ ticket, last_read c + BUFFER_SLOTS ≤ ticket → is_u 64 ticket →
    slot_free (client_registry (blk (ipc (nic (signalled 0 s))))) ticket = false.
Proof.
  intros Hseq Hslot Hne Hsem Hc Ha Hr. split; [|split].
  - revert s Hseq Hslot Hsem Hc Hr. induction k as [|k IH]; intros s Hseq Hslot Hsem Hc Hr.
    + cbn. unfold signalled. assert (set_sem (CONTROL_SEMS + me (nic s)) 0 (ipc (nic s)) = ipc (nic s)) as ->.
      { unfold sem_is, set_sem in *. destruct (ipc (nic s)) as [b [l|]]; [|done]. cbn in *.
        by rewrite list_insert_id. }
      by rewrite set_ipc_id, set_nic_id.
    + cbn [receiver_turns]. erewrite bind_pure.
      2:{ eapply (mismatched_turn _ _ _ slot s Hsem); [lia|by rewrite Hseq|by rewrite Hseq]. }
      rewrite (IH (signalled (Z.of_nat (S k) - 1) s)); try done.
      * unfold signalled. cbn. unfold set_sem. cbn. destruct (sems (ipc (nic s))); cbn; [|done].
        by rewrite list_insert_insert_eq.
      * unfold signalled. cbn [me nic set_nic set_ipc ipc]. replace (Z.of_nat (S k) - 1) with (Z.of_nat k) by lia.
        by eapply sem_is_set.
  - unfold Protocol.receiver_turn, NIC.receiver_turn. mstep.
    assert (sem_is (CONTROL_SEMS + me (nic s)) 0 (ipc (nic (signalled 0 s)))) as Hz by by eapply sem_is_set.
    pose proof (semop_wait_run (E := effect) _ _ _ Hz) as Hw. rewrite decide_False in Hw by done.
    as_on_nic. unfold mbind, M_bind at 1.
    erewrite on_nic_run; [|eapply on_ipc_run; unfold receive_zerocopy, mbind, M_bind; cbn [me nic signalled set_nic set_ipc];
      cbn [me nic signalled set_nic set_ipc] in Hw; rewrite Hw; reflexivity].
    done.
  - intros ticket Ht Hu. eapply slot_held; [by eapply list_elem_of_lookup_2| done | done | done | done].
Qed.

(** Client 1 registered after 33 messages; two more were signalled. *)
Definition late0 : pstate :=
  set_nic (set_ipc (set_sem 5 2 (set_blk (λ b, set_buffer (<[1%nat := mk_slot 33 Frame_zero]> (buffer b))
    (set_registry (<[1%nat := mk_client true 2 33]> (client_registry b)) b)) ipc0)) (nic component0)) component0.

Lemma late_joiner_deaf_witness :
  receiver_turns false nenv0 2 late0 = (Ret tt, signalled 0 late0, []) ∧
  slot_free (client_registry (blk (ipc (nic (signalled 0 late0))))) 65 = false.
Proof.
  destruct (late_joiner_deaf false nenv0 2 (mk_slot 33 Frame_zero) (mk_client true 2 33) late0)
    as (H1 & _ & H2).
  - reflexivity.
  - reflexivity.
  - discriminate.
  - reflexivity.
  - reflexivity.
  - reflexivity.
  - repeat constructor; vm_compute; discriminate.
  - split; [exact H1|]. apply H2; [vm_compute; discriminate|]. unfold is_u; lia.
Defined.
