(* ===== verification/Control.v ===== *)
(** Control messages: [api/network/control_envelope.hpp],
    [definitions/latency_test.hpp], [handlers/latency_test_handler.hpp]. *)
From S2P Require Import Prelude Ethernet Packet Communicator Protocol.
Local Open Scope Z_scope.

Module ControlEnvelope.
(** [ControlType]; the header keeps it as a byte. *)
Definition LATENCY : Z := 1.
Definition UNDEFINED : Z := 9.

(** The packed header: type (1 byte), payload length (4 bytes). *)
Definition HEADER_SIZE : nat := 5.
Record Header := mk_Header { type : Z; payload_len : Z }.
Definition Header_default : Header := mk_Header UNDEFINED 0.
Definition header_bytes (h : Header) : list Z := lebytes 1 (type h) ++ lebytes 4 (payload_len h).
Definition header_of_bytes (bs : list Z) : Header := mk_Header (leval (slice 0 1 bs)) (leval (slice 1 4 bs)).

Record Packet := mk_Packet { header : Header; payload : list Z }.

Definition total_size (p : Packet) : nat := HEADER_SIZE + length (payload p).

(** [dst] is the memory from the destination on. *)
Definition serialize (p : Packet) (dst : list Z) : outcome (list Z) :=
  if decide (total_size p ≤ length dst)%nat
  then Ret (splice HEADER_SIZE (payload p) (splice 0 (header_bytes (header p)) dst))
  else Undefined.

(** [src] is the object read; reading past its end is undefined. *)
Definition from_buffer (src : list Z) (size : Z) : outcome Packet :=
  match read_mem 0 HEADER_SIZE src with
  | None => Undefined
  | Some h =>
      let header := header_of_bytes h in
      let packet_payload_size := payload_len header in
      let actual_payload_size := if decide (5 < size) then size - 5 else 0 in
      let bytes_to_copy := if decide (packet_payload_size ≤ actual_payload_size)
                           then packet_payload_size else actual_payload_size in
      if decide (bytes_to_copy = 0) then Ret (mk_Packet header [])
      else match read_mem HEADER_SIZE (Z.to_nat bytes_to_copy) src with
           | None => Undefined
           | Some bs => Ret (mk_Packet header bs)
           end
  end.

(** [packet_data] are the bytes of the packet object. *)
Definition create_envelope (packet_data : list Z) (type : Z) : Packet :=
  let sz := u32 (Z.of_nat (length packet_data)) in
  mk_Packet (mk_Header (u8 type) sz) (take (Z.to_nat sz) packet_data).
End ControlEnvelope.

Module LatencyTest.
Definition PING : Z := 1.
Definition ECHO : Z := 2.
Definition UNDEFINED : Z := 3.

(** [Header] is not packed: a 4-byte enumerator, 4 bytes of padding, the
    sender's identifier. [pad] is what the padding holds. *)
Definition HEADER_SIZE : nat := 16.
Record Header := mk_Header { type : Z; sender_id : Z }.
Definition header_bytes (pad : list Z) (h : Header) : list Z :=
  lebytes 4 (type h) ++ take 4 (pad ++ replicate 4 0) ++ lebytes 8 (sender_id h).
Definition header_of_bytes (bs : list Z) : Header := mk_Header (leval (slice 0 4 bs)) (leval (slice 8 8 bs)).

Record Packet := mk_Packet { header : Header; timestamp : Z }.
Definition size : nat := HEADER_SIZE + 8.
Definition packet_bytes (pad : list Z) (p : Packet) : list Z :=
  header_bytes pad (header p) ++ lebytes 8 (timestamp p).
End LatencyTest.

Module LatencyTestHandler.
Section handler.
Context {S E : Type} {comm : Comm S E}.
Context (now : Z).              (* the steady clock, in nanoseconds *)
Context (pad : list Z).         (* padding bytes of the packet built on the stack *)
Context (my_sender_id : Z).

(** The common part of [send_ping] and [send_echo]. *)
Definition send_packet (pkt : LatencyTest.Packet) (dest : Address) : M S E unit :=
  let envelope := ControlEnvelope.create_envelope (LatencyTest.packet_bytes pad pkt) ControlEnvelope.LATENCY in
  control_payload ← of_outcome
    (ControlEnvelope.serialize envelope (replicate (ControlEnvelope.total_size envelope) 0));
  a ← comm_address;
  _ ← comm_send (MessageOps.set_source a (MessageOps.control_now dest control_payload));
  mret tt.

Definition send_ping (dest : Address) : M S E unit :=
  send_packet (LatencyTest.mk_Packet (LatencyTest.mk_Header LatencyTest.PING my_sender_id) (u64 now)) dest.

Definition send_echo (dst_addr : Address) (ts s_id : Z) : M S E unit :=
  send_packet (LatencyTest.mk_Packet (LatencyTest.mk_Header LatencyTest.ECHO s_id) ts) dst_addr.

(** The round-trip time logged, in nanoseconds. *)
Definition compute_rtt (payload_timestamp : Z) : Z := u64 (u64 now - payload_timestamp).

(** The result is the round-trip time logged, if any. *)
Definition handleControlMessage (msg : Message) : M S E (option Z) :=
  envelope ← of_outcome
    (ControlEnvelope.from_buffer (m_payload msg) (Z.of_nat (length (m_payload msg))));
  if decide (ControlEnvelope.type (ControlEnvelope.header envelope) = ControlEnvelope.LATENCY) then
    let bytes := ControlEnvelope.payload envelope in
    h ← checked (read_mem 0 LatencyTest.HEADER_SIZE bytes);
    let lhdr := LatencyTest.header_of_bytes h in
    if decide (LatencyTest.type lhdr = LatencyTest.PING) then
      ts ← checked (read_mem LatencyTest.HEADER_SIZE 8 bytes);
      let dst := if mac_eqb (paddr (m_source msg)) LOCAL_ADDR
                 then Address_local 1000 else Address_broadcast 1000 in
      _ ← send_echo dst (leval ts) (LatencyTest.sender_id lhdr);
      mret None
    else if decide (LatencyTest.type lhdr = LatencyTest.ECHO ∧ LatencyTest.sender_id lhdr = my_sender_id) then
      ts ← checked (read_mem LatencyTest.HEADER_SIZE 8 bytes);
      mret (Some (compute_rtt (leval ts)))
    else mret None
  else mret None.
End handler.
End LatencyTestHandler.

(** ** Lemmas *)

Lemma length_envelope_header h : length (ControlEnvelope.header_bytes h) = 5%nat.
Proof. unfold ControlEnvelope.header_bytes. by rewrite length_app, !length_lebytes. Qed.

Lemma slice_app_head {A} (l k : list A) : slice 0 (length l) (l ++ k) = l.
Proof. unfold slice. rewrite drop_0. by apply take_app_eq. Qed.

Lemma slice_app_mid {A} n m (l k r : list A) :
  n = length l → m = length k → slice n m (l ++ k ++ r) = k.
Proof.
  intros -> ->. unfold slice. rewrite drop_app_eq by done. by apply take_app_eq.
Qed.

Lemma envelope_header h rest :
  is_u 8 (ControlEnvelope.type h) → is_u 32 (ControlEnvelope.payload_len h) →
  ControlEnvelope.header_of_bytes (ControlEnvelope.header_bytes h ++ rest) = h.
Proof.
  destruct h as [t l]. cbn [ControlEnvelope.type ControlEnvelope.payload_len]. intros Ht Hl.
  unfold ControlEnvelope.header_of_bytes, ControlEnvelope.header_bytes.
  cbn [ControlEnvelope.type ControlEnvelope.payload_len].
  rewrite <- app_assoc. f_equal.
  - rewrite <- (length_lebytes 1 t) at 1. rewrite slice_app_head. by apply leval_small.
  - rewrite slice_app_mid by (by rewrite length_lebytes). by apply leval_small.
Qed.

Lemma serialize_bytes p dst :
  (ControlEnvelope.total_size p ≤ length dst)%nat →
  ControlEnvelope.serialize p dst
  = Ret (ControlEnvelope.header_bytes (ControlEnvelope.header p) ++ ControlEnvelope.payload p ++
         drop (ControlEnvelope.total_size p) dst).
Proof.
  intros Hl. unfold ControlEnvelope.serialize. rewrite decide_True by done. f_equal.
  unfold ControlEnvelope.total_size, ControlEnvelope.HEADER_SIZE in *. unfold splice.
  pose proof (length_envelope_header (ControlEnvelope.header p)) as Hh.
  rewrite take_0, Hh, Nat.add_0_l, app_nil_l.
  rewrite take_app_eq by done. f_equal. f_equal.
  rewrite drop_app_ge by (rewrite Hh; lia). rewrite Hh, drop_drop. f_equal. lia.
Qed.

Lemma from_buffer_bytes p rest size :
  is_u 8 (ControlEnvelope.type (ControlEnvelope.header p)) →
  ControlEnvelope.payload_len (ControlEnvelope.header p) = Z.of_nat (length (ControlEnvelope.payload p)) →
  Z.of_nat (length (ControlEnvelope.payload p)) < 2 ^ 32 →
  Z.of_nat (ControlEnvelope.total_size p) ≤ size →
  ControlEnvelope.from_buffer
    (ControlEnvelope.header_bytes (ControlEnvelope.header p) ++ ControlEnvelope.payload p ++ rest) size
  = Ret p.
Proof.
  destruct p as [h pl]. unfold ControlEnvelope.total_size, ControlEnvelope.HEADER_SIZE.
  cbn [ControlEnvelope.header ControlEnvelope.payload]. intros Ht Hlen Hb Hs.
  unfold ControlEnvelope.from_buffer.
  pose proof (length_envelope_header h) as Hh.
  rewrite read_mem_in by (rewrite length_app, Hh; unfold ControlEnvelope.HEADER_SIZE; lia).
  assert (slice 0 ControlEnvelope.HEADER_SIZE (ControlEnvelope.header_bytes h ++ pl ++ rest)
          = ControlEnvelope.header_bytes h) as ->.
  { unfold ControlEnvelope.HEADER_SIZE. rewrite <- Hh at 1. apply slice_app_head. }
  pose proof (envelope_header h []) as Hd. rewrite app_nil_r in Hd.
  rewrite Hd by first [done | unfold is_u; lia]. cbv zeta. rewrite Hlen.
  assert ((if decide (Z.of_nat (length pl)
             ≤ (if decide (5 < size) then size - 5 else 0)) then Z.of_nat (length pl)
           else (if decide (5 < size) then size - 5 else 0)) = Z.of_nat (length pl)) as ->.
  { repeat case_decide; lia. }
  case_decide as H0.
  - destruct pl; [done|simpl in H0; lia].
  - rewrite Nat2Z.id.
    rewrite read_mem_in by (rewrite !length_app, Hh; unfold ControlEnvelope.HEADER_SIZE; lia).
    unfold ControlEnvelope.HEADER_SIZE. by rewrite slice_app_mid by done.
Qed.

Lemma length_latency_header pad h : length (LatencyTest.header_bytes pad h) = 16%nat.
Proof.
  unfold LatencyTest.header_bytes. rewrite !length_app, !length_lebytes, length_take, length_app,
    length_replicate. lia.
Qed.

Lemma length_latency_packet pad p : length (LatencyTest.packet_bytes pad p) = 24%nat.
Proof. unfold LatencyTest.packet_bytes. by rewrite length_app, length_latency_header, length_lebytes. Qed.

Lemma latency_header pad h :
  is_u 32 (LatencyTest.type h) → is_u 64 (LatencyTest.sender_id h) →
  LatencyTest.header_of_bytes (LatencyTest.header_bytes pad h) = h.
Proof.
  destruct h as [t i]. cbn [LatencyTest.type LatencyTest.sender_id]. intros Ht Hi.
  unfold LatencyTest.header_of_bytes, LatencyTest.header_bytes.
  cbn [LatencyTest.type LatencyTest.sender_id]. f_equal.
  - rewrite <- (length_lebytes 4 t) at 1. rewrite slice_app_head. by apply leval_small.
  - rewrite app_assoc, <- (app_nil_r (lebytes 8 i)). rewrite slice_app_mid.
    + by apply leval_small.
    + rewrite length_app, length_lebytes, length_take, length_app, length_replicate. lia.
    + by rewrite length_lebytes.
Qed.

(** The bytes of a message that carries a latency packet. *)
Definition latency_payload (pad : list Z) (p : LatencyTest.Packet) : list Z :=
  ControlEnvelope.header_bytes (ControlEnvelope.mk_Header ControlEnvelope.LATENCY 24)
    ++ LatencyTest.packet_bytes pad p.

Lemma latency_envelope pad p :
  ControlEnvelope.create_envelope (LatencyTest.packet_bytes pad p) ControlEnvelope.LATENCY
  = ControlEnvelope.mk_Packet (ControlEnvelope.mk_Header ControlEnvelope.LATENCY 24)
      (LatencyTest.packet_bytes pad p).
Proof.
  unfold ControlEnvelope.create_envelope. rewrite length_latency_packet.
  change (u32 (Z.of_nat 24)) with 24. f_equal. apply take_ge. by rewrite length_latency_packet.
Qed.

Lemma send_packet_run a pad p dest :
  LatencyTestHandler.send_packet (comm := recording a) pad p dest tt
  = (Ret tt, tt, [MessageOps.set_source a (MessageOps.control_now dest (latency_payload pad p))]).
Proof.
  unfold LatencyTestHandler.send_packet. rewrite latency_envelope.
  assert (ControlEnvelope.total_size (ControlEnvelope.mk_Packet
    (ControlEnvelope.mk_Header ControlEnvelope.LATENCY 24) (LatencyTest.packet_bytes pad p)) = 29%nat)
    as Hl.
  { unfold ControlEnvelope.total_size. cbn [ControlEnvelope.payload]. by rewrite length_latency_packet. }
  rewrite Hl, serialize_bytes by (rewrite Hl, length_replicate; lia).
  rewrite Hl. cbn [ControlEnvelope.header ControlEnvelope.payload].
  rewrite drop_ge by (rewrite length_replicate; lia). rewrite app_nil_r. done.
Qed.

Lemma latency_from_buffer pad p :
  ControlEnvelope.from_buffer (latency_payload pad p) (Z.of_nat (length (latency_payload pad p)))
  = Ret (ControlEnvelope.mk_Packet (ControlEnvelope.mk_Header ControlEnvelope.LATENCY 24)
           (LatencyTest.packet_bytes pad p)).
Proof.
  pose proof (from_buffer_bytes (ControlEnvelope.mk_Packet
    (ControlEnvelope.mk_Header ControlEnvelope.LATENCY 24) (LatencyTest.packet_bytes pad p)) []
    (Z.of_nat (length (latency_payload pad p)))) as H.
  unfold ControlEnvelope.total_size in H. unfold latency_payload in *.
  cbn [ControlEnvelope.header ControlEnvelope.payload ControlEnvelope.type ControlEnvelope.payload_len] in H.
  rewrite app_nil_r, length_app, length_envelope_header, length_latency_packet in H.
  rewrite length_app, length_envelope_header, length_latency_packet.
  apply H; done.
Qed.

(** A latency message that is complete is handled by its type. *)
Lemma handle_latency {S E} {comm : Comm S E} now pad0 id pad p msg st :
  m_payload msg = latency_payload pad p →
  is_u 32 (LatencyTest.type (LatencyTest.header p)) →
  is_u 64 (LatencyTest.sender_id (LatencyTest.header p)) → is_u 64 (LatencyTest.timestamp p) →
  LatencyTestHandler.handleControlMessage (comm := comm) now pad0 id msg st =
  (if decide (LatencyTest.type (LatencyTest.header p) = LatencyTest.PING) then
     _ ← LatencyTestHandler.send_echo pad0
           (if mac_eqb (paddr (m_source msg)) LOCAL_ADDR then Address_local 1000 else Address_broadcast 1000)
           (LatencyTest.timestamp p) (LatencyTest.sender_id (LatencyTest.header p));
     mret None
   else if decide (LatencyTest.type (LatencyTest.header p) = LatencyTest.ECHO ∧
                   LatencyTest.sender_id (LatencyTest.header p) = id)
   then mret (Some (LatencyTestHandler.compute_rtt now (LatencyTest.timestamp p)))
   else mret None) st.
Proof.
  intros Hm Ht Hi Hts. unfold LatencyTestHandler.handleControlMessage.
  rewrite Hm, latency_from_buffer.
  rewrite (bind_pure _ _ _ _ _ (eq_refl : of_outcome (Ret _) st = (Ret _, st, []))).
  cbn [ControlEnvelope.header ControlEnvelope.payload ControlEnvelope.type].
  rewrite decide_True by done.
  rewrite !read_mem_in by (rewrite length_latency_packet; unfold LatencyTest.HEADER_SIZE; lia).
  assert (slice 0 LatencyTest.HEADER_SIZE (LatencyTest.packet_bytes pad p)
          = LatencyTest.header_bytes pad (LatencyTest.header p)) as ->.
  { unfold LatencyTest.HEADER_SIZE, LatencyTest.packet_bytes.
    rewrite <- (length_latency_header pad (LatencyTest.header p)) at 1. apply slice_app_head. }
  assert (slice LatencyTest.HEADER_SIZE 8 (LatencyTest.packet_bytes pad p)
          = lebytes 8 (LatencyTest.timestamp p)) as ->.
  { unfold LatencyTest.HEADER_SIZE, LatencyTest.packet_bytes.
    pose proof (slice_app_mid 16 8 (LatencyTest.header_bytes pad (LatencyTest.header p))
      (lebytes 8 (LatencyTest.timestamp p)) []) as H. rewrite app_nil_r in H.
    apply H; [by rewrite length_latency_header|by rewrite length_lebytes]. }
  rewrite bind_checked, latency_header by done.
  repeat case_decide; rewrite ?bind_checked, ?leval_small by done; done.
Qed.

Lemma packet_length_le payload : bytes_ok payload → (5 ≤ length payload)%nat →
  ControlEnvelope.from_buffer payload (Z.of_nat (length payload)) =
  Ret (ControlEnvelope.mk_Packet (ControlEnvelope.header_of_bytes (take 5 payload))
    (take (Z.to_nat (Z.min (leval (slice 1 4 payload)) (Z.of_nat (length payload) - 5))) (drop 5 payload))).
Proof.
  intros Hb Hl. unfold ControlEnvelope.from_buffer, ControlEnvelope.HEADER_SIZE.
  rewrite read_mem_in by lia.
  assert (slice 0 5 payload = take 5 payload) as -> by (unfold slice; by rewrite drop_0).
  assert (ControlEnvelope.payload_len (ControlEnvelope.header_of_bytes (take 5 payload))
          = leval (slice 1 4 payload)) as ->.
  { simpl. f_equal. unfold slice. rewrite (skipn_firstn_comm 1 5). by rewrite take_take. }
  assert (0 ≤ leval (slice 1 4 payload)) as H0.
  { apply leval_bound. unfold slice. by apply Forall_take, Forall_drop. }
  cbv zeta. set (l := leval _) in *.
  assert ((if decide (l ≤ (if decide (5 < Z.of_nat (length payload)) then Z.of_nat (length payload) - 5 else 0))
           then l else (if decide (5 < Z.of_nat (length payload)) then Z.of_nat (length payload) - 5 else 0))
          = Z.min l (Z.of_nat (length payload) - 5)) as ->.
  { repeat case_decide; lia. }
  case_decide as Hz.
  - rewrite Hz. done.
  - rewrite read_mem_in by lia. done.
Qed.

(** ** Properties *)

(** Envelopes: serialising a packet whose header holds its payload's length
    writes exactly its own bytes, whatever memory it is written to, and
    [from_buffer] on that memory reads the packet back; on any buffer that
    holds a header, [from_buffer] reads nothing past [size] and takes the
    smaller of the declared length and what the buffer holds. *)
Theorem envelope_roundtrip (p : ControlEnvelope.Packet) (dst payload : list Z) :
  is_u 8 (ControlEnvelope.type (ControlEnvelope.header p)) →
  ControlEnvelope.payload_len (ControlEnvelope.header p) = Z.of_nat (length (ControlEnvelope.payload p)) →
  Z.of_nat (length (ControlEnvelope.payload p)) < 2 ^ 32 →
  (ControlEnvelope.total_size p ≤ length dst)%nat →
  bytes_ok payload → (5 ≤ length payload)%nat →
  (∃ mem, ControlEnvelope.serialize p dst = Ret mem ∧ length mem = length dst ∧
     drop (ControlEnvelope.total_size p) mem = drop (ControlEnvelope.total_size p) dst ∧
     ControlEnvelope.from_buffer mem (Z.of_nat (length mem)) = Ret p) ∧
  (∃ q, ControlEnvelope.from_buffer payload (Z.of_nat (length payload)) = Ret q ∧
     Z.of_nat (length (ControlEnvelope.payload q)) =
       Z.min (ControlEnvelope.payload_len (ControlEnvelope.header q)) (Z.of_nat (length payload) - 5)).
Proof.
  intros Ht Hlen Hb Hd Hp H5. split.
  - eexists. split; [by apply serialize_bytes|].
    rewrite !length_app, length_envelope_header, length_drop.
    unfold ControlEnvelope.total_size, ControlEnvelope.HEADER_SIZE in *. split; [lia|]. split.
    + rewrite app_assoc, drop_app_eq; [done|]. by rewrite length_app, length_envelope_header.
    + apply from_buffer_bytes; try done. unfold ControlEnvelope.total_size, ControlEnvelope.HEADER_SIZE. lia.
  - eexists. split; [by apply packet_length_le|]. simpl.
    rewrite length_take, length_drop.
    assert (slice 1 4 (take 5 payload) = slice 1 4 payload) as ->.
    { unfold slice. rewrite (skipn_firstn_comm 1 5). by rewrite take_take. }
    assert (0 ≤ leval (slice 1 4 payload)); [|lia].
    apply leval_bound. unfold slice. by apply Forall_take, Forall_drop.
Qed.

Lemma envelope_roundtrip_witness :
  ControlEnvelope.serialize (ControlEnvelope.mk_Packet (ControlEnvelope.mk_Header 1 2) [7; 8]) (replicate 8 0)
    = Ret [1; 2; 0; 0; 0; 7; 8; 0] ∧
  ∃ q, ControlEnvelope.from_buffer [1; 9; 0; 0; 0; 7; 8] 7 = Ret q ∧
    Z.of_nat (length (ControlEnvelope.payload q)) = Z.min (ControlEnvelope.payload_len (ControlEnvelope.header q)) 2.
Proof.
  split; [vm_compute; reflexivity|].
  apply (envelope_roundtrip (ControlEnvelope.mk_Packet (ControlEnvelope.mk_Header 1 2) [7; 8])
           (replicate 8 0) [1; 9; 0; 0; 0; 7; 8]).
  - unfold is_u; simpl; lia.
  - done.
  - done.
  - vm_compute. lia.
  - repeat constructor; lia.
  - vm_compute. lia.
Defined.

(** C29. A ping and its echo measure the round trip: the message sent at [t0]
    makes whoever receives its payload answer with one echo, to port 1000 of
    the local network if the ping came from it and broadcast otherwise; the
    sender that receives the echo's payload at [t1] logs [t1 - t0]
    nanoseconds and sends nothing, and a component with another identifier
    logs nothing. *)
Theorem ping_echo_rtt (a b c dest : Address) (id id' t0 tb t1 : Z) (pad pad' : list Z) :
  is_u 64 id → id' ≠ id → is_u 64 t0 → is_u 64 t1 → t0 ≤ t1 →
  ∃ ping, LatencyTestHandler.send_ping (comm := recording a) t0 pad id dest tt = (Ret tt, tt, [ping]) ∧
    m_destination ping = dest ∧ m_source ping = a ∧
    ∀ mb, m_payload mb = m_payload ping →
      ∃ echo, LatencyTestHandler.handleControlMessage (comm := recording b) tb pad' id' mb tt
                = (Ret None, tt, [echo]) ∧
        m_destination echo = (if mac_eqb (paddr (m_source mb)) LOCAL_ADDR
                              then Address_local 1000 else Address_broadcast 1000) ∧
        ∀ ma, m_payload ma = m_payload echo →
          LatencyTestHandler.handleControlMessage (comm := recording a) t1 pad id ma tt
            = (Ret (Some (t1 - t0)), tt, []) ∧
          LatencyTestHandler.handleControlMessage (comm := recording c) t1 pad id' ma tt
            = (Ret None, tt, []).
Proof.
  intros Hi Hne H0 H1 Hle. eexists. split; [apply send_packet_run|].
  split; [done|]. split; [done|]. intros mb Hmb.
  assert (u64 t0 = t0) as Ht0 by by apply u64_small.
  eexists. split; [|split].
  - rewrite (handle_latency tb pad' id' _ _ mb tt Hmb) by (cbn; rewrite ?Ht0; unfold is_u in *; (done || lia)).
    cbn [LatencyTest.header LatencyTest.type]. rewrite decide_True by done.
    unfold LatencyTestHandler.send_echo. rewrite (bind_run _ _ _ _ _ _ (send_packet_run b _ _ _)). done.
  - by case_match.
  - intros ma Hma. cbn [LatencyTest.header LatencyTest.type LatencyTest.sender_id LatencyTest.timestamp] in Hma.
    rewrite Ht0 in Hma.
    split; rewrite (handle_latency t1 _ _ _ _ ma tt Hma) by (cbn; unfold is_u in *; (done || lia));
      cbn [LatencyTest.header LatencyTest.type LatencyTest.sender_id LatencyTest.timestamp];
      rewrite decide_False by done.
    + rewrite decide_True by done. unfold LatencyTestHandler.compute_rtt.
      rewrite (u64_small t1) by done. rewrite u64_small by (unfold is_u in *; lia). done.
    + rewrite decide_False by (intros [_ ?]; congruence). done.
Qed.

Lemma ping_echo_rtt_witness :
  ∃ ping, LatencyTestHandler.send_ping (comm := recording Address_default) 100 [] 5
            (Address_broadcast 1000) tt = (Ret tt, tt, [ping]) ∧
    m_destination ping = Address_broadcast 1000.
Proof.
  destruct (ping_echo_rtt Address_default Address_default Address_default (Address_broadcast 1000)
    5 6 100 150 200 [] []) as (ping & H1 & H2 & _); try (unfold is_u; lia).
  by exists ping.
Defined.

(** The handler trusts the length of what it received: a control message
    shorter than the envelope's header, or a latency envelope that carries
    fewer than the 16 bytes of a latency header, makes it read past the end
    of the object; other control types are ignored, and an envelope with a
    complete latency packet (24 bytes) is handled without such a read. *)
Theorem malformed_control_message (now id : Z) (pad : list Z) (a : Address) (msg : Message) :
  bytes_ok (m_payload msg) →
  let size := Z.of_nat (length (m_payload msg)) in
  let copied := Z.min (leval (slice 1 4 (m_payload msg))) (size - 5) in
  let type := leval (slice 0 1 (m_payload msg)) in
  let result := LatencyTestHandler.handleControlMessage (comm := recording a) now pad id msg tt in
  (size < 5 → result = (Undefined, tt, [])) ∧
  (5 ≤ size → type ≠ 1 → result = (Ret None, tt, [])) ∧
  (5 ≤ size → type = 1 → copied < 16 → result = (Undefined, tt, [])) ∧
  (5 ≤ size → 24 ≤ copied → ∃ r es, result = (Ret r, tt, es)).
Proof.
  intros Hb size copied type result. unfold result, LatencyTestHandler.handleControlMessage.
  split.
  { intros Hs. unfold ControlEnvelope.from_buffer. by rewrite read_mem_out by (unfold ControlEnvelope.HEADER_SIZE; lia). }
  assert (5 ≤ size → ControlEnvelope.type (ControlEnvelope.header_of_bytes (take 5 (m_payload msg))) = type)
    as Hty.
  { intros Hs. unfold type, slice. simpl. rewrite !drop_0. unfold slice. by rewrite drop_0, take_take. }
  assert (5 ≤ size → length (take (Z.to_nat copied) (drop 5 (m_payload msg))) = Z.to_nat copied) as Hlen.
  { intros Hs. rewrite length_take, length_drop. lia. }
  split; [|split]; intros Hs; rewrite packet_length_le by (done || lia);
    rewrite (bind_pure _ _ _ _ _ (eq_refl : of_outcome (Ret _) tt = (Ret _, tt, [])));
    cbn [ControlEnvelope.header ControlEnvelope.payload]; rewrite Hty by done.
  - intros Hne. by rewrite decide_False by done.
  - intros -> Hc. rewrite decide_True by done. unfold LatencyTest.HEADER_SIZE.
    fold size. fold copied. rewrite (read_mem_out 0 16); [done|]. rewrite Hlen by done. lia.
  - intros Hc. case_decide; [|by do 2 eexists]. fold size. fold copied.
    unfold LatencyTest.HEADER_SIZE. rewrite !read_mem_in by (rewrite Hlen by done; lia).
    rewrite bind_checked. repeat case_decide; rewrite ?bind_checked; try by do 2 eexists.
    unfold LatencyTestHandler.send_echo.
    rewrite (bind_run _ _ _ _ _ _ (send_packet_run a _ _ _)). by do 2 eexists.
Qed.

Lemma malformed_control_message_witness :
  LatencyTestHandler.handleControlMessage (comm := recording Address_default) 0 [] 5
    (MessageOps.control_now Address_default [1; 0; 0; 0; 0]) tt = (Undefined, tt, []).
Proof.
  apply (malformed_control_message 0 5 [] Address_default (MessageOps.control_now Address_default [1; 0; 0; 0; 0]));
    [repeat constructor; lia | vm_compute; done | vm_compute; done | vm_compute; done].
Defined.
