(* ===== verification/SmartData.v ===== *)
(** Sensor data: [smartdata/data_generator.hpp], [transducer.hpp],
    [local_smartdata.hpp], over the by-value subjects of
    [observer/value_conditionally_data_observed.hpp] ([Observer]); and the
    conversions between the sensors' [int32_t] values and the [float]s of
    TEDS messages. *)
From S2P Require Import Prelude Teds Observer.
Local Open Scope Z_scope.

(** ** [float]

    An IEEE 754 single is its 32 bits. *)
Module Float32.
(** Conversion of an [int32_t]: rounding to nearest, ties to even. *)
Definition mantissa (n e : Z) : Z :=
  if decide (e ≤ 23) then Z.shiftl n (23 - e)
  else
    let q := Z.shiftr n (e - 23) in
    let r := n - Z.shiftl q (e - 23) in
    let half := 2 ^ (e - 24) in
    if decide (half < r ∨ (r = half ∧ Z.odd q)) then q + 1 else q.
Definition of_magnitude (n : Z) : Z :=
  let e := Z.log2 n in (e + 127) * 2 ^ 23 + (mantissa n e - 2 ^ 23).
Definition of_int (n : Z) : Z :=
  if decide (n = 0) then 0
  else if decide (n < 0) then 2 ^ 31 + of_magnitude (- n) else of_magnitude n.

Definition exponent (bits : Z) : Z := (bits / 2 ^ 23) `mod` 2 ^ 8.
Definition fraction (bits : Z) : Z := bits `mod` 2 ^ 23.
Definition negative (bits : Z) : bool := Z.testbit bits 31.

(** Conversion to [int32_t] truncates; values outside the type's range,
    infinities and NaNs are undefined. *)
Definition magnitude (bits : Z) : Z :=
  let e := exponent bits - 150 in
  let m := fraction bits + 2 ^ 23 in
  if decide (exponent bits = 0) then 0
  else if decide (0 ≤ e) then Z.shiftl m e else Z.shiftr m (- e).
Definition to_int (bits : Z) : outcome Z :=
  if decide (exponent bits = 255) then Undefined else
  let n := if negative bits then - magnitude bits else magnitude bits in
  if decide (-2 ^ 31 ≤ n < 2 ^ 31) then Ret n else Undefined.

(** The test [if (value)]: neither zero. *)
Definition nonzero (bits : Z) : bool := bool_decide (bits `mod` 2 ^ 31 ≠ 0).
End Float32.

(** ** The chain from generator to end point

    [int32_t] units (see [unit_is_int]). [None] is a member that was never
    initialised. *)
Record smartdata := mk_smart {
  gen_obs : observed unit Z;      (* the DataGenerator's observers *)
  tr_obs : observed unit Z;       (* the Transducer's observers *)
  tr_data : Z;                    (* Transducer::_data *)
  updated_value : option Z        (* LocalSmartData::_updated_value *)
}.

Definition set_gen_obs (o : observed unit Z) (s : smartdata) : smartdata :=
  mk_smart o (tr_obs s) (tr_data s) (updated_value s).
Definition set_tr_obs (o : observed unit Z) (s : smartdata) : smartdata :=
  mk_smart (gen_obs s) o (tr_data s) (updated_value s).

(** [UnitTagType], and the choice of [Value]. *)
Definition UnitTagType (tag : Z) : Z := Z.land tag TEDS.TYPE_MASK.
Definition unit_is_int (tag : Z) : bool := negb (bool_decide (Z.land tag TEDS.FORMAT_MASK = TEDS.FORMAT_FLOAT)).

Module LocalSmartData.
Section ops.
Context {E : Type} (tag : Z).

Definition update (d : Z) : M smartdata E unit :=
  modify (λ s, mk_smart (gen_obs s) (tr_obs s) (tr_data s) (Some d)).

(** [operator Value()]: reading the member before the first update is
    undefined. *)
Definition value : M smartdata E Z := o ← gets updated_value; checked o.
End ops.
End LocalSmartData.

Module Transducer.
Section ops.
Context {E : Type} (tag : Z).
Definition attach (c : Z) : M smartdata E unit :=
  value_attach tr_obs set_tr_obs (Some tt) c.
Definition detach (c : Z) : M smartdata E unit :=
  value_detach tr_obs set_tr_obs (Some tt) c.
Definition sense : M smartdata E Z := gets tr_data.
(** The body is empty. *)
Definition actuate (data : Z) : M smartdata E unit := mret tt.

Definition update (d : Z) : M smartdata E unit :=
  _ ← modify (λ s, mk_smart (gen_obs s) (tr_obs s) d (updated_value s));
  data ← gets tr_data;
  _ ← value_notify tr_obs (λ _, LocalSmartData.update data) (UnitTagType tag);
  mret tt.
End ops.
End Transducer.

Module DataGenerator.
Section ops.
Context {E : Type} (tag : Z).
(** The constructor attaches the transducer; the thread it starts runs
    [generate] over and over. *)
Definition construct : M smartdata E unit :=
  value_attach gen_obs set_gen_obs (Some tt) (UnitTagType tag).
Definition detach : M smartdata E unit :=
  value_detach gen_obs set_gen_obs (Some tt) (UnitTagType tag).

(** One turn of [_gen_data_thread]; [draw] comes from the uniform
    distribution over [0, 1000]. *)
Definition generate (draw : Z) : M smartdata E unit :=
  let value := i32 draw in
  _ ← value_notify gen_obs (λ _, Transducer.update tag value) (UnitTagType tag);
  mret tt.
Fixpoint generate_all (draws : list Z) : M smartdata E unit :=
  match draws with [] => mret tt | d :: ds => _ ← generate d; generate_all ds end.
End ops.
End DataGenerator.

(** The constructor and destructor of [LocalSmartData]. The transducer and its
    generator, thread included, exist before the end point attaches: [early]
    are the draws of the turns that run in between. *)
Definition smart_start : smartdata := mk_smart observed_empty observed_empty 0 None.
Definition construct {E} (tag : Z) (early : list Z) : M smartdata E unit :=
  _ ← put smart_start;
  _ ← DataGenerator.construct tag;
  _ ← DataGenerator.generate_all tag early;
  Transducer.attach (UnitTagType tag).
Definition destroy {E} (tag : Z) : M smartdata E unit := Transducer.detach (UnitTagType tag).

(** [operator=(Value)] *)
Definition assign {E} (data : Z) : M smartdata E unit := Transducer.actuate data.

(** ** Lemmas *)

Section float.
Context (n : Z) (Hn : 0 < n ≤ 2 ^ 24).
Abbreviation e := (Z.log2 n).

Lemma log2_range : 2 ^ e ≤ n < 2 ^ (e + 1) ∧ 0 ≤ e ≤ 24.
Proof using Hn.
  pose proof (Z.log2_spec n). pose proof (Z.log2_nonneg n).
  pose proof (Z.log2_le_mono n (2 ^ 24)). rewrite (Z.log2_pow2 24) in * by lia.
  unfold Z.succ in *. lia.
Qed.

Lemma mantissa_small : e ≤ 23 →
  Float32.mantissa n e = n * 2 ^ (23 - e) ∧ 2 ^ 23 ≤ n * 2 ^ (23 - e) < 2 ^ 24.
Proof using Hn.
  intros He. destruct log2_range as [[H1 H2] H3]. unfold Float32.mantissa.
  rewrite decide_True, Z.shiftl_mul_pow2 by lia. split; [done|].
  assert (2 ^ 23 = 2 ^ e * 2 ^ (23 - e)) as -> by (rewrite <- Z.pow_add_r by lia; f_equal; lia).
  assert (2 ^ 24 = 2 ^ (e + 1) * 2 ^ (23 - e)) as -> by (rewrite <- Z.pow_add_r by lia; f_equal; lia).
  assert (0 < 2 ^ (23 - e)) by (apply Z.pow_pos_nonneg; lia). nia.
Qed.

Lemma magnitude_bits : e ≤ 23 →
  0 < Float32.of_magnitude n < 2 ^ 31 ∧
  Float32.exponent (Float32.of_magnitude n) = e + 127 ∧
  Float32.fraction (Float32.of_magnitude n) = n * 2 ^ (23 - e) - 2 ^ 23.
Proof using Hn.
  intros He. destruct log2_range as [_ H3]. destruct (mantissa_small He) as [Hm Hb].
  unfold Float32.of_magnitude, Float32.exponent, Float32.fraction. rewrite Hm.
  set (m := n * 2 ^ (23 - e)) in *. split; [lia|]. split.
  - rewrite Z.div_add_l by done. rewrite (Z.div_small (m - 2 ^ 23)) by lia.
    rewrite Z.mod_small by lia. lia.
  - rewrite Z.add_comm, Z.mod_add by done. apply Z.mod_small. lia.
Qed.

Lemma magnitude_of : Float32.magnitude (Float32.of_magnitude n) = n ∧
  0 < Float32.of_magnitude n < 2 ^ 31 ∧ Float32.exponent (Float32.of_magnitude n) ≠ 255.
Proof using Hn.
  destruct (decide (e ≤ 23)) as [He|He].
  - destruct log2_range as [_ H3]. destruct (magnitude_bits He) as (H1 & H2 & Hf).
    unfold Float32.magnitude. rewrite H2, Hf. split; [|split; [done|lia]].
    rewrite decide_False by lia. case_decide as Hd.
    + assert (e = 23) as -> by lia. change (23 + 127 - 150) with 0. rewrite Z.shiftl_0_r.
      change (2 ^ (23 - 23)) with 1. lia.
    + rewrite Z.shiftr_div_pow2 by lia. replace (- (e + 127 - 150)) with (23 - e) by lia.
      rewrite Z.sub_add. apply Z.div_mul. apply Z.pow_nonzero; lia.
  - destruct log2_range as [[H1 _] H3]. assert (e = 24) as He' by lia. rewrite He' in H1.
    assert (n = 2 ^ 24) as -> by lia. by vm_compute.
Qed.
End float.

(** Integers up to 2^24 in magnitude survive the trip through a [float]. *)
Lemma float_roundtrip n : -2 ^ 24 ≤ n ≤ 2 ^ 24 →
  Float32.to_int (Float32.of_int n) = Ret n ∧ is_u 32 (Float32.of_int n) ∧
  Float32.nonzero (Float32.of_int n) = bool_decide (n ≠ 0).
Proof.
  intros Hn. unfold Float32.of_int. case_decide as H0; [subst; by vm_compute|].
  case_decide as Hs.
  - destruct (magnitude_of (- n)) as (Hm & Hb & He); [lia|].
    set (b := Float32.of_magnitude (- n)) in *.
    assert (Float32.exponent (2 ^ 31 + b) = Float32.exponent b) as Hx.
    { unfold Float32.exponent. replace (2 ^ 31 + b) with (2 ^ 8 * 2 ^ 23 + b) by lia.
      rewrite Z.div_add_l by done. replace (2 ^ 8 + b / 2 ^ 23) with (b / 2 ^ 23 + 1 * 2 ^ 8) by lia.
      by rewrite Z.mod_add by done. }
    assert (Float32.fraction (2 ^ 31 + b) = Float32.fraction b) as Hf.
    { unfold Float32.fraction. replace (2 ^ 31 + b) with (b + 2 ^ 8 * 2 ^ 23) by lia.
      by rewrite Z.mod_add by done. }
    assert (Float32.negative (2 ^ 31 + b) = true) as Hg.
    { unfold Float32.negative. apply Z.testbit_true; [lia|].
      replace (2 ^ 31 + b) with (1 * 2 ^ 31 + b) by lia.
      rewrite Z.div_add_l by done. by rewrite Z.div_small by lia. }
    split; [|split].
    + unfold Float32.to_int. rewrite Hx, decide_False by done. rewrite Hg.
      unfold Float32.magnitude in *. rewrite Hx, Hf, Hm. rewrite Z.opp_involutive.
      by rewrite decide_True by lia.
    + unfold is_u. lia.
    + unfold Float32.nonzero. replace (2 ^ 31 + b) with (b + 1 * 2 ^ 31) by lia.
      rewrite Z.mod_add, Z.mod_small by lia. apply bool_decide_ext. lia.
  - destruct (magnitude_of n) as (Hm & Hb & He); [lia|].
    set (b := Float32.of_magnitude n) in *.
    assert (Float32.negative b = false) as Hg.
    { unfold Float32.negative. apply Z.testbit_false; [lia|]. by rewrite Z.div_small by lia. }
    split; [|split].
    + unfold Float32.to_int. rewrite decide_False by done. rewrite Hg, Hm.
      by rewrite decide_True by lia.
    + unfold is_u. lia.
    + unfold Float32.nonzero. rewrite Z.mod_small by lia. apply bool_decide_ext. lia.
Qed.

Lemma Forall_last {A} (P : A → Prop) (l : list A) (d : A) : P d → Forall P l → P (List.last l d).
Proof. intros Hd. induction 1 as [|x l Hx Hl IH]; [done|]. simpl. by destruct l. Qed.

(** A sample through the transducer, to the end point if it is attached. *)
Lemma transducer_update {E} tag v gen d u :
  let tr := Observer.attach (Some tt) (UnitTagType tag) observed_empty in
  Transducer.update (E := E) tag v (mk_smart gen tr d u) = (Ret tt, mk_smart gen tr v (Some v), []).
Proof.
  intros tr. unfold Transducer.update. mstep. simpl.
  erewrite bind_run; [|by apply (value_notify_one tr_obs _ _ tt)]. done.
Qed.
Lemma transducer_update_early {E} tag v gen d u :
  Transducer.update (E := E) tag v (mk_smart gen observed_empty d u)
  = (Ret tt, mk_smart gen observed_empty v u, []).
Proof.
  unfold Transducer.update. mstep. simpl.
  erewrite bind_run; [|by apply value_notify_none]. done.
Qed.

Lemma chain_value draws gen tr d u E tag :
  gen = Observer.attach (Some tt) (UnitTagType tag) observed_empty →
  tr = Observer.attach (Some tt) (UnitTagType tag) observed_empty →
  draws ≠ [] →
  DataGenerator.generate_all (E := E) tag draws (mk_smart gen tr d u)
  = (Ret tt, mk_smart gen tr (i32 (List.last draws 0)) (Some (i32 (List.last draws 0))), []).
Proof.
  intros Hg Ht. revert d u. induction draws as [|x draws IH]; [done|]. intros d u _.
  assert (DataGenerator.generate (E := E) tag x (mk_smart gen tr d u)
          = (Ret tt, mk_smart gen tr (i32 x) (Some (i32 x)), [])) as Hx.
  { subst. unfold DataGenerator.generate.
    erewrite bind_run; [|by apply (value_notify_one gen_obs _ _ tt); [|apply transducer_update]]. done. }
  simpl. rewrite (bind_pure _ _ _ _ _ Hx). destruct draws as [|y draws].
  - done.
  - by rewrite IH.
Qed.

Lemma chain_early draws gen d E tag :
  gen = Observer.attach (Some tt) (UnitTagType tag) observed_empty →
  ∃ d', DataGenerator.generate_all (E := E) tag draws (mk_smart gen observed_empty d None)
        = (Ret tt, mk_smart gen observed_empty d' None, []).
Proof.
  intros Hg. revert d. induction draws as [|x draws IH]; intros d; [by eexists|].
  assert (DataGenerator.generate (E := E) tag x (mk_smart gen observed_empty d None)
          = (Ret tt, mk_smart gen observed_empty (i32 x) None, [])) as Hx.
  { subst. unfold DataGenerator.generate.
    erewrite bind_run; [|by apply (value_notify_one gen_obs _ _ tt); [|apply transducer_update_early]]. done. }
  simpl. destruct (IH (i32 x)) as [d' Hd]. exists d'. by rewrite (bind_pure _ _ _ _ _ Hx).
Qed.

Lemma construct_run {E} tag early s0 :
  ∃ d, construct (E := E) tag early s0
    = (Ret tt, mk_smart (Observer.attach (Some tt) (UnitTagType tag) observed_empty)
         (Observer.attach (Some tt) (UnitTagType tag) observed_empty) d None, []).
Proof.
  destruct (chain_early early (Observer.attach (Some tt) (UnitTagType tag) observed_empty) 0 E tag eq_refl)
    as [d He]. exists d.
  unfold construct, DataGenerator.construct, Transducer.attach, value_attach. mstep. simpl.
  by rewrite (bind_pure _ _ _ _ _ He).
Qed.

(** ** Properties *)

(** The end point of a sensor reads the generator's last sample: whatever
    was generated before it attached, its value is undefined until the first
    sample after that, then always the last one; commanding the transducer
    through it changes nothing. *)
Theorem sensor_reads_last_sample {E} (tag : Z) (early draws : list Z) (data : Z) (s0 : smartdata) :
  Forall (λ d, 0 ≤ d ≤ 1000) draws →
  (construct (E := E) tag early ≫= λ _, LocalSmartData.value) s0
    = (Undefined, (construct (E := E) tag early s0).1.2, []) ∧
  (draws ≠ [] →
   (_ ← construct (E := E) tag early; _ ← DataGenerator.generate_all tag draws; _ ← assign data;
    LocalSmartData.value) s0
   = (Ret (List.last draws 0),
      mk_smart (Observer.attach (Some tt) (UnitTagType tag) observed_empty)
        (Observer.attach (Some tt) (UnitTagType tag) observed_empty)
        (List.last draws 0) (Some (List.last draws 0)), [])).
Proof.
  intros Hd. destruct (construct_run (E := E) tag early s0) as [d' Hc].
  set (gen := Observer.attach (Some tt) (UnitTagType tag) observed_empty) in *.
  split; [by rewrite (bind_pure _ _ _ _ _ Hc), Hc|].
  intros Hne. rewrite (bind_pure _ _ _ _ _ Hc).
  rewrite (bind_pure _ _ _ _ _ (chain_value draws gen gen d' None E tag eq_refl eq_refl Hne)).
  unfold assign, Transducer.actuate, LocalSmartData.value. mstep. simpl.
  rewrite i32_small; [done|].
  assert (0 ≤ List.last draws 0 ≤ 1000) by (apply Forall_last; [lia|done]). lia.
Qed.

Lemma sensor_reads_last_sample_witness :
  (_ ← construct (E := unit) TEDS.TEMPERATURE [7]; _ ← DataGenerator.generate_all TEDS.TEMPERATURE [3; 5];
   _ ← assign 9; LocalSmartData.value) smart_start
  = (Ret 5, mk_smart (Observer.attach (Some tt) (UnitTagType TEDS.TEMPERATURE) observed_empty)
              (Observer.attach (Some tt) (UnitTagType TEDS.TEMPERATURE) observed_empty) 5 (Some 5), []).
Proof.
  apply (sensor_reads_last_sample (E := unit) TEDS.TEMPERATURE [7] [3; 5] 9 smart_start); [|done].
  repeat constructor; lia.
Defined.
