(* ===== verification/TedsHandler.v ===== *)
(** TEDS messages: [handlers/teds_handler.hpp], over the interface of
    [vm/vehicle/components/i_component_bridge.hpp]. *)
From S2P Require Import Prelude Ethernet Packet Teds Clock Communicator SmartData.
Local Open Scope Z_scope.

(** What the handler asks of its component. *)
Class IComponentBridge (S E : Type) := {
  get_value : M S E Z;
  apply_value_from_payload : list Z → M S E unit;
  notify_interest_request : Z → Z → bool → M S E unit;
  is_entity_nearby : Address → M S E bool
}.

Record SubscriberInfo := mk_subscriber { s_address : Address; s_period : Z }.

#[export] Instance SubscriberInfo_eq_dec : EqDecision SubscriberInfo.
Proof. solve_decision. Defined.

(** [std::map<TEDS::Type, std::vector<SubscriberInfo>>]: ascending keys. *)
Abbreviation subscribers := (list (Z * list SubscriberInfo)).

(** [map[k]], created when absent, updated by [f]. *)
Fixpoint map_update (k : Z) (f : list SubscriberInfo → list SubscriberInfo) (m : subscribers) : subscribers :=
  match m with
  | [] => [(k, f [])]
  | (k', l) :: m =>
      if decide (k < k') then (k, f []) :: (k', l) :: m
      else if decide (k = k') then (k', f l) :: m
      else (k', l) :: map_update k f m
  end.

Module TEDSHandler.
(** Overwrite the period of the first entry with that address, or append. *)
Fixpoint subscribe (src : Address) (period : Z) (l : list SubscriberInfo) : list SubscriberInfo :=
  match l with
  | [] => [mk_subscriber src period]
  | sub :: l =>
      if Address_eqb (s_address sub) src then mk_subscriber (s_address sub) period :: l
      else sub :: subscribe src period l
  end.

(** [std::gcd] folded over the periods from the first one on. *)
Definition period_gcd (l : list SubscriberInfo) : Z :=
  match l with
  | [] => 0
  | sub :: l => foldl (λ g s, Z.gcd g (s_period s)) (s_period sub) l
  end.

Section handler.
Context {S E : Type} {comm : Comm S E} {bridge : IComponentBridge S E}.
Context (subs : S → subscribers) (set_subs : subscribers → S → S).

(** The payload is read without a look at its size. *)
Definition handleTEDSMessage (msg : Message) : M S E unit :=
  let payload := m_payload msg in
  header ← checked (read_mem 0 TEDS.HEADER_SIZE payload);
  let teds_type := leval header in
  if TEDS.is_request teds_type then
    request ← checked (read_mem TEDS.HEADER_SIZE TEDS.PAYLOAD_SIZE payload);
    let period := leval request in
    _ ← modify (λ s, set_subs (map_update teds_type (subscribe (m_source msg) period) (subs s)) s);
    notify_interest_request period teds_type false
  else if TEDS.is_response teds_type then apply_value_from_payload payload
  else mret tt.

(** [float sensor_data = get_value()]; a zero is not sent. *)
Definition send_response (e : env) (dest : Address) (type : Z) : M S E unit :=
  value ← get_value;
  let sensor_data := Float32.of_int value in
  if Float32.nonzero sensor_data then
    a ← comm_address;
    _ ← comm_send (MessageOps.set_source a (MessageOps.response_now e dest type sensor_data));
    mret tt
  else mret tt.

(** [std::remove_if]: the predicate is asked once per subscriber, in order. *)
Fixpoint keep_nearby (l : list SubscriberInfo) : M S E (list SubscriberInfo) :=
  match l with
  | [] => mret []
  | sub :: l =>
      near ← is_entity_nearby (s_address sub);
      rest ← keep_nearby l;
      mret (if near : bool then sub :: rest else rest)
  end.

(** One round of [cleanup_loop], without its sleep. *)
Fixpoint cleanup_types (m : subscribers) : M S E subscribers :=
  match m with
  | [] => mret []
  | (type, list) :: m =>
      kept ← keep_nearby list;
      _ ← (if decide (length kept = length list) then mret tt
           else if decide (kept = []) then notify_interest_request 0 type true
           else notify_interest_request (period_gcd kept) type true);
      rest ← cleanup_types m;
      mret (if decide (kept = []) then rest else (type, kept) :: rest)
  end.
Definition cleanup : M S E unit :=
  m ← gets subs;
  m ← cleanup_types m;
  modify (set_subs m).
End handler.
End TEDSHandler.

