(* ===== verification/Component.v ===== *)
(** Components: [vm/vehicle/components/component.hpp]. A component is a
    process with its communicator, its sensor data and its two handlers. *)
From S2P Require Import Prelude Ethernet Packet Teds Crypto Clock Observer Shm.
From S2P Require Import Nic Protocol ProtocolLemmas Communicator EndToEnd Control SmartData TedsHandler.
Local Open Scope Z_scope.

Inductive TransducerType := ACTUATOR | SENSOR.
#[export] Instance TransducerType_eq_dec : EqDecision TransducerType.
Proof. solve_decision. Defined.

Record component := mk_component {
  proc : pstate;
  comm : communicator;
  smart : smartdata;
  subs : subscribers;          (* _tedsHandler's _subscribers *)
  sender_id : Z;
  running : bool;
  response_running : bool;
  responses_interval : Z;
  response_type : Z;
  response_thread : bool       (* _response_thread is joinable *)
}.

Definition set_proc (p : pstate) (s : component) : component := mk_component p (comm s) (smart s) (subs s)
  (sender_id s) (running s) (response_running s) (responses_interval s) (response_type s) (response_thread s).
Definition set_smart (d : smartdata) (s : component) : component := mk_component (proc s) (comm s) d (subs s)
  (sender_id s) (running s) (response_running s) (responses_interval s) (response_type s) (response_thread s).
Definition set_subs (m : subscribers) (s : component) : component := mk_component (proc s) (comm s) (smart s) m
  (sender_id s) (running s) (response_running s) (responses_interval s) (response_type s) (response_thread s).
Definition set_running (b : bool) (s : component) : component := mk_component (proc s) (comm s) (smart s)
  (subs s) (sender_id s) b (response_running s) (responses_interval s) (response_type s) (response_thread s).
Definition set_responses (run : bool) (interval type : Z) (thread : bool) (s : component) : component :=
  mk_component (proc s) (comm s) (smart s) (subs s) (sender_id s) (running s) run interval type thread.

Abbreviation C := (M component effect).
Definition on_proc {A} (m : P A) : C A := zoom proc set_proc m.
Definition on_smart {A} (m : M smartdata effect A) : C A := zoom smart set_smart m.

(** The clock of each call. *)
#[export] Instance component_Comm (e : netenv) : Comm component effect :=
  communicator_comm proc set_proc comm false e.

Module Component.
Definition get_value : C Z := on_smart LocalSmartData.value.

(** The bytes after the header as a [float], converted to [int32_t]. *)
Definition response_value (payload : list Z) : outcome Z :=
  match read_mem TEDS.HEADER_SIZE TEDS.PAYLOAD_SIZE payload with
  | Some bs => Float32.to_int (leval bs)
  | None => Undefined
  end.
Definition apply_value_from_payload (payload : list Z) : C unit :=
  data ← of_outcome (response_value payload);
  on_smart (assign data).

(** Starting a thread into [_response_thread] while it is joinable calls
    [std::terminate]; nothing ever joins it. *)
Definition start_response_thread : C unit :=
  s ← get;
  if response_thread s then terminate
  else put (set_responses (response_running s) (responses_interval s) (response_type s) true s).

Definition notify_interest_request (requested_interval type : Z) (reset : bool) : C unit :=
  s ← get;
  if decide (requested_interval = 0) then
    put (set_responses false requested_interval (response_type s) (response_thread s) s)
  else
    let interval :=
      if reset then requested_interval
      else if decide (responses_interval s ≠ requested_interval)
           then Z.gcd (responses_interval s) requested_interval
           else responses_interval s in
    _ ← put (set_responses (response_running s) interval type (response_thread s) s);
    if response_running s then mret tt
    else
      _ ← put (set_responses true interval type (response_thread s) s);
      start_response_thread.

Definition is_entity_nearby (addr : Address) : C bool := on_proc (Protocol.is_entity_nearby addr).

#[global] Instance bridge : IComponentBridge component effect := {|
  TedsHandler.get_value := get_value;
  TedsHandler.apply_value_from_payload := apply_value_from_payload;
  TedsHandler.notify_interest_request := notify_interest_request;
  TedsHandler.is_entity_nearby := is_entity_nearby
|}.

(** The handlers, on the component. *)
Definition handleTEDSMessage (msg : Message) : C unit :=
  TEDSHandler.handleTEDSMessage subs set_subs msg.
Definition handleControlMessage (e : netenv) (pad : list Z) (msg : Message) : C (option Z) :=
  s ← get;
  LatencyTestHandler.handleControlMessage (comm := component_Comm e) (e_steady e) pad (sender_id s) msg.
Definition cleanup : C unit := TEDSHandler.cleanup subs set_subs.

(** One turn of [receiver_loop]. *)
Definition receiver_loop (e : netenv) (pad : list Z) : C unit :=
  s ← get;
  '(ok, msg) ← on_proc (Communicator.receive (comm s) (MessageOps.sized 1024));
  if ok : bool then
    match m_type msg with
    | Segment.TEDS => handleTEDSMessage msg
    | Segment.CONTROL => _ ← handleControlMessage e pad msg; mret tt
    | _ => mret tt
    end
  else mret tt.

(** One turn of [active_send]; [draw] is [std::rand()], the result the next
    value of [external_ping]. *)
Definition active_send (e : netenv) (pad : list Z) (draw : Z) (external_ping : bool) : C bool :=
  let dst := if external_ping then Address_broadcast 1000 else Address_local 1000 in
  if decide (Z.rem draw 6 ≠ 0) then
    s ← get;
    _ ← LatencyTestHandler.send_ping (comm := component_Comm e) (e_steady e) pad (sender_id s) dst;
    mret (negb external_ping)
  else mret external_ping.

(** One turn of [response_thread]: [false] when the loop ends. *)
Definition response_turn (e : netenv) : C bool :=
  s ← get;
  if response_running s then
    _ ← TEDSHandler.send_response (comm := component_Comm e) (e_env e)
          (Address_broadcast TYPE_BASED_ROUTING_PORT) (response_type s);
    mret true
  else mret false.

(** [type_id] is [typeid(Value).hash_code()]; [name] the device name's bytes. *)
Definition registerAndGetPort (pid : Z) (name : list Z) (type_id : Z) : P Z :=
  dynamic_port ← on_nic (NIC.registerComponentService pid name type_id);
  if decide (dynamic_port = 0) then throw "Failed to register component" else mret dynamic_port.

(** The constructor, in member order: the NIC's engine takes a client slot,
    the service gets a port, the communicator listens on it, then the sensor
    data, the protocol and the subscriptions. [id] numbers the communicator;
    [sid] is the identifier drawn; the interest is sent from [e]. *)
Definition construct (e : netenv) (id : nat) (pid : Z) (name : list Z) (type_id tag sid : Z)
    (early : list Z) (kind : TransducerType) (interval_ms : Z) : C unit :=
  slot ← on_proc (on_nic (on_ipc (register_client pid)));
  _ ← on_proc (on_nic (modify (λ n, mk_nics (ipc n) slot (my_mac n) (rx n) (quadrant n) (fixed_location n)
                                     (heap n) (next_buf n) (next_seq n) (local_obs n) (ext_obs n))));
  port ← on_proc (registerAndGetPort pid name type_id);
  mac ← on_proc (on_nic (NIC.address SHM));
  c ← on_proc (Communicator.construct id (mk_Address mac port));
  _ ← on_smart (SmartData.construct tag early);
  _ ← on_proc Protocol.init_component;
  c ← (match kind with
       | ACTUATOR => on_proc (Communicator.subscribe_to_responses false e c (UnitTagType tag) interval_ms)
       | SENSOR => on_proc (Communicator.subscribe_to_requests c (UnitTagType tag))
       end);
  modify (λ s, mk_component (proc s) c (smart s) [] sid true false 0 (response_type s) false).

(** The destructor, then the members in reverse order: [_response_thread] is
    destroyed joinable if it was ever started; the sensor data's generator
    joins a thread that never ends. *)
Definition destroy (tag : Z) : C unit :=
  _ ← modify (set_running false);
  s ← get;
  if response_thread s then terminate else
  _ ← on_smart (SmartData.destroy tag);
  _ ← on_smart (DataGenerator.detach tag);
  blocked.
End Component.

(** ** Lemmas *)

Lemma on_proc_same {A} (m : P A) s a : m (proc s) = (Ret a, proc s, []) → on_proc m s = (Ret a, s, []).
Proof. intros H. unfold on_proc, zoom. rewrite H. by destruct s. Qed.

(** Whether an address is known to be near, and whether the table is free. *)
Definition near (s : component) (a : Address) : bool :=
  bool_decide (paddr a ∈ nearby_list (blk (ipc (nic (proc s))))).
Definition table_free (s : component) : Prop := nearby_lock (blk (ipc (nic (proc s)))) = false.

Lemma is_nearby_component a s : table_free s →
  Component.is_entity_nearby a s = (Ret (near s a), s, []).
Proof.
  intros Hf. apply on_proc_same. unfold Protocol.is_entity_nearby, NIC.is_entity_nearby.
  destruct s as [p c d m i r rr ri rt rth]; simpl in *. unfold table_free in Hf; simpl in Hf.
  unfold near; simpl. rewrite (on_nic_run _ p (Ret (near (mk_component p c d m i r rr ri rt rth) a)) (nic p) []).
  - by rewrite set_nic_id.
  - erewrite on_ipc_run by by apply is_nearby_run. rewrite set_ipc_id. unfold near; simpl.
    repeat f_equal. apply bool_decide_ext. apply nearby_scan_in.
Qed.

Lemma keep_nearby_run l s : table_free s →
  TEDSHandler.keep_nearby l s = (Ret (filter (λ sub, near s (s_address sub)) l), s, []).
Proof.
  intros Hf. induction l as [|sub l IH]; [done|].
  cbn [TEDSHandler.keep_nearby]. rewrite (bind_pure _ _ _ _ _ (is_nearby_component (s_address sub) s Hf)).
  rewrite (bind_pure _ _ _ _ _ IH), filter_cons. by destruct (near s (s_address sub)).
Qed.

Section subscribe.
Context (src : Address) (Hsrc : address_ok src) (period : Z).

Lemma subscribe_addresses l :
  Forall (λ sub, address_ok (s_address sub)) l →
  s_address <$> TEDSHandler.subscribe src period l
  = if decide (src ∈ s_address <$> l) then s_address <$> l else (s_address <$> l) ++ [src].
Proof using Hsrc.
  induction 1 as [|[a p] l Ha Hl IH]; [done|]. cbn [TEDSHandler.subscribe s_address] in *.
  rewrite Address_eqb_spec by done. case_bool_decide as He.
  - subst. cbn. by rewrite decide_True by set_solver.
  - cbn [fmap list_fmap s_address]. rewrite IH.
    destruct (decide (src ∈ s_address <$> l)) as [Hi|Hi].
    + by rewrite decide_True by set_solver.
    + rewrite decide_False; [done|]. by intros [->|?]%elem_of_cons.
Qed.

Lemma subscribe_forall (Q : SubscriberInfo → Prop) l :
  (∀ a p, Q (mk_subscriber a p) → Q (mk_subscriber a period)) → Q (mk_subscriber src period) →
  Forall Q l → Forall Q (TEDSHandler.subscribe src period l).
Proof using.
  intros Hp Hs. induction 1 as [|[a p] l Ha Hl IH]; cbn [TEDSHandler.subscribe s_address]; [by repeat constructor|].
  destruct (Address_eqb a src); constructor; eauto.
Qed.

Lemma subscribe_in l : ∃ a, mk_subscriber a period ∈ TEDSHandler.subscribe src period l.
Proof using.
  clear Hsrc. induction l as [|[a p] l [b IH]]; cbn [TEDSHandler.subscribe s_address]; [exists src; set_solver|].
  destruct (Address_eqb a src); [exists a|exists b]; set_solver.
Qed.

Lemma subscribe_nonempty l : TEDSHandler.subscribe src period l ≠ [].
Proof using. destruct l as [|[a p] l]; cbn; [done|]. by destruct (Address_eqb _ _). Qed.
End subscribe.

(** The fold over the remaining periods divides each of them. *)
Lemma foldl_gcd l : ∀ g, 0 < g →
  let d := foldl (λ g s, Z.gcd g (s_period s)) g l in
  0 < d ∧ (d | g) ∧ Forall (λ sub, (d | s_period sub)) l.
Proof.
  induction l as [|sub l IH]; intros g Hg; cbn [foldl].
  { split; [done|]. by split; [exists 1; lia|]. }
  assert (0 < Z.gcd g (s_period sub)) as Hpos.
  { pose proof (Z.gcd_nonneg g (s_period sub)). assert (Z.gcd g (s_period sub) ≠ 0); [|lia].
    intros H0. apply Z.gcd_eq_0_l in H0. lia. }
  destruct (IH _ Hpos) as (H1 & H2 & H3). cbv zeta in *. split; [done|]. split.
  - etransitivity; [exact H2|]. apply Z.gcd_divide_l.
  - constructor; [|done]. etransitivity; [exact H2|]. apply Z.gcd_divide_r.
Qed.

Lemma period_gcd_divides l : l ≠ [] → Forall (λ sub, 0 < s_period sub) l →
  0 < TEDSHandler.period_gcd l ∧ Forall (λ sub, (TEDSHandler.period_gcd l | s_period sub)) l.
Proof.
  intros Hne Hp. destruct l as [|sub l]; [done|]. inversion Hp; subst. simpl.
  destruct (foldl_gcd l (s_period sub)) as (G1 & G2 & G3); [done|]. by repeat constructor.
Qed.

(** ** Properties *)

(** A sensor of one type [ty]: either it has no subscriber and its response
    thread has nothing to do, or it has, the thread runs, and its interval
    divides every subscriber's period. *)
Definition serving (ty : Z) (s : component) : Prop :=
  (subs s = [] ∧ response_running s = false ∧ responses_interval s = 0) ∨
  (∃ l, subs s = [(ty, l)] ∧ l ≠ [] ∧ NoDup (s_address <$> l) ∧
     Forall (λ sub, address_ok (s_address sub) ∧ 0 < s_period sub) l ∧
     response_running s = true ∧ response_thread s = true ∧ 0 < responses_interval s ∧
     Forall (λ sub, (responses_interval s | s_period sub)) l).

(** The subscribers of the type. *)
Definition subscribed (s : component) : list SubscriberInfo :=
  match subs s with (_, l) :: _ => l | [] => [] end.

(** A message whose payload is an interest in [ty]. *)
Definition interest (ty period : Z) (msg : Message) : Prop :=
  ∃ rest, m_payload msg = lebytes 4 ty ++ lebytes 4 period ++ rest.

Lemma handle_interest ty period msg s :
  is_u 32 ty → TEDS.is_request ty = true → is_u 32 period → interest ty period msg →
  Component.handleTEDSMessage msg s =
  Component.notify_interest_request period ty false
    (set_subs (map_update ty (TEDSHandler.subscribe (m_source msg) period) (subs s)) s).
Proof.
  intros Ht Hr Hp [rest Hm]. unfold Component.handleTEDSMessage, TEDSHandler.handleTEDSMessage.
  rewrite Hm. unfold TEDS.HEADER_SIZE, TEDS.PAYLOAD_SIZE.
  rewrite !read_mem_in by (rewrite !length_app, !length_lebytes; lia).
  rewrite bind_checked.
  pose proof (slice_app_head (lebytes 4 ty) (lebytes 4 period ++ rest)) as H1.
  rewrite length_lebytes in H1. rewrite H1, leval_small, Hr by done.
  rewrite bind_checked, slice_app_mid by (by rewrite length_lebytes).
  by rewrite leval_small, bind_modify by done.
Qed.

Lemma sublist_same {A} (l k : list A) : l `sublist_of` k → length l = length k → l = k.
Proof.
  induction 1 as [|x l k Hs IH|x l k Hs IH]; simpl; [done|intros [= ?]; f_equal; auto|].
  apply sublist_length in Hs. lia.
Qed.

(** What the request does to a component that serves [ty]. *)
Lemma serving_request ty period msg s :
  is_u 32 ty → TEDS.is_request ty = true → 0 < period → is_u 32 period →
  address_ok (m_source msg) → interest ty period msg → serving ty s →
  (subs s = [] ∧ response_thread s = true ∧
   (Component.handleTEDSMessage msg s).1.1 = Terminate) ∨
  (∃ s', Component.handleTEDSMessage msg s = (Ret tt, s', []) ∧ serving ty s' ∧
     subs s' = [(ty, TEDSHandler.subscribe (m_source msg) period (subscribed s))]).
Proof.
  intros Ht Hr Hp0 Hp Ha Hi Hs. rewrite (handle_interest ty period msg s Ht Hr Hp Hi).
  unfold Component.notify_interest_request. mstep. rewrite decide_False by lia. mstep.
  destruct Hs as [(H1 & H2 & H3)|(l & H1 & H2 & H3 & H4 & H5 & H6 & H7 & H8)];
    destruct s as [p c d m i r rr ri rt rth]; cbn [subs response_running responses_interval response_thread
      set_subs set_responses proc comm smart sender_id running response_type] in *; subst.
  - cbn [map_update TEDSHandler.subscribe]. mstep. unfold Component.start_response_thread. mstep. simpl.
    destruct rth; [by left|]. right. eexists. split; [done|]. split; [|done]. right.
    exists [mk_subscriber (m_source msg) period]. cbn. split; [done|]. split; [done|].
    split; [apply NoDup_singleton|]. split; [by apply Forall_singleton|]. split; [done|]. split; [done|].
    rewrite decide_True by lia. rewrite Z.gcd_0_l, Z.abs_eq by lia.
    split; [lia|]. by apply Forall_singleton.
  - right. cbn [map_update]. rewrite (decide_False (P := ty < ty)) by lia. rewrite (decide_True (P := ty = ty)) by done. simpl.
    eexists. split; [done|]. split; [|done]. right.
    exists (TEDSHandler.subscribe (m_source msg) period l). cbn. split; [done|].
    split; [apply subscribe_nonempty|].
    split.
    { rewrite subscribe_addresses; [|done|].
      - case_decide; [done|]. apply NoDup_app. split; [done|].
        split; [set_solver|apply NoDup_singleton].
      - eapply Forall_impl; [exact H4|]. naive_solver. }
    split; [apply subscribe_forall; [naive_solver|done|done]|]. split; [done|]. split; [done|].
    assert (0 < Z.gcd ri period) as Hg.
    { pose proof (Z.gcd_nonneg ri period). assert (Z.gcd ri period ≠ 0); [|lia].
      intros H0. apply Z.gcd_eq_0_l in H0. lia. }
    case_decide as Hd; (split; [done|]).
    + apply subscribe_forall; cbn; [intros; apply Z.gcd_divide_r|apply Z.gcd_divide_r|].
      eapply Forall_impl; [exact H8|]. intros sub Hsub; cbn in *. etransitivity; [apply Z.gcd_divide_l|done].
    + assert (ri = period) as -> by (destruct (decide (ri = period)); tauto).
      by apply subscribe_forall.
Qed.

Lemma serving_cleanup ty s : serving ty s → table_free s →
  ∃ s', Component.cleanup s = (Ret tt, s', []) ∧ serving ty s' ∧
    subscribed s' = filter (λ sub, near s (s_address sub)) (subscribed s) ∧
    response_thread s' = response_thread s.
Proof.
  intros Hs Hf. unfold Component.cleanup, TEDSHandler.cleanup. mstep.
  destruct Hs as [(H1 & H2 & H3)|(l & H1 & H2 & H3 & H4 & H5 & H6 & H7 & H8)].
  - rewrite H1. cbn [TEDSHandler.cleanup_types]. mstep. eexists. split; [done|].
    unfold subscribed. cbn. rewrite H1. split; [by left|done].
  - rewrite H1. cbn [TEDSHandler.cleanup_types]. mstep.
    rewrite (bind_pure _ _ _ _ _ (keep_nearby_run l s Hf)). mstep.
    unfold subscribed. rewrite H1. set (kept := filter _ l).
    assert (kept `sublist_of` l) as Hsub by apply sublist_filter.
    assert (Forall (λ sub, address_ok (s_address sub) ∧ 0 < s_period sub) kept) as Hk.
    { apply Forall_forall. intros sub Hi. apply list_elem_of_filter in Hi as [_ Hi].
      by eapply Forall_forall in Hi; [|exact H4]. }
    assert (NoDup (s_address <$> kept)) as Hn.
    { eapply sublist_NoDup; [exact H3|]. by apply fmap_sublist. }
    clearbody kept. destruct (decide (length kept = length l)) as [Hlen|Hlen].
    { assert (kept = l) as Hkl by by apply sublist_same.
      subst kept. mstep. rewrite decide_False by done. eexists. split; [done|]. cbn. split; [|done].
      right. exists l. by destruct s. }
    unfold Component.bridge, TedsHandler.notify_interest_request, Component.notify_interest_request.
    destruct (decide (kept = [])) as [Hke|Hke]; mstep.
    + rewrite decide_True by done. mstep. eexists. split; [done|]. cbn. rewrite Hke. split; [|done].
      by left.
    + destruct (period_gcd_divides kept) as [Hg Hd]; [done|by eapply Forall_impl; [exact Hk|]; naive_solver|].
      rewrite decide_False by lia. cbn. mstep. rewrite H5. mstep.
      eexists. split; [done|]. cbn. split; [|done]. right. exists kept. by rewrite H6.
Qed.


(** A sensor process with the given address in its nearby table. *)
Definition sensor0 (thread : bool) (l : list SubscriberInfo) : component :=
  mk_component component0 comm0 (mk_smart observed_empty observed_empty 7 (Some 7))
    (match l with [] => [] | _ => [(TEDS.TEMPERATURE, l)] end) 5 true
    (match l with [] => false | _ => true end) (match l with [] => 0 | _ => 2000 end) TEDS.TEMPERATURE thread.
Definition interest0 (from : Address) (period : Z) : Message :=
  MessageOps.set_source from
    (mk_Message Address_default Address_default Segment.TEDS
       (TEDS.create_request_payload TEDS.TEMPERATURE period) 1024 0).

Lemma interest0_ok from period : interest TEDS.TEMPERATURE period (interest0 from period).
Proof. exists []. by rewrite app_nil_r. Qed.


(** A local subscriber is never near: the table of nearby vehicles holds
    addresses of the external network, and components of the vehicle have the
    all-zero address. The first clean-up therefore drops every local
    subscriber and stops their responses, and the next interest that arrives
    ends the sensor's process through [std::terminate]. *)
Theorem local_subscribers_dropped (ty period : Z) (msg : Message) (s : component) :
  is_u 32 ty → TEDS.is_request ty = true → 0 < period → is_u 32 period →
  address_ok (m_source msg) → interest ty period msg →
  serving ty s → table_free s → response_thread s = true →
  LOCAL_ADDR ∉ nearby_list (blk (ipc (nic (proc s)))) →
  Forall (λ sub, paddr (s_address sub) = LOCAL_ADDR) (subscribed s) →
  ∃ s', Component.cleanup s = (Ret tt, s', []) ∧ subs s' = [] ∧ response_running s' = false ∧
    (Component.handleTEDSMessage msg s').1.1 = Terminate.
Proof.
  intros Ht Hr Hp0 Hp Ha Hi Hs Hf Hth Hloc Hall.
  destruct (serving_cleanup ty s Hs Hf) as (s' & H1 & H2 & H3 & H4). exists s'. split; [done|].
  assert (filter (λ sub, near s (s_address sub)) (subscribed s) = []) as Hnil.
  { clear -Hloc Hall. induction Hall as [|sub l Hsub _ IH]; [done|]. rewrite filter_cons.
    assert (near s (s_address sub) = false) as ->; [|done]. unfold near.
    by rewrite Hsub, bool_decide_false by done. }
  rewrite Hnil in H3.
  pose proof H2 as [(E1 & E2 & _)|(l & E1 & E2 & _)].
  - split; [done|]. split; [done|].
    destruct (serving_request ty period msg s' Ht Hr Hp0 Hp Ha Hi H2) as [(_ & _ & ?)|(s2 & G1 & _)]; [done|].
    exfalso. rewrite (handle_interest ty period msg s' Ht Hr Hp Hi) in G1.
    unfold Component.notify_interest_request in G1. revert G1. mstep. rewrite decide_False by lia. mstep.
    cbn. rewrite E2. mstep. cbn. unfold Component.start_response_thread. mstep. cbn. rewrite H4, Hth.
    discriminate.
  - unfold subscribed in H3. rewrite E1 in H3. by subst.
Qed.

Lemma local_subscribers_dropped_witness :
  ∃ s', Component.cleanup (sensor0 true [mk_subscriber (Address_local 1003) 2000]) = (Ret tt, s', []) ∧
    subs s' = [] ∧ response_running s' = false ∧
    (Component.handleTEDSMessage (interest0 (Address_local 1004) 3000) s').1.1 = Terminate.
Proof.
  apply (local_subscribers_dropped TEDS.TEMPERATURE 3000 (interest0 (Address_local 1004) 3000)).
  - unfold is_u; vm_compute; split; congruence.
  - done.
  - lia.
  - unfold is_u; lia.
  - split; [|unfold is_u; simpl; lia]. split; [done|]. repeat constructor; lia.
  - apply interest0_ok.
  - right. exists [mk_subscriber (Address_local 1003) 2000]. split; [done|]. split; [done|].
    split; [apply NoDup_singleton|]. split.
    { apply Forall_singleton. split; [|simpl; lia]. split; [|unfold is_u; simpl; lia].
      split; [done|]. repeat constructor; lia. }
    split; [done|]. split; [done|]. split; [simpl; lia|]. apply Forall_singleton. exists 1. done.
  - done.
  - done.
  - vm_compute. set_solver.
  - by apply Forall_singleton.
Defined.

(** One interest with period zero silences a sensor: it stops the responses
    to every subscriber, though they all stay subscribed, and the next interest
    with a period ends the process through [std::terminate]. *)
Theorem zero_period_interest (ty period : Z) (zero msg : Message) (s : component) :
  is_u 32 ty → TEDS.is_request ty = true → 0 < period → is_u 32 period →
  interest ty 0 zero → interest ty period msg → response_thread s = true →
  ∃ s', Component.handleTEDSMessage zero s = (Ret tt, s', []) ∧
    response_running s' = false ∧
    subs s' = map_update ty (TEDSHandler.subscribe (m_source zero) 0) (subs s) ∧
    (∀ e, Component.response_turn e s' = (Ret false, s', [])) ∧
    (Component.handleTEDSMessage msg s').1.1 = Terminate.
Proof.
  intros Ht Hr Hp0 Hp Hz Hi Hth. eexists.
  rewrite (handle_interest ty 0 zero s Ht Hr) by (unfold is_u in *; (done || lia)).
  unfold Component.notify_interest_request at 1. mstep. rewrite decide_True by done.
  split; [done|]. split; [done|]. split; [done|]. split.
  { intros e. unfold Component.response_turn. by mstep. }
  rewrite (handle_interest ty period msg _ Ht Hr Hp Hi).
  unfold Component.notify_interest_request. mstep. rewrite decide_False by lia. mstep. cbn. mstep.
  unfold Component.start_response_thread. mstep. cbn. by rewrite Hth.
Qed.

Lemma zero_period_interest_witness :
  ∃ s', Component.handleTEDSMessage (interest0 bcast 0) (sensor0 true [mk_subscriber addr_a 2000])
          = (Ret tt, s', []) ∧
    (Component.handleTEDSMessage (interest0 bcast 3000) s').1.1 = Terminate.
Proof.
  destruct (zero_period_interest TEDS.TEMPERATURE 3000 (interest0 bcast 0) (interest0 bcast 3000)
    (sensor0 true [mk_subscriber addr_a 2000])) as (s' & H1 & _ & _ & _ & H2);
    [unfold is_u; vm_compute; split; congruence|done|lia|unfold is_u; lia|apply interest0_ok|apply interest0_ok|done|].
  by exists s'.
Defined.

(** A response of a reading, and what an actuator does with it. *)
Lemma response_decodes ty v : -2 ^ 24 ≤ v ≤ 2 ^ 24 →
  Component.response_value (TEDS.create_response_payload ty (Float32.of_int v)) = Ret v.
Proof.
  intros Hv. destruct (float_roundtrip v Hv) as (Hf & Hu & _). rewrite response_payload_eq.
  unfold Component.response_value, TEDS.HEADER_SIZE, TEDS.PAYLOAD_SIZE.
  rewrite read_mem_in by (rewrite length_app, !length_lebytes; lia).
  rewrite <- (app_nil_r (lebytes 4 (Float32.of_int v))), slice_app_mid by (by rewrite length_lebytes).
  by rewrite leval_small.
Qed.

Lemma handle_response ty v msg s : is_u 32 ty → -2 ^ 24 ≤ v ≤ 2 ^ 24 →
  m_payload msg = TEDS.create_response_payload ty (Float32.of_int v) →
  Component.handleTEDSMessage msg s = (Ret tt, s, []).
Proof.
  intros Ht Hv Hm. pose proof (response_decodes ty v Hv) as Hrv. rewrite <- Hm in Hrv.
  unfold Component.handleTEDSMessage, TEDSHandler.handleTEDSMessage.
  cbn [TedsHandler.apply_value_from_payload Component.bridge]. unfold Component.apply_value_from_payload.
  rewrite Hrv, Hm, response_payload_eq. unfold TEDS.HEADER_SIZE.
  rewrite (read_mem_in 0 4) by (rewrite length_app, !length_lebytes; lia). rewrite bind_checked.
  pose proof (slice_app_head (lebytes 4 (TEDS.make_response_type ty)) (lebytes 4 (Float32.of_int v))) as H1.
  rewrite length_lebytes in H1. rewrite H1, leval_small by by apply response_bound.
  rewrite is_request_negb, make_response_is_response. cbn [negb]. by destruct s.
Qed.

(** What the response thread sends for a reading that is not zero. *)
Lemma send_response_run e dest ty v s (comm : Comm component effect) :
  -2 ^ 24 ≤ v ≤ 2 ^ 24 → updated_value (smart s) = Some v →
  TEDSHandler.send_response (comm := comm) (e_env e) dest ty s =
  (if decide (v = 0) then mret tt
   else a ← comm_address;
        _ ← comm_send (MessageOps.set_source a (MessageOps.response_now (e_env e) dest ty (Float32.of_int v)));
        mret tt) s.
Proof.
  intros Hv Hs. destruct (float_roundtrip v Hv) as (_ & _ & Hn).
  unfold TEDSHandler.send_response. cbn [TedsHandler.get_value Component.bridge].
  assert (Component.get_value s = (Ret v, s, [])) as Hg.
  { unfold Component.get_value, on_smart, zoom, LocalSmartData.value. destruct s as [p c [g t d u]]; simpl in *.
    by rewrite Hs. }
  rewrite (bind_pure _ _ _ _ _ Hg), Hn.
  destruct (decide (v = 0)) as [->|Hne]; [done|]. by rewrite (bool_decide_true _ Hne).
Qed.


