(* ===== verification/ComponentLife.v ===== *)
(** The threads of a component: how [vm/vehicle/components/component.hpp] and
    [handlers/teds_handler.hpp] start them, share the handlers among them and
    stop them.  What the threads compute is in [Component] and [TedsHandler];
    here is where each of them is, and which objects exist. *)
From Stdlib Require Import ZifyBool.
From S2P Require Import Prelude.

Module ComponentLife.

(** A message as the receiver tells them apart. *)
Inductive message := Interest (zero : bool) | Answer | ControlMessage | Unknown.

(** The thread that constructs and destroys the component: at which statement. *)
Inductive owner :=
  | OReceiver | OSender | OCleanup              (* the threads of the constructor *)
  | OTeds | OControl                            (* the handlers it then keeps *)
  | OAlive
  | OJoinReceiver | OJoinSender                 (* ~Component *)
  | OControlGone | OTedsFlag | OTedsJoin        (* the handlers *)
  | OResponse                                   (* _response_thread *)
  | OSmart                                      (* the generator's thread *)
  | OReturned.
Inductive receiver :=
  | RNone | RTest | RWait | RHandle (m : message)
  | RList (zero : bool)                         (* in [_subscribers], without the mutex *)
  | RNotify (zero : bool) | RStart              (* notify_interest_request *)
  | RDone.
Inductive sender := SNone | STest | SSleep | SPing | SDone.
Inductive cleanup :=
  | KNone | KTest | KSleep
  | KClean                                      (* in [_subscribers], with the mutex *)
  | KNotify (zero : bool) | KStart
  | KDone.
Inductive response := PNone | PTest | PSend | PSleep | PDone.
(** The process: it runs, has used a handler that does not exist, has two
    threads in [_subscribers], or has called [std::terminate]. *)
Inductive fate := Running | NoHandler | Raced | Terminated.

#[export] Instance message_eq_dec : EqDecision message.
Proof. solve_decision. Defined.
#[export] Instance owner_eq_dec : EqDecision owner.
Proof. solve_decision. Defined.
#[export] Instance receiver_eq_dec : EqDecision receiver.
Proof. solve_decision. Defined.
#[export] Instance response_eq_dec : EqDecision response.
Proof. solve_decision. Defined.

Record threads := mk_threads {
  rcv : receiver; snd_ : sender; cln : cleanup; rsp : response; generating : bool
}.
Record flags := mk_flags { running : bool; handler_running : bool; response_running : bool }.

Record t := mk {
  o : owner;
  th : threads;
  fl : flags;
  teds : bool;                 (* _tedsHandler's object exists *)
  control : bool;              (* _controlHandler's object exists *)
  queue : list message;        (* the communicator's queue *)
  subscribed : bool;           (* somebody is, or was, in _subscribers *)
  end_ : fate
}.

Definition set_o x s := mk x (th s) (fl s) (teds s) (control s) (queue s) (subscribed s) (end_ s).
Definition set_th x s := mk (o s) x (fl s) (teds s) (control s) (queue s) (subscribed s) (end_ s).
Definition set_fl x s := mk (o s) (th s) x (teds s) (control s) (queue s) (subscribed s) (end_ s).
Definition set_teds x s := mk (o s) (th s) (fl s) x (control s) (queue s) (subscribed s) (end_ s).
Definition set_control x s := mk (o s) (th s) (fl s) (teds s) x (queue s) (subscribed s) (end_ s).
Definition set_queue x s := mk (o s) (th s) (fl s) (teds s) (control s) x (subscribed s) (end_ s).
Definition set_subscribed x s := mk (o s) (th s) (fl s) (teds s) (control s) (queue s) x (end_ s).
Definition set_end x s := mk (o s) (th s) (fl s) (teds s) (control s) (queue s) (subscribed s) x.
Definition set_rcv x s := set_th (mk_threads x (snd_ (th s)) (cln (th s)) (rsp (th s)) (generating (th s))) s.
Definition set_snd x s := set_th (mk_threads (rcv (th s)) x (cln (th s)) (rsp (th s)) (generating (th s))) s.
Definition set_cln x s := set_th (mk_threads (rcv (th s)) (snd_ (th s)) x (rsp (th s)) (generating (th s))) s.
Definition set_rsp x s := set_th (mk_threads (rcv (th s)) (snd_ (th s)) (cln (th s)) x (generating (th s))) s.
Definition set_running b s := set_fl (mk_flags b (handler_running (fl s)) (response_running (fl s))) s.
Definition set_handler_running b s := set_fl (mk_flags (running (fl s)) b (response_running (fl s))) s.
Definition set_responding b s := set_fl (mk_flags (running (fl s)) (handler_running (fl s)) b) s.

(** [notify_interest_request] up to the thread: whether it goes on to start
    one; and the thread assigned into [_response_thread], which calls
    [std::terminate] over a joinable one. *)
Definition notify_starts (zero : bool) (s : t) : bool := negb zero && negb (response_running (fl s)).
Definition notify_flag (zero : bool) (s : t) : t := if zero then set_responding false s else s.
Definition start_response (s : t) : t :=
  let s := set_responding true s in
  match rsp (th s) with PNone => set_rsp PTest s | _ => set_end Terminated s end.

(** The [switch] of [receiver_loop], up to the handler's first access to what
    it shares. *)
Definition handle (m : message) (s : t) : t :=
  match m with
  | Interest zero =>
      if teds s then
        let s := set_rcv (RList zero) s in
        match cln (th s) with KClean => set_end Raced s | _ => s end
      else set_end NoHandler s
  | Answer => if teds s then set_rcv RTest s else set_end NoHandler s
  | ControlMessage => if control s then set_rcv RTest s else set_end NoHandler s
  | Unknown => set_rcv RTest s
  end.

Definition receiver_next (s : t) : list t :=
  match rcv (th s) with
  | RNone | RDone => []
  | RTest => [set_rcv (if running (fl s) then RWait else RDone) s]
  | RWait => match queue s with [] => [] | m :: q => [set_rcv (RHandle m) (set_queue q s)] end
  | RHandle m => [handle m s]
  | RList zero => [set_rcv (RNotify zero) (set_subscribed true s)]
  | RNotify zero =>
      [set_rcv (if notify_starts zero s then RStart else RTest) (notify_flag zero s)]
  | RStart => [start_response (set_rcv RTest s)]
  end.

(** [active_send]: it sleeps, then pings or not. *)
Definition sender_next (s : t) : list t :=
  match snd_ (th s) with
  | SNone | SDone => []
  | STest => [set_snd (if running (fl s) then SSleep else SDone) s]
  | SSleep => [set_snd SPing s; set_snd STest s]
  | SPing => [if control s then set_snd STest s else set_end NoHandler s]
  end.

(** [cleanup_loop]: what it finds of a type makes it ask for nothing, for the
    end of the responses, or for a new interval; then it takes the next type. *)
Definition cleanup_next (s : t) : list t :=
  match cln (th s) with
  | KNone | KDone => []
  | KTest => [set_cln (if handler_running (fl s) then KSleep else KDone) s]
  | KSleep =>
      let s := set_cln KClean s in
      [match rcv (th s) with RList _ => set_end Raced s | _ => s end]
  | KClean =>
      set_cln KTest s
      :: (if subscribed s then [set_cln (KNotify true) s; set_cln (KNotify false) s] else [])
  | KNotify zero =>
      if notify_starts zero s then [set_cln KStart s]
      else
        let s := set_cln KClean (notify_flag zero s) in
        [match rcv (th s) with RList _ => set_end Raced s | _ => s end]
  | KStart =>
      let s := start_response (set_cln KClean s) in
      [match rcv (th s), end_ s with RList _, Running => set_end Raced s | _, _ => s end]
  end.

Definition response_next (s : t) : list t :=
  match rsp (th s) with
  | PNone | PDone => []
  | PTest => [set_rsp (if response_running (fl s) then PSend else PDone) s]
  | PSend => [if teds s then set_rsp PSleep s else set_end NoHandler s]
  | PSleep => [set_rsp PTest s]
  end.

(** The generator's thread has no way out of its loop. *)
Definition generator_next (s : t) : list t := if generating (th s) then [s] else [].

(** The handler's constructor, and the start of its destructor, which then joins. *)
Definition handler_construct (s : t) : t := set_cln KTest (set_handler_running true s).
Definition handler_stop (s : t) : t := set_handler_running false s.

Definition owner_next (s : t) : list t :=
  match o s with
  | OReceiver => [set_o OSender (set_rcv RTest s)]
  | OSender => [set_o OCleanup (set_snd STest s)]
  | OCleanup => [set_o OTeds (handler_construct s)]
  | OTeds => [set_o OControl (set_teds true s)]
  | OControl => [set_o OAlive (set_control true s)]
  | OAlive | OReturned => []
  | OJoinReceiver => match rcv (th s) with RDone => [set_o OJoinSender s] | _ => [] end
  | OJoinSender => match snd_ (th s) with SDone => [set_o OControlGone s] | _ => [] end
  | OControlGone => [set_o OTedsFlag (set_control false s)]
  | OTedsFlag => [set_o OTedsJoin (handler_stop s)]
  | OTedsJoin => match cln (th s) with KDone => [set_o OResponse (set_teds false s)] | _ => [] end
  | OResponse => match rsp (th s) with PNone => [set_o OSmart s] | _ => [set_end Terminated s] end
  | OSmart => if generating (th s) then [] else [set_o OReturned s]
  end.

(** Before the threads start; the communicator listens already, and the
    generator runs. *)
Definition construct : t :=
  mk OReceiver (mk_threads RNone SNone KNone PNone true) (mk_flags true false false)
     false false [] false Running.
Definition destroy (s : t) : t := set_o OJoinReceiver (set_running false s).
Definition arrive (m : message) (s : t) : t := set_queue (queue s ++ [m]) s.

(** One move: of a thread, with its choice; a message that arrives; the start
    of the destruction. *)
Inductive move :=
  | MOwner | MReceiver | MSender (i : nat) | MCleanup (i : nat) | MResponse | MGenerator
  | MArrive (m : message) | MDestroy.
Definition exec1 (a : move) (s : t) : option t :=
  match end_ s with
  | Running =>
      match a with
      | MOwner => owner_next s !! 0%nat
      | MReceiver => receiver_next s !! 0%nat
      | MSender i => sender_next s !! i
      | MCleanup i => cleanup_next s !! i
      | MResponse => response_next s !! 0%nat
      | MGenerator => generator_next s !! 0%nat
      | MArrive m => Some (arrive m s)
      | MDestroy => if decide (o s = OAlive) then Some (destroy s) else None
      end
  | _ => None
  end.
Fixpoint exec (l : list move) (s : t) : option t :=
  match l with [] => Some s | a :: l => s ← exec1 a s; exec l s end.
End ComponentLife.

(** ** What holds of every run *)

Import ComponentLife.

Definition rank (x : owner) : nat :=
  match x with
  | OReceiver => 0 | OSender => 1 | OCleanup => 2 | OTeds => 3 | OControl => 4 | OAlive => 5
  | OJoinReceiver => 6 | OJoinSender => 7 | OControlGone => 8 | OTedsFlag => 9 | OTedsJoin => 10
  | OResponse => 11 | OSmart => 12 | OReturned => 13
  end.

(** Where a thread may be, by the owner's statement: a thread that was not
    started is at its first point, and a joined one at its last. *)
Definition rcv_ok (x : nat) (r : receiver) : Prop :=
  match r with
  | RNone => x = 0%nat
  | RDone => (1 ≤ x)%nat
  | RList _ | RNotify _ | RStart => (4 ≤ x ≤ 6)%nat
  | _ => (1 ≤ x ≤ 6)%nat
  end.
Definition snd_ok (x : nat) (r : sender) : Prop :=
  match r with SNone => (x < 2)%nat | SDone => (2 ≤ x)%nat | _ => (2 ≤ x ≤ 7)%nat end.
Definition cln_ok (x : nat) (r : cleanup) : Prop :=
  match r with KNone => (x < 3)%nat | KDone => (3 ≤ x)%nat | _ => (3 ≤ x ≤ 10)%nat end.
Definition rsp_ok (x : nat) (r : response) : Prop :=
  match r with PNone => True | _ => (3 ≤ x ≤ 11)%nat end.
Definition fate_ok (x : nat) (s : t) : Prop :=
  match end_ s with
  | Running => True
  | NoHandler => ((1 ≤ x ≤ 4)%nat ∨ x = 11%nat) ∧ (x = 11%nat → rsp (th s) ≠ PNone)
  | Raced => cln (th s) = KClean ∧ ∃ zero, rcv (th s) = RList zero
  | Terminated => rsp (th s) ≠ PNone
  end.

(** Which objects exist and where the threads are. *)
Record life_inv (s : t) : Prop := {
  li_teds : teds s = true ↔ (4 ≤ rank (o s) ≤ 10)%nat;
  li_control : control s = true ↔ (5 ≤ rank (o s) ≤ 8)%nat;
  li_rcv : rcv_ok (rank (o s)) (rcv (th s));
  li_snd : snd_ok (rank (o s)) (snd_ (th s));
  li_cln : cln_ok (rank (o s)) (cln (th s));
  li_rsp : rsp_ok (rank (o s)) (rsp (th s));
  li_fate : fate_ok (rank (o s)) s;
  li_generating : generating (th s) = true ∧ (rank (o s) < 13)%nat
}.

Ltac life_open s H He :=
  destruct s as [x [r n k p g] [f1 f2 f3] a b q u e]; destruct H; simpl in *; subst e.
Ltac life_cases Hs :=
  unfold handle, notify_flag, start_response, notify_starts, negb, andb in Hs; simpl in *;
  repeat first
  [ by apply not_elem_of_nil in Hs
  | apply elem_of_cons in Hs as [Hs|Hs]
  | match type of Hs with context [match ?v with _ => _ end] => is_var v; destruct v; simpl in * end ];
  subst.
Ltac life_done :=
  split; simpl in *;
  first [done | lia | match goal with |- _ _ ?v => is_var v; destruct v; simpl in *; first [done | lia] end
        | unfold fate_ok in *; simpl in *; first [done | lia | by eauto | split; [lia|intros ?; first [done|lia]]]].

Lemma life_start : life_inv construct.
Proof. life_done. Qed.
Lemma life_arrive m s : life_inv s → life_inv (arrive m s).
Proof. intros []; by split. Qed.
Lemma life_destroy s : o s = OAlive → end_ s = Running → life_inv s → life_inv (destroy s).
Proof. intros Ho He H. life_open s H He. subst x. life_done. Qed.
Lemma life_owner s s' : life_inv s → end_ s = Running → s' ∈ owner_next s → life_inv s'.
Proof.
  intros H He Hs. life_open s H He. unfold owner_next in Hs.
  destruct x; life_cases Hs; life_done.
Qed.
Lemma life_receiver s s' : life_inv s → end_ s = Running → s' ∈ receiver_next s → life_inv s'.
Proof.
  intros H He Hs. life_open s H He. unfold receiver_next in Hs.
  destruct r as [| | |[]| | | |]; life_cases Hs; life_done.
Qed.
Lemma life_sender s s' : life_inv s → end_ s = Running → s' ∈ sender_next s → life_inv s'.
Proof.
  intros H He Hs. life_open s H He. unfold sender_next in Hs.
  destruct n; life_cases Hs; life_done.
Qed.
Lemma life_cleanup s s' : life_inv s → end_ s = Running → s' ∈ cleanup_next s → life_inv s'.
Proof.
  intros H He Hs. life_open s H He. unfold cleanup_next in Hs.
  destruct k; life_cases Hs; life_done.
Qed.
Lemma life_response s s' : life_inv s → end_ s = Running → s' ∈ response_next s → life_inv s'.
Proof.
  intros H He Hs. life_open s H He. unfold response_next in Hs.
  destruct p; life_cases Hs; life_done.
Qed.

Lemma life_generator s s' : life_inv s → s' ∈ generator_next s → life_inv s'.
Proof.
  unfold generator_next. destruct (generating (th s)); intros ? Hs; [|by apply not_elem_of_nil in Hs].
  by apply list_elem_of_singleton in Hs as ->.
Qed.

Lemma life_exec l s s' : life_inv s → exec l s = Some s' → life_inv s'.
Proof.
  revert s. induction l as [|a l IH]; simpl; intros s H E; [by simplify_eq|].
  apply bind_Some in E as (s1 & E1 & E). apply (IH s1); [|done]. unfold exec1 in E1.
  destruct (end_ s) eqn:He; try done.
  destruct a; try apply list_elem_of_lookup_2 in E1;
    eauto using life_owner, life_receiver, life_sender, life_cleanup, life_response, life_generator.
  - simplify_eq. by apply life_arrive.
  - case_decide; simplify_eq. by apply life_destroy.
Qed.


(** Nobody has asked the component for values. *)
Definition quiet_message (m : message) : Prop :=
  match m with Interest _ => False | _ => True end.
Definition quiet_receiver (r : receiver) : Prop :=
  match r with RHandle m => quiet_message m | RList _ | RNotify _ | RStart => False | _ => True end.
Definition quiet_cleanup (r : cleanup) : Prop :=
  match r with KNotify _ | KStart => False | _ => True end.
Record quiet (s : t) : Prop := {
  q_queue : Forall quiet_message (queue s);
  q_rcv : quiet_receiver (rcv (th s));
  q_cln : quiet_cleanup (cln (th s));
  q_rsp : rsp (th s) = PNone;
  q_subscribed : subscribed s = false;
  q_end : end_ s = Running ∨ end_ s = NoHandler
}.

Lemma quiet_next s s' :
  quiet s → end_ s = Running →
  s' ∈ owner_next s ++ receiver_next s ++ sender_next s ++ cleanup_next s ++ response_next s
       ++ generator_next s → quiet s'.
Proof.
  intros H He Hs. destruct s as [x [r n k p g] [f1 f2 f3] a b q u e].
  destruct H as [Hq Hr Hk Hp Hu _]; simpl in *. subst e p u.
  rewrite !elem_of_app in Hs. destruct Hs as [Hs|[Hs|[Hs|[Hs|[Hs|Hs]]]]].
  - unfold owner_next in Hs. destruct x; life_cases Hs; split; simpl in *; auto.
  - unfold receiver_next in Hs.
    destruct r as [| | |[]| | | |], q; try done; life_cases Hs; split; simpl in *;
      try apply Forall_cons in Hq as [??]; auto.
  - unfold sender_next in Hs. destruct n; life_cases Hs; split; simpl in *; auto.
  - unfold cleanup_next in Hs. destruct k; try done; life_cases Hs; try done; split; simpl in *; by auto.
  - unfold response_next in Hs. life_cases Hs.
  - unfold generator_next in Hs. life_cases Hs; split; simpl in *; auto.
Qed.

Lemma quiet_exec l s s' :
  Forall (λ a, match a with MArrive m => quiet_message m | _ => True end) l →
  quiet s → exec l s = Some s' → quiet s'.
Proof.
  revert s. induction l as [|a l IH]; simpl; intros s Hl H E; [by simplify_eq|].
  apply Forall_cons in Hl as [Ha Hl]. apply bind_Some in E as (s1 & E1 & E).
  apply (IH s1); [done| |done]. unfold exec1 in E1. destruct (end_ s) eqn:He; try done.
  destruct a; try (apply list_elem_of_lookup_2 in E1; apply (quiet_next s); [done..|];
    rewrite !elem_of_app; tauto).
  - simplify_eq. destruct H. split; simpl; auto using Forall_app_2.
  - case_decide; simplify_eq. by destruct H.
Qed.

(** C30. A component's threads, over any interleaving and any messages: the
    destructor never returns, because the generator it joins does not end; a
    missing handler is used only while the constructor has not created it yet or
    by a response thread that the destructor did not join; two threads are in
    the subscribers together only where the receiver changes them without the
    mutex; and [std::terminate] comes of a response thread, which exists once
    somebody asked for values.  A component that nobody asks runs into none of
    these once it is constructed. *)
Theorem component_ends l s :
  exec l construct = Some s →
  o s ≠ OReturned ∧
  match end_ s with
  | Running => True
  | NoHandler => o s ∈ [OSender; OCleanup; OTeds; OControl] ∨ o s = OResponse ∧ rsp (th s) ≠ PNone
  | Raced => cln (th s) = KClean ∧ ∃ zero, rcv (th s) = RList zero
  | Terminated => rsp (th s) ≠ PNone
  end ∧
  (Forall (λ a, match a with MArrive m => quiet_message m | _ => True end) l →
   end_ s = Running ∨ end_ s = NoHandler ∧ o s ∈ [OSender; OCleanup; OTeds; OControl]).
Proof.
  intros E. pose proof (life_exec _ _ _ life_start E) as [_ _ _ _ _ _ Hf [_ Hlt]].
  assert (H : Forall (λ a, match a with MArrive m => quiet_message m | _ => True end) l → quiet s).
  { intros Hl. apply (quiet_exec l construct); [done|split; simpl; auto|done]. }
  split; [intros Ho; rewrite Ho in Hlt; simpl in Hlt; lia|].
  unfold fate_ok in Hf. split.
  - destruct (end_ s); try done. destruct Hf as [[Hx|Hx] Hp]; destruct (o s); simpl in *; try lia;
      set_solver.
  - intros Hl. destruct (q_end _ (H Hl)) as [He|He]; [by left|right]. split; [done|].
    rewrite He in Hf. destruct Hf as [[Hx|Hx] Hp].
    + destruct (o s); simpl in *; try lia; set_solver.
    + destruct (Hp Hx). apply (q_rsp _ (H Hl)).
Qed.

(** From its construction to its life, with both handlers. *)
Definition constructed : list move := [MOwner; MOwner; MOwner; MOwner; MOwner].
(** The receiver takes a message and hands it over. *)
Definition received (m : message) : list move := [MArrive m; MReceiver; MReceiver; MReceiver].
(** ... and does what an interest asks for. *)
Definition asked (zero : bool) : list move := received (Interest zero) ++ [MReceiver; MReceiver].

(** The end of the process, and where its owner is, after some moves. *)
Definition ends (l : list move) : option (fate * owner) := s ← exec l construct; Some (end_ s, o s).

(** A message that arrives while the constructor runs finds no handler. *)
Example no_handler_at_start :
  ends (MOwner :: received Answer) = Some (NoHandler, OSender).
Proof. reflexivity. Qed.
(** Responses asked for, stopped and asked for again end the process. *)
Example asked_again :
  ends (constructed ++ asked false ++ [MReceiver; MResponse; MResponse; MResponse]
        ++ asked true ++ asked false ++ [MReceiver]) = Some (Terminated, OAlive).
Proof. reflexivity. Qed.
(** The receiver enters the subscribers while the clean-up is in them. *)
Example both_in_subscribers :
  ends (constructed ++ [MCleanup 0; MCleanup 0] ++ received (Interest false)) = Some (Raced, OAlive).
Proof. reflexivity. Qed.
(** The destruction of a component up to its response thread. *)
Definition destructed : list move :=
  [MDestroy; MReceiver; MSender 0; MOwner; MOwner; MOwner; MOwner; MCleanup 0; MOwner].
(** The response thread sends through a handler that is gone. *)
Example handler_gone :
  ends (constructed ++ asked false ++ [MReceiver] ++ destructed ++ [MResponse; MResponse])
  = Some (NoHandler, OResponse).
Proof. reflexivity. Qed.
(** Without responses the destructor comes as far as the generator. *)
Example destructor_stays :
  ends (constructed ++ destructed ++ [MOwner]) = Some (Running, OSmart)
  ∧ ends (constructed ++ destructed ++ [MOwner; MOwner]) = None.
Proof. split; reflexivity. Qed.
(** A receiver that waits for a message is not woken. *)
Example destructor_waits :
  ends (constructed ++ [MReceiver; MDestroy]) = Some (Running, OJoinReceiver)
  ∧ ends (constructed ++ [MReceiver; MDestroy; MOwner]) = None
  ∧ ends (constructed ++ [MReceiver; MDestroy; MReceiver]) = None.
Proof. repeat split; reflexivity. Qed.

Lemma component_ends_witness :
  ∃ s, exec (constructed ++ asked false ++ [MReceiver] ++ destructed ++ [MOwner]) construct = Some s
       ∧ o s ≠ OReturned ∧ end_ s = Terminated ∧ rsp (th s) ≠ PNone.
Proof.
  match goal with |- context [exec ?l construct] =>
    let x := eval vm_compute in (exec l construct) in
    match x with Some ?s =>
      exists s; assert (E : exec l construct = Some s) by (vm_compute; reflexivity)
    end
  end.
  destruct (component_ends _ _ E) as (Ho & Hf & _). by split.
Defined.
