(* ===== verification/Exchange.v ===== *)
(** A request and its answer between two components of a vehicle: an actuator's
    interest reaches the sensor of that type, which answers with its readings;
    each passes over its own messages. *)
From S2P Require Import Prelude Ethernet Packet Teds Crypto Clock Observer Shm.
From S2P Require Import Nic Protocol ProtocolLemmas ProtocolProps Communicator EndToEnd SmartData TedsHandler Component.
Local Open Scope Z_scope.

(** ** The shared memory between two messages *)

(** Nobody is in the middle of a send, and [t] is the last message. *)
Record calm (t : Z) (i : Ipc) : Prop := {
  cm_sems : sems_ok i;
  cm_ring : ring_ok (blk i);
  cm_publish : publish_sequence_id (blk i) = t;
  cm_key : is_u 64 (session_key (blk i));
  cm_location : is_u 8 (location (blk i))
}.
(** No client is behind [lo]. *)
Definition read_from (lo : Z) (i : Ipc) : Prop :=
  ∀ k c, client_registry (blk i) !! k = Some c → cl_active c = true → lo ≤ last_read c.
Definition active (k : nat) (i : Ipc) : Prop :=
  ∃ c, client_registry (blk i) !! k = Some c ∧ cl_active c = true.

Lemma calm_ready t i : calm t i → read_from (t - 30) i → t + 1 < 2 ^ 63 → ring_ready i.
Proof.
  intros [Hs Hr Hp _ _] Hlo Hlt. pose proof Hr as (_ & _ & _ & Hb & Hc). split; [done|done|lia|].
  apply slot_free_close; [unfold is_u; lia|]. intros k c Hk Ha. specialize (Hlo k c Hk Ha). lia.
Qed.

Lemma calm_sent t i g : calm t i → t + 1 < 2 ^ 63 → length (fdata g) = 1500%nat → calm (t + 1) (sent g i).
Proof.
  intros [Hs Hr Hp Hk Hl] Hlt Hg. pose proof Hr as (_ & _ & _ & Hb & Hc).
  split; [by apply sems_ok_sent|apply ring_ok_sent; [done|lia|done]| |done|done].
  unfold sent. simpl. lia.
Qed.

(** Client [k] has taken message [t] and released it: [i] became [j]. *)
Definition read_by (k : nat) (t n : Z) (c : ClientState) (i : Ipc) : Ipc :=
  set_blk (set_registry (<[k := mk_client (cl_active c) (process_id c) t]> (client_registry (blk i))))
    (set_sem (CONTROL_SEMS + k) (n - 1) i).
Definition reads (k : nat) (t : Z) (i j : Ipc) : Prop :=
  ∃ n c, sem_is (CONTROL_SEMS + k) n i ∧ 0 < n ∧ client_registry (blk i) !! k = Some c ∧ j = read_by k t n c i.

Lemma sem_is_other i j n m s : i ≠ j → sem_is i n s → sem_is i n (set_sem j m s).
Proof.
  unfold sem_is, set_sem. destruct (sems s) as [l|]; [|done]. simpl. intros Hne Hn.
  by rewrite list_lookup_insert_ne.
Qed.

Lemma calm_read k t t' i j : calm t i → reads k t' i j → calm t j.
Proof.
  intros [Hs Hr Hp Hk Hl] (n & c & Hn & Hpos & Hc & ->). destruct Hr as (Hb & Hreg & Hf & Hpub & Hcl).
  destruct Hs as (l & Hsl & Hlen & Hclaim & Hnn). split; try done.
  - exists (<[(CONTROL_SEMS + k)%nat := n - 1]> l). unfold read_by, set_sem. cbn [sems set_blk]. rewrite Hsl.
    split; [done|]. split; [by rewrite length_insert|].
    split; [by rewrite list_lookup_insert_ne by (unfold CONTROL_SEMS, CLAIM_SEM; lia)|].
    intros a m [(<- & <- & _)|[_ Ha]]%list_lookup_insert_Some; [lia|eauto].
  - split; [done|]. split; [by cbn; rewrite length_insert|done].
Qed.

Lemma read_from_read lo k t i j : read_from lo i → lo ≤ t → reads k t i j → read_from lo j.
Proof.
  intros Hlo Hle (n & c & _ & _ & Hc & ->) k' c' Hk Ha. cbn in Hk.
  apply list_lookup_insert_Some in Hk as [(<- & <- & _)|[_ Hk]]; [done|eauto].
Qed.

Lemma active_read k k' t i j : active k i → reads k' t i j → active k j.
Proof.
  intros (c & Hc & Ha) (n & c' & _ & _ & Hc' & ->). unfold active. cbn.
  destruct (decide (k = k')) as [->|Hne].
  - rewrite Hc in Hc'. injection Hc' as <-. eexists. rewrite list_lookup_insert_eq by (by eapply lookup_lt_Some).
    split; [done|exact Ha].
  - exists c. by rewrite list_lookup_insert_ne.
Qed.

(** Message [t], frame [f], waits for client [k]. *)
Record readable (k : nat) (t : Z) (f : Frame) (i : Ipc) : Prop := {
  rd_token : ∃ n, sem_is (CONTROL_SEMS + k) n i ∧ 0 < n;
  rd_slot : buffer (blk i) !! Z.to_nat (t `mod` BUFFER_SLOTS) = Some (mk_slot t f);
  rd_client : active k i;
  rd_flag : writer_is_blocked (blk i) = false
}.

Lemma readable_sent k t g i : calm t i → t + 1 < 2 ^ 63 → active k i → readable k (t + 1) g (sent g i).
Proof.
  intros [(l & Hl & Hlen & _ & Hnn) Hr Hp _ _] Hlt (c & Hc & Ha).
  pose proof Hr as (Hb & Hreg & _ & Hpub & Hcl).
  destruct (slot_in_range (blk i) (claim_sequence_id (blk i)) Hr ltac:(lia)) as (old & Hold & _).
  destruct (lookup_lt_is_Some_2 l (CONTROL_SEMS + k)) as [n Hn].
  { apply lookup_lt_Some in Hc. unfold CONTROL_SEMS. lia. }
  pose proof (Hnn _ _ Hn). split.
  - exists (n + 1). split; [|lia]. unfold sem_is, sent. cbn [sems]. rewrite Hl.
    cbn [fmap option_fmap option_map mbind option_bind].
    by rewrite (signal_clients_lookup _ _ _ c n), Ha by done.
  - unfold sent. cbn. replace (t + 1) with (claim_sequence_id (blk i)) by lia.
    apply list_lookup_insert_eq. by eapply lookup_lt_Some.
  - by exists c.
  - done.
Qed.

Lemma readable_read k k' t t' f i j : k ≠ k' → readable k t f i → reads k' t' i j → readable k t f j.
Proof.
  intros Hne [(n & Hn & Hpos) Hs Ha Hw] Hr. split.
  - exists n. split; [|done]. destruct Hr as (m & c & _ & _ & _ & ->).
    unfold read_by. apply (sem_is_blk _ _ _ (set_sem _ _ i)). apply sem_is_other; [lia|done].
  - by destruct Hr as (m & c & _ & _ & _ & ->).
  - by eapply active_read.
  - by destruct Hr as (m & c & _ & _ & _ & ->).
Qed.

(** ** A process that listens for one type *)

Record listens (p : ICryptoProvider) (c : communicator) (ty : Z) (k : nat) (t : Z) (s : pstate) : Prop := {
  ls_local : local_nic s = true;
  ls_obs : local_obs (nic s) = proto_obs;
  ls_types : types s = mk_observed [Some (c_id c)] [ty];
  ls_queue : queues s !! c_id c = Some (mk_queue 0 []);
  ls_me : me (nic s) = k;
  ls_seq : next_seq (nic s) = t;
  ls_heap : heap_ok s;
  ls_crypto : crypto s = Some p;
  ls_quadrant : is_u 8 (quadrant (nic s))
}.

Lemma listens_seeing p c ty k t i s : listens p c ty k t s → listens p c ty k t (seeing i s).
Proof. by intros []. Qed.

Lemma heap_ok_fresh s : heap_ok s → heap (nic s) !! next_buf (nic s) = None.
Proof.
  intros Hh. destruct (heap (nic s) !! next_buf (nic s)) as [b|] eqn:Hb; [|done].
  apply Hh in Hb. lia.
Qed.

Section process.
Context (p : ICryptoProvider) `{MacLaws p} (e : netenv) (c : communicator) (ty : Z) (k : nat).
Abbreviation listens := (listens p c ty k).

(** It sends. *)
Lemma listens_sends from to payload t0 t i s :
  listens t0 s → calm t i → read_from (t - 30) i → t + 1 < 2 ^ 63 → message_ok from to payload →
  ∃ r s' g mac, Protocol.send false e from to payload (Z.of_nat (length payload)) (seeing i s) = (Ret r, s', []) ∧
    0 < r ∧ ipc (nic s') = sent g i ∧ listens t0 s' ∧
    carries g (location (blk i)) (port from) (port to) payload mac ∧
    dhost g = paddr to ∧ shost g = paddr from ∧ ftype g = htons ETHERNET_PROTOCOL_NUMBER.
Proof using H.
  intros Hs Hi Hlo Hlt Hm. pose proof (calm_ready _ _ Hi Hlo Hlt) as Hring.
  assert (sender_ok p (seeing i s)) as Hok by (destruct Hs, Hi; by split).
  destruct (protocol_publishes p e from to payload (seeing i s) Hok Hring Hm)
    as (f & g & mac & r & Hrun & Hr & Hg). exists r. eexists _, g, mac.
  split; [exact Hrun|]. split; [done|]. split; [done|]. split; [|exact Hg].
  destruct Hs. split; try done. intros id b. cbn. intros [[<- <-]|[_ Hid]]%lookup_insert_Some; [lia|].
  apply ls_heap0 in Hid. cbn in Hid |- *. lia.
Qed.

(** The state in which its receiver thread hands a frame to the protocol. *)
Lemma listens_incoming t f i s :
  listens t s → readable k t f i → ftype f = htons ETHERNET_PROTOCOL_NUMBER →
  ∃ n, incoming (seeing i s) t n f ∧ 0 < n.
Proof using.
  intros [] [(n & Hn & Hpos) Hsl _ _] Hty. exists n. split; [|done].
  split; try done; [by subst k|]. by rewrite Hty, ntohs_htons by (unfold is_u, ETHERNET_PROTOCOL_NUMBER; lia).
Qed.

(** After its view of the message is freed. *)
Lemma listens_released t n cl i s :
  listens t s → 0 ≤ t < 2 ^ 63 → sem_is (CONTROL_SEMS + k) n i → 0 < n →
  client_registry (blk i) !! k = Some cl →
  let slot := Z.to_nat (t `mod` BUFFER_SLOTS) in
  let s' := released (next_buf (nic s)) t cl (taken slot t n (seeing i s)) in
  listens (t + 1) s' ∧ reads k t i (ipc (nic s')).
Proof using.
  intros [] Ht Hn Hpos Hc. cbv zeta. split.
  - split; try done.
    + cbn. rewrite u64_small; [done|unfold is_u; lia].
    + intros id b. cbn. rewrite delete_insert_id by by apply heap_ok_fresh.
      intros Hid. apply ls_heap0 in Hid. lia.
  - exists n, cl. split; [done|]. split; [done|]. split; [done|]. unfold read_by. subst k. done.
Qed.

(** A broadcast that only the types decide on. *)
Lemma update_local_type buf slot t f loc sp payload mac s :
  heap (nic s) !! buf = Some (mk_fbuf None slot t false) →
  buffer (blk (ipc (nic s))) !! slot = Some (mk_slot t f) → dhost f = BROADCAST_ADDR →
  carries f loc sp TYPE_BASED_ROUTING_PORT payload mac →
  Protocol.update_local false e buf s = Protocol.notify_communicator TYPE_BASED_ROUTING_PORT buf s.
Proof using.
  intros Hb Hslot Hd Hf. unfold Protocol.update_local.
  erewrite on_nic_same.
  2:{ eapply nic_data_run; [exact Hb|]. unfold buf_frame; cbn [fb_own fb_slot]. by rewrite Hslot. }
  cbn [slot_frame]. rewrite Hd, (carries_dport Hf).
  replace (mac_eqb BROADCAST_ADDR BROADCAST_ADDR) with true by done. mstep. cbn [andb]. mstep.
  by rewrite decide_True by done.
Qed.

(** It takes a message of its type. *)
Lemma listens_receives t f loc sp seg mac cap i s :
  listens t s → 0 ≤ t < 2 ^ 63 → readable k t f i → dhost f = BROADCAST_ADDR →
  ftype f = htons ETHERNET_PROTOCOL_NUMBER →
  carries f loc sp TYPE_BASED_ROUTING_PORT (Segment.get_bytes seg) mac → Segment.ok seg →
  addressed (ByType ty) TYPE_BASED_ROUTING_PORT seg → (9 + length (Segment.payload seg) ≤ cap)%nat →
  ∃ s1 s2, Protocol.receiver_turn false e false (seeing i s) = (Ret tt, s1, []) ∧
    Communicator.receive c (MessageOps.sized cap) s1 =
      (Ret (true, mk_Message (mk_Address (shost f) sp) Address_default (Segment.type seg)
                    (Segment.payload seg) cap (Segment.timestamp seg)), s2, []) ∧
    listens (t + 1) s2 ∧ reads k t i (ipc (nic s2)).
Proof using.
  intros Hs Ht Hr Hd Hty Hf Hok Hadr Hcap.
  pose proof (rd_client _ _ _ _ Hr) as (cl & Hcl & _).
  destruct (listens_incoming t f i s Hs Hr Hty) as (n & Hin & Hpos).
  set (slot := Z.to_nat (t `mod` BUFFER_SLOTS)). set (buf := next_buf (nic s)).
  set (x := taken slot t n (seeing i s)).
  pose proof (rd_slot _ _ _ _ Hr) as Hslot. fold slot in Hslot.
  assert (heap (nic x) !! buf = Some (mk_fbuf None slot t false)) as Hb by apply lookup_insert_eq.
  assert (queues x !! c_id c = Some (mk_queue 0 [])) as Hq by apply Hs.
  assert (Protocol.update_local false e buf x =
    (Ret tt, set_queues (<[c_id c := mk_queue (0 + 1) ([] ++ [buf])]> (queues x)) x, [])) as Hupd.
  { rewrite (update_local_type buf slot t f loc sp _ mac x Hb Hslot Hd Hf).
    eapply (notify_communicator_run buf f loc sp _ seg mac (ByType ty) (c_id c) (mk_queue 0 [])); try done.
    - rewrite Hb. cbn [mbind option_bind]. unfold buf_frame; cbn [fb_own fb_slot].
      change (buffer (blk (ipc (nic x)))) with (buffer (blk i)). by rewrite Hslot.
    - apply Hs. }
  eexists _, _. split; [eapply receiver_turn_run; [exact Hin|exact Hupd]|].
  assert (me (nic x) = k) as Hme by apply Hs.
  split.
  - eapply (receive_run c cap buf [] (0 + 1) slot t cl f loc sp TYPE_BASED_ROUTING_PORT seg mac);
      [apply lookup_insert_eq|lia|apply Hs|exact Hb|exact Hslot| | |exact Hf|done|done].
    + change (client_registry (blk i) !! me (nic x) = Some cl). by rewrite Hme.
    + apply (rd_flag _ _ _ _ Hr).
  - destruct (listens_released t n cl i s Hs Ht) as [Hl Hrd]; [|done|done|].
    { pose proof (in_sem _ _ _ _ Hin) as Hsem. cbn in Hsem. destruct Hs. by subst k. }
    fold slot buf x in Hl, Hrd. split; [|exact Hrd]. destruct Hl. split; try done.
    cbn. by rewrite lookup_insert_eq.
Qed.

(** It passes over a message of another type. *)
Lemma listens_ignores t f loc sp seg mac i s :
  listens t s → 0 ≤ t < 2 ^ 63 → readable k t f i → dhost f = BROADCAST_ADDR →
  ftype f = htons ETHERNET_PROTOCOL_NUMBER →
  carries f loc sp TYPE_BASED_ROUTING_PORT (Segment.get_bytes seg) mac → Segment.ok seg →
  TEDS.extract_type (Segment.type seg) (Segment.payload seg) (Z.of_nat (length (Segment.payload seg))) ≠ ty →
  ∃ s1, Protocol.receiver_turn false e false (seeing i s) = (Ret tt, s1, []) ∧
    listens (t + 1) s1 ∧ reads k t i (ipc (nic s1)).
Proof using.
  intros Hs Ht Hr Hd Hty Hf Hok Hne.
  pose proof (rd_client _ _ _ _ Hr) as (cl & Hcl & _).
  destruct (listens_incoming t f i s Hs Hr Hty) as (n & Hin & Hpos).
  set (slot := Z.to_nat (t `mod` BUFFER_SLOTS)). set (buf := next_buf (nic s)).
  set (x := taken slot t n (seeing i s)).
  pose proof (rd_slot _ _ _ _ Hr) as Hslot. fold slot in Hslot.
  assert (heap (nic x) !! buf = Some (mk_fbuf None slot t false)) as Hb by apply lookup_insert_eq.
  assert (on_nic (NIC.free SHM buf) x = (Ret tt, released buf t cl x, [])) as Hfree.
  { pose proof (free_view buf slot t cl x) as Hfree. unfold Protocol.free in Hfree. revert Hfree. mstep.
    replace (local_nic x) with true by (symmetry; apply Hs). intros Hfree. apply Hfree; [done|exact Hb| |].
    - change (client_registry (blk i) !! me (nic s) = Some cl). destruct Hs. by subst k.
    - apply (rd_flag _ _ _ _ Hr). }
  assert (Protocol.update_local false e buf x = (Ret tt, released buf t cl x, [])) as Hupd.
  { rewrite (update_local_type buf slot t f loc sp _ mac x Hb Hslot Hd Hf).
    unfold Protocol.notify_communicator. rewrite decide_True by done.
    erewrite on_nic_same.
    2:{ eapply nic_data_run; [exact Hb|]. unfold buf_frame; cbn [fb_own fb_slot].
        change (buffer (blk (ipc (nic x)))) with (buffer (blk i)). by rewrite Hslot. }
    cbn [slot_frame]. rewrite (carries_extract_type _ _ _ _ _ _ Hf Hok). cbv zeta.
    case_decide; [|exact Hfree]. mstep. rewrite (ls_types _ _ _ _ _ _ Hs : types x = _).
    unfold Observer.notify. cbn [notify_loop observers conditions]. rewrite decide_False by done. mstep.
    cbn [notify_loop]. mstep. exact Hfree. }
  eexists. split; [eapply receiver_turn_run; [exact Hin|exact Hupd]|].
  apply listens_released; try done.
  pose proof (in_sem _ _ _ _ Hin) as Hsem. cbn in Hsem. destruct Hs. by subst k.
Qed.
End process.

(** ** Components *)

(** A component whose process looks at the memory [i]. *)
Definition at_memory (i : Ipc) (s : component) : component := set_proc (seeing i (proc s)) s.

Lemma receiver_loop_teds e pad msg s1 s : Communicator.receive (comm s) (MessageOps.sized 1024) (proc s) = (Ret (true, msg), s1, []) →
  m_type msg = Segment.TEDS → Component.receiver_loop e pad s = Component.handleTEDSMessage msg (set_proc s1 s).
Proof.
  intros Hr Hty. unfold Component.receiver_loop. mstep.
  rewrite (bind_pure _ _ _ (true, msg) (set_proc s1 s)); [by rewrite Hty|].
  unfold on_proc, zoom. by rewrite Hr.
Qed.

(** The first interest starts the responses. *)
Lemma first_interest ty period msg s :
  is_u 32 ty → TEDS.is_request ty = true → 0 < period → is_u 32 period → interest ty period msg →
  subs s = [] → response_running s = false → response_thread s = false → responses_interval s = 0 →
  Component.handleTEDSMessage msg s =
    (Ret tt, set_responses true period ty true
               (set_subs [(ty, [mk_subscriber (m_source msg) period])] s), []).
Proof.
  intros Ht Hr Hp0 Hp Hi Hsub Hrun Hth Hint. rewrite (handle_interest ty period msg s Ht Hr Hp Hi), Hsub.
  unfold Component.notify_interest_request. mstep. rewrite decide_False by lia.
  cbn [set_subs responses_interval response_running response_thread]. rewrite Hint, Hrun, Hth.
  rewrite decide_True by lia. mstep. unfold Component.start_response_thread. mstep.
  cbn [set_responses response_thread]. by rewrite Z.gcd_0_l, Z.abs_eq by lia.
Qed.

(** The interest as it goes through the protocol. *)
Definition interest_segment (ty period : Z) : Segment.t :=
  Segment.mk Segment.TEDS 0 (TEDS.create_request_payload ty period).

Lemma segment_message_ok from seg : is_u 16 (port from) → Segment.ok seg →
  (length (Segment.payload seg) ≤ 1000)%nat →
  message_ok from (Address_broadcast TYPE_BASED_ROUTING_PORT) (Segment.get_bytes seg).
Proof.
  intros Hp Hok Hl. split; [done| | |].
  - unfold is_u, TYPE_BASED_ROUTING_PORT. simpl. lia.
  - rewrite get_bytes_eq. destruct Hok as (? & ? & ?). apply Forall_app_2; [|done].
    apply segment_header_ok.
  - rewrite get_bytes_eq, length_app, length_segment_header. lia.
Qed.

(** The segments of both directions are routed by their types. *)
Lemma request_type_same ty : is_u 27 ty → TEDS.make_request_type ty = ty.
Proof.
  intros Hu. unfold TEDS.make_request_type. rewrite type_mask_ones, Z.land_ones by lia. by apply Z.mod_small.
Qed.
Lemma extract_request ts ty period : is_u 32 ty → is_u 27 ty →
  let seg := Segment.mk Segment.TEDS ts (TEDS.create_request_payload ty period) in
  TEDS.extract_type (Segment.type seg) (Segment.payload seg) (Z.of_nat (length (Segment.payload seg))) = ty.
Proof.
  intros Hu Hty. cbv zeta. cbn [Segment.type Segment.payload]. rewrite request_payload_eq, (request_type_same ty Hty).
  unfold TEDS.extract_type. rewrite decide_False by (intros []; done).
  rewrite length_app, !length_lebytes. rewrite decide_False by lia. by apply header_type_lebytes.
Qed.
Lemma extract_response ts ty v : is_u 32 ty →
  let seg := Segment.mk Segment.TEDS ts (TEDS.create_response_payload ty v) in
  TEDS.extract_type (Segment.type seg) (Segment.payload seg) (Z.of_nat (length (Segment.payload seg)))
  = TEDS.make_response_type ty.
Proof.
  intros Hu. cbv zeta. cbn [Segment.type Segment.payload]. rewrite response_payload_eq.
  unfold TEDS.extract_type. rewrite decide_False by (intros []; done).
  rewrite length_app, !length_lebytes. rewrite decide_False by lia. by apply header_type_lebytes, response_bound.
Qed.
Lemma response_type_other ty : is_u 27 ty → TEDS.make_response_type ty ≠ ty.
Proof.
  intros Hu Hx. pose proof (make_response_is_response ty) as H1. pose proof (make_request_is_request ty) as H2.
  rewrite (request_type_same ty Hu), <- Hx, is_request_negb, H1 in H2. done.
Qed.
Lemma response_type_valid ty : is_u 32 ty → TEDS.make_response_type ty ≠ TEDS.INVALID.
Proof. intros _ Hx. pose proof (make_response_is_response ty) as H1. by rewrite Hx in H1. Qed.

Lemma teds_segment_ok ts a b : is_u 64 ts → bytes_ok (a ++ b) → Segment.ok (Segment.mk Segment.TEDS ts (a ++ b)).
Proof. intros. by split. Qed.

(** A TEDS segment of two words can be sent. *)
Lemma teds_segment ts l a b from :
  l = lebytes 4 a ++ lebytes 4 b → is_u 64 ts → is_u 16 (port from) →
  let seg := Segment.mk Segment.TEDS ts l in
  Segment.ok seg ∧ length (Segment.payload seg) = 8%nat ∧
  message_ok from (Address_broadcast TYPE_BASED_ROUTING_PORT) (Segment.get_bytes seg).
Proof.
  intros -> Hts Hport seg.
  assert (Segment.ok seg) as Hok by (apply teds_segment_ok; [done|]; apply Forall_app_2; apply lebytes_ok).
  assert (length (Segment.payload seg) = 8%nat) as Hl.
  { unfold seg. cbn [Segment.payload]. by rewrite length_app, !length_lebytes. }
  split; [done|]. split; [done|]. apply segment_message_ok; [done..|lia].
Qed.

(** A message is sent and both clients read it. *)
Lemma both_read k1 k2 t g i j1 j2 :
  calm t i → t + 1 < 2 ^ 63 → length (fdata g) = 1500%nat →
  reads k1 (t + 1) (sent g i) j1 → reads k2 (t + 1) j1 j2 →
  calm (t + 1) j2 ∧ (∀ k, active k i → active k j2) ∧ (∀ lo, lo ≤ t + 1 → read_from lo i → read_from lo j2).
Proof.
  intros Hi Hlt Hg H1 H2. split; [|split].
  - eapply calm_read; [eapply calm_read; [|exact H1]|exact H2]. by apply calm_sent.
  - intros k Hk. by eapply active_read; [eapply active_read; [|exact H1]|exact H2].
  - intros lo Hle Hlo. eapply read_from_read; [|exact Hle|exact H2].
    by eapply (read_from_read lo _ _ (sent g i)); [|exact Hle|exact H1].
Qed.

Section exchange.
Context (p : ICryptoProvider) `{MacLaws p} (ty period v : Z).
Context (Hty : is_u 27 ty) (Hne : ty ≠ 0) (Hpos : 0 < period) (Hper : is_u 32 period).
Context (Hv0 : v ≠ 0) (Hv : -2 ^ 24 ≤ v ≤ 2 ^ 24).

Lemma ty_u32 : is_u 32 ty.
Proof using Hty. unfold is_u in *. lia. Qed.

(** A sensor that answers an actuator, [t] being the last message: both have
    read it. *)
Record in_service (ka ks : nat) (t : Z) (i : Ipc) (act sen : component) : Prop := {
  sv_calm : calm t i;
  sv_actuator : listens p (comm act) (TEDS.make_response_type ty) ka (t + 1) (proc act);
  sv_sensor : listens p (comm sen) ty ks (t + 1) (proc sen);
  sv_active_a : active ka i;
  sv_active_s : active ks i;
  sv_time : 0 ≤ t;
  sv_port : is_u 16 (port (c_address (comm sen)));
  sv_running : response_running sen = true;
  sv_type : response_type sen = ty
}.

(** The interest as the sensor takes it. *)
Lemma first_sent from msg s :
  m_source msg = from → m_payload msg = TEDS.create_request_payload ty period →
  subs s = [] → response_running s = false → response_thread s = false → responses_interval s = 0 →
  Component.handleTEDSMessage msg s =
    (Ret tt, set_responses true period ty true (set_subs [(ty, [mk_subscriber from period])] s), []).
Proof using Hty Hpos Hper.
  intros <- Hl Hsub Hrun Hth Hint. apply first_interest; try done.
  - apply ty_u32.
  - rewrite <- (request_type_same ty Hty). apply make_request_is_request.
  - exists []. by rewrite Hl, app_nil_r, request_payload_eq, request_type_same.
Qed.

(** The interest: sent by the actuator, served by the sensor, passed over by
    its sender. *)
Lemma interest_delivered ea es pad t i act sen ka ks :
  calm t i → read_from (t - 30) i → 0 ≤ t → t + 1 < 2 ^ 63 → ka ≠ ks → active ka i → active ks i →
  listens p (comm act) (TEDS.make_response_type ty) ka (t + 1) (proc act) →
  listens p (comm sen) ty ks (t + 1) (proc sen) →
  is_u 16 (port (c_address (comm act))) → is_u 16 (port (c_address (comm sen))) →
  subs sen = [] → response_running sen = false → response_thread sen = false → responses_interval sen = 0 →
  ∃ a1 s1 s2 a2,
    Communicator.send_interest_message false ea (comm act) ty period (seeing i (proc act)) = (Ret tt, a1, []) ∧
    Protocol.receiver_turn false es false (seeing (ipc (nic a1)) (proc sen)) = (Ret tt, s1, []) ∧
    let sen2 := set_responses true period ty true
      (set_subs [(ty, [mk_subscriber (c_address (comm act)) period])] (set_proc s2 sen)) in
    Component.receiver_loop es pad (set_proc s1 sen) = (Ret tt, sen2, []) ∧
    Protocol.receiver_turn false ea false (seeing (ipc (nic s2)) a1) = (Ret tt, a2, []) ∧
    in_service ka ks (t + 1) (ipc (nic a2)) (set_proc a2 act) sen2 ∧
    (∀ lo, lo ≤ t + 1 → read_from lo i → read_from lo (ipc (nic a2))).
Proof using H Hty Hne Hpos Hper.
  intros Hi Hlo Ht0 Hlt Hk Hka Hks Hact Hsen Hport Hport' Hsub Hrun Hth Hint.
  set (seg := interest_segment ty period).
  destruct (teds_segment 0 _ _ _ (c_address (comm act)) (request_payload_eq ty period)) as (Hok & Hlen & Hm);
    [done|done|]. fold (interest_segment ty period) in Hok, Hlen, Hm. fold seg in Hok, Hlen, Hm.
  destruct (listens_sends p ea (comm act) (TEDS.make_response_type ty) ka _ _ _ _ t i (proc act)
    Hact Hi Hlo Hlt Hm) as (r & a1 & g & mac & Hsend & Hr & Hia & Hla & Hg & Hgd & Hgs & Hgt).
  assert (length (fdata g) = 1500%nat) as Hgl by apply (ca_array _ _ _ _ _ _ Hg).
  pose proof (readable_sent ks t g i Hi Hlt Hks) as Hrs. pose proof (readable_sent ka t g i Hi Hlt Hka) as Hra.
  destruct (listens_receives p es (comm sen) ty ks (t + 1) g (location (blk i))
    (port (c_address (comm act))) seg mac 1024 (sent g i) (proc sen) Hsen)
    as (s1 & s2 & Hturn & Hrecv & Hls & Hreads); try done; try lia.
  { split; [done|]. split; [done|]. apply extract_request; [apply ty_u32|done]. }
  destruct (listens_ignores p ea (comm act) (TEDS.make_response_type ty) ka (t + 1) g
    (location (blk i)) (port (c_address (comm act))) seg mac
    (ipc (nic s2)) a1 Hla) as (a2 & Hturn2 & Hla2 & Hreads2); try done; try lia.
  { by eapply readable_read. }
  { unfold seg, interest_segment. rewrite extract_request; [|apply ty_u32|done].
    intros Hx. by apply (response_type_other ty Hty). }
  destruct (both_read _ _ _ _ _ _ _ Hi Hlt Hgl Hreads Hreads2) as (Hcalm & Hactive & Hfrom).
  exists a1, s1, s2, a2. split; [|split; [by rewrite Hia|]].
  { unfold Communicator.send_interest_message. fold (interest_segment ty period). fold seg.
    by rewrite (bind_pure _ _ _ _ _ Hsend). }
  cbv zeta. split; [|split; [done|]].
  - rewrite (receiver_loop_teds es pad _ s2 (set_proc s1 sen) Hrecv) by done.
    apply first_sent; [|done..]. rewrite Hgs. by destruct (c_address (comm act)).
  - split; [|exact Hfrom]. split; try done; [by apply Hactive..|lia].
Qed.

(** What a sensor sends, and the turn that sends it. *)
Definition response_message (e : netenv) (sen : component) : Message :=
  MessageOps.set_source (c_address (comm sen))
    (MessageOps.response_now (e_env e) (Address_broadcast TYPE_BASED_ROUTING_PORT) ty (Float32.of_int v)).

Lemma response_sent es i sen r s3 :
  response_running sen = true → response_type sen = ty → updated_value (smart sen) = Some v → 0 < r →
  let bytes := Segment.get_bytes (seg_of (response_message es sen)) in
  Protocol.send false es (c_address (comm sen)) (Address_broadcast TYPE_BASED_ROUTING_PORT) bytes
    (Z.of_nat (length bytes)) (seeing i (proc sen)) = (Ret r, s3, []) →
  Component.response_turn es (at_memory i sen) = (Ret true, set_proc s3 sen, []).
Proof using Hv0 Hv.
  intros Hrun Hrt Hval Hr bytes Hsend. set (m := response_message es sen) in *.
  unfold Component.response_turn. mstep.
  replace (response_running (at_memory i sen)) with true by (symmetry; exact Hrun).
  replace (response_type (at_memory i sen)) with ty by (symmetry; exact Hrt).
  rewrite (bind_pure _ _ _ tt (set_proc s3 sen)); [done|].
  rewrite (send_response_run es _ ty v (at_memory i sen)) by done. rewrite decide_False by done.
  unfold comm_address, comm_send, component_Comm, communicator_comm. mstep. change (MessageOps.set_source _ _) with m.
  rewrite (bind_pure _ _ _ true (set_proc s3 sen)); [done|].
  unfold zoom, Communicator.send. change (Segment.mk (m_type m) (m_timestamp m) (m_payload m)) with (seg_of m).
  change (proc (at_memory i sen)) with (seeing i (proc sen)).
  rewrite (bind_pure _ _ _ _ _ Hsend). by rewrite bool_decide_true.
Qed.

(** The answer: one turn of the sensor's response thread, and the actuator. *)
Lemma response_delivered ea es pad t i act sen ka ks :
  in_service ka ks t i act sen → read_from (t - 30) i → t + 1 < 2 ^ 63 → ka ≠ ks →
  updated_value (smart sen) = Some v →
  ∃ s3 s4 a3 a4 got,
    Component.response_turn es (at_memory i sen) = (Ret true, set_proc s3 sen, []) ∧
    Protocol.receiver_turn false es false s3 = (Ret tt, s4, []) ∧
    Protocol.receiver_turn false ea false (seeing (ipc (nic s4)) (proc act)) = (Ret tt, a3, []) ∧
    Communicator.receive (comm act) (MessageOps.sized 1024) a3 = (Ret (true, got), a4, []) ∧
    Component.receiver_loop ea pad (set_proc a3 act) = (Ret tt, set_proc a4 act, []) ∧
    m_source got = c_address (comm sen) ∧ m_type got = Segment.TEDS ∧
    Component.response_value (m_payload got) = Ret v ∧
    in_service ka ks (t + 1) (ipc (nic a4)) (set_proc a4 act) (set_proc s4 sen) ∧
    (∀ lo, lo ≤ t + 1 → read_from lo i → read_from lo (ipc (nic a4))).
Proof using H Hty Hv0 Hv.
  intros [Hi Hact Hsen Hka Hks Ht0 Hport Hrun Hrt] Hlo Hlt Hk Hval.
  set (m := response_message es sen). set (seg := seg_of m).
  assert (Segment.payload seg = TEDS.create_response_payload ty (Float32.of_int v)) as Hpl by done.
  destruct (teds_segment (Segment.timestamp seg) _ _ _ (c_address (comm sen))
    (response_payload_eq ty (Float32.of_int v))) as (Hok & Hlen & Hm); [apply u64_bound|done|].
  change (length (Segment.payload seg) = 8%nat) in Hlen.
  destruct (listens_sends p es (comm sen) ty ks _ _ _ _ t i (proc sen) Hsen Hi Hlo Hlt Hm)
    as (r & s3 & g & mac & Hsend & Hr & Hi3 & Hls & Hg & Hgd & Hgs & Hgt).
  assert (length (fdata g) = 1500%nat) as Hgl by apply (ca_array _ _ _ _ _ _ Hg).
  pose proof (readable_sent ka t g i Hi Hlt Hka) as Hra. pose proof (readable_sent ks t g i Hi Hlt Hks) as Hrs.
  assert (seeing (sent g i) s3 = s3) as Hsee by (rewrite <- Hi3; unfold seeing; by rewrite set_ipc_id, set_nic_id).
  destruct (listens_ignores p es (comm sen) ty ks (t + 1) g (location (blk i))
    (port (c_address (comm sen))) seg mac (sent g i) s3 Hls) as (s4 & Hown & Hls4 & Hreads4); try done; try lia.
  { change seg with (Segment.mk Segment.TEDS (m_timestamp m) (TEDS.create_response_payload ty (Float32.of_int v))).
    rewrite extract_response by apply ty_u32. exact (response_type_other ty Hty). }
  rewrite Hsee in Hown.
  destruct (listens_receives p ea (comm act) (TEDS.make_response_type ty) ka (t + 1) g (location (blk i))
    (port (c_address (comm sen))) seg mac 1024 (ipc (nic s4)) (proc act) Hact)
    as (a3 & a4 & Hturn & Hrecv & Hla4 & Hreads); try done; try lia.
  { by eapply readable_read. }
  { split; [done|]. split; [apply response_type_valid, ty_u32|]. apply extract_response, ty_u32. }
  destruct (both_read _ _ _ _ _ _ _ Hi Hlt Hgl Hreads4 Hreads) as (Hcalm & Hactive & Hfrom).
  exists s3, s4, a3, a4. eexists. split; [|split; [exact Hown|split; [exact Hturn|split; [exact Hrecv|split]]]].
  - by apply (response_sent es i sen r s3).
  - rewrite (receiver_loop_teds ea pad _ a4 (set_proc a3 act) Hrecv) by done.
    apply (handle_response ty v); [apply ty_u32|done|done].
  - cbn [m_source m_type m_payload]. rewrite Hgs. split; [by destruct (c_address (comm sen))|].
    split; [done|]. split; [rewrite Hpl; by apply response_decodes|]. split; [|exact Hfrom].
    split; try done; [by apply Hactive..|lia].
Qed.
End exchange.


(** Two components that have just started: client 0 an actuator, client 1 a
    thermometer that reads 21. *)
Definition memory0 : Ipc :=
  mk_ipc (set_registry (mk_client true 100 0 :: mk_client true 200 0 :: replicate 14 zero_client) init_block)
    (Some (initial_sems (λ _, true))).
Definition process0 (k : nat) (ty : Z) : pstate :=
  mk_pstate (mk_nics memory0 k LOCAL_ADDR [] 0 false ∅ 0 1 proto_obs observed_empty) true false
    (mk_observed [Some 0%nat] [1000 + Z.of_nat k]) (mk_observed [Some 0%nat] [ty]) {[0%nat := mk_queue 0 []]}
    None None false (Some XorCryptoProvider).
Definition part0 (k : nat) (ty reading : Z) : component :=
  mk_component (process0 k ty) (mk_communicator 0 (mk_Address LOCAL_ADDR (1000 + Z.of_nat k)) {[ty]})
    (mk_smart observed_empty observed_empty reading (Some reading)) [] 5 true false 0 0 false.

Lemma memory0_calm : calm 0 memory0.
Proof.
  split; try done.
  - eexists. split; [reflexivity|]. split; [reflexivity|]. split; [reflexivity|].
    intros i n Hi. apply list_elem_of_lookup_2 in Hi. revert n Hi. apply Forall_forall.
    vm_compute. repeat constructor; congruence.
  - split; [reflexivity|]. split; [reflexivity|]. split; [|done].
    intros i sl Hi. by apply lookup_replicate in Hi as [-> _].
Qed.
Lemma memory0_read lo : lo ≤ 0 → read_from lo memory0.
Proof.
  intros Hlo [|[|k]] c Hk Ha; [by injection Hk as <-|by injection Hk as <-|].
  cbn in Hk. apply (lookup_replicate 14 zero_client c k) in Hk as [-> _]. done.
Qed.
Lemma part0_listens k ty r : listens XorCryptoProvider (comm (part0 k ty r)) ty k 1 (proc (part0 k ty r)).
Proof. split; try done. Qed.

