(* ===== verification/Boot.v ===== *)
(** The programs: [vm/vehicle/start_car.cpp], [vm/roadside-unit/
    start_roadside_unit.cpp] and [vm/gateway.hpp]. A program checks its
    arguments, creates the shared memory and forks the processes; the effect of
    [main] is the list of processes it starts. *)
From Stdlib Require Import Ascii.
From stdpp Require Import pretty.
From S2P Require Import Prelude Ethernet Teds Crypto Clock Shm Nic Protocol SmartData Component.
Local Open Scope Z_scope.

(** ** [std::atoi] *)

Definition is_space (c : Ascii.ascii) : bool :=
  let n := Z.of_nat (Ascii.nat_of_ascii c) in bool_decide (n = 32 ∨ 9 ≤ n ≤ 13).
Definition digit (c : Ascii.ascii) : option Z :=
  let n := Z.of_nat (Ascii.nat_of_ascii c) in if decide (48 ≤ n ≤ 57) then Some (n - 48) else None.
Fixpoint digits (acc : Z) (s : string) : Z :=
  match s with
  | EmptyString => acc
  | String c s => match digit c with Some d => digits (10 * acc + d) s | None => acc end
  end.
Definition signed (s : string) : Z :=
  match s with
  | String "-"%char s => - digits 0 s
  | String "+"%char s => digits 0 s
  | _ => digits 0 s
  end.
Fixpoint atoi_value (s : string) : Z :=
  match s with
  | String c s' => if is_space c then atoi_value s' else signed s
  | EmptyString => 0
  end.
(** A value outside [int] is undefined. *)
Definition atoi (s : string) : outcome Z :=
  let n := atoi_value s in
  if decide (-2 ^ 31 ≤ n < 2 ^ 31) then Ret n else Undefined.

(** ** Processes *)

Inductive process :=
  | GatewayProcess (ptp_role : PtpRole) (group_role : GroupRole) (quadrant : Z)
  | ComponentProcess (name : string) (transducer : TransducerType) (unit interval_ms : Z).

(** What the system calls of a run answer. *)
Record host := mk_host {
  sigmask_ok : bool;
  ipc_ok : bool;              (* ShmEngine::bootstrapIPC() *)
  fork_ok : nat → bool        (* the gateway is fork 0, component i is fork i + 1 *)
}.

Abbreviation B := (M CryptoService.state process).

Module Car.
Inductive UnitType := TEMPERATURE | PRESSURE | DENSITY.
Definition unit_types : list UnitType := [TEMPERATURE; PRESSURE; DENSITY].
Definition label (t : UnitType) : string :=
  match t with TEMPERATURE => "Temperature " | PRESSURE => "Pressure " | DENSITY => "Density " end.
Definition unit_of (t : UnitType) : Z :=
  match t with TEMPERATURE => TEDS.TEMPERATURE | PRESSURE => TEDS.PRESSURE | DENSITY => TEDS.DENSITY end.
Definition interval_of (t : UnitType) : Z :=
  match t with TEMPERATURE => 2000 | PRESSURE => 3000 | DENSITY => 4000 end.

(** The component of child [i]; [offset] is the random start, 0 or 1. *)
Definition transducer_of (offset i : nat) : TransducerType :=
  if decide ((i + offset) `mod` 2 = 0)%nat then SENSOR else ACTUATOR.
Definition component_process (offset i : nat) : process :=
  let transducer := transducer_of offset i in
  let type := nth (i `mod` length unit_types) unit_types TEMPERATURE in
  let kind := if decide (transducer = SENSOR) then "Sensor "%string else "Actuator "%string in
  ComponentProcess (label type +:+ kind +:+ pretty i)%string transducer (unit_of type) (interval_of type).

(** The loop that forks the components [i], [i + 1], ..., [n] of them. *)
Fixpoint spawn (h : host) (offset i n : nat) : B Z :=
  match n with
  | O => mret 0
  | S n =>
      if fork_ok h (S i) then _ ← emit (component_process offset i); spawn h offset (S i) n
      else mret 1
  end.

(** [argv] is the argument vector, program name first; the result is the exit
    code. *)
Definition main (h : host) (argv : list string) (offset : nat) : B Z :=
  match argv with
  | _ :: components :: quadrant :: log_path :: _ =>
      n ← of_outcome (atoi components);
      if decide (n ≤ 0) then mret 1 else
      _ ← put (CryptoService.init XorCryptoProvider);
      quadrant_num ← of_outcome (atoi quadrant);
      if decide (quadrant_num < 0 ∨ 3 < quadrant_num) then mret 1 else
      if negb (sigmask_ok h) then mret 1 else
      if negb (ipc_ok h) then mret 1 else
      if negb (fork_ok h 0) then mret 1 else
      _ ← emit (GatewayProcess SLAVE MEMBER quadrant_num);
      spawn h offset 0 (Z.to_nat n)
  | _ => mret 1
  end.
End Car.

Module RoadsideUnit.
Definition main (h : host) (argv : list string) : B Z :=
  match argv with
  | _ :: quadrant :: _ =>
      quadrant_num ← of_outcome (atoi quadrant);
      if decide (quadrant_num < 0 ∨ 3 < quadrant_num) then mret 1 else
      _ ← put (CryptoService.init XorCryptoProvider);
      if negb (sigmask_ok h) then mret 1 else
      if negb (ipc_ok h) then mret 1 else
      if negb (fork_ok h 0) then mret 1 else
      _ ← emit (GatewayProcess MASTER LEADER quadrant_num);
      mret 0
  | _ => mret 1
  end.
End RoadsideUnit.

(** The gateway's process; [run] then sleeps for ever. *)
Module Gateway.
Definition construct (e : netenv) (ptp_role : PtpRole) (group_role : GroupRole) (quadrant garbage generated : Z)
    : P unit :=
  Protocol.init_gateway true e quadrant ptp_role group_role garbage generated.
End Gateway.

(** Every process attaches to the engine when its NIC is constructed. *)
Fixpoint attach_all {E} (pids : list Z) : M Ipc E unit :=
  match pids with [] => mret tt | pid :: pids => _ ← register_client pid; attach_all pids end.

(** ** Lemmas *)

Lemma of_ret {S E A B} (a : A) (f : A → M S E B) st : (of_outcome (Ret a) ≫= f) st = f a st.
Proof. by apply bind_pure. Qed.

Lemma spawn_run h offset n : ∀ i s, (∀ j, fork_ok h j = true) →
  Car.spawn h offset i n s = (Ret 0, s, Car.component_process offset <$> seq i n).
Proof.
  induction n as [|n IH]; intros i s Hf; [done|]. cbn [Car.spawn]. rewrite Hf.
  rewrite (bind_run _ _ _ _ _ _ (eq_refl : emit (Car.component_process offset i) s = _)).
  by rewrite IH.
Qed.

Lemma free_slot_prefix b k : length (client_registry b) = MAX_CLIENTS → (k ≤ MAX_CLIENTS)%nat →
  (∀ i c, client_registry b !! i = Some c → cl_active c = bool_decide (i < k)%nat) →
  find_index (λ c, negb (cl_active c)) (client_registry b)
  = if decide (k < MAX_CLIENTS)%nat then Some k else None.
Proof.
  intros Hl Hk Ha. case_decide as Hd.
  - destruct (lookup_lt_is_Some_2 (client_registry b) k) as [c Hc]; [lia|].
    apply (find_index_eq _ _ _ c Hc).
    + rewrite (Ha _ _ Hc). by rewrite bool_decide_false by lia.
    + intros j d Hj Hd'. rewrite (Ha _ _ Hd'). by rewrite bool_decide_true by lia.
  - destruct (find_index _ _) as [i|] eqn:Hi; [|done].
    apply find_index_Some in Hi as [(c & Hc & Hn) _]. rewrite (Ha _ _ Hc) in Hn.
    apply lookup_lt_Some in Hc. rewrite bool_decide_true in Hn by lia. done.
Qed.

(** The registry after the first [k] processes. *)
Definition registered (k : nat) (b : SharedBlock) : Prop :=
  length (client_registry b) = MAX_CLIENTS ∧ (k ≤ MAX_CLIENTS)%nat ∧
  ∀ i c, client_registry b !! i = Some c → cl_active c = bool_decide (i < k)%nat.

Lemma attach_one {E} pid k s : sem_is REGISTRY_SEM 1 s → registered k (blk s) → (k < MAX_CLIENTS)%nat →
  ∃ s', register_client (E := E) pid s = (Ret k, s', []) ∧ sem_is REGISTRY_SEM 1 s' ∧
    registered (S k) (blk s') ∧ sems s' = sems s.
Proof.
  intros Hs (H1 & H2 & H3) Hk. rewrite register_client_run by done.
  rewrite (free_slot_prefix _ k) by done. rewrite decide_True by done. eexists. split; [done|].
  split; [by apply sem_is_blk|]. split; [|done]. split; [by cbn; rewrite length_insert|]. split; [lia|].
  intros i c. cbn. intros [(-> & <- & ?)|[Hne Hc]]%list_lookup_insert_Some; cbn.
  - by rewrite bool_decide_true by lia.
  - rewrite (H3 _ _ Hc). apply bool_decide_ext. lia.
Qed.

Lemma attach_full {E} pid s : sem_is REGISTRY_SEM 1 s → registered MAX_CLIENTS (blk s) →
  ∃ msg s', register_client (E := E) pid s = (Throw msg, s', []) ∧ sems s' = None.
Proof.
  intros Hs (H1 & H2 & H3). rewrite register_client_run by done.
  rewrite (free_slot_prefix _ MAX_CLIENTS) by done. rewrite decide_False by lia. by do 2 eexists.
Qed.

Lemma attach_all_run {E} pids : ∀ k s, sem_is REGISTRY_SEM 1 s → registered k (blk s) →
  if decide (k + length pids ≤ MAX_CLIENTS)%nat
  then ∃ s', attach_all (E := E) pids s = (Ret tt, s', []) ∧ sems s' = sems s ∧ registered (k + length pids) (blk s')
  else ∃ msg s', attach_all (E := E) pids s = (Throw msg, s', []) ∧ sems s' = None.
Proof.
  induction pids as [|pid pids IH]; intros k s Hs Hr; simpl.
  - destruct Hr as (H1 & H2 & H3). rewrite Nat.add_0_r, decide_True by done. exists s. by split.
  - destruct (decide (k < MAX_CLIENTS)%nat) as [Hk|Hk].
    + destruct (attach_one (E := E) pid k s Hs Hr Hk) as (s1 & R1 & R2 & R3 & R4).
      specialize (IH (S k) s1 R2 R3). rewrite <- Nat.add_succ_comm. rewrite (bind_pure _ _ _ _ _ R1).
      case_decide; [|exact IH]. destruct IH as (s' & ? & ? & ?). exists s'. by rewrite <- R4.
    + assert (k = MAX_CLIENTS) as -> by (destruct Hr; lia). rewrite decide_False by lia.
      destruct (attach_full (E := E) pid s Hs Hr) as (msg & s' & R1 & R2). exists msg, s'.
      unfold mbind, M_bind. by rewrite R1.
Qed.

Lemma transducer_alternates offset i : Car.transducer_of offset (S i) ≠ Car.transducer_of offset i.
Proof.
  unfold Car.transducer_of. rewrite Nat.add_succ_l.
  pose proof (Nat.div_mod_eq (i + offset) 2). pose proof (Nat.div_mod_eq (S (i + offset)) 2).
  pose proof (Nat.mod_upper_bound (i + offset) 2). pose proof (Nat.mod_upper_bound (S (i + offset)) 2).
  repeat case_decide; (done || lia).
Qed.

Lemma transducer_either offset i kind :
  Car.transducer_of offset i = kind ∨ Car.transducer_of offset (3 + i) = kind.
Proof.
  pose proof (transducer_alternates offset i). pose proof (transducer_alternates offset (S i)).
  pose proof (transducer_alternates offset (S (S i))). simpl.
  destruct (Car.transducer_of offset i), (Car.transducer_of offset (S i)),
    (Car.transducer_of offset (S (S i))), (Car.transducer_of offset (S (S (S i)))), kind; tauto.
Qed.

(** ** Properties *)


(** The host of a run that goes well. *)
Definition good_host : host := mk_host true true (λ _, true).


(** A car holds fifteen components: when its gateway and its [n] components
    attach to a fresh engine, all succeed if [n] is at most fifteen; with more,
    the attaching fails at the seventeenth process and the semaphores are gone
    for every process that was running, although [main] accepts any positive
    number. *)
Theorem car_capacity {E} (pids : list Z) (i : Ipc) :
  sem_is REGISTRY_SEM 1 i → length (client_registry (blk i)) = MAX_CLIENTS →
  (∀ c, c ∈ client_registry (blk i) → cl_active c = false) →
  if decide (length pids ≤ 16)%nat
  then ∃ i', attach_all (E := E) pids i = (Ret tt, i', []) ∧ sems i' = sems i ∧
         (∀ k c, client_registry (blk i') !! k = Some c → cl_active c = bool_decide (k < length pids)%nat)
  else ∃ msg i', attach_all (E := E) pids i = (Throw msg, i', []) ∧ sems i' = None.
Proof.
  intros Hs Hl Ha. assert (registered 0 (blk i)) as Hr.
  { split; [done|]. split; [lia|]. intros j c Hc. rewrite bool_decide_false by lia.
    apply Ha. by eapply list_elem_of_lookup_2. }
  pose proof (attach_all_run (E := E) pids 0 i Hs Hr) as H. simpl in H. unfold MAX_CLIENTS in H.
  case_decide; [|done]. destruct H as (i' & H1 & H2 & _ & _ & H3). by exists i'.
Qed.

Lemma car_capacity_witness :
  ∃ msg i', attach_all (E := unit) (replicate 17 100) (mk_ipc init_block (Some (initial_sems (λ _, true))))
    = (Throw msg, i', []) ∧ sems i' = None.
Proof.
  apply (car_capacity (E := unit) (replicate 17 100) (mk_ipc init_block (Some (initial_sems (λ _, true)))));
    [done|done|].
  intros c Hc. apply elem_of_replicate in Hc as [-> _]. done.
Defined.
