(* ===== verification/ShmSafe.v ===== *)
(** Type safety of the shared-memory engine: the well-formed states of the
    shared block and the semaphores, and that every operation keeps them. *)
From S2P Require Import Prelude Hoare Ethernet Shm.
Local Open Scope Z_scope.

(** ** Well-formed frames and memory *)

Record frame_ok (f : Frame) : Prop := {
  fo_dhost : mac_ok (dhost f);
  fo_shost : mac_ok (shost f);
  fo_type : is_u 16 (ftype f);
  fo_array : length (fdata f) = 1500%nat;
  fo_bytes : bytes_ok (fdata f);
  fo_length : 0 ≤ data_length f ≤ ETH_MTU
}.

Lemma htons_bound x : is_u 16 (htons x).
Proof.
  unfold is_u, htons. pose proof (Z.mod_pos_bound x 256 ltac:(lia)).
  pose proof (Z.mod_pos_bound (x / 256) 256 ltac:(lia)). lia.
Qed.
#[export] Hint Resolve htons_bound : api.

(** The protocol number in network order, as it lies in a slot. *)
Definition PROTO : Z := htons 0x88B5.

(** A frame of the protocol holds at least a packet header and a code. *)
Definition typed (f : Frame) : Prop := ftype f = PROTO.
Definition slot_ok (sl : MessageSlot) : Prop :=
  frame_ok (slot_frame sl) ∧ (typed (slot_frame sl) → 13 ≤ data_length (slot_frame sl)).

Record ipc_ok (i : Ipc) : Prop := {
  io_slots : length (buffer (blk i)) = 32%nat;
  io_frames : Forall slot_ok (buffer (blk i));
  io_registry : length (client_registry (blk i)) = 16%nat;
  io_key : is_u 64 (session_key (blk i));
  io_location : is_u 8 (location (blk i));
  io_claim : is_u 64 (claim_sequence_id (blk i));
  io_publish : is_u 64 (publish_sequence_id (blk i));
  io_nearby : nearby_ok (blk i);
  io_entries : length (entries (blk i)) = 16%nat;
  io_port : is_u 16 (next_port_to_assign (blk i));
  io_sems : ∀ l, sems i = Some l → length l = 20%nat ∧ Forall (λ n, 0 ≤ n) l
}.

(** Slots that hold a frame of the protocol go on holding one. *)
Definition typed_slot (i : Ipc) (k : nat) : Prop :=
  ∃ sl, buffer (blk i) !! k = Some sl ∧ typed (slot_frame sl).
Definition ipc_le (i j : Ipc) : Prop := ∀ k, typed_slot i k → typed_slot j k.

#[export] Instance ipc_le_preorder : PreOrder ipc_le.
Proof. split; [by intros i k|]. intros i j k H1 H2 n Hn. by apply H2, H1. Qed.

(** Well formed, and later than [i0]. *)
Definition since (i0 i : Ipc) : Prop := ipc_ok i ∧ ipc_le i0 i.

Lemma since_refl i : ipc_ok i → since i i.
Proof. by split. Qed.
Lemma since_le i j k : since j k → ipc_le i j → since i k.
Proof. intros [Hk Hjk] Hij. split; [done|by transitivity j]. Qed.

(** ** Changes of the block *)

(** The registry, the flag, the lock, and the like may change freely. *)
Record same_buffer (b b' : SharedBlock) : Prop := {
  sb_buffer : buffer b' = buffer b;
  sb_registry : length (client_registry b') = length (client_registry b);
  sb_key : is_u 64 (session_key b) → is_u 64 (session_key b');
  sb_location : is_u 8 (location b) → is_u 8 (location b');
  sb_claim : is_u 64 (claim_sequence_id b) → is_u 64 (claim_sequence_id b');
  sb_publish : is_u 64 (publish_sequence_id b) → is_u 64 (publish_sequence_id b');
  sb_nearby : nearby_ok b → nearby_ok b';
  sb_entries : length (entries b') = length (entries b);
  sb_port : is_u 16 (next_port_to_assign b) → is_u 16 (next_port_to_assign b')
}.

Lemma since_block i0 i f : since i0 i → same_buffer (blk i) (f (blk i)) → since i0 (set_blk f i).
Proof.
  intros [[] Hle] []. split.
  - split; simpl; auto; congruence.
  - intros k Hk. destruct (Hle k Hk) as (sl & Hsl & Hty). exists sl. simpl. by rewrite sb_buffer0.
Qed.

Lemma since_sems i0 i l :
  since i0 i → (length l = 20%nat ∧ Forall (λ n, 0 ≤ n) l) → since i0 (mk_ipc (blk i) (Some l)).
Proof. intros [[] Hle] Hl. split; [|exact Hle]. split; simpl; try done. by intros ? [= <-]. Qed.

Lemma since_no_sems i0 i : since i0 i → since i0 (mk_ipc (blk i) None).
Proof. intros [[] Hle]. split; [|exact Hle]. by split. Qed.

(** Writing a well-formed frame of the protocol into a slot. *)
Lemma since_slot i0 i k sl :
  since i0 i → slot_ok sl → typed (slot_frame sl) →
  since i0 (set_blk (λ b, set_buffer (<[k := sl]> (buffer b)) b) i).
Proof.
  intros [[] Hle] Hsl Hty. split.
  - split; simpl; try done; [by rewrite length_insert|]. by apply Forall_insert.
  - intros n Hn. destruct (Hle n Hn) as (sl' & Hsl' & Hty').
    destruct (decide (n = k)) as [->|Hne].
    + exists sl. simpl. split; [|done]. apply list_lookup_insert_eq. by eapply lookup_lt_Some.
    + exists sl'. simpl. by rewrite list_lookup_insert_ne.
Qed.

Lemma since_frame i0 i k sl : since i0 i → buffer (blk i) !! k = Some sl → slot_ok sl.
Proof. intros [[] _] Hk. by eapply Forall_lookup_1. Qed.

Lemma since_slot_in i0 i t : since i0 i → is_Some (buffer (blk i) !! Z.to_nat (t `mod` BUFFER_SLOTS)).
Proof.
  intros [[] _]. apply lookup_lt_is_Some. rewrite io_slots0. unfold BUFFER_SLOTS.
  pose proof (Z.mod_pos_bound t 32). lia.
Qed.

Lemma same_buffer_refl b : same_buffer b b.
Proof. by split. Qed.
#[export] Hint Resolve same_buffer_refl : keeps.

(** ** Semaphores *)

Section ops.
Context {E : Type} (F : E → Prop) (i0 : Ipc).
Abbreviation I := (since i0).

Lemma keeps_on_blk f : (∀ i, I i → same_buffer (blk i) (f (blk i))) → keeps F I (on_blk (E := E) f).
Proof. intros Hf. apply triple_modify. intros i Hi. apply since_block; auto. Qed.

Lemma keeps_semop_wait k : keeps F I (semop_wait (E := E) k).
Proof.
  intros i Hi. unfold semop_wait. mstep. destruct (sems i) as [l|] eqn:Hs; [|by split; [constructor|]].
  destruct (l !! k) as [n|] eqn:Hn; [|by split; [constructor|]].
  case_decide; [|by split; [constructor|]]. mstep. split; [constructor|].
  apply since_sems; [done|]. destruct Hi as [[] _]. destruct (io_sems0 _ Hs) as [Hl Hf].
  split; [by rewrite length_insert|]. apply Forall_insert; [done|]. lia.
Qed.

Lemma keeps_semop_signal k : keeps F I (semop_signal (E := E) k).
Proof.
  intros i Hi. unfold semop_signal. mstep. destruct (sems i) as [l|] eqn:Hs; [|by split; [constructor|]].
  destruct (l !! k) as [n|] eqn:Hn; [|by split; [constructor|]].
  mstep. split; [constructor|]. apply since_sems; [done|].
  destruct Hi as [[] _]. destruct (io_sems0 _ Hs) as [Hl Hf]. split; [by rewrite length_insert|].
  apply Forall_insert; [done|]. eapply Forall_lookup_1 in Hf; [|exact Hn]. simpl in Hf. lia.
Qed.
End ops.
#[export] Hint Resolve keeps_semop_wait keeps_semop_signal : keeps.

(** A change of fields that no part of the invariant mentions. *)
Ltac block_step :=
  apply keeps_on_blk; intros; split; simpl; intros; auto using length_insert with api; try done.

Section sending.
Context {E : Type} (F : E → Prop) (i0 : Ipc).
Abbreviation I := (since i0).

Lemma keeps_wait_slot fuel t : keeps F I (wait_slot (E := E) fuel t).
Proof.
  induction fuel as [|fuel IH]; [by apply triple_blocked|]. cbn [wait_slot].
  keep; block_step.
Qed.

(** A well-formed frame leaves for the ring. *)
Lemma slot_write_ok src dst data size old :
  mac_ok (default LOCAL_ADDR src) → mac_ok dst → frame_ok old →
  bytes_ok data → 13 ≤ size ≤ ETH_MTU →
  slot_ok (mk_slot 0 (slot_write src dst 0x88B5 data size old)) ∧
  typed (slot_write src dst 0x88B5 data size old).
Proof.
  intros Hs Hd [] Hdata Hsize. split; [|done]. split; [split; simpl; auto with api; try lia|simpl; lia].
  - apply (length_slot_write src dst 0x88B5); [done|lia].
  - unfold splice. repeat apply Forall_app_2; auto using Forall_take, Forall_drop.
Qed.

Lemma keeps_send src dst data size :
  mac_ok (default LOCAL_ADDR src) → mac_ok dst → bytes_ok data →
  13 ≤ size ≤ ETH_MTU → size ≤ Z.of_nat (length data) →
  keeps F I (Shm.send (E := E) src dst 0x88B5 data size).
Proof.
  intros Hs Hd Hdata Hsize Hlen. unfold Shm.send.
  apply keeps_bind; [auto with keeps|]. intros ok. destruct (negb ok); [by apply triple_ret|].
  eapply yields_bind with (Q := λ t, is_u 64 t).
  { apply triple_gets. intros i Hi. split; [done|]. apply Hi. }
  intros t Ht. apply keeps_bind; [block_step|]. intros _.
  apply keeps_bind; [auto with keeps|]. intros ok'. destruct (negb ok'); [by apply triple_ret|].
  apply keeps_bind; [by apply triple_gets|]. intros fuel.
  apply keeps_bind; [apply keeps_wait_slot|]. intros ok''. destruct (negb ok''); [by apply triple_ret|].
  apply triple_at. intros i Hi. cbv zeta. set (k := Z.to_nat (t `mod` BUFFER_SLOTS)).
  destruct (since_slot_in i0 i t Hi) as [sl Hsl]. fold k in Hsl.
  pose proof (since_frame _ _ _ _ Hi Hsl) as [Hf _].
  destruct (slot_write_ok src dst data size (slot_frame sl)) as [Hok Hty]; [done..|].
  intros ? ->. mstep. rewrite Hsl. mstep. rewrite decide_True by (unfold ETH_MTU in *; lia). mstep.
  unfold on_blk. mstep.
  set (i1 := set_blk (set_buffer _) i).
  assert (I i1) as Hi1.
  { apply (since_slot i0 i k (mk_slot t (slot_write src dst 0x88B5 data size (slot_frame sl))) Hi);
      [|done]. by destruct Hok. }
  case_decide; [|by split; [constructor|]]. mstep. split; [constructor|].
  assert (I (set_blk (set_publish t) i1)) as Hi2 by (apply since_block; [done|]; by split).
  set (i2 := set_blk (set_publish t) i1) in *. destruct (sems i2) as [l|] eqn:Hl.
  - apply since_sems; [done|]. destruct Hi2 as [[] _]. destruct (io_sems0 _ Hl) as [Hl20 Hnn].
    unfold signal_clients. split; [by rewrite length_imap|].
    apply Forall_lookup. intros j n. rewrite list_lookup_imap.
    destruct (l !! j) as [m|] eqn:Hj; [|done]. eapply Forall_lookup_1 in Hnn; [|exact Hj].
    intros [= <-]. repeat case_match; simpl in *; lia.
  - by apply since_no_sems.
Qed.

Lemma yields_receive_zerocopy me eintr t :
  yields F I (receive_zerocopy (E := E) me eintr t)
    (λ r, ∀ k, r = Some k → k = Z.to_nat (t `mod` BUFFER_SLOTS)).
Proof.
  unfold receive_zerocopy. destruct eintr; [by apply triple_ret|].
  eapply triple_bind; [apply keeps_semop_wait|]. intros ok. destruct (negb ok); [by apply triple_ret|].
  cbv zeta. apply triple_at. intros i Hi ? ->. mstep. destruct (since_slot_in i0 i t Hi) as [sl Hsl].
  rewrite Hsl. mstep. case_decide; (split; [constructor|]); split; try done. by intros ? [= <-].
Qed.

Lemma keeps_release_frame me q : (me < 16)%nat → keeps F I (release_frame (E := E) me q).
Proof.
  intros Hme. unfold release_frame. apply triple_at. intros i Hi ? ->. mstep.
  destruct (lookup_lt_is_Some_2 (client_registry (blk i)) me) as [c Hc].
  { destruct Hi as [[] _]. lia. }
  rewrite Hc. mstep. unfold on_blk. mstep.
  assert (keeps F I (_ ← (if writer_is_blocked (blk i) &&
      bool_decide (last_read c ≤ slowest_other me (client_registry (blk i)) (u64 (last_read c + 1)))
      then semop_signal WRITER_WAIT_SEM else mret true); mret tt)) as Hk by keep.
  apply Hk. apply since_block; [done|]. split; simpl; try done. by rewrite length_insert.
Qed.
End sending.

(** ** The other operations *)

Section others.
Context {E : Type} (F : E → Prop) (i0 : Ipc).
Abbreviation I := (since i0).

Lemma keeps_set_session_key k : is_u 64 k → keeps F I (Shm.set_session_key (E := E) k).
Proof. intros Hk. block_step. Qed.
Lemma yields_get_session_key : yields F I (Shm.get_session_key (E := E)) (is_u 64).
Proof. apply triple_gets. intros i Hi. split; [done|]. apply Hi. Qed.
Lemma keeps_set_location q : is_u 8 q → keeps F I (Shm.set_location (E := E) q).
Proof. intros Hq. block_step. Qed.
Lemma yields_get_location : yields F I (Shm.get_location (E := E)) (is_u 8).
Proof. apply triple_gets. intros i Hi. split; [done|]. apply Hi. Qed.

(** A nearby operation that runs like a change of the list. *)
Lemma keeps_nearby (m : M Ipc E unit) :
  (∀ i, nearby_ok (blk i) → ∃ n l, m i = (Ret tt, set_blk (set_nearby n l) i, []) ∧
     nearby_ok (set_nearby n l (blk i))) →
  keeps F I m.
Proof.
  intros Hm i Hi. destruct (Hm i) as (n & l & -> & Hok); [apply Hi|]. split; [constructor|].
  apply since_block; [done|]. by split.
Qed.

Lemma nearby_same b : nearby_ok b → set_nearby (nearby_count b) (nearby_entities b) b = b.
Proof. by destruct b. Qed.

Lemma nearby_unchanged (i : Ipc) :
  nearby_ok (blk i) →
  ∃ n l, (Ret (A := unit) tt, i, []) = (Ret tt, set_blk (set_nearby n l) i, @nil E) ∧
    nearby_ok (set_nearby n l (blk i)).
Proof.
  intros Hi. exists (nearby_count (blk i)), (nearby_entities (blk i)).
  rewrite nearby_same by done. split; [|done]. unfold set_blk. rewrite nearby_same by done. by destruct i.
Qed.

Lemma keeps_register a : keeps F I (register_nearby_entity (E := E) a).
Proof.
  apply keeps_nearby. intros i Hi. pose proof (nearby_register_ok (E := E) a i Hi) as (j & Hj & Hok & _).
  rewrite register_run in Hj |- * by apply Hi. injection Hj as <-. revert Hok. unfold set_blk. simpl.
  destruct (nearby_scan (blk i) a) as [k|]; [|case_decide]; intros Hok; [|by eauto|];
    destruct (nearby_unchanged i Hi) as (n & l & Heq & Hok'); exists n, l; (split; [destruct i; exact Heq|exact Hok']).
Qed.

Lemma keeps_unregister a : keeps F I (unregister_nearby_entity (E := E) a).
Proof.
  apply keeps_nearby. intros i Hi. pose proof (nearby_unregister_ok (E := E) a i Hi) as (j & Hj & Hok & _).
  rewrite unregister_run in Hj |- * by apply Hi. injection Hj as <-. revert Hok. unfold set_blk. simpl.
  destruct (nearby_scan (blk i) a) as [k|]; intros Hok; [by eauto|].
  destruct (nearby_unchanged i Hi) as (n & l & Heq & Hok'); exists n, l.
  split; [destruct i; exact Heq|exact Hok'].
Qed.

Lemma keeps_reset : keeps F I (reset_entities_nearby (E := E)).
Proof.
  apply keeps_nearby. intros i Hi. pose proof (nearby_reset_ok (E := E) i Hi) as (j & Hj & Hok & _).
  rewrite reset_run in Hj |- * by apply Hi. injection Hj as <-. eauto.
Qed.

Lemma keeps_is_nearby a : keeps F I (is_entity_nearby (E := E) a).
Proof. intros i Hi. rewrite is_nearby_run by apply Hi. by split; [constructor|]. Qed.
Lemma keeps_get_nearby : keeps F I (get_entities_nearby (E := E)).
Proof. intros i Hi. rewrite get_nearby_run by apply Hi. by split; [constructor|]. Qed.

(** Read the block, decide, change it. *)
Lemma yields_blk_then {A} (f : SharedBlock → M Ipc E A) (Q : A → Prop) :
  (∀ i, I i → triple F (λ s, s = i) (f (blk i)) (λ a s, I s ∧ Q a) I) → yields F I (b ← gets blk; f b) Q.
Proof.
  intros Hf i Hi. specialize (Hf i Hi i eq_refl). by rewrite bind_gets.
Qed.
Lemma keeps_on_blk_then {A} g (m : M Ipc E A) (Q : A → Ipc → Prop) i :
  I i → same_buffer (blk i) (g (blk i)) → triple F I m Q I →
  triple F (λ s, s = i) (_ ← on_blk g; m) Q I.
Proof.
  intros Hi Hg Hm ? ->. unfold on_blk. rewrite bind_modify. apply Hm. by apply since_block.
Qed.
Lemma yields_signal_ret {A} k (a : A) (Q : A → Prop) : Q a → yields F I (_ ← semop_signal k; mret a) Q.
Proof. intros Ha. eapply triple_bind with (R := λ _, I); [auto with keeps|]. intros _. by apply triple_ret. Qed.

(** A port is a [uint16_t]. *)
Lemma yields_registerService pid name ty : yields F I (registerService (E := E) pid name ty) (is_u 16).
Proof.
  assert (is_u 16 0) as H0 by (unfold is_u; lia).
  unfold registerService. eapply triple_bind with (R := λ _, I); [auto with keeps|]. intros ok.
  destruct (negb ok); [by apply triple_ret|]. apply yields_blk_then. intros i Hi.
  destruct (find_index _ _) as [k|]; [|by eapply keeps_at; [apply yields_signal_ret|]].
  cbv zeta. apply keeps_on_blk_then; [done| |apply yields_signal_ret, Hi].
  split; simpl; intros; auto with api. by rewrite length_insert.
Qed.
Lemma keeps_registerService pid name ty : keeps F I (registerService (E := E) pid name ty).
Proof. eapply triple_conseq; [apply yields_registerService|done|by intros ? ? []|done]. Qed.
Lemma keeps_lookupService name : keeps F I (lookupService (E := E) name).
Proof. unfold lookupService. keep. Qed.
Lemma keeps_lookupServiceByType ty : keeps F I (lookupServiceByType (E := E) ty).
Proof. unfold lookupServiceByType. keep. Qed.

Lemma keeps_remove_sems : keeps F I (remove_sems (E := E)).
Proof. apply triple_modify. intros i. apply since_no_sems. Qed.
#[local] Hint Resolve keeps_remove_sems : keeps.

(** A client's slot is one of the sixteen. *)
Lemma yields_register_client pid :
  yields F I (register_client (E := E) pid) (λ k, (k < 16)%nat).
Proof.
  unfold register_client, cleanupAndThrow.
  apply triple_bind with (R := λ _, I); [auto with keeps|]. intros ok.
  assert (∀ msg, triple F I (_ ← remove_sems; throw (A := nat) msg) (λ k s, I s ∧ (k < 16)%nat) I) as Hthrow.
  { intros msg. apply triple_bind with (R := λ _, I); [apply keeps_remove_sems|]. intros. by apply triple_throw. }
  destruct (negb ok); [apply Hthrow|]. apply triple_at. intros i Hi.
  apply triple_goto with (t := i) (n := match find_index (λ c, negb (cl_active c)) (client_registry (blk i)) with
    | Some k => _ ← on_blk (set_registry
        (<[k := mk_client true pid (publish_sequence_id (blk i))]> (client_registry (blk i))));
      ok ← semop_signal REGISTRY_SEM;
      if negb ok then _ ← remove_sems; throw "Failed to unlock registry after registration" else mret k
    | None => _ ← semop_signal REGISTRY_SEM;
      _ ← remove_sems; throw "Failed to register client: No available slots" end);
    [exact (bind_gets _ _ i)|].
  destruct (find_index _ _) as [k|] eqn:Hk.
  - apply find_index_Some in Hk as [(c & Hc & _) _]. apply lookup_lt_Some in Hc.
    rewrite (io_registry _ (proj1 Hi)) in Hc. unfold on_blk.
    eapply triple_goto; [exact (bind_modify _ _ i)|]. set (j := set_blk _ i).
    assert (I j) as Hj by (apply since_block; [done|]; split; simpl; intros; auto; by rewrite length_insert).
    apply (triple_conseq _ _ I _ _ (λ k s, I s ∧ (k < 16)%nat) _ I); [|by intros ? ->|done|done].
    apply triple_bind with (R := λ _, I); [auto with keeps|]. intros ok'.
    destruct (negb ok'); [apply Hthrow|]. by apply triple_ret.
  - apply (triple_conseq _ _ I _ _ (λ k s, I s ∧ (k < 16)%nat) _ I); [|by intros ? ->|done|done].
    apply triple_bind with (R := λ _, I); [auto with keeps|]. intros. apply Hthrow.
Qed.

Lemma keeps_destroy_engine me : (me < 16)%nat → keeps F I (destroy_engine (E := E) me).
Proof.
  intros Hme. unfold destroy_engine, deregister_client. apply keeps_bind.
  - apply keeps_bind; [auto with keeps|]. intros ok. destruct (negb ok); [by apply triple_ret|].
    apply triple_at. intros i Hi. destruct (lookup_lt_is_Some_2 (client_registry (blk i)) me) as [c Hc].
    { by rewrite (io_registry _ (proj1 Hi)). }
    eapply triple_goto; [exact (bind_gets _ _ i)|]. cbv beta. rewrite Hc.
    eapply triple_goto; [exact (bind_checked _ _ i)|].
    apply keeps_on_blk_then; [done| |keep]. split; simpl; intros; auto. by rewrite length_insert.
  - intros _. apply keeps_bind; [by apply triple_gets|]. intros reg.
    destruct (existsb _ _); [by apply triple_ret|apply keeps_remove_sems].
Qed.
End others.
#[export] Hint Resolve keeps_set_session_key keeps_set_location keeps_register keeps_unregister
  keeps_reset keeps_is_nearby keeps_get_nearby keeps_registerService keeps_lookupService
  keeps_lookupServiceByType keeps_release_frame : keeps.

(** ** The memory at the start *)

Lemma init_block_ok semctl_ok : ipc_ok (mk_ipc init_block (Some (initial_sems semctl_ok))).
Proof.
  assert (frame_ok Frame_zero) as Hz.
  { split; try done; try apply local_ok; try by vm_compute. by apply bytes_ok_replicate. }
  split; try done; try by vm_compute.
  - apply Forall_replicate. by split.
  - split; [done|]. split; [done|]. split; [constructor|done].
  - intros l [= <-]. split; [by unfold initial_sems; rewrite length_imap|].
    apply Forall_lookup. intros i z. unfold initial_sems. rewrite list_lookup_imap.
    intros (v & Hv & ->)%fmap_Some. simpl. case_match; [|done].
    do 4 (destruct i as [|i]; [by injection Hv as <-|]).
    apply lookup_replicate in Hv as [-> _]. done.
Qed.
