(* ===== verification/HandlerSafe.v ===== *)
(** Type safety of the clock and group handlers: on any payload they end
    without undefined behaviour, and the calls they make are well formed. *)
From S2P Require Import Prelude Hoare Ethernet Packet Clock Ptp Group.
Local Open Scope Z_scope.

(** A call whose arguments have their types; messages fit a packet. *)
Definition call_ok (c : call) : Prop :=
  match c with
  | Send from to bytes => address_ok from ∧ address_ok to ∧ bytes_ok bytes ∧ (length bytes ≤ 100)%nat
  | SetTimeOfDay tv => timeval_ok tv
  | SetSessionKey key => is_u 64 key
  | UnregisterNearby _ => True
  end.

Abbreviation any := (λ _, True).

Lemma broadcast_address_ok p : is_u 16 p → address_ok (Address_broadcast p).
Proof. intros. split; [apply broadcast_ok|done]. Qed.
Lemma default_address_ok : address_ok Address_default.
Proof. split; [apply local_ok|by vm_compute]. Qed.
#[export] Hint Resolve broadcast_address_ok default_address_ok : api.

Lemma port0_ok : is_u 16 0.
Proof. by vm_compute. Qed.
#[export] Hint Resolve port0_ok : api.

Lemma sys_segment_ok from to t ts payload :
  address_ok from → address_ok to → bytes_ok payload → (length payload ≤ 60)%nat →
  call_ok (Send from to (sys_segment t ts payload)).
Proof.
  intros. split; [done|]. split; [done|]. rewrite length_sys_segment. split; [|lia].
  apply Forall_app_2; [apply segment_header_ok|done].
Qed.

Lemma short_lebytes n z : (n ≤ 60)%nat → (length (lebytes n z) ≤ 60)%nat.
Proof. by rewrite length_lebytes. Qed.

Lemma ts_bytes_ok t ts : bytes_ok (TimePayload.ts_bytes t ts) ∧ length (TimePayload.ts_bytes t ts) = 9%nat.
Proof.
  unfold TimePayload.ts_bytes, TimePayload.header_bytes. split; [auto with api|].
  by rewrite length_app, !length_lebytes.
Qed.

(** Any integer read from at most eight bytes is a 64-bit one. *)
Lemma leval_slice_bound w off len (l : list Z) :
  bytes_ok l → Z.of_nat len * 8 ≤ w → is_u w (leval (slice off len l)).
Proof.
  intros Hl Hw. pose proof (leval_bound (slice off len l) (slice_ok _ _ _ Hl)) as [H0 H1].
  split; [done|]. eapply Z.lt_le_trans; [exact H1|]. apply Z.pow_le_mono_r; [lia|].
  unfold slice. rewrite length_take. lia.
Qed.

(** ** The clock *)

Lemma set_abruptly_keeps {S} e ms (I : S → Prop) : keeps call_ok I (Clock.setClockAbruptly e ms).
Proof.
  unfold Clock.setClockAbruptly. apply keeps_bind; [|intros; by apply triple_ret].
  apply triple_emit; [|done]. simpl. unfold timeval_ok; simpl.
  pose proof (Z.mod_pos_bound (u64 ms) 1000 ltac:(lia)). rewrite i64_small; lia.
Qed.
#[export] Hint Resolve set_abruptly_keeps : keeps.

Lemma keeps_request_synchronization e a :
  address_ok a → keeps call_ok any (Slave.request_synchronization e a).
Proof.
  intros Ha. unfold Slave.request_synchronization. keep; [by apply triple_modify|].
  apply triple_emit; [|done]. apply sys_segment_ok; auto with api;
    [apply lebytes_ok|apply short_lebytes; lia].
Qed.

Lemma keeps_slave e payload size src dst :
  address_ok src → address_ok dst → keeps call_ok any (Slave.handle_ptp_message e payload size src dst).
Proof.
  intros Hs Hd. unfold Slave.handle_ptp_message, Slave.receive_sync, Slave.send_delay_req,
    Slave.receive_delay_resp, Slave.synchronize. keep; try by apply triple_modify.
  apply triple_emit; [|done]. apply sys_segment_ok; auto with api;
    [apply lebytes_ok|apply short_lebytes; lia].
Qed.

Lemma keeps_master e ext payload size src dst :
  address_ok ext → address_ok src → keeps call_ok any (Master.handle_ptp_message e ext payload size src dst).
Proof.
  intros He Hs. unfold Master.handle_ptp_message, Master.receive_start, Master.receive_delay_req.
  keep; (apply triple_emit; [|done]); apply sys_segment_ok; auto; rewrite ?(proj2 (ts_bytes_ok _ _));
    first [apply ts_bytes_ok | lia].
Qed.

(** ** Groups *)

Lemma keeps_member payload size from :
  bytes_ok payload → keeps call_ok any (Member.handle_group_message payload size from).
Proof.
  intros Hp. unfold Member.handle_group_message. keep; apply triple_emit; try done.
  simpl. unfold GroupPayload.key. apply leval_slice_bound; [done|lia].
Qed.

Lemma keeps_member_location e ext :
  address_ok ext → keeps call_ok any (Member.notify_location_change e ext).
Proof.
  intros He. apply triple_emit; [|done]. apply sys_segment_ok; auto with api;
    [apply lebytes_ok|apply short_lebytes; lia].
Qed.

Lemma keeps_heartbeat now a : keeps call_ok leader_ok (Leader.heartbeat_update now a).
Proof.
  intros s Hs. destruct (heartbeat_run now a s Hs) as (l & -> & Hsort & Hd & Hl).
  split; [constructor|]. by apply insert_ok.
Qed.

Lemma keeps_leader e now ext payload size from :
  address_ok ext → address_ok from →
  keeps call_ok leader_ok (Leader.handle_group_message e now ext payload size from).
Proof.
  intros He Hf. unfold Leader.handle_group_message, Leader.send_key. keep; [apply keeps_heartbeat|].
  apply triple_emit; [|done]. apply sys_segment_ok; auto;
    unfold GroupPayload.key_bytes; [auto with api|]. rewrite length_app, !length_lebytes. lia.
Qed.

Lemma notify_left_ok e p1 p2 ext a :
  address_ok ext → keeps call_ok leader_ok (Leader.send_notify_left e p1 p2 ext a).
Proof.
  intros He. apply triple_emit; [|done]. split; [done|]. split; [auto with api|].
  unfold GroupPayload.notify_left_bytes, address_bytes. split.
  - repeat apply Forall_app_2; auto using lebytes_ok, segment_header_ok. apply local_ok.
  - rewrite !length_app, length_segment_header, !length_lebytes. simpl. lia.
Qed.

(** The monitor's turn ends within its fuel and keeps the maps consistent. *)
Lemma keeps_evict e now p1 p2 ext fuel :
  address_ok ext → keeps call_ok leader_ok (Leader.monitor_evict fuel e now p1 p2 ext).
Proof.
  intros He. induction fuel as [|fuel IH]; [by apply triple_ret|]. simpl.
  unfold Leader.monitor_pick. intros s Hs. mstep.
  destruct (Leader.clients_timeout s) as [|n l] eqn:Hl; [by mstep; split; [constructor|]|].
  case_decide; [|by mstep; split; [constructor|]]. rewrite bind_assoc.
  destruct (clean_run s n l Hs Hl) as [Hc Hok].
  apply (triple_bind _ (λ s', s' = s) _ _ (λ _ s', s' = s)); [| |done].
  - intros ? ->. by destruct (notify_left_ok e p1 p2 ext (Leader.n_client n) He s Hs) as [Hes _]; split.
  - intros [] ? ->. mstep. rewrite (bind_pure _ _ _ _ _ Hc). by apply IH.
Qed.

Lemma keeps_monitor timed_out e now p1 p2 ext :
  address_ok ext → keeps call_ok leader_ok (Leader.monitor_turn timed_out e now p1 p2 ext).
Proof.
  intros He. unfold Leader.monitor_turn. keep. by apply keeps_evict.
Qed.
