(* ===== verification/Safety.v ===== *)
(** Type safety of a process: the well-formed states, and that the sending
    side of the protocol, with its handlers, keeps them. *)
From S2P Require Import Prelude Hoare Ethernet Packet Crypto Clock Observer Shm ShmSafe Ptp Group HandlerSafe.
From S2P Require Import Nic Protocol ProtocolLemmas ProtocolProps.
Local Open Scope Z_scope.

(** ** Well-formed processes *)

Definition fbuf_ok (b : fbuf) : Prop :=
  match fb_own b with Some f => frame_ok f | None => (fb_slot b < 32)%nat end.

(** Communicator [c] has the buffer [id] at place [i] of its queue. *)
Definition holds (qs : gmap nat (queue nat)) (c i id : nat) : Prop :=
  ∃ q, qs !! c = Some q ∧ q_data q !! i = Some id.

(** A live view of a slot with a frame of the protocol. *)
Definition view_of_typed (s : pstate) (id : nat) : Prop :=
  ∃ b, heap (nic s) !! id = Some b ∧ fb_own b = None ∧ typed_slot (ipc (nic s)) (fb_slot b).

(** At most one communicator listens under each condition, and it has a queue. *)
Definition one_listener (qs : gmap nat (queue nat)) (o : observed nat Z) : Prop :=
  observed_ok o ∧ ∀ c, matching c o = [] ∨ ∃ id, matching c o = [id] ∧ is_Some (qs !! id).

(** A NIC notifies the protocol at most once. *)
Definition obs_ok (o : observed unit Z) : Prop := o = mk_observed [] [] ∨ o = proto_obs.

(** What the socket delivers: the kernel hands over whole link-layer headers. *)
Definition packet_ok (l : list Z) : Prop := bytes_ok l ∧ (14 ≤ length l)%nat.

(** What leaves the process. *)
Definition effect_ok (e : effect) : Prop :=
  match e with
  | Sendto bytes => bytes_ok bytes ∧ (27 ≤ length bytes ≤ 1514)%nat
  | Settime tv => timeval_ok tv
  end.

Section safety.
Context (p : ICryptoProvider) `{MacLaws p} (gw : bool) (base : Ipc).

(** The shared memory has moved on from [base], where the processes that share
    it started. *)
Record proc_ok (s : pstate) : Prop := {
  po_ipc : ipc_ok (ipc (nic s));
  po_base : ipc_le base (ipc (nic s));
  po_me : (me (nic s) < 16)%nat;
  po_mac : mac_ok (my_mac (nic s));
  po_quad : is_u 8 (quadrant (nic s));
  po_rx : Forall packet_ok (rx (nic s));
  po_seq : is_u 64 (next_seq (nic s));
  po_heap : ∀ id b, heap (nic s) !! id = Some b → (id < next_buf (nic s))%nat ∧ fbuf_ok b;
  po_local_obs : obs_ok (local_obs (nic s));
  po_ext_obs : obs_ok (ext_obs (nic s));
  po_local : local_nic s = true;
  po_external : external_nic s = gw;
  po_crypto : crypto s = Some p;
  po_queues : ∀ c q, queues s !! c = Some q → queue_ok q;
  po_live : ∀ c i id, holds (queues s) c i id → view_of_typed s id;
  po_once : ∀ c i c' i' id, holds (queues s) c i id → holds (queues s) c' i' id → c = c' ∧ i = i';
  po_ports : one_listener (queues s) (ports s);
  po_types : one_listener (queues s) (types s);
  po_sync : gw = true → is_Some (sync s);
  po_group : gw = true → ∃ g, group s = Some g ∧ ∀ l, g = LeaderHandler l → leader_ok l
}.

(** Well formed, and reached from [s0] without freeing a buffer, touching a
    queue or registering a listener. *)
Record after (s0 s : pstate) : Prop := {
  af_ok : proc_ok s;
  af_heap : heap (nic s0) ⊆ heap (nic s);
  af_next : (next_buf (nic s0) ≤ next_buf (nic s))%nat;
  af_queues : queues s = queues s0;
  af_ports : ports s = ports s0;
  af_types : types s = types s0;
  af_ipc : ipc_le (ipc (nic s0)) (ipc (nic s))
}.

Lemma after_refl s : proc_ok s → after s s.
Proof using. intros. by split. Qed.

Lemma view_of_typed_mono s s' id :
  heap (nic s) ⊆ heap (nic s') → ipc_le (ipc (nic s)) (ipc (nic s')) →
  view_of_typed s id → view_of_typed s' id.
Proof using.
  intros Hh Hi (b & Hb & Ho & Ht). exists b. split; [by eapply lookup_weaken|]. split; [done|by apply Hi].
Qed.

(** The shared memory moves on. *)
Lemma proc_ok_ipc s i : proc_ok s → since (ipc (nic s)) i → proc_ok (seeing i s).
Proof using.
  intros [] [Hi Hle]. split; try done; [by transitivity (ipc (nic s))|]. intros c k id Hh.
  apply (view_of_typed_mono s); [done|exact Hle|]. by eapply po_live0.
Qed.

Lemma after_ipc s0 s i : after s0 s → since (ipc (nic s)) i → after s0 (seeing i s).
Proof using.
  intros [] Hi. split; try done; [by apply proc_ok_ipc|]. transitivity (ipc (nic s)); [done|apply Hi].
Qed.

(** A new buffer. *)
Lemma proc_ok_new s b :
  proc_ok s → fbuf_ok b →
  proc_ok (set_nic (bump_buf (set_heap (<[next_buf (nic s) := b]> (heap (nic s))) (nic s))) s) ∧
  heap (nic s) ⊆ <[next_buf (nic s) := b]> (heap (nic s)).
Proof using.
  intros [] Hb.
  assert (heap (nic s) !! next_buf (nic s) = None) as Hnew.
  { destruct (heap (nic s) !! next_buf (nic s)) eqn:E; [|done]. apply po_heap0 in E as [? _]. lia. }
  split; [|by apply insert_subseteq]. split; try done.
  - simpl. intros id b' Hid. apply lookup_insert_Some in Hid as [[<- <-]|[_ Hid]]; [split; [lia|done]|].
    apply po_heap0 in Hid as [? ?]. split; [lia|done].
  - intros c k id Hh. apply (view_of_typed_mono s); simpl; [by apply insert_subseteq|done|].
    by eapply po_live0.
Qed.

Lemma after_frame s0 s f : after s0 s → frame_ok f → after s0 (with_frame f s).
Proof using.
  intros [] Hf. destruct (proc_ok_new s (mk_fbuf (Some f) 0 0 false)) as [Hok Hsub]; [done..|].
  split; try done; simpl; [by transitivity (heap (nic s))|lia].
Qed.

(** The handlers' states. *)
Lemma after_sync s0 s o : after s0 s → is_Some o → after s0 (set_sync o s).
Proof using. intros [[]] ?. split; [split|..]; done. Qed.
Lemma after_group s0 s g :
  after s0 s → (∀ l, g = LeaderHandler l → leader_ok l) → after s0 (set_group (Some g) s).
Proof using. intros [[]] ?. split; [split|..]; try done. intros _. by exists g. Qed.

(** ** Operations on the shared memory *)

Abbreviation Fx := effect_ok.

Lemma yields_on_ipc {A} s0 (m : M Ipc effect A) (Q : A → Prop) :
  (∀ i0, yields Fx (since i0) m Q) → yields Fx (after s0) (on_nic (on_ipc m)) Q.
Proof using.
  intros Hm. apply triple_at. intros s Hs.
  pose proof (Hm (ipc (nic s)) (ipc (nic s)) (since_refl _ (po_ipc _ (af_ok _ _ Hs)))) as Hi.
  intros ? ->. unfold on_nic, NIC.on_nics, on_ipc, zoom. destruct (m (ipc (nic s))) as [[o i] es].
  destruct Hi as [Hes Ho]. split; [done|]. destruct o; try done; try by apply after_ipc.
  destruct Ho as [Ho HQ]. split; [by apply after_ipc|done].
Qed.

Lemma keeps_on_ipc {A} s0 (m : M Ipc effect A) :
  (∀ i0, keeps Fx (since i0) m) → keeps Fx (after s0) (on_nic (on_ipc m)).
Proof using.
  intros Hm. eapply triple_conseq; [apply (yields_on_ipc s0 m (λ _, True))|done| |done].
  - intros i0. eapply triple_conseq; [apply Hm|done|by split|done].
  - by intros a s [? _].
Qed.

Lemma yields_get_key s0 : yields Fx (after s0) Protocol.get_session_key (is_u 64).
Proof using. apply yields_on_ipc. intros. apply yields_get_session_key. Qed.

Lemma yields_address k `{Engine k} s0 :
  (∀ s, proc_ok s → mac_ok (engine_address (nic s))) → yields Fx (after s0) (on_nic (NIC.address k)) mac_ok.
Proof using.
  intros Ha s Hs. unfold on_nic, NIC.on_nics, zoom. cbn. split; [constructor|].
  rewrite set_nic_id. split; [done|]. apply Ha, Hs.
Qed.
Lemma yields_address_shm s0 : yields Fx (after s0) (on_nic (NIC.address SHM)) mac_ok.
Proof using. apply yields_address. intros. apply local_ok. Qed.
Lemma yields_address_raw s0 : yields Fx (after s0) (on_nic (NIC.address RAW)) mac_ok.
Proof using. apply yields_address. intros s Hs. apply Hs. Qed.

(** ** Sending *)

Lemma proc_sender s : proc_ok s → sender_ok p s.
Proof using. intros []. split; try done; apply po_ipc0. Qed.

Lemma carries_ok f loc sp dp payload mac :
  carries f loc sp dp payload mac → mac_ok (dhost f) → mac_ok (shost f) → is_u 16 (ftype f) →
  bytes_ok (fdata f) → frame_ok f.
Proof using.
  intros Hf Hd Hs Ht Hb. pose proof (carries_size Hf) as Hsz. split; try done; [by apply (ca_array _ _ _ _ _ _ Hf)|].
  rewrite (ca_len _ _ _ _ _ _ Hf). unfold ETH_MTU. lia.
Qed.

(** Handing a frame to either engine. *)
Lemma keeps_nic_send_shm e s0 s f loc sp dp payload mac :
  after s0 s → carries f loc sp dp payload mac → frame_ok f → ftype f = ETHERNET_PROTOCOL_NUMBER →
  triple Fx (λ s', s' = with_frame f s) (on_nic (NIC.send SHM e (Some (next_buf (nic s)))))
    (λ _, after s0) (after s0).
Proof using.
  intros Hs Hf Hok Hty ? ->. unfold NIC.send, on_nic, NIC.on_nics, zoom.
  erewrite bind_pure.
  2:{ eapply nic_data_run; [apply lookup_insert_eq|reflexivity]. }
  cbn [engine_send ShmEngine]. rewrite Hty.
  pose proof (carries_size Hf) as Hsz. pose proof (ca_len _ _ _ _ _ _ Hf) as Hlen.
  assert (after s0 (with_frame f s)) as Hs' by (by apply after_frame).
  apply (keeps_on_ipc s0 (Shm.send (Some (shost f)) (dhost f) 0x88B5 (fdata f) (data_length f))
           ltac:(intros i0; apply keeps_send; try apply Hok; unfold ETH_MTU; rewrite ?(fo_array _ Hok); lia)
           (with_frame f s) Hs').
Qed.

Lemma keeps_nic_send_raw e s0 s f loc sp dp payload mac :
  after s0 s → carries f loc sp dp payload mac → frame_ok f → ftype f = ETHERNET_PROTOCOL_NUMBER →
  triple Fx (λ s', s' = with_frame f s) (on_nic (NIC.send RAW e (Some (next_buf (nic s)))))
    (λ _, after s0) (after s0).
Proof using.
  intros Hs Hf Hok Hty ? ->. pose proof (nic_send_raw e f _ _ _ _ _ s Hf) as Hrun. cbv zeta in Hrun.
  rewrite Hrun. split; [|by apply after_frame]. apply Forall_singleton. unfold RawSocketEngine.wire_frame.
  split.
  - apply Forall_app_2; [apply Hok|]. apply Forall_app_2; [apply (po_mac _ (af_ok _ _ Hs))|].
    apply Forall_app_2; [apply lebytes_ok|]. apply packet_bytes_ok, (ca_payload _ _ _ _ _ _ Hf).
  - pose proof (carries_size Hf). rewrite !length_app, length_lebytes, length_packet_bytes.
    destruct (fo_dhost _ Hok) as [-> _]. destruct (po_mac _ (af_ok _ _ Hs)) as [-> _].
    unfold ADDR_LEN. lia.
Qed.

(** A message of [size] bytes taken from [data]. *)
Record data_ok (from to : Address) (data : list Z) (size : Z) : Prop := {
  do_from : address_ok from;
  do_to : address_ok to;
  do_bytes : bytes_ok data;
  do_size : 0 ≤ size ≤ Z.of_nat (length data);
  do_word : size < 2 ^ 32 - 13
}.

Lemma keeps_send_frame k `{Engine k} e s0 from to data size :
  (∀ s f loc sp dp payload mac,
     after s0 s → carries f loc sp dp payload mac → frame_ok f → ftype f = ETHERNET_PROTOCOL_NUMBER →
     triple Fx (λ s', s' = with_frame f s) (on_nic (NIC.send k e (Some (next_buf (nic s)))))
       (λ _, after s0) (after s0)) →
  data_ok from to data size → keeps Fx (after s0) (Protocol._send_frame e k from to data size).
Proof using H.
  intros Hnic [[Hfm Hfp] [Htm Htp] Hdata Hsize Hword] s Hs.
  destruct ((match k with SHM => local_nic | RAW => external_nic end) s) eqn:Hn.
  2:{ unfold Protocol._send_frame. mstep. rewrite Hn. by split; [constructor|]. }
  destruct (decide (1487 < size)) as [Hbig|Hsmall].
  { unfold Protocol._send_frame. mstep. rewrite Hn. cbn [negb].
    assert (u32 (PACKET_HEADER_SIZE + size + MSG_AUTH_CODE_SIZE) = 13 + size) as ->.
    { unfold PACKET_HEADER_SIZE, LOCATION_HEADER_SIZE, PORT_HEADER_SIZE, MSG_AUTH_CODE_SIZE.
      rewrite u32_small; [lia|unfold is_u; lia]. }
    rewrite decide_True by (unfold ETH_MTU; lia). by split; [constructor|]. }
  set (payload := take (Z.to_nat size) data).
  assert (size = Z.of_nat (length payload)) as Hlen by (unfold payload; rewrite length_take; lia).
  destruct (send_frame_bytes p k e from to data payload s) as (f & mac & Hb & Hf & Hd & Hsh & Hty & _ & Hrun).
  { apply proc_sender, Hs. }
  { split; [done|done|by apply Forall_take|lia]. }
  { intros ->. exact Hn. }
  { rewrite <- (Nat2Z.id (length payload)), <- Hlen. rewrite read_mem_in by lia.
    unfold slice. by rewrite drop_0. }
  rewrite Hlen, Hrun. eapply Hnic; try done.
  apply (carries_ok f _ _ _ _ _ Hf); first [by rewrite Hty; vm_compute | congruence].
Qed.

Lemma keeps_protocol_send e s0 from to data size :
  data_ok from to data size → keeps Fx (after s0) (Protocol.send gw e from to data size).
Proof using H.
  intros Hok. unfold Protocol.send, Protocol.send_remote_frame, Protocol.send_local_frame.
  assert (keeps Fx (after s0) (Protocol._send_frame e SHM from to data size)).
  { apply keeps_send_frame; [|done]. intros. by eapply keeps_nic_send_shm. }
  assert (keeps Fx (after s0) (Protocol._send_frame e RAW from to data size)).
  { apply keeps_send_frame; [|done]. intros. by eapply keeps_nic_send_raw. }
  destruct gw eqn:Hgw; [|done].
  eapply yields_bind; [apply yields_address_raw|]. intros ext _.
  eapply yields_bind; [apply yields_address_shm|]. intros loc _. by destruct (_ && _).
Qed.

(** ** Handlers *)

Lemma keeps_run_call e s0 c : call_ok c → keeps Fx (after s0) (Protocol.run_call gw e c).
Proof using H.
  destruct c as [from to bytes|tv|key|m]; simpl.
  - intros (Hf & Ht & Hb & Hl). apply keeps_bind; [|intros; by apply triple_ret].
    apply keeps_protocol_send. split; try done; lia.
  - intros Htv. by apply triple_emit.
  - intros Hk. apply keeps_on_ipc. auto with keeps.
  - intros _. apply keeps_on_ipc. auto with keeps.
Qed.

Lemma keeps_run_calls e s0 cs : Forall call_ok cs → keeps Fx (after s0) (Protocol.run_calls gw e cs).
Proof using H.
  induction 1 as [|c cs Hc Hcs IH]; [by apply triple_ret|].
  apply keeps_bind; [by apply keeps_run_call|done].
Qed.

(** A handler that is safe on its own state is safe in the process. *)
Lemma keeps_run_handler {T} e s0 (m : M T call unit) (t : T) (store : T → pstate → pstate) (I : T → Prop) :
  keeps call_ok I m → I t → (∀ t s, I t → after s0 s → after s0 (store t s)) →
  keeps Fx (after s0) (Protocol.run_handler gw e m t store).
Proof using H.
  intros Hm Ht Hst. specialize (Hm t Ht). unfold Protocol.run_handler.
  destruct (m t) as [[o t'] cs]. destruct Hm as [Hcs Ho].
  assert (I t' ∧ o ≠ Undefined) as [Ht' Hno] by (by destruct o).
  apply keeps_bind; [by apply triple_modify; auto|]. intros _.
  apply keeps_bind; [by apply keeps_run_calls|]. intros _ s Hs. unfold of_outcome.
  split; [constructor|]. by destruct o.
Qed.

(** The state of a handler, when it is the leader's or the slave's. *)
Lemma after_leader s0 s l : after s0 s → leader_ok l → after s0 (set_group (Some (LeaderHandler l)) s).
Proof using. intros. apply after_group; [done|]. by intros ? [= <-]. Qed.
Lemma after_slave s0 s t : after s0 s → after s0 (set_sync (Some (SlaveSync t)) s).
Proof using. intros. by apply after_sync. Qed.

Lemma yields_external_address s0 : gw = true → yields Fx (after s0) (Protocol.get_external_address gw) address_ok.
Proof using.
  intros ->. unfold Protocol.get_external_address. eapply yields_bind; [apply yields_address_raw|].
  intros mac Hmac. apply triple_ret. intros. split; [done|]. by split; [|vm_compute].
Qed.

Lemma keeps_handle_ptp_message e s0 payload size from to :
  gw = true → address_ok from → address_ok to →
  keeps Fx (after s0) (Protocol.handle_ptp_message gw e payload size from to).
Proof using H.
  intros Hgw Hf Ht. unfold Protocol.handle_ptp_message. apply triple_at. intros s Hs ? ->. mstep.
  destruct (po_sync _ (af_ok _ _ Hs) Hgw) as [[t|] ->].
  - refine (keeps_run_handler e s0 _ t _ any (keeps_slave _ _ _ _ _ Hf Ht) I _ s Hs).
    intros. by apply after_slave.
  - refine (yields_bind _ _ _ _ _ _ (yields_external_address s0 Hgw) _ s Hs). intros ext Hext.
    by apply (keeps_run_handler e s0 _ tt _ any (keeps_master _ _ _ _ _ _ Hext Hf) I).
Qed.

Lemma keeps_handle_group_message e s0 payload size from :
  gw = true → bytes_ok payload → address_ok from →
  keeps Fx (after s0) (Protocol.handle_group_message gw e payload size from).
Proof using H.
  intros Hgw Hp Hf. unfold Protocol.handle_group_message. apply triple_at. intros s Hs ? ->. mstep.
  destruct (po_group _ (af_ok _ _ Hs) Hgw) as (g & -> & Hg). destruct g as [|l].
  - by refine (keeps_run_handler e s0 _ tt _ any (keeps_member _ _ _ Hp) I _ s Hs).
  - refine (yields_bind _ _ _ _ _ _ (yields_external_address s0 Hgw) _ s Hs). intros ext Hext.
    apply (keeps_run_handler e s0 _ l _ leader_ok (keeps_leader _ _ _ _ _ _ Hext Hf)); [by apply Hg|].
    intros. by apply after_leader.
Qed.

Lemma keeps_notify_location_change e s0 :
  gw = true → keeps Fx (after s0) (Protocol.notify_location_change gw e).
Proof using H.
  intros Hgw. unfold Protocol.notify_location_change. apply triple_at. intros s Hs ? ->. mstep.
  destruct (po_group _ (af_ok _ _ Hs) Hgw) as (g & -> & Hg). destruct g as [|l].
  - refine (yields_bind _ _ _ _ _ _ (yields_external_address s0 Hgw) _ s Hs). intros ext Hext.
    by apply (keeps_run_handler e s0 _ tt _ any (keeps_member_location _ _ Hext) I).
  - apply (keeps_run_handler e s0 Leader.notify_location_change l
             (λ l, set_group (Some (LeaderHandler l))) leader_ok); auto; [by apply triple_ret|].
    intros. by apply after_leader.
Qed.

Lemma keeps_sync_request e s0 a :
  address_ok a → keeps Fx (after s0) (Protocol.request_synchronization gw e a).
Proof using H.
  intros Ha. unfold Protocol.request_synchronization. apply triple_at. intros s Hs ? ->. mstep.
  destruct (sync s) as [[t|]|]; [|by split; [constructor|]..].
  refine (keeps_run_handler e s0 _ t _ any (keeps_request_synchronization _ _ Ha) I _ s Hs).
  intros. by apply after_slave.
Qed.
End safety.
