(* ===== verification/ReceiveSafe.v ===== *)
(** Type safety of the receiving side: the arrival of frames on either NIC, the
    threads of a process and its communicators. *)
From S2P Require Import Prelude Hoare Ethernet Packet Teds Crypto Observer Shm ShmSafe Ptp Group HandlerSafe.
From S2P Require Import Nic Protocol ProtocolLemmas ProtocolProps Safety.
Local Open Scope Z_scope.

Definition held (s : pstate) (id : nat) : Prop := ∃ c i, holds (queues s) c i id.

(** No queue is full: its counter is an [int]. *)
Definition room (s : pstate) : Prop := ∀ c q, queues s !! c = Some q → q_sem q < INT_MAX.

Section safety.
Context (p : ICryptoProvider) `{MacLaws p} (gw : bool) (base : Ipc).
Abbreviation proc_ok := (proc_ok p gw base).
Abbreviation after := (after p gw base).
Abbreviation Fx := effect_ok.

Lemma after_proc s0 s : after s0 s → proc_ok s.
Proof. by intros []. Qed.

(** ** Buffers *)

(** [buf] is [b] and no queue has it. *)
Record detached (buf : nat) (b : fbuf) (s : pstate) : Prop := {
  de_buf : heap (nic s) !! buf = Some b;
  de_free : ¬ held s buf
}.

Lemma detached_after buf b s0 s : after s0 s → detached buf b s0 → detached buf b s.
Proof.
  intros [] []. split; [by eapply lookup_weaken|]. unfold held. by rewrite af_queues.
Qed.

(** What an object owns is in no queue. *)
Lemma owned_detached buf b s :
  proc_ok s → heap (nic s) !! buf = Some b → is_Some (fb_own b) → detached buf b s.
Proof.
  intros Hs Hb [f Hf]. split; [done|]. intros (c & i & Hh).
  destruct (po_live _ _ _ _ Hs _ _ _ Hh) as (b' & Hb' & Ho & _). congruence.
Qed.
Lemma fresh_detached b s s' :
  proc_ok s → heap (nic s') !! next_buf (nic s) = Some b → queues s' = queues s →
  detached (next_buf (nic s)) b s'.
Proof.
  intros Hs Hb Hq. split; [done|]. unfold held. rewrite Hq. intros (c & i & Hh).
  destruct (po_live _ _ _ _ Hs _ _ _ Hh) as (b' & Hb' & _). apply (po_heap _ _ _ _ Hs) in Hb' as [? _]. lia.
Qed.

Lemma proc_ok_delete buf s : proc_ok s → ¬ held s buf → proc_ok (without buf s).
Proof.
  intros [] Hn. split; try done.
  - intros id b. cbn. intros Hid. apply lookup_delete_Some in Hid as [_ Hid]. by apply po_heap.
  - intros c i id Hh. destruct (po_live _ _ _ Hh) as (b & Hb & Ho & Ht).
    exists b. split; [|done]. cbn. rewrite lookup_delete_ne; [done|]. intros ->. apply Hn. by exists c, i.
Qed.

Lemma delete_safe buf b s0 :
  detached buf b s0 →
  triple Fx (after s0) (on_nic (NIC.delete_buffer buf)) (λ _, proc_ok) proc_ok.
Proof.
  intros Hd s Hs. destruct (detached_after _ _ _ _ Hs Hd) as [Hb Hn].
  assert (NIC.delete_buffer buf (nic s) = (Ret tt, nic (without buf s), [])) as Hr.
  { unfold NIC.delete_buffer. mstep. by rewrite Hb. }
  rewrite (on_nic_run _ _ _ _ _ Hr). split; [constructor|].
  apply (proc_ok_delete buf s); [by apply (after_proc s0)|done].
Qed.

Lemma on_nic_bind {A B} (m : M nics effect A) (f : A → M nics effect B) s :
  on_nic (m ≫= f) s = (on_nic m ≫= λ a, on_nic (f a)) s.
Proof.
  unfold on_nic, NIC.on_nics, zoom, mbind, M_bind. destruct (m (nic s)) as [[o n] es].
  destruct o; try done. rewrite nic_set_nic. by destruct (f a n) as [[o n'] es'].
Qed.

Lemma on_nic_ret {A} (a : A) s : on_nic (mret a) s = (Ret a, s, []).
Proof. rewrite (on_nic_run (mret a) s (Ret a) (nic s) [] eq_refl). by rewrite set_nic_id. Qed.

Lemma free_safe k buf b s0 :
  detached buf b s0 →
  triple Fx (after s0) (on_nic (NIC.free k buf)) (λ _, proc_ok) proc_ok.
Proof.
  intros Hd. apply triple_at. intros s Hs. destruct (detached_after _ _ _ _ Hs Hd) as [Hb Hn].
  set (m := match fb_own b, k with
            | None, SHM => on_ipc (release_frame (me (nic s)) (fb_seq b)) | _, _ => mret tt end).
  eapply triple_eq with (n := _ ← on_nic m; on_nic (NIC.delete_buffer buf)).
  { intros ? ->. rewrite <- on_nic_bind. unfold on_nic, NIC.on_nics, zoom, NIC.free. mstep.
    rewrite Hb. mstep. done. }
  assert (keeps Fx (after s0) (on_nic m)) as Hm.
  { assert (keeps Fx (after s0) (on_nic (on_ipc (release_frame (me (nic s)) (fb_seq b))))) as Hrel.
    { apply keeps_on_ipc. intros. apply keeps_release_frame, (po_me _ _ _ _ (after_proc _ _ Hs)). }
    assert (keeps Fx (after s0) (on_nic (mret tt))) as Hret.
    { intros t Ht. unfold on_nic, NIC.on_nics, zoom. cbn. rewrite set_nic_id. by split; [constructor|]. }
    unfold m. by destruct (fb_own b), k. }
  apply triple_bind with (R := λ _, after s0); [|intros []; by eapply delete_safe].
  eapply triple_conseq; [apply Hm|by intros ? ->|done|intros; by eapply after_proc].
Qed.

(** Reading a buffer. *)
Lemma buffer_data buf b s :
  proc_ok s → heap (nic s) !! buf = Some b →
  ∃ f, on_nic (NIC.data buf) s = (Ret f, s, []) ∧ frame_ok f ∧
    match fb_own b with
    | Some g => f = g
    | None => typed_slot (ipc (nic s)) (fb_slot b) → 13 ≤ data_length f
    end.
Proof.
  intros Hs Hb. destruct (po_heap _ _ _ _ Hs _ _ Hb) as [_ Hfb]. unfold fbuf_ok in Hfb.
  assert (∃ f, buf_frame (nic s) b = Some f ∧ frame_ok f ∧
    match fb_own b with
    | Some g => f = g
    | None => typed_slot (ipc (nic s)) (fb_slot b) → 13 ≤ data_length f
    end) as (f & Hf & Hok & Hx).
  { unfold buf_frame. destruct (fb_own b) as [g|]; [by exists g|]. pose proof (po_ipc _ _ _ _ Hs) as Hi.
    destruct (lookup_lt_is_Some_2 (buffer (blk (ipc (nic s)))) (fb_slot b)) as [sl Hsl].
    { by rewrite (io_slots _ Hi). }
    destruct (Forall_lookup_1 _ _ _ _ (io_frames _ Hi) Hsl) as [Hok Hlen].
    exists (slot_frame sl). rewrite Hsl. split; [done|]. split; [done|].
    intros (sl' & Hsl' & Hty). apply Hlen. by simplify_eq. }
  exists f. split; [|done].
  assert (NIC.data buf (nic s) = (Ret f, nic s, [])) as Hd.
  { unfold NIC.data. mstep. rewrite Hb. mstep. by rewrite Hf. }
  rewrite (on_nic_run _ _ _ _ _ Hd). by rewrite set_nic_id.
Qed.

Lemma packet_dport_ok mem : bytes_ok mem → is_u 16 (Packet.dport mem).
Proof. intros. apply leval_slice_bound; [done|lia]. Qed.
Lemma packet_sport_ok mem : bytes_ok mem → is_u 16 (Packet.sport mem).
Proof. intros. apply leval_slice_bound; [done|lia]. Qed.

(** The segment of a complete frame, as a message to send on. *)
Lemma segment_size_eq n : 13 ≤ n ≤ ETH_MTU → segment_size n = n - 13.
Proof.
  unfold segment_size, PACKET_HEADER_SIZE, LOCATION_HEADER_SIZE, PORT_HEADER_SIZE, MSG_AUTH_CODE_SIZE, ETH_MTU.
  intros. rewrite u32_small; [lia|unfold is_u; lia].
Qed.

Lemma segment_data_ok f from to :
  frame_ok f → 13 ≤ data_length f → address_ok from → address_ok to →
  data_ok from to (Packet.data (fdata f)) (segment_size (data_length f)).
Proof.
  intros [] Hl Hf Ht. rewrite segment_size_eq by lia. unfold ETH_MTU in *. split; try done.
  - by apply Forall_drop.
  - unfold Packet.data. rewrite length_drop, fo_array. lia.
  - lia.
Qed.

(** ** Frames from the network *)

Lemma keeps_filter e s0 f src dst :
  gw = true → frame_ok f → address_ok src → address_ok dst →
  keeps Fx (after s0) (Protocol.filter_system_messages gw e (fdata f) (data_length f) src dst).
Proof.
  intros Hgw [] Hs Hd. unfold Protocol.filter_system_messages.
  eapply yields_bind; [apply yields_address_raw|]. intros ext _.
  destruct (_ || _); [|by apply triple_ret].
  cbv zeta. destruct (Segment.header_type _); try (by apply triple_ret);
    (apply keeps_bind; [|intros; by apply triple_ret]).
  - by apply keeps_handle_ptp_message.
  - apply keeps_handle_group_message; try done. by do 2 apply Forall_drop.
Qed.

Lemma deliver_safe e s0 buf f sl sq q :
  proc_ok s0 → detached buf (mk_fbuf (Some f) sl sq q) s0 → frame_ok f → 13 ≤ data_length f →
  triple Fx (after s0) (Protocol.deliver_verified gw e buf f) (λ _, proc_ok) proc_ok.
Proof.
  intros Hs0 Hd Hf Hlen. unfold Protocol.deliver_verified. cbv zeta.
  pose proof (fo_array _ Hf) as Harr. pose proof (fo_length _ Hf) as Hmax. unfold ETH_MTU in Hmax.
  eapply yields_seq with (Q := λ c, c = Some p); [|apply after_proc|intros c ->].
  { apply triple_gets. intros s Hs. split; [done|]. apply (after_proc _ _ Hs). }
  eapply yields_seq; [apply yields_get_key|apply after_proc|]. intros key Hkey.
  unfold MSG_AUTH_CODE_SIZE in *.
  assert (0 ≤ data_length f - 8 ≤ Z.of_nat (length (fdata f))) as Hsz by lia.
  destruct (mac_total (fdata f) (data_length f - 8) key Hsz (fo_bytes _ Hf) Hkey) as (m & Hm & _).
  unfold CryptoService.generate_mac, CryptoService.getProvider. rewrite Hm.
  eapply yields_seq with (Q := λ m', m' = m); [|apply after_proc|intros ? ->].
  { intros s Hs. by split; [constructor|]. }
  rewrite read_mem_in by lia. apply triple_seq; [by apply triple_checked; eauto|apply after_proc|].
  intros received. case_decide; [by eapply free_safe|].
  apply triple_seq; [|apply after_proc|intros; by eapply free_safe].
  apply keeps_protocol_send; try done. apply segment_data_ok; try done.
  - split; [apply Hf|]. apply packet_sport_ok, Hf.
  - split; [apply local_ok|]. apply packet_dport_ok, Hf.
Qed.

Lemma quadrant_change_safe e s0 buf b :
  gw = true → detached buf b s0 →
  triple Fx (after s0) (Protocol.update_quadrant_change gw e buf) (λ _, proc_ok) proc_ok.
Proof.
  intros Hgw Hd. unfold Protocol.update_quadrant_change.
  apply triple_seq; [by apply keeps_notify_location_change|apply after_proc|]. intros _.
  apply triple_seq; [apply keeps_on_ipc; auto with keeps|apply after_proc|]. intros _.
  eapply yields_seq with (Q := is_u 8); [|apply after_proc|intros loc Hloc].
  { intros s Hs. unfold on_nic, NIC.on_nics, zoom. cbn. rewrite set_nic_id. split; [constructor|].
    split; [done|]. apply (after_proc _ _ Hs). }
  apply triple_seq; [apply keeps_on_ipc; auto with keeps|apply after_proc|]. intros _.
  by eapply free_safe.
Qed.

Lemma update_external_safe e s0 buf f sl sq q :
  gw = true → proc_ok s0 → detached buf (mk_fbuf (Some f) sl sq q) s0 →
  triple Fx (after s0) (Protocol.update_external gw e buf) (λ _, proc_ok) proc_ok.
Proof.
  intros Hgw Hs0 Hd. unfold Protocol.update_external. apply triple_at. intros s Hs ? ->. mstep.
  destruct (detached_after _ _ _ _ Hs Hd) as [Hb _]. rewrite Hb. mstep. cbn [fb_quad].
  destruct q; [by eapply quadrant_change_safe|].
  destruct (buffer_data _ _ _ (after_proc _ _ Hs) Hb) as (g & Hg & Hf & Heq). simpl in Heq. subst g.
  rewrite (bind_pure _ _ _ _ _ Hg). revert s Hs Hb Hg.
  assert (address_ok (mk_Address (shost f) (Packet.sport (fdata f)))) as Hfrom.
  { split; [apply Hf|]. apply packet_sport_ok, Hf. }
  assert (address_ok (mk_Address (dhost f) (Packet.dport (fdata f)))) as Hto.
  { split; [apply Hf|]. apply packet_dport_ok, Hf. }
  intros s Hs _ _. revert s Hs. change (triple Fx (after s0) (
    _ ← on_nic (NIC.register_nearby_entity SHM (shost f));
    if decide (data_length f < PACKET_HEADER_SIZE + MSG_AUTH_CODE_SIZE) then on_nic (NIC.free RAW buf) else
    r ← try_catch (b ← Protocol.filter_system_messages gw e (fdata f) (data_length f)
           (mk_Address (shost f) (Packet.sport (fdata f))) (mk_Address (dhost f) (Packet.dport (fdata f)));
           mret (Some b)) (λ _, mret None);
    match r with
    | Some false => Protocol.deliver_verified gw e buf f
    | _ => on_nic (NIC.free RAW buf)
    end) (λ _, proc_ok) proc_ok).
  apply triple_seq; [apply keeps_on_ipc; auto with keeps|apply after_proc|]. intros _.
  case_decide as Hlen; [by eapply free_safe|].
  apply triple_seq; [|apply after_proc|].
  - apply triple_try; [|intros; by apply triple_ret].
    apply keeps_bind; [by apply keeps_filter|intros; by apply triple_ret].
  - intros r. destruct r as [[|]|]; try by eapply free_safe.
    eapply deliver_safe; try done.
    unfold PACKET_HEADER_SIZE, LOCATION_HEADER_SIZE, PORT_HEADER_SIZE, MSG_AUTH_CODE_SIZE in Hlen. lia.
Qed.

(** ** Frames from the shared memory *)

(** A fresh view of a slot with a frame of the protocol, at the state [s0]. *)
Record fresh_view (buf : nat) (s0 : pstate) : Prop := {
  fv_ok : proc_ok s0;
  fv_detached : ∃ sl sq q, detached buf (mk_fbuf None sl sq q) s0 ∧ typed_slot (ipc (nic s0)) sl;
  fv_room : room s0
}.

Lemma fresh_view_after buf s0 s : after s0 s → fresh_view buf s0 → fresh_view buf s.
Proof.
  intros Hs [Hok (sl & sq & q & Hd & Ht) Hr]. split; [by apply (after_proc s0)| |].
  - exists sl, sq, q. split; [by eapply detached_after|]. by apply (af_ipc _ _ _ _ _ Hs).
  - unfold room. by rewrite (af_queues _ _ _ _ _ Hs).
Qed.

Lemma free_view_safe k buf s0 :
  fresh_view buf s0 → triple Fx (after s0) (on_nic (NIC.free k buf)) (λ _, proc_ok) proc_ok.
Proof. intros [_ (sl & sq & q & Hd & _) _]. by eapply free_safe. Qed.

Lemma view_data buf s :
  fresh_view buf s →
  ∃ f, on_nic (NIC.data buf) s = (Ret f, s, []) ∧ frame_ok f ∧ 13 ≤ data_length f.
Proof.
  intros [Hok (sl & sq & q & [Hb _] & Ht) _].
  destruct (buffer_data _ _ _ Hok Hb) as (f & Hf & Hfr & Hl). exists f. split; [done|]. split; [done|].
  by apply Hl.
Qed.

Lemma one_listener_mono qs qs' o :
  (∀ c, is_Some (qs !! c) → is_Some (qs' !! c)) → one_listener qs o → one_listener qs' o.
Proof.
  intros Hq [Ho Hone]. split; [done|]. intros c. destruct (Hone c) as [?|(x & ? & ?)]; [by left|right; eauto].
Qed.

(** The buffer goes to the end of a queue. *)
Lemma queue_safe buf id s :
  fresh_view buf s → is_Some (queues s !! id) →
  triple Fx (λ s', s' = s) (Protocol.queue_incoming_buffer id buf) (λ _, proc_ok) proc_ok.
Proof.
  intros [Hok (sl & sq & q & [Hb Hn] & Ht) Hr] [qu Hq] ? ->. unfold Protocol.queue_incoming_buffer.
  mstep. rewrite Hq. mstep. pose proof (po_queues _ _ _ _ Hok _ _ Hq) as Hqok.
  unfold queue_update, sem_v. rewrite decide_False by (specialize (Hr _ _ Hq); lia).
  cbn. split; [constructor|]. set (qu' := mk_queue _ _).
  assert (∀ c i x, holds (<[id := qu']> (queues s)) c i x →
    holds (queues s) c i x ∨ (c = id ∧ i = length (q_data qu) ∧ x = buf)) as Hcases.
  { intros c i x (q' & Hq' & Hx). apply lookup_insert_Some in Hq' as [[-> <-]|[Hne Hq']];
      [|left; by exists q'].
    simpl in Hx. apply lookup_app_Some in Hx as [Hx|[Hle Hx]]; [left; by exists qu|right].
    apply list_lookup_singleton_Some in Hx as [? <-]. split; [done|]. split; [lia|done]. }
  assert (∀ c, is_Some (queues s !! c) → is_Some (<[id := qu']> (queues s) !! c)) as Hkeep.
  { intros c Hc. destruct (decide (id = c)) as [->|]; [rewrite lookup_insert_eq; eauto|].
    by rewrite lookup_insert_ne. }
  destruct Hok. split; try done; simpl.
  - intros c q' Hc. apply lookup_insert_Some in Hc as [[_ <-]|[_ Hc]]; [|by apply po_queues in Hc].
    unfold queue_ok in *. simpl. rewrite length_app. simpl. lia.
  - intros c i x Hx. apply Hcases in Hx as [Hx|(-> & -> & ->)]; [by apply (po_live c i)|].
    eexists. split; [exact Hb|]. split; [done|]. exact Ht.
  - intros c i c' i' x Hx Hx'. apply Hcases in Hx as [Hx|(-> & -> & ->)];
      apply Hcases in Hx' as [Hx'|(-> & -> & Heq)]; try done; [by eapply po_once| |].
    + subst x. destruct Hn. by exists c, i.
    + destruct Hn. by exists c', i'.
  - by apply (one_listener_mono (queues s)).
  - by apply (one_listener_mono (queues s)).
Qed.

(** A notification of the communicators: nobody, or one queue. *)
Lemma notify_one_safe buf c (obs : observed nat Z) s k :
  fresh_view buf s → one_listener (queues s) obs →
  triple Fx (λ s', s' = s)
    (handled ← notify (λ o, Protocol.queue_incoming_buffer o buf) c obs;
     if (handled : bool) then mret tt else on_nic (NIC.free k buf)) (λ _, proc_ok) proc_ok.
Proof.
  intros Hv [_ Hone]. destruct (Hone c) as [Hm|(id & Hm & Hq)].
  - intros ? ->. rewrite (bind_pure _ _ _ false s) by (rewrite notify_eq, Hm; done).
    apply (free_view_safe k buf s Hv s). apply after_refl, Hv.
  - apply triple_eq with (n := _ ← Protocol.queue_incoming_buffer id buf; mret tt).
    { intros ? ->. rewrite (bind_head _ (_ ← Protocol.queue_incoming_buffer id buf; mret true)).
      2:{ rewrite notify_eq, Hm. simpl. rewrite bind_assoc. apply bind_ext. intros [] st. done. }
      rewrite bind_assoc. apply bind_ext. done. }
    eapply triple_bind; [by apply queue_safe|]. intros []. by apply triple_ret.
Qed.

Lemma notify_communicator_safe dp buf s0 :
  fresh_view buf s0 →
  triple Fx (after s0) (Protocol.notify_communicator dp buf) (λ _, proc_ok) proc_ok.
Proof.
  intros Hv0. unfold Protocol.notify_communicator. apply triple_at. intros s Hs.
  pose proof (fresh_view_after _ _ _ Hs Hv0) as Hv.
  assert (∀ k, triple Fx (λ s', s' = s) (on_nic (NIC.free k buf)) (λ _, proc_ok) proc_ok) as Hfree.
  { intros k ? ->. by apply (free_view_safe k buf s0). }
  case_decide.
  - destruct (view_data _ _ Hv) as (f & Hf & _).
    eapply triple_goto; [exact (bind_pure _ _ _ _ _ Hf)|]. cbv zeta.
    case_decide; [|apply Hfree]. eapply triple_goto; [exact (bind_gets _ _ s)|].
    apply notify_one_safe; [done|]. apply (po_types _ _ _ _ (fv_ok _ _ Hv)).
  - eapply triple_goto; [exact (bind_gets _ _ s)|].
    apply notify_one_safe; [done|]. apply (po_ports _ _ _ _ (fv_ok _ _ Hv)).
Qed.

Lemma update_local_safe e buf s0 :
  fresh_view buf s0 → triple Fx (after s0) (Protocol.update_local gw e buf) (λ _, proc_ok) proc_ok.
Proof.
  intros Hv0. unfold Protocol.update_local. apply triple_at. intros s Hs.
  pose proof (fresh_view_after _ _ _ Hs Hv0) as Hv. destruct (view_data _ _ Hv) as (f & Hd & Hf & Hlen).
  eapply triple_goto; [exact (bind_pure _ _ _ _ _ Hd)|]. cbv zeta.
  apply (triple_conseq _ _ (after s0) _ _ (λ _, proc_ok) _ proc_ok); try done; [|by intros ? ->].
  destruct (mac_eqb _ _); [|by apply notify_communicator_safe].
  eapply triple_seq; [by apply triple_gets|apply after_proc|]. intros x.
  apply triple_seq; [|apply after_proc|].
  - destruct (_ && _); [|by apply triple_ret].
    eapply yields_bind; [apply yields_address_raw|]. intros mac Hmac.
    apply keeps_bind; [|intros; by apply triple_ret]. apply keeps_protocol_send; try done.
    apply segment_data_ok; try done; split; simpl; try done; try apply Hf;
      [by apply packet_sport_ok, Hf|by apply packet_dport_ok, Hf].
  - intros _. case_decide; [by apply notify_communicator_safe|by apply free_view_safe].
Qed.

(** ** The threads of the NICs *)

Lemma nic_notify_run update k prot id s :
  proc_ok s →
  NIC.notify nic update k prot id s = (Ret false, s, []) ∨
  prot = ETHERNET_PROTOCOL_NUMBER ∧
  NIC.notify nic update k prot id s = (_ ← update k prot id; mret true) s.
Proof.
  intros Hs. assert (obs_ok (get_obs k (nic s))) as Hobs by (destruct k; apply Hs).
  unfold NIC.notify. rewrite bind_gets, notify_eq.
  destruct Hobs as [->| ->]; [by left|]. unfold matching, proto_obs. simpl.
  case_decide as Hp; [|by left]. right. split; [done|]. simpl. rewrite bind_assoc.
  apply bind_ext. intros []. done.
Qed.

Lemma packet_frame garbage l :
  packet_ok l → (length l ≤ 1514)%nat → bytes_ok garbage → length garbage = 1500%nat →
  frame_ok (frame_of_bytes garbage l).
Proof.
  intros [Hb Hl] Hmax Hg Hgl. unfold frame_of_bytes.
  assert (length (frame_header_bytes Frame_zero ++ garbage) = 1514%nat) as Hlen.
  { rewrite length_app, Hgl. done. }
  set (mem := splice 0 l _).
  assert (length mem = 1514%nat) as Hmem by (unfold mem; rewrite length_splice; lia).
  assert (bytes_ok mem) as Hok.
  { unfold mem, splice. rewrite take_0, app_nil_l. apply Forall_app_2; [done|].
    apply Forall_drop, Forall_app_2; [|done]. by vm_compute; repeat constructor. }
  split; simpl.
  - split; [cbn [addr]; rewrite length_slice; unfold ADDR_LEN; lia|by apply slice_ok].
  - split; [cbn [addr]; rewrite length_slice; unfold ADDR_LEN; lia|by apply slice_ok].
  - apply leval_slice_bound; [done|lia].
  - rewrite length_drop. lia.
  - by apply Forall_drop.
  - unfold HEADER_SIZE, ETH_MTU. rewrite u32_small; [lia|unfold is_u; lia].
Qed.

Lemma proc_ok_rx s l : proc_ok s → Forall packet_ok l → proc_ok (set_nic (set_rx l (nic s)) s).
Proof. intros [] Hl. by split. Qed.
Lemma proc_ok_next_seq s z : proc_ok s → is_u 64 z → proc_ok (set_nic (set_next_seq z (nic s)) s).
Proof. intros [] Hl. by split. Qed.
Lemma proc_ok_quadrant s q : proc_ok s → is_u 8 q → proc_ok (set_nic (set_quadrant q (nic s)) s).
Proof. intros [] Hl. by split. Qed.


Abbreviation upd e := (Protocol.update gw e).

Lemma update_raw e prot id : gw = true → upd e RAW prot id = Protocol.update_external gw e id.
Proof. unfold Protocol.update. by intros ->. Qed.

(** A buffer that the protocol takes, or that the thread disposes of. *)
Lemma notify_safe e k prot id s (dispose : P unit) :
  proc_ok s →
  (prot = ETHERNET_PROTOCOL_NUMBER → triple Fx (after s) (upd e k prot id) (λ _, proc_ok) proc_ok) →
  triple Fx (after s) dispose (λ _, proc_ok) proc_ok →
  triple Fx (λ s', s' = s)
    (handled ← NIC.notify nic (upd e) k prot id; if (handled : bool) then mret tt else dispose)
    (λ _, proc_ok) proc_ok.
Proof.
  intros Hs Hu Hd. destruct (nic_notify_run (upd e) k prot id s Hs) as [Hr|[Hp Hr]].
  - intros ? ->. rewrite (bind_pure _ _ _ _ _ Hr). by apply (Hd s), after_refl.
  - apply triple_eq with (n := _ ← upd e k prot id; mret tt).
    { intros ? ->. rewrite (bind_head _ _ _ _ Hr), bind_assoc. apply bind_ext. done. }
    apply triple_bind with (R := λ _, proc_ok); [|intros []; by apply triple_ret].
    eapply triple_conseq; [by apply Hu| |done|done]. intros ? ->. by apply after_refl.
Qed.

Lemma own_frame_safe s f :
  proc_ok s → frame_ok f →
  proc_ok (with_frame f s) ∧
  detached (next_buf (nic s)) (mk_fbuf (Some f) 0 0 false) (with_frame f s).
Proof.
  intros Hs Hf. destruct (proc_ok_new p gw base s (mk_fbuf (Some f) 0 0 false) Hs Hf) as [Hok _].
  split; [done|]. apply owned_detached; [done|apply lookup_insert_eq|eauto].
Qed.

Lemma socket_empty n s : rx s = [] → RawSocketEngine.receive n s = (Ret None, s, []).
Proof. intros Hr. unfold RawSocketEngine.receive. mstep. by rewrite Hr. Qed.
Lemma socket_next n l rest s :
  rx s = l :: rest → RawSocketEngine.receive n s = (Ret (Some (take n l)), set_rx rest s, []).
Proof. intros Hr. unfold RawSocketEngine.receive. mstep. rewrite Hr. by mstep. Qed.
Lemma new_buffer_run b s :
  NIC.new_buffer b s = (Ret (next_buf s), bump_buf (set_heap (<[next_buf s := b]> (heap s)) s), []).
Proof. done. Qed.

(** One packet from the socket. *)
Lemma keeps_receive_one e garbage :
  gw = true → bytes_ok garbage → length garbage = 1500%nat →
  keeps Fx proc_ok (Protocol.receive_one gw e garbage).
Proof.
  intros Hgw Hg Hgl. unfold Protocol.receive_one, NIC.receive_one. apply triple_at. intros s Hs.
  destruct (rx (nic s)) as [|l rest] eqn:Hrx.
  { eapply triple_goto; [exact (on_nic_same _ _ _ _ (socket_empty _ _ Hrx))|].
    by apply triple_ret; intros ? ->. }
  pose proof (po_rx _ _ _ _ Hs) as Hall. rewrite Hrx in Hall. apply Forall_cons in Hall as [[Hlb Hll] Hrest].
  set (s1 := set_nic (set_rx rest (nic s)) s).
  assert (proc_ok s1) as Hs1 by (by apply proc_ok_rx).
  eapply triple_goto; [exact (on_nic_pure _ _ _ _ _ (socket_next _ _ _ _ Hrx))|].
  fold s1. cbv zeta.
  assert (packet_ok (take 1514 l)) as Hpk.
  { split; [by apply Forall_take|]. rewrite length_take. lia. }
  assert (length (take 1514 l) ≤ 1514)%nat as Hmax by (rewrite length_take; lia).
  rewrite decide_False by (destruct Hpk; lia).
  set (f := frame_of_bytes garbage (take 1514 l)).
  assert (frame_ok f) as Hf by (by apply packet_frame).
  eapply triple_goto; [exact (on_nic_same _ _ s1 (my_mac (nic s1)) eq_refl)|].
  destruct (mac_eqb _ _); [by apply triple_ret; intros ? ->|].
  destruct (own_frame_safe s1 f Hs1 Hf) as [Hs2 Hd]. set (s2 := with_frame f s1) in *.
  eapply triple_goto; [exact (on_nic_pure _ _ _ _ _ (new_buffer_run _ _))|].
  change (set_nic _ s1) with s2. set (id := next_buf (nic s1)) in *.
  assert (∃ b, on_nic (NIC.filter_location RAW id) s2 = (Ret b, s2, [])) as [b Hb].
  { destruct (buffer_data id _ s2 Hs2 (de_buf _ _ _ Hd)) as (g & Hg' & _). eexists.
    unfold NIC.filter_location. rewrite on_nic_bind, (bind_pure _ _ _ _ _ Hg'), on_nic_bind.
    rewrite (on_nic_same _ _ _ _ (nic_location_run RAW _)). apply on_nic_ret. }
  eapply triple_goto; [exact (bind_pure _ _ _ _ _ Hb)|].
  assert (∀ m : P unit, triple Fx (after s2) m (λ _, proc_ok) proc_ok →
    triple Fx (λ s', s' = s2) (_ ← m; mret true) (λ _, proc_ok) proc_ok) as Hend.
  { intros m Hm. apply triple_bind with (R := λ _, proc_ok); [|intros; by apply triple_ret].
    eapply triple_conseq; [apply Hm| |done|done]. intros ? ->. by apply after_refl. }
  destruct b; [apply Hend; by eapply free_safe|].
  apply triple_eq with (n := _ ← (handled ← NIC.notify nic (upd e) RAW (ntohs (ftype f)) id;
                             if (handled : bool) then mret tt else on_nic (NIC.delete_buffer id)); mret true).
  { intros. by rewrite bind_assoc. }
  apply triple_bind with (R := λ _, proc_ok); [|intros; by apply triple_ret].
  apply notify_safe; [done| |by eapply delete_safe]. intros _.
  rewrite (update_raw e _ id Hgw). by eapply update_external_safe.
Qed.

Lemma keeps_handle_receive e fuel garbage :
  gw = true → bytes_ok garbage → length garbage = 1500%nat →
  keeps Fx proc_ok (Protocol.handle_receive gw e fuel garbage).
Proof.
  intros Hgw Hg Hl. induction fuel as [|fuel IH]; [by apply triple_ret|].
  apply keeps_bind; [by apply keeps_receive_one|]. intros more. by destruct more; [|apply triple_ret].
Qed.

(** One message of the ring. *)
Lemma receiver_turn_safe e eintr :
  triple Fx (λ s, proc_ok s ∧ room s) (Protocol.receiver_turn gw e eintr) (λ _, proc_ok) proc_ok.
Proof.
  unfold Protocol.receiver_turn, NIC.receiver_turn. apply triple_at. intros s [Hs Hroom].
  eapply triple_goto; [exact (bind_gets _ _ s)|].
  eapply triple_bind with (R := λ r s', after s s' ∧ ∀ k, r = Some k →
    k = Z.to_nat (next_seq (nic s) `mod` BUFFER_SLOTS)).
  { eapply triple_conseq; [apply (yields_on_ipc p gw base s (receive_zerocopy (me (nic s)) eintr (next_seq (nic s))))| | |].
    - intros i0. apply yields_receive_zerocopy.
    - intros ? ->. by apply after_refl.
    - done.
    - apply after_proc. }
  intros [slot|]; [|by apply triple_ret; intros ? [? _]; eapply after_proc].
  apply triple_at. intros s1 [Hs1 Hslot]. specialize (Hslot slot eq_refl).
  pose proof (after_proc _ _ Hs1) as Hok1. pose proof (po_ipc _ _ _ _ Hok1) as Hipc.
  assert (slot < 32)%nat as Hlt.
  { subst slot. unfold BUFFER_SLOTS. pose proof (Z.mod_pos_bound (next_seq (nic s)) 32). lia. }
  destruct (lookup_lt_is_Some_2 (buffer (blk (ipc (nic s1)))) slot) as [ms Hms].
  { by rewrite (io_slots _ Hipc). }
  eapply triple_goto; [exact (bind_gets _ _ s1)|]. cbv beta. rewrite Hms.
  eapply triple_goto; [exact (bind_checked _ _ s1)|].
  set (n' := u64 (next_seq (nic s) + 1)). set (s2 := set_nic (set_next_seq n' (nic s1)) s1).
  assert (proc_ok s2) as Hok2 by (apply proc_ok_next_seq; [done|apply u64_bound]).
  eapply triple_goto; [exact (on_nic_pure (modify (set_next_seq n')) _ _ _ _ eq_refl)|].
  change (set_nic _ s1) with s2. set (b := mk_fbuf None slot (slot_seq ms) false).
  eapply triple_goto; [exact (on_nic_pure _ _ _ _ _ (new_buffer_run b _))|].
  set (s3 := set_nic (bump_buf _) s2). set (id := next_buf (nic s2)).
  destruct (proc_ok_new p gw base s2 b Hok2 Hlt) as [Hok3 _].
  assert (detached id b s3) as Hd by (apply fresh_detached; [done|apply lookup_insert_eq|done]).
  apply notify_safe; [done| |by eapply free_safe]. intros Hty. apply update_local_safe. split; [done| |].
  - exists slot, (slot_seq ms), false. split; [done|]. exists ms. split; [exact Hms|]. unfold typed, PROTO.
    destruct (Forall_lookup_1 _ _ _ _ (io_frames _ Hipc) Hms) as [Hfr _].
    rewrite <- (ntohs_htons _ (fo_type _ Hfr)). unfold ntohs in Hty |- *. by rewrite Hty.
  - intros c q Hq. apply (Hroom c q). by rewrite <- (af_queues _ _ _ _ _ Hs1).
Qed.

(** A move to another quadrant. *)
Lemma keeps_quadrant_changer e draws :
  gw = true → Forall (is_u 8) draws → keeps Fx proc_ok (Protocol.quadrant_changer_turn gw e draws).
Proof.
  intros Hgw Hdraws. unfold Protocol.quadrant_changer_turn, NIC.quadrant_changer_turn.
  apply triple_at. intros s Hs. eapply triple_goto; [exact (bind_gets _ _ s)|].
  destruct (NIC.pick_quadrant _ _) as [q|] eqn:Hq; [|by apply triple_blocked; intros ? ->].
  assert (is_u 8 q) as Hqb.
  { revert Hq. clear -Hdraws. induction Hdraws as [|d ds Hd _ IH]; [done|]. simpl.
    case_decide; [done|]. by intros [= <-]. }
  eapply triple_goto; [exact (on_nic_pure (modify (set_quadrant q)) _ _ _ _ eq_refl)|].
  set (s1 := set_nic (set_quadrant q _) s).
  assert (proc_ok s1) as Hs1 by (by apply proc_ok_quadrant).
  unfold NIC.protocol_quadrant_change.
  eapply triple_goto; [exact (on_nic_same _ _ s1 (my_mac (nic s1)) eq_refl)|].
  set (f := mk_Frame (my_mac (nic s1)) (my_mac (nic s1)) NIC.ETHER_TYPE (fdata Frame_zero) 0).
  assert (frame_ok f) as Hf.
  { pose proof (po_mac _ _ _ _ Hs1). split; try done; try (by vm_compute). by apply bytes_ok_replicate. }
  eapply triple_goto; [exact (on_nic_pure _ _ _ (Some (next_buf (nic s1))) (nic (with_frame f s1)) eq_refl)|].
  cbv iota beta. set (id := next_buf (nic s1)).
  set (b := mk_fbuf (Some f) 0 0 true).
  set (s3 := set_nic (bump_buf (set_heap (<[id := b]> (heap (nic s1))) (nic s1))) s1).
  destruct (proc_ok_new p gw base s1 b Hs1 Hf) as [Hok3 _].
  set (mark := modify _).
  assert (mark (nic (with_frame f s1)) = (Ret tt, nic s3, [])) as Hmark.
  { unfold mark, modify, s3, with_frame, set_heap, bump_buf. cbn. fold id. by rewrite alter_insert_eq. }
  eapply triple_goto; [exact (on_nic_pure mark _ (with_frame f s1) tt (nic s3) Hmark)|].
  change (set_nic (nic s3) _) with s3.
  assert (detached id b s3) as Hd by (apply owned_detached; [done|apply lookup_insert_eq|eauto]).
  destruct (nic_notify_run (upd e) RAW NIC.ETHER_TYPE id s3 Hok3) as [Hr|[_ Hr]].
  - eapply triple_goto; [exact (bind_pure _ _ _ _ _ Hr)|]. by apply triple_ret; intros ? ->.
  - eapply triple_eq; [intros ? ->; exact (bind_head _ _ _ _ Hr)|].
    apply triple_bind with (R := λ _, proc_ok); [|intros; by apply triple_ret].
    apply triple_bind with (R := λ _, proc_ok); [|intros; by apply triple_ret].
    rewrite (update_raw e _ id Hgw).
    eapply triple_conseq; [by apply (update_external_safe e s3 id f 0 0 true)| |done|done].
    intros ? ->. by apply after_refl.
Qed.

End safety.
