(* ===== verification/CommSafe.v ===== *)
(** Type safety of the communicators: construction and destruction,
    subscriptions, sending and receiving messages. *)
From S2P Require Import Prelude Hoare Ethernet Packet Teds Crypto Clock Observer Shm ShmSafe HandlerSafe.
From S2P Require Import Nic Protocol ProtocolLemmas Communicator Safety ReceiveSafe.
Local Open Scope Z_scope.

(** ** Who listens *)

Section listeners.
Context {Ob C : Type} `{EqDecision Ob, EqDecision C}.
Implicit Types (o : observed Ob C).

Lemma matching_attach id c c' o :
  matching c' (attach (Some id) c o) = if decide (c' = c) then id :: matching c' o else matching c' o.
Proof. unfold matching. simpl. repeat case_decide; simplify_eq; done. Qed.

Lemma matching_detach id c c' o :
  observed_ok o →
  matching c' (detach (Some id) c o)
  = if decide (c' = c) then filter (λ x, x ≠ id) (matching c' o) else matching c' o.
Proof.
  intros Ho. destruct (detach_registrations (Some id) c o Ho) as [Hr Hok].
  rewrite !matching_registrations, Hr by done.
  clear Hr Hok. induction (registrations o) as [|[x d] l IH]; [by case_decide|].
  destruct (decide (x = Some id ∧ d = c)) as [[-> ->]|Hne].
  - rewrite filter_cons_False by naive_solver. rewrite IH. simpl.
    destruct (decide (c' = c)) as [->|Hc]; [|by rewrite decide_False by congruence].
    rewrite decide_True by done. by rewrite filter_cons_False by naive_solver.
  - rewrite filter_cons_True by naive_solver. csimpl. destruct (decide (d = c')) as [->|Hd]; [|done].
    destruct x as [x|]; [|done]. rewrite IH. destruct (decide (c' = c)) as [->|Hc]; [|done].
    by rewrite filter_cons_True by naive_solver.
Qed.
End listeners.

(** A listener more, where nobody listens. *)
Lemma one_listener_attach qs id c o :
  one_listener qs o → matching c o = [] → is_Some (qs !! id) → one_listener qs (attach (Some id) c o).
Proof.
  intros [Ho Hone] Hc Hq. split; [by unfold observed_ok in *; simpl; f_equal|]. intros c'.
  rewrite matching_attach. case_decide as Heq; [|done]. subst c'. right. exists id. by rewrite Hc.
Qed.

(** A listener less. *)
Lemma one_listener_detach qs id c o : one_listener qs o → one_listener qs (detach (Some id) c o).
Proof.
  intros [Ho Hone]. split; [by apply detach_registrations|]. intros c'.
  rewrite matching_detach by done. destruct (Hone c') as [Hm|(x & Hm & Hq)]; rewrite Hm; simpl.
  - left. by case_decide.
  - case_decide; [|by eauto]. rewrite filter_cons. case_decide; [by eauto|by left].
Qed.

(** The queue of somebody who does not listen goes. *)
Lemma one_listener_delete qs id o :
  one_listener qs o → (∀ c, id ∉ matching c o) → one_listener (delete id qs) o.
Proof.
  intros [Ho Hone] Hn. split; [done|]. intros c. destruct (Hone c) as [?|(x & Hm & Hq)]; [by left|].
  right. exists x. split; [done|]. rewrite lookup_delete_ne; [done|]. intros ->. apply (Hn c). rewrite Hm. set_solver.
Qed.

Section safety.
Context (p : ICryptoProvider) `{MacLaws p} (gw : bool) (base : Ipc).
Abbreviation proc_ok := (proc_ok p gw base).
Abbreviation after := (after p gw base).
Abbreviation Fx := effect_ok.

(** The communicator [c] is live, and listens nowhere but where it says. *)
Record comm_ok (c : communicator) (s : pstate) : Prop := {
  co_queue : is_Some (queues s !! c_id c);
  co_address : address_ok (c_address c);
  co_ports : ∀ n, c_id c ∈ matching n (ports s) → n = port (c_address c);
  co_types : ∀ t, c_id c ∈ matching t (types s) → t ∈ c_subscribed c
}.

Lemma construct_safe id a :
  address_ok a →
  triple Fx (λ s, proc_ok s ∧ queues s !! id = None ∧ matching (port a) (ports s) = [] ∧
                  (∀ n, id ∉ matching n (ports s)) ∧ (∀ t, id ∉ matching t (types s)))
    (Communicator.construct id a) (λ c s, proc_ok s ∧ comm_ok c s) proc_ok.
Proof.
  intros Ha s (Hs & Hid & Hp & Hnp & Hnt). unfold Communicator.construct, Protocol.attach_port_listener. mstep.
  cbn. split; [constructor|]. set (q := mk_queue 0 []). set (s' := set_ports _ _).
  assert (∀ c i x, holds (<[id := q]> (queues s)) c i x → holds (queues s) c i x) as Hold.
  { intros c i x (q' & Hq' & Hx). apply lookup_insert_Some in Hq' as [[_ <-]|[_ Hq']]; [done|by exists q']. }
  assert (∀ c, is_Some (queues s !! c) → is_Some (<[id := q]> (queues s) !! c)) as Hkeep.
  { intros c Hc. destruct (decide (id = c)) as [->|]; [rewrite lookup_insert_eq; eauto|].
    by rewrite lookup_insert_ne. }
  split.
  - destruct Hs. split; try done; simpl.
    + intros c q' Hc. apply lookup_insert_Some in Hc as [[_ <-]|[_ Hc]]; [done|by apply po_queues in Hc].
    + intros c i x Hx. by apply (po_live c i), Hold.
    + intros c i c' i' x Hx Hx'. eapply po_once; by apply Hold.
    + apply one_listener_attach; [by apply (one_listener_mono (queues s))|done|].
      rewrite lookup_insert_eq. eauto.
    + by apply (one_listener_mono (queues s)).
  - split; simpl; [by rewrite lookup_insert_eq; eauto|done| |].
    + intros n. rewrite matching_attach. case_decide; [done|]. intros Hn. by destruct (Hnp n).
    + intros t Ht. by destruct (Hnt t).
Qed.

Lemma proc_ok_types s o : proc_ok s → one_listener (queues s) o → proc_ok (set_types o s).
Proof. intros [] Ho. by split. Qed.
Lemma proc_ok_ports s o : proc_ok s → one_listener (queues s) o → proc_ok (set_ports o s).
Proof. intros [] Ho. by split. Qed.

Lemma subscribe_safe c t :
  triple Fx (λ s, proc_ok s ∧ comm_ok c s ∧ matching t (types s) = [])
    (Communicator.subscribe_to_type c t) (λ c s, proc_ok s ∧ comm_ok c s) proc_ok.
Proof.
  intros s (Hs & [] & Ht). unfold Communicator.subscribe_to_type, Protocol.attach_type_listener. mstep.
  cbn. split; [constructor|]. split.
  - apply proc_ok_types; [done|]. apply one_listener_attach; try done. apply Hs.
  - split; simpl; try done. intros t'. rewrite matching_attach. case_decide as Heq; [set_solver|].
    intros Hin. specialize (co_types0 t' Hin). set_solver.
Qed.

Lemma keeps_comm_send e c m s0 :
  data_ok (c_address c) (m_destination m)
    (Segment.get_bytes (Segment.mk (m_type m) (m_timestamp m) (m_payload m)))
    (Z.of_nat (length (Segment.get_bytes (Segment.mk (m_type m) (m_timestamp m) (m_payload m))))) →
  keeps Fx (after s0) (Communicator.send gw e c m).
Proof.
  intros Hm. unfold Communicator.send. cbv zeta. apply keeps_bind; [|intros; by apply triple_ret].
  by apply keeps_protocol_send.
Qed.

(** A message that an application may send. *)
Record sendable (m : Message) : Prop := {
  se_dest : address_ok (m_destination m);
  se_payload : bytes_ok (m_payload m);
  se_size : Z.of_nat (length (m_payload m)) < 2 ^ 31
}.

Lemma sendable_data c m :
  address_ok c → sendable m →
  let bytes := Segment.get_bytes (Segment.mk (m_type m) (m_timestamp m) (m_payload m)) in
  data_ok c (m_destination m) bytes (Z.of_nat (length bytes)).
Proof.
  intros Hc [] bytes. assert (bytes = Segment.header_bytes (m_type m) (m_timestamp m) ++ m_payload m) as Hb.
  { unfold bytes. by rewrite get_bytes_eq. }
  split; try done.
  - rewrite Hb. apply Forall_app_2; [apply segment_header_ok|done].
  - lia.
  - rewrite Hb, length_app, length_segment_header. lia.
Qed.

(** The queue loses its first buffer, which is then nobody's. *)
Lemma popped_safe s id n b rest :
  proc_ok s → queues s !! id = Some (mk_queue n (b :: rest)) →
  let s' := set_queues (<[id := mk_queue (n - 1) rest]> (queues s)) s in
  proc_ok s' ∧ ¬ held s' b ∧ view_of_typed s b.
Proof.
  intros Hs Hq s'.
  assert (∀ c i x, holds (queues s') c i x → holds (queues s) c (if decide (c = id) then S i else i) x) as Hold.
  { intros c i x (q' & Hq' & Hx). simpl in Hq'. apply lookup_insert_Some in Hq' as [[<- <-]|[Hne Hq']].
    - rewrite decide_True by done. by exists (mk_queue n (b :: rest)).
    - rewrite decide_False by done. by exists q'. }
  assert (holds (queues s) id 0 b) as Hfirst by (by exists (mk_queue n (b :: rest))).
  split; [|split; [|by apply (po_live _ _ _ _ Hs id 0)]].
  - destruct Hs. split; try done; simpl.
    + intros c q' Hc. apply lookup_insert_Some in Hc as [[_ <-]|[_ Hc]]; [|by apply po_queues in Hc].
      apply po_queues in Hq. unfold queue_ok in *. simpl in *. lia.
    + intros c i x Hx. by apply Hold, po_live in Hx.
    + intros c i c' i' x Hx Hx'. destruct (po_once _ _ _ _ _ (Hold _ _ _ Hx) (Hold _ _ _ Hx')) as [-> Hi].
      split; [done|]. by destruct (decide (c' = id)); simplify_eq.
    + apply (one_listener_mono (queues s)); [|done]. intros c Hc.
      destruct (decide (id = c)) as [->|]; [rewrite lookup_insert_eq; eauto|by rewrite lookup_insert_ne].
    + apply (one_listener_mono (queues s)); [|done]. intros c Hc.
      destruct (decide (id = c)) as [->|]; [rewrite lookup_insert_eq; eauto|by rewrite lookup_insert_ne].
  - intros (c & i & Hh). destruct (po_once _ _ _ _ Hs _ _ _ _ _ Hfirst (Hold _ _ _ Hh)) as [-> Hi].
    by rewrite decide_True in Hi.
Qed.

(** Reading a complete frame stays inside it. *)
Lemma protocol_receive_run buf n s b :
  proc_ok s → heap (nic s) !! buf = Some b → fb_own b = None → typed_slot (ipc (nic s)) (fb_slot b) →
  ∃ total from bytes, Protocol.receive buf (Z.of_nat n) s = (Ret (total, from, bytes), s, []) ∧ bytes_ok bytes.
Proof.
  intros Hs Hb Ho Ht. destruct (buffer_data p gw base _ _ _ Hs Hb) as (f & Hd & Hf & Hl). rewrite Ho in Hl.
  specialize (Hl Ht). pose proof (fo_length _ Hf) as Hmax. pose proof (fo_array _ Hf) as Harr.
  unfold ETH_MTU in Hmax. unfold Protocol.receive. rewrite (bind_pure _ _ _ _ _ Hd). cbv zeta.
  rewrite segment_size_eq by (unfold ETH_MTU; lia).
  rewrite read_mem_in.
  - do 3 eexists. mstep. split; [done|]. apply slice_ok, Forall_drop, Hf.
  - unfold Packet.data. rewrite length_drop. lia.
Qed.

(** What the message's vector holds after a receive. *)
Lemma resized_ok mem a b : bytes_ok mem → bytes_ok (MessageOps.resized mem a b).
Proof.
  intros Hm. unfold MessageOps.resized. case_decide; [by apply Forall_take|].
  apply Forall_app_2; [by apply Forall_take|by apply Forall_replicate].
Qed.

Lemma receive_safe c m :
  triple Fx (λ s, proc_ok s ∧ is_Some (queues s !! c_id c)) (Communicator.receive c m)
    (λ r s, proc_ok s ∧ (bytes_ok (m_payload m) → bytes_ok (m_payload r.2))) proc_ok.
Proof.
  unfold Communicator.receive. apply triple_at. intros s [Hs [[n l] Hq]].
  pose proof (po_queues _ _ _ _ Hs _ _ Hq) as Hqok. unfold queue_ok in Hqok. simpl in Hqok.
  destruct l as [|buf rest].
  { intros ? ->. unfold Communicator.pop. mstep. rewrite Hq. mstep. unfold sem_p. simpl in *.
    rewrite decide_False by lia. by split; [constructor|]. }
  destruct (popped_safe s (c_id c) n buf rest Hs Hq) as (Hs' & Hn & (b & Hb & Ho & Ht)).
  set (s' := set_queues _ s) in *.
  assert (Communicator.pop c s = (Ret (Some buf), s', [])) as Hpop.
  { unfold Communicator.pop. mstep. rewrite Hq. mstep. unfold sem_p. simpl in *.
    rewrite decide_True by lia. by mstep. }
  eapply triple_goto; [exact (bind_pure _ _ _ _ _ Hpop)|].
  destruct (protocol_receive_run buf (m_capacity m) s' b Hs' Hb Ho Ht) as (total & from & bytes & Hr & Hbytes).
  eapply triple_goto; [exact (bind_pure _ _ _ _ _ Hr)|].
  apply triple_bind with (R := λ _, proc_ok).
  2:{ intros _. cbv zeta. set (mem := bytes ++ _).
    assert (bytes_ok (m_payload m) → bytes_ok mem) as Hmem by (intros; by apply Forall_app_2, Forall_drop).
    repeat case_decide; apply triple_ret; (split; [done|]); simpl; intros Hm.
    - by apply Forall_take, Hmem.
    - by apply Forall_take, Hmem.
    - apply resized_ok. unfold splice. rewrite take_0, app_nil_l.
      apply Forall_app_2; [by apply slice_ok, Hmem|by apply Forall_drop, Hmem]. }
  unfold Protocol.free. eapply triple_goto; [exact (bind_gets _ _ s')|].
  rewrite (po_local _ _ _ _ Hs').
  eapply triple_conseq; [apply (free_safe p gw base SHM buf b s'); by split|intros ? ->; by apply after_refl|done|done].
Qed.

Definition detach_all (id : nat) (ts : list Z) (o : observed nat Z) : observed nat Z :=
  foldl (λ o t, detach (Some id) t o) o ts.

Lemma detach_types_run id ts s :
  Communicator.detach_types id ts s = (Ret tt, set_types (detach_all id ts (types s)) s, []).
Proof.
  revert s. induction ts as [|t ts IH]; intros s; [by destruct s|]. simpl.
  unfold Protocol.detach_type_listener. by rewrite bind_modify, IH.
Qed.

Lemma detach_all_listens qs id ts o :
  one_listener qs o →
  one_listener qs (detach_all id ts o) ∧
  ∀ c, id ∈ matching c (detach_all id ts o) → id ∈ matching c o ∧ c ∉ ts.
Proof.
  revert o. induction ts as [|t ts IH]; intros o Ho; [split; [done|]; intros c Hc; set_solver|].
  destruct (IH _ (one_listener_detach qs id t o Ho)) as [Hok Hin]. split; [done|]. intros c Hc.
  apply Hin in Hc as [Hc Hts]. rewrite matching_detach in Hc by apply Ho.
  case_decide; [apply list_elem_of_filter in Hc as [? _]; done|]. set_solver.
Qed.

Lemma destroy_safe c :
  triple Fx (λ s, proc_ok s ∧ comm_ok c s) (Communicator.destroy c) (λ _, proc_ok) proc_ok.
Proof.
  intros s [Hs [Hq Ha Hp Ht]]. unfold Communicator.destroy, Protocol.detach_port_listener. mstep.
  rewrite (bind_pure _ _ _ _ _ (detach_types_run _ _ _)). unfold modify. cbn. split; [constructor|].
  destruct (detach_all_listens (queues s) (c_id c) (elements (c_subscribed c)) (types s)) as [Hty Hin];
    [apply Hs|].
  assert (∀ d i x, holds (delete (c_id c) (queues s)) d i x → holds (queues s) d i x) as Hold.
  { intros d i x (q & Hd & Hx). apply lookup_delete_Some in Hd as [_ Hd]. by exists q. }
  destruct Hs. split; try done; simpl.
  - intros d q Hd. apply lookup_delete_Some in Hd as [_ Hd]. by apply po_queues in Hd.
  - intros d i x Hx. by apply (po_live d i), Hold.
  - intros d i d' i' x Hx Hx'. by eapply po_once; apply Hold.
  - apply one_listener_delete; [by apply one_listener_detach|]. intros n.
    rewrite matching_detach by apply po_ports. case_decide as Hn.
    + intros Hx. by apply list_elem_of_filter in Hx as [? _].
    + intros Hx. by apply Hp in Hx.
  - apply one_listener_delete; [done|]. intros n Hx. apply Hin in Hx as [Hx Hn].
    apply Hn, elem_of_elements, Ht, Hx.
Qed.
End safety.
