(* ===== verification/Vehicle.v ===== *)
(** Type safety of a vehicle: the operations of a process, the processes that
    share one shared memory, and what holds however their operations interleave. *)
From S2P Require Import Prelude Hoare Ethernet Packet Crypto Clock Observer Shm ShmSafe Ptp Group HandlerSafe.
From S2P Require Import Nic Protocol ProtocolLemmas ProtocolProps Communicator EndToEnd Boot.
From S2P Require Import Prelude Shm ShmSafe Safety ReceiveSafe CommSafe.
Local Open Scope Z_scope.

(** ** The operations of a process

    What its threads, its application and the kernel do to it, with the answers
    of the environment. *)
Inductive op :=
  | Arrive (packet : list Z)                     (* the kernel queues a packet at the socket *)
  | ReceiverTurn (eintr : bool)                  (* NIC<ShmEngine>::_receiver_thread *)
  | HandleReceive (fuel : nat) (garbage : list Z) (* NIC<RawSocketEngine>::handle_receive *)
  | ChangeQuadrant (draws : list Z)              (* NIC<RawSocketEngine>::_quadrant_changer *)
  | MonitorTurn (timed_out : bool) (pad1 pad2 : Z) (* GroupLeaderHandler::monitor_loop *)
  | TimerTurn (my_address : Address)             (* PtpTimerThread *)
  | Open (id : nat) (address : Address)          (* Communicator's constructor *)
  | Close (c : communicator)
  | Subscribe (c : communicator) (type_id : Z)
  | SendMessage (c : communicator) (m : Message)
  | ReceiveMessage (c : communicator) (m : Message)
  | IsNearby (a : Address)
  | AllNearby
  | ForgetNearby (a : MAC)
  | RegisterService (pid : Z) (name : list Z) (type_id : Z)
  | LookupService (type_id : Z).

Section operations.
Context (gw : bool) (e : netenv).

(** The leader's monitor thread, on the process's state. *)
Definition membership_monitor (timed_out : bool) (pad1 pad2 : Z) : P unit :=
  o ← gets group;
  match o with
  | Some (LeaderHandler l) =>
      ext ← Protocol.get_external_address gw;
      Protocol.run_handler gw e (Leader.monitor_turn timed_out (e_env e) (e_steady e) pad1 pad2 ext) l
        (λ l, set_group (Some (LeaderHandler l)))
  | _ => mret tt
  end.

Definition ignore {A} (m : P A) : P unit := _ ← m; mret tt.

Definition run_op (o : op) : P unit :=
  match o with
  | Arrive l => modify (λ s, set_nic (set_rx (rx (nic s) ++ [l]) (nic s)) s)
  | ReceiverTurn eintr => Protocol.receiver_turn gw e eintr
  | HandleReceive fuel garbage => Protocol.handle_receive gw e fuel garbage
  | ChangeQuadrant draws => Protocol.quadrant_changer_turn gw e draws
  | MonitorTurn timed_out p1 p2 => membership_monitor timed_out p1 p2
  | TimerTurn a => Protocol.request_synchronization gw e a
  | Open id a => ignore (Communicator.construct id a)
  | Close c => Communicator.destroy c
  | Subscribe c t => ignore (Communicator.subscribe_to_type c t)
  | SendMessage c m => ignore (Communicator.send gw e c m)
  | ReceiveMessage c m => ignore (Communicator.receive c m)
  | IsNearby a => ignore (Protocol.is_entity_nearby a)
  | AllNearby => ignore Protocol.get_entities_nearby
  | ForgetNearby a => Protocol.unregister_nearby_entity a
  | RegisterService pid name t => ignore (on_nic (NIC.registerComponentService pid name t))
  | LookupService t => ignore (on_nic (NIC.lookupByType t))
  end.

(** The arguments have their types, and a communicator is used while it lives:
    two never listen on one port or under one type, and no queue is full. *)
Definition op_ok (o : op) (s : pstate) : Prop :=
  match o with
  | Arrive l => packet_ok l
  | ReceiverTurn _ => room s
  | HandleReceive _ garbage => gw = true ∧ bytes_ok garbage ∧ length garbage = 1500%nat
  | ChangeQuadrant draws => gw = true ∧ Forall (is_u 8) draws
  | MonitorTurn _ _ _ => gw = true
  | TimerTurn a => address_ok a
  | Open id a => address_ok a ∧ queues s !! id = None ∧ matching (port a) (ports s) = [] ∧
      (∀ n, id ∉ matching n (ports s)) ∧ (∀ t, id ∉ matching t (types s))
  | Close c => comm_ok c s
  | Subscribe c t => comm_ok c s ∧ matching t (types s) = []
  | SendMessage c m => address_ok (c_address c) ∧ sendable m
  | ReceiveMessage c _ => is_Some (queues s !! c_id c)
  | IsNearby _ | AllNearby | ForgetNearby _ | RegisterService _ _ _ | LookupService _ => True
  end.
(** ** The start of a process *)

Inductive program :=
  | GatewayProgram (ptp_role : PtpRole) (group_role : GroupRole) (quadrant garbage generated : Z)
  | ComponentProgram.

(** What [fork] leaves: the provider is set, no buffer, no listener. *)
Definition new_process (p : ICryptoProvider) (mac : MAC) (i : Ipc) : pstate :=
  mk_pstate (mk_nics i 0 mac [] 0 false ∅ 0 1 observed_empty observed_empty) false false
    observed_empty observed_empty ∅ None None false (Some p).

Definition set_me (k : nat) (n : nics) : nics := mk_nics (ipc n) k (my_mac n) (rx n) (quadrant n)
  (fixed_location n) (heap n) (next_buf n) (next_seq n) (local_obs n) (ext_obs n).

(** The internal NIC registers as a client, then the protocol is initialised. *)
Definition start (pid : Z) (prog : program) : P unit :=
  k ← on_nic (on_ipc (register_client pid));
  _ ← on_nic (modify (set_me k));
  match prog with
  | GatewayProgram ptp_role group_role q garbage generated =>
      Gateway.construct e ptp_role group_role q garbage generated
  | ComponentProgram => Protocol.init_component
  end.
Definition program_ok (prog : program) : Prop :=
  match prog with
  | GatewayProgram _ _ q _ generated => gw = true ∧ is_u 8 q ∧ is_u 64 generated
  | ComponentProgram => gw = false
  end.
End operations.

Section safety.
Context (p : ICryptoProvider) `{MacLaws p} (gw : bool) (base : Ipc).
Abbreviation proc_ok := (proc_ok p gw base).
Abbreviation after := (after p gw base).
Abbreviation Fx := effect_ok.

Lemma ignore_safe {A} (P : pstate → Prop) (m : Protocol.P A) (Q : A → pstate → Prop) :
  triple Fx P m Q proc_ok → (∀ a s, Q a s → proc_ok s) → triple Fx P (ignore m) (λ _, proc_ok) proc_ok.
Proof.
  intros Hm HQ. eapply triple_bind; [exact Hm|]. intros a. apply triple_ret. apply HQ.
Qed.

(** An operation that keeps [after] keeps the process well formed. *)
Lemma after_safe {A} (P : pstate → Prop) (m : Protocol.P A) :
  (∀ s, P s → proc_ok s) → (∀ s0, keeps Fx (after s0) m) → triple Fx P m (λ _, proc_ok) proc_ok.
Proof.
  intros HP Hm. apply triple_at. intros s Hs.
  eapply triple_conseq; [apply (Hm s)|intros ? ->; by apply after_refl, HP|intros a|]; apply (after_proc p gw base).
Qed.

Lemma keeps_membership_monitor e s0 timed_out p1 p2 :
  gw = true → keeps Fx (after s0) (membership_monitor gw e timed_out p1 p2).
Proof.
  intros Hgw. unfold membership_monitor. apply triple_at. intros s Hs.
  eapply triple_goto; [exact (bind_gets _ _ s)|].
  destruct (po_group _ _ _ _ (after_proc _ _ _ _ _ Hs) Hgw) as (g & Hg & Hl). rewrite Hg.
  destruct g as [|l]; [by apply triple_ret; intros ? ->|].
  eapply (keeps_at _ (after s0)); [|exact Hs].
  eapply yields_bind; [by apply yields_external_address|]. intros ext Hext.
  eapply keeps_run_handler; [done|by apply keeps_monitor|by apply Hl|]. intros. by apply after_leader.
Qed.

Lemma run_op_safe e o :
  triple Fx (λ s, proc_ok s ∧ op_ok gw o s) (run_op gw e o) (λ _, proc_ok) proc_ok.
Proof.
  assert (∀ {A} (m : M Ipc effect A), (∀ i0, keeps Fx (since i0) m) →
    triple Fx (λ s, proc_ok s ∧ True) (on_nic (on_ipc m)) (λ _, proc_ok) proc_ok) as Hipc.
  { intros A m Hm. apply after_safe; [by intros ? [? _]|]. intros. by apply keeps_on_ipc. }
  destruct o; simpl.
  - apply triple_modify. intros s [Hs Hl]. apply proc_ok_rx; [done|].
    apply Forall_app_2; [apply Hs|by apply Forall_singleton].
  - apply receiver_turn_safe; done.
  - apply triple_at. intros s (Hs & Hgw & Hg & Hl). by eapply keeps_at; [apply keeps_handle_receive|].
  - apply triple_at. intros s (Hs & Hgw & Hd). by eapply keeps_at; [apply keeps_quadrant_changer|].
  - apply triple_at. intros s [Hs Hgw]. eapply keeps_at with (P := proc_ok); [|done].
    apply after_safe; [done|]. intros. by apply keeps_membership_monitor.
  - apply triple_at. intros s [Hs Ha]. eapply keeps_at with (P := proc_ok); [|done].
    apply after_safe; [done|]. intros. by apply keeps_sync_request.
  - apply triple_at. intros s (Hs & Ha & Hpre).
    eapply ignore_safe; [eapply keeps_at; [by apply construct_safe|done]|by intros ? ? []].
  - by apply destroy_safe.
  - eapply ignore_safe; [by apply subscribe_safe|by intros ? ? []].
  - apply triple_at. intros s (Hs & Ha & Hm).
    eapply (ignore_safe _ _ (λ _, proc_ok)); [|done]. eapply keeps_at with (P := proc_ok); [|done].
    apply after_safe; [done|]. intros. by apply keeps_comm_send, sendable_data.
  - eapply ignore_safe; [by apply receive_safe|by intros ? ? []].
  - eapply (ignore_safe _ _ (λ _, proc_ok)); [|done]. apply Hipc. auto with keeps.
  - eapply (ignore_safe _ _ (λ _, proc_ok)); [|done]. apply Hipc. auto with keeps.
  - apply Hipc. auto with keeps.
  - eapply (ignore_safe _ _ (λ _, proc_ok)); [|done]. apply Hipc. auto with keeps.
  - eapply (ignore_safe _ _ (λ _, proc_ok)); [|done]. apply Hipc. auto with keeps.
Qed.

(** The start: either the process is well formed, or it ends and leaves the
    shared memory well formed. *)
Definition ended (s : pstate) : Prop := ipc_ok (ipc (nic s)) ∧ ipc_le base (ipc (nic s)).
Lemma proc_ended s : proc_ok s → ended s.
Proof. intros []. by split. Qed.

(** Registered, but nothing set up. *)
Definition registered_as (mac : MAC) (k : nat) (i : Ipc) : pstate :=
  set_nic (set_me k (nic (new_process p mac i))) (new_process p mac i).

Lemma register_safe pid mac i :
  ipc_ok i → ipc_le base i → mac_ok mac →
  triple Fx (λ s, s = new_process p mac i) (on_nic (on_ipc (register_client pid)))
    (λ k s, ∃ j, s = new_process p mac j ∧ since base j ∧ (k < 16)%nat) ended.
Proof.
  intros Hi Hle Hmac ? ->. unfold on_nic, NIC.on_nics, on_ipc, zoom. cbn [nic new_process ipc].
  pose proof (yields_register_client effect_ok base pid i (conj Hi Hle)) as Hr.
  destruct (register_client pid i) as [[o j] es]. destruct Hr as [Hes Ho]. split; [done|].
  destruct o; try done. destruct Ho as [Hj Hk]. by exists j.
Qed.

Lemma one_listener_empty qs : one_listener qs observed_empty.
Proof. split; [done|]. intros c. by left. Qed.

Lemma component_safe mac k j :
  gw = false → since base j → mac_ok mac → (k < 16)%nat →
  triple Fx (λ s, s = registered_as mac k j) Protocol.init_component (λ _, proc_ok) ended.
Proof.
  intros Hgw [Hj Hle] Hmac Hk ? ->. split; [constructor|]. cbn. split; try done.
  - by right.
  - by left.
  - intros c i id (q & Hq & _). done.
  - intros c i c' i' id (q & Hq & _). done.
  - apply one_listener_empty.
  - apply one_listener_empty.
  - by rewrite Hgw.
  - by rewrite Hgw.
Qed.

Lemma init_clock_run role s :
  ∃ y t, Protocol.init_clock_synchronization role s = (Ret tt, set_timer t (set_sync (Some y) s), []).
Proof. destruct role; [exists MasterSync, (timer s)|eexists _, true]; by destruct s. Qed.

(** The group's handler; a leader stores the key it drew. *)
Definition grouped (g : group_handler) (fx : bool) (i : Ipc) (s : pstate) : pstate :=
  set_nic (set_fixed fx (set_ipc i (nic s))) (set_group (Some g) s).

Lemma init_group_run e role garbage generated s :
  is_u 64 generated → ipc_ok (ipc (nic s)) →
  ∃ g fx i, Protocol.init_group_role gw e role garbage generated s = (Ret tt, grouped g fx i s, []) ∧
    since (ipc (nic s)) i ∧ ∀ l, g = LeaderHandler l → leader_ok l.
Proof.
  intros Hg Hi. destruct role.
  - exists (LeaderHandler (Leader.mk garbage [] ∅ 0 true)), true, (set_blk (set_key generated) (ipc (nic s))).
    split; [by destruct s as [[]]|]. split; [apply since_block; [by apply since_refl|by split]|].
    intros ? [= <-]. split; simpl; [constructor|constructor|..]; try done; intros ?; by rewrite ?elem_of_nil.
  - exists MemberHandler, false, (ipc (nic s)). split; [by destruct s as [[]]|].
    by split; [apply since_refl|].
Qed.

Lemma gateway_safe e ptp role q garbage generated mac k j :
  gw = true → is_u 8 q → is_u 64 generated → since base j → mac_ok mac → (k < 16)%nat →
  triple Fx (λ s, s = registered_as mac k j)
    (Protocol.init_gateway gw e q ptp role garbage generated) (λ _, proc_ok) ended.
Proof.
  intros Hgw Hq Hgen [Hj Hle] Hmac Hk. unfold Protocol.init_gateway.
  eapply triple_goto; [exact (bind_modify _ _ _)|].
  eapply triple_goto; [exact (on_nic_pure (modify _) _ _ tt _ eq_refl)|].
  eapply triple_goto; [exact (on_nic_pure (modify _) _ _ tt _ eq_refl)|].
  eapply triple_goto; [exact (on_nic_same (mret tt) _ _ tt eq_refl)|].
  set (s1 := set_nic _ _). destruct (init_clock_run ptp s1) as (y & t & Hc).
  eapply triple_goto; [exact (bind_pure _ _ _ _ _ Hc)|]. set (s2 := set_timer _ _).
  destruct (init_group_run e role garbage generated s2 Hgen Hj) as (g & fx & i & Hr & Hi & Hl).
  eapply triple_goto; [exact (bind_pure _ _ _ _ _ Hr)|]. set (s3 := grouped _ _ _ _).
  assert (proc_ok s3) as Hs3.
  { destruct Hi as [Hi Hji]. split; simpl; try done; try by right.
    - by transitivity j.
    - by intros c i' id (q' & Hq' & _).
    - by intros c i' c' i'' id (q' & Hq' & _).
    - apply one_listener_empty.
    - apply one_listener_empty.
    - eauto. }
  apply (triple_conseq _ _ proc_ok _ _ (λ _, proc_ok) _ proc_ok); [|by intros ? ->|done|apply proc_ended].
  unfold Protocol.update_quadrant.
  apply keeps_bind; [apply after_safe; [done|]; intros; apply keeps_on_ipc; auto with keeps|]. intros _.
  apply keeps_bind; [|intros; apply after_safe; [done|]; intros; by apply keeps_notify_location_change].
  intros s Hs. split; [constructor|]. by apply (proc_ok_quadrant p gw base s q).
Qed.

Lemma start_safe e pid prog mac i :
  ipc_ok i → ipc_le base i → mac_ok mac → program_ok gw prog →
  triple Fx (λ s, s = new_process p mac i) (start e pid prog) (λ _, proc_ok) ended.
Proof.
  intros Hi Hle Hmac Hprog. unfold start. eapply triple_bind; [by apply register_safe|]. intros k.
  apply triple_at. intros s (j & -> & Hj & Hk).
  eapply triple_goto; [exact (on_nic_pure (modify _) _ _ tt _ eq_refl)|].
  destruct prog; [destruct Hprog as (Hgw & Hq & Hgen)|by apply component_safe].
  unfold Gateway.construct. pose proof (gateway_safe e ptp_role group_role quadrant garbage generated mac k j) as Hsafe.
  rewrite Hgw in Hsafe |- *. by apply Hsafe.
Qed.
End safety.

(** ** Vehicles *)

Section vehicle.
Context (p : ICryptoProvider) `{MacLaws p}.

(** A well-formed process, whatever shared the memory before. *)
Definition well_formed (gw : bool) (s : pstate) : Prop := proc_ok p gw (ipc (nic s)) s.

(** One memory; each process keeps its own state, seen through that memory. *)
Record vehicle := mk_vehicle { shared : Ipc; procs : list (bool * pstate) }.

(** What the end of a process does to the semaphores: the kernel undoes its
    operations ([SysV]), so any values may be left, but no negative one. *)
Definition undone (i j : Ipc) : Prop :=
  blk j = blk i ∧
  match sems i with
  | Some _ => ∃ l, sems j = Some l ∧ length l = 20%nat ∧ Forall (λ n, 0 ≤ n) l
  | None => sems j = None
  end.

(** One operation of one process, however it ends; a process that starts, or
    fails to; a process that leaves, and one that is killed. What an operation
    did before it blocked or threw stays done. *)
Inductive vstep (v : vehicle) : vehicle → Prop :=
  | StepOp k gw s e o out s' es :
      procs v !! k = Some (gw, s) → op_ok gw o (seeing (shared v) s) →
      run_op gw e o (seeing (shared v) s) = (out, s', es) →
      vstep v (mk_vehicle (ipc (nic s')) (<[k := (gw, s')]> (procs v)))
  | StepStart gw e pid prog mac out s' es :
      mac_ok mac → program_ok gw prog →
      start e pid prog (new_process p mac (shared v)) = (out, s', es) →
      vstep v (mk_vehicle (ipc (nic s'))
                 (match out with Ret _ => procs v ++ [(gw, s')] | _ => procs v end))
  | StepExit k gw s (out : outcome unit) i j (es : list effect) :
      procs v !! k = Some (gw, s) → destroy_engine (me (nic s)) (shared v) = (out, i, es) →
      undone i j → vstep v (mk_vehicle j (delete k (procs v)))
  | StepKill k gw s j :
      procs v !! k = Some (gw, s) → undone (shared v) j →
      vstep v (mk_vehicle j (delete k (procs v))).

Definition vehicle_ok (v : vehicle) : Prop :=
  ipc_ok (shared v) ∧ ∀ k gw s, procs v !! k = Some (gw, s) → well_formed gw (seeing (shared v) s).

Lemma proc_ok_rebase gw b b' s : proc_ok p gw b s → ipc_le b' (ipc (nic s)) → proc_ok p gw b' s.
Proof using. intros [] ?. by split. Qed.

(** A process that waits while the memory moves on. *)
Lemma well_formed_moves gw i j s :
  well_formed gw (seeing i s) → ipc_ok j → ipc_le i j → well_formed gw (seeing j s).
Proof using.
  intros Hs Hj Hij. unfold well_formed.
  pose proof (proc_ok_ipc p gw i (seeing i s) j Hs (conj Hj Hij)) as Hok.
  by apply (proc_ok_rebase gw i j (seeing j s)).
Qed.

Lemma vehicle_ok_move v j l :
  vehicle_ok v → ipc_ok j → ipc_le (shared v) j →
  (∀ k gw s, l !! k = Some (gw, s) → well_formed gw (seeing j s) ∨ (gw, s) ∈ procs v) →
  vehicle_ok (mk_vehicle j l).
Proof using.
  intros [_ Hv] Hj Hle Hl. split; [done|]. intros k gw s Hk. destruct (Hl k gw s Hk) as [?|Hin]; [done|].
  apply list_elem_of_lookup in Hin as [k' Hk']. eapply well_formed_moves; eauto.
Qed.

Lemma seeing_self s : seeing (ipc (nic s)) s = s.
Proof using. unfold seeing. by rewrite set_ipc_id, set_nic_id. Qed.

Lemma op_result v k gw s e o out s' es :
  vehicle_ok v → procs v !! k = Some (gw, s) → op_ok gw o (seeing (shared v) s) →
  run_op gw e o (seeing (shared v) s) = (out, s', es) →
  out ≠ Undefined ∧ proc_ok p gw (shared v) s' ∧ Forall effect_ok es.
Proof using H.
  intros [_ Hv] Hk Ho Hr.
  destruct (triple_result _ _ _ _ _ _ _ _ _ (run_op_safe p gw (shared v) e o) (conj (Hv _ _ _ Hk) Ho) Hr)
    as (Hu & Hs & Hes). split; [done|]. split; [by destruct out|done].
Qed.

Lemma start_result v gw e pid prog mac out s' es :
  vehicle_ok v → mac_ok mac → program_ok gw prog →
  start e pid prog (new_process p mac (shared v)) = (out, s', es) →
  out ≠ Undefined ∧ (if out is Ret _ then proc_ok p gw (shared v) s' else True) ∧
  since (shared v) (ipc (nic s')) ∧ Forall effect_ok es.
Proof using H.
  intros [Hi _] Hm Hp Hr.
  destruct (triple_result _ _ _ _ _ _ _ _ _
    (start_safe p gw (shared v) e pid prog mac (shared v) Hi ltac:(done) Hm Hp) eq_refl Hr) as (Hu & Hs & Hes).
  split; [done|]. destruct out; (split; [done|]); (split; [|done]); try exact Hs. by apply (proc_ended p gw).
Qed.

Lemma since_undone i0 i j : since i0 i → undone i j → since i0 j.
Proof using.
  intros Hi [Hb Hs]. destruct j as [b l]. simpl in Hb. subst b. simpl in Hs.
  destruct (sems i) as [l0|].
  - destruct Hs as (l' & -> & Hl). by apply since_sems.
  - subst l. by apply since_no_sems.
Qed.

(** A process is gone, and the memory as it left it. *)
Lemma vehicle_ok_gone v j k : vehicle_ok v → since (shared v) j → vehicle_ok (mk_vehicle j (delete k (procs v))).
Proof using.
  intros Hv [Hj Hle]. apply (vehicle_ok_move v); [done..|]. intros k' gw' t Ht. right.
  apply list_elem_of_lookup_2 in Ht. by eapply elem_of_submseteq; [|apply sublist_submseteq, sublist_delete].
Qed.

Lemma vehicle_step v v' : vehicle_ok v → vstep v v' → vehicle_ok v'.
Proof using H.
  intros Hv Hstep. destruct Hstep as [k gw s e o out s' es Hk Ho Hr|gw e pid prog mac out s' es Hm Hp Hr|k gw s out i j es Hk Hr Hu|k gw s j Hk Hu].
  - destruct (op_result _ _ _ _ _ _ _ _ _ Hv Hk Ho Hr) as (_ & Hs & _).
    apply (vehicle_ok_move v); try apply Hs; [done|]. intros k' gw' t Ht.
    apply list_lookup_insert_Some in Ht as [(_ & [= <- <-] & _)|[_ Ht]]; [left|right; by eapply list_elem_of_lookup_2].
    rewrite seeing_self. by eapply proc_ok_rebase.
  - destruct (start_result _ _ _ _ _ _ _ _ _ Hv Hm Hp Hr) as (_ & Hs & [Hi Hle] & _).
    apply (vehicle_ok_move v); try done. intros k' gw' t Ht.
    assert ((gw', t) ∈ procs v ∨ (gw', t) = (gw, s') ∧ proc_ok p gw (shared v) s') as [?|[[= -> ->] Hok]].
    { destruct out; try (left; by eapply list_elem_of_lookup_2).
      apply list_elem_of_lookup_2, elem_of_app in Ht as [?|Ht%list_elem_of_singleton]; [by left|by right]. }
    + by right.
    + left. rewrite seeing_self. by eapply proc_ok_rebase.
  - destruct Hv as [Hi Hv]. pose proof (po_me _ _ _ _ (Hv _ _ _ Hk)) as Hme.
    destruct (triple_result _ _ _ _ _ _ _ _ _ (keeps_destroy_engine any (shared v) _ Hme)
      (since_refl _ Hi) Hr) as (_ & Hs & _).
    apply vehicle_ok_gone; [by split|]. eapply since_undone; [|exact Hu]. by destruct out.
  - apply vehicle_ok_gone; [done|]. eapply since_undone; [|exact Hu]. by apply since_refl, Hv.
Qed.
End vehicle.

(** ** Properties *)


(** A gateway that has just started in quadrant 2. *)
Definition boot0 : Ipc := mk_ipc init_block (Some (initial_sems (λ _, true))).
Definition program0 : program := GatewayProgram SLAVE MEMBER 2 0 0.
Definition started0 : pstate := (start nenv0 100 program0 (new_process XorCryptoProvider mac_a boot0)).1.2.

(** A frame of the protocol that stops after the packet's location. *)
Definition cut_packet : list Z :=
  addr BROADCAST_ADDR ++ addr mac_b ++ lebytes 2 (htons ETHERNET_PROTOCOL_NUMBER) ++ [2].
Definition attacked0 : pstate := (run_op true nenv0 (Arrive cut_packet) started0).1.2.
Definition garbage0 : list Z := replicate 1500 7.

Definition vehicle1 : vehicle := mk_vehicle (ipc (nic started0)) [(true, started0)].
Definition vehicle2 : vehicle := mk_vehicle (ipc (nic attacked0)) [(true, attacked0)].

(** Its request to join the group. *)
Definition join0 : list Z :=
  [255; 255; 255; 255; 255; 255; 2; 0; 0; 0; 0; 1; 136; 181; 2; 0; 0; 0; 0;
   3; 0; 0; 0; 0; 0; 0; 0; 0; 0; 2; 0; 0; 0; 0; 3; 0; 0].

Lemma run_pairing {A S E} (r : outcome A * S * list E) o es : r.1.1 = o → r.2 = es → r = (o, r.1.2, es).
Proof. destruct r as [[? ?] ?]. by intros <- <-. Qed.
Lemma start0_run :
  start nenv0 100 program0 (new_process XorCryptoProvider mac_a boot0) = (Ret tt, started0, [Sendto join0]).
Proof. unfold started0. apply (run_pairing (start _ _ _ _)); vm_compute; reflexivity. Qed.
Lemma arrive_run gw e l s : run_op gw e (Arrive l) s = (Ret tt, (run_op gw e (Arrive l) s).1.2, []).
Proof. done. Qed.
Lemma seeing_vehicle1 : seeing (shared vehicle1) started0 = started0.
Proof. apply seeing_self. Qed.
Lemma arrive0_run :
  run_op true nenv0 (Arrive cut_packet) (seeing (shared vehicle1) started0) = (Ret tt, attacked0, []).
Proof. rewrite seeing_vehicle1. apply arrive_run. Qed.
Lemma arrive0_ok s : op_ok true (Arrive cut_packet) s.
Proof. split; [by vm_compute; repeat constructor|vm_compute; lia]. Qed.

Lemma handle0_ok s : op_ok true (HandleReceive 2 garbage0) s.
Proof. split; [done|]. split; [by apply bytes_ok_replicate|apply length_replicate]. Qed.

Lemma handled0_run :
  ∃ s', run_op true nenv0 (HandleReceive 2 garbage0) (seeing (shared vehicle2) attacked0) = (Ret tt, s', []) ∧
    rx (nic s') = [].
Proof.
  exists (run_op true nenv0 (HandleReceive 2 garbage0) (seeing (shared vehicle2) attacked0)).1.2.
  split; [apply (run_pairing (run_op _ _ _ _))|]; vm_compute; reflexivity.
Qed.

Lemma started0_ok : well_formed XorCryptoProvider true started0.
Proof.
  pose proof (start_safe XorCryptoProvider true boot0 nenv0 100 program0 mac_a boot0
    (init_block_ok _) ltac:(done) mac_a_ok) as Hsafe.
  specialize (Hsafe ltac:(by repeat split; vm_compute) _ eq_refl).
  apply (proc_ok_rebase _ _ boot0); [|done].
  by rewrite start0_run in Hsafe; destruct Hsafe.
Qed.



