(* ===== verification/ComponentSafe.v ===== *)
(** Type safety of a component: its construction, the turns of its threads in
    any order, and what a message or a state must be for a turn to run into
    undefined behaviour. *)
From S2P Require Import Prelude Hoare Ethernet Packet Teds Crypto Clock Observer Shm ShmSafe.
From S2P Require Import Nic Protocol ProtocolLemmas ProtocolProps Communicator EndToEnd Control SmartData TedsHandler.
From S2P Require Import HandlerSafe Safety ReceiveSafe CommSafe Vehicle Component.
Local Open Scope Z_scope.

(** ** The turns of a component's threads *)

Inductive turn :=
  | TReceive (pad : list Z)                                (* receiver_loop *)
  | TSend (pad : list Z) (draw : Z) (external_ping : bool) (* active_send *)
  | TRespond                                               (* response_thread *)
  | TCleanUp                                               (* cleanup_loop of the TEDS handler *)
  | TSample (draw : Z).                                    (* the generator's thread *)

Definition run_turn (e : netenv) (tag : Z) (t : turn) : C unit :=
  match t with
  | TReceive pad => Component.receiver_loop e pad
  | TSend pad draw external_ping => _ ← Component.active_send e pad draw external_ping; mret tt
  | TRespond => _ ← Component.response_turn e; mret tt
  | TCleanUp => Component.cleanup
  | TSample draw => on_smart (DataGenerator.generate tag draw)
  end.
Definition turn_ok (t : turn) : Prop :=
  match t with TReceive pad | TSend pad _ _ => bytes_ok pad | _ => True end.

(** ** What may be read out of a message *)

(** A TEDS message has a type and a word; a response carries a [float] whose
    integer part an [int32_t] holds. *)
Definition teds_readable (payload : list Z) : Prop :=
  (8 ≤ length payload)%nat ∧
  (TEDS.is_response (leval (slice 0 4 payload)) = true → Float32.to_int (leval (slice 4 4 payload)) ≠ Undefined).

(** A control message has an envelope; a latency envelope has a latency header,
    and the time too where the handler uses it: a ping, and an echo of the
    component's own. *)
Definition control_readable (sender_id : Z) (payload : list Z) : Prop :=
  let size := Z.of_nat (length payload) in
  let copied := Z.min (leval (slice 1 4 payload)) (size - 5) in
  let type := leval (slice 5 4 payload) in
  5 ≤ size ∧
  (leval (slice 0 1 payload) = 1 →
     16 ≤ copied ∧ (type = 1 ∨ type = 2 ∧ leval (slice 13 8 payload) = sender_id → 24 ≤ copied)).

Definition readable (sender_id : Z) (m : Message) : Prop :=
  match m_type m with
  | Segment.TEDS => teds_readable (m_payload m)
  | Segment.CONTROL => control_readable sender_id (m_payload m)
  | _ => True
  end.

#[export] Instance readable_dec sender_id m : Decision (readable sender_id m).
Proof.
  assert (∀ b, Decision (Float32.to_int b = Undefined)) by (intros b; destruct (Float32.to_int b); by (left + right)).
  unfold readable, teds_readable, control_readable. destruct (m_type m); apply _.
Defined.

(** A turn of the receiver meets a message it cannot read, or the response
    thread finds no value yet. *)
Definition misread (t : turn) (s : component) : Prop :=
  match t with
  | TReceive _ => ∃ m q es,
      Communicator.receive (comm s) (MessageOps.sized 1024) (proc s) = (Ret (true, m), q, es) ∧
      ¬ readable (sender_id s) m
  | TRespond => response_running s = true ∧ updated_value (smart s) = None
  | _ => False
  end.

(** ** Well-formed components *)

Definition attached (tag : Z) : observed unit Z := attach (Some tt) (UnitTagType tag) observed_empty.

Section safety.
Context (p : ICryptoProvider) `{MacLaws p} (tag : Z) (base : Ipc).
Abbreviation proc_ok := (proc_ok p false base).
Abbreviation after := (after p false base).
Abbreviation Fx := effect_ok.

(** A well-formed process whose communicator lives, with its sensor data wired. *)
Record comp_ok (s : component) : Prop := {
  cp_proc : proc_ok (proc s);
  cp_queue : is_Some (queues (proc s) !! c_id (comm s));
  cp_address : address_ok (c_address (comm s));
  cp_gen : gen_obs (smart s) = attached tag;
  cp_tr : tr_obs (smart s) = attached tag
}.

(** A call of the process that frees nothing. *)
Lemma keeps_on_proc {A} (m : P A) : (∀ s0, keeps Fx (after s0) m) → keeps Fx comp_ok (on_proc m).
Proof.
  intros Hm s [Hp Hq Ha Hg Ht]. specialize (Hm (proc s) (proc s) (after_refl _ _ _ _ Hp)).
  unfold on_proc, zoom. destruct (m (proc s)) as [[o q] es]. destruct Hm as [Hes Ho]. split; [done|].
  assert (after (proc s) q → comp_ok (set_proc q s)) as Hok.
  { intros Hq'. split; try done; [by eapply after_proc|]. simpl. by rewrite (af_queues _ _ _ _ _ Hq'). }
  destruct o; auto.
Qed.

Lemma keeps_component_send e m :
  sendable m → keeps Fx comp_ok (comm_send (Comm := component_Comm e) m).
Proof.
  intros Hm. cbn. apply triple_at. intros s Hs. eapply triple_goto; [exact (bind_gets comm _ s)|].
  eapply keeps_at; [|exact Hs]. apply keeps_on_proc. intros s0. apply keeps_comm_send; [done|].
  by apply sendable_data; [apply Hs|].
Qed.

(** ** The handlers *)

Lemma keeps_send_packet e pad pkt dest :
  address_ok dest → bytes_ok pad →
  keeps Fx comp_ok (LatencyTestHandler.send_packet (comm := component_Comm e) pad pkt dest).
Proof.
  intros Hd Hpad. unfold LatencyTestHandler.send_packet. rewrite latency_envelope. cbv zeta.
  assert (ControlEnvelope.total_size (ControlEnvelope.mk_Packet
    (ControlEnvelope.mk_Header ControlEnvelope.LATENCY 24) (LatencyTest.packet_bytes pad pkt)) = 29%nat) as Hl.
  { unfold ControlEnvelope.total_size. cbn [ControlEnvelope.payload]. by rewrite length_latency_packet. }
  rewrite Hl, serialize_bytes by (rewrite Hl, length_replicate; lia).
  eapply triple_eq; [intros s _; exact (bind_pure _ _ s _ s eq_refl)|]. apply keeps_bind.
  { by apply triple_gets. }
  intros a. apply keeps_bind; [|intros ?; by apply triple_ret]. apply keeps_component_send. split; [done| |].
  - cbn [MessageOps.set_source MessageOps.control_now MessageOps.control m_payload ControlEnvelope.header
      ControlEnvelope.payload].
    unfold ControlEnvelope.header_bytes, LatencyTest.packet_bytes, LatencyTest.header_bytes.
    rewrite !Forall_app. repeat split; try apply lebytes_ok.
    + apply Forall_take, Forall_app. split; [done|]. by apply Forall_replicate.
    + by apply Forall_drop, Forall_replicate.
  - cbn [MessageOps.set_source MessageOps.control_now MessageOps.control m_payload ControlEnvelope.header
      ControlEnvelope.payload].
    rewrite !length_app, length_envelope_header, length_latency_packet, length_drop, length_replicate, Hl. lia.
Qed.

Lemma ping_destination (external : bool) :
  address_ok (if external then Address_broadcast 1000 else Address_local 1000).
Proof. destruct external; split; try (unfold is_u; simpl; lia); [apply broadcast_ok|apply local_ok]. Qed.

Lemma keeps_active_send e pad draw external_ping :
  bytes_ok pad → keeps Fx comp_ok (Component.active_send e pad draw external_ping).
Proof.
  intros Hpad. unfold Component.active_send. cbv zeta. case_decide; [|by apply triple_ret].
  apply keeps_bind; [by apply triple_get|]. intros s. apply keeps_bind; [|intros ?; by apply triple_ret].
  apply keeps_send_packet; [apply ping_destination|done].
Qed.

Lemma comp_ok_responses r i ty th s : comp_ok s → comp_ok (set_responses r i ty th s).
Proof. by intros []; split. Qed.
Lemma comp_ok_subs m s : comp_ok s → comp_ok (set_subs m s).
Proof. by intros []; split. Qed.

Lemma keeps_notify i ty reset : keeps Fx comp_ok (Component.notify_interest_request i ty reset).
Proof.
  intros s Hs. unfold Component.notify_interest_request, Component.start_response_thread. mstep.
  case_decide; [split; [constructor|by apply comp_ok_responses]|]. mstep.
  destruct (response_running s); [split; [constructor|by apply comp_ok_responses]|]. mstep. simpl.
  destruct (response_thread s); (split; [constructor|]); by repeat apply comp_ok_responses.
Qed.

Lemma keeps_is_entity_nearby a : keeps Fx comp_ok (Component.is_entity_nearby a).
Proof.
  apply keeps_on_proc. intros s0. unfold Protocol.is_entity_nearby, NIC.is_entity_nearby.
  apply keeps_on_ipc. intros i0. apply keeps_is_nearby.
Qed.

Lemma keeps_cleanup : keeps Fx comp_ok Component.cleanup.
Proof.
  unfold Component.cleanup, TEDSHandler.cleanup. apply keeps_bind; [by apply triple_gets|]. intros m.
  apply keeps_bind; [|intros m'; apply triple_modify; by intros; apply comp_ok_subs].
  assert (∀ l, keeps Fx comp_ok (TEDSHandler.keep_nearby l)) as Hnear.
  { induction l as [|sub l IH]; cbn [TEDSHandler.keep_nearby]; [by apply triple_ret|].
    apply keeps_bind; [apply keeps_is_entity_nearby|]. intros near. apply keeps_bind; [apply IH|].
    intros. by apply triple_ret. }
  induction m as [|[ty l] m IH]; cbn [TEDSHandler.cleanup_types]; [by apply triple_ret|].
  apply keeps_bind; [apply Hnear|]. intros kept. apply keeps_bind.
  - repeat case_decide; [by apply triple_ret|apply keeps_notify..].
  - intros _. apply keeps_bind; [apply IH|]. intros. by apply triple_ret.
Qed.

Lemma keeps_sample draw : keeps Fx comp_ok (on_smart (DataGenerator.generate tag draw)).
Proof.
  intros s [Hp Hq Ha Hg Ht]. unfold on_smart, zoom. destruct (smart s) as [gen tr d u] eqn:E. simpl in Hg, Ht. subst.
  assert (DataGenerator.generate (E := effect) tag draw (mk_smart (attached tag) (attached tag) d u)
          = (Ret tt, mk_smart (attached tag) (attached tag) (i32 draw) (Some (i32 draw)), [])) as ->.
  { unfold DataGenerator.generate.
    erewrite bind_run; [|by apply (value_notify_one gen_obs _ _ tt); [|apply transducer_update]]. done. }
  split; [constructor|]. by split.
Qed.

(** ** The response thread *)

Lemma value_run s v : updated_value (smart s) = Some v → Component.get_value s = (Ret v, s, []).
Proof.
  intros Hv. unfold Component.get_value, on_smart, zoom, LocalSmartData.value. mstep. rewrite Hv.
  by destruct s.
Qed.
Lemma value_missing s : updated_value (smart s) = None → Component.get_value s = (Undefined, s, []).
Proof.
  intros Hv. unfold Component.get_value, on_smart, zoom, LocalSmartData.value. mstep. rewrite Hv.
  by destruct s.
Qed.

Lemma keeps_response e s :
  comp_ok s → ¬ misread TRespond s →
  triple Fx (λ s', s' = s) (Component.response_turn e) (λ _, comp_ok) comp_ok.
Proof.
  intros Hs Hm. unfold Component.response_turn. eapply triple_goto; [exact (bind_get _ s)|].
  destruct (response_running s) eqn:Hr; [|by apply triple_ret; intros ? ->].
  destruct (updated_value (smart s)) as [v|] eqn:Hv; [|by destruct Hm].
  apply triple_bind with (R := λ _, comp_ok); [|intros ?; by apply triple_ret].
  unfold TEDSHandler.send_response. eapply triple_goto; [exact (bind_pure _ _ _ _ _ (value_run s v Hv))|].
  eapply (keeps_at _ comp_ok); [|exact Hs]. cbv zeta.
  destruct (Float32.nonzero _); [|by apply triple_ret]. apply keeps_bind; [by apply triple_gets|]. intros a.
  apply keeps_bind; [|intros ?; by apply triple_ret]. apply keeps_component_send.
  split; cbn [MessageOps.set_source MessageOps.response_now MessageOps.response m_payload m_destination].
  - apply broadcast_address_ok. by vm_compute.
  - rewrite response_payload_eq. apply Forall_app_2; apply lebytes_ok.
  - rewrite response_payload_eq, length_app, !length_lebytes. lia.
Qed.

(** ** The receiver *)

Lemma to_int_cases bits : Float32.to_int bits = Undefined ∨ ∃ n, Float32.to_int bits = Ret n.
Proof. unfold Float32.to_int. repeat case_decide; eauto. Qed.

Lemma slice_slice {A} (a n b m : nat) (l : list A) :
  (b + m ≤ n)%nat → slice b m (slice a n l) = slice (a + b) m l.
Proof.
  intros ?. unfold slice. rewrite skipn_firstn_comm, take_take, drop_drop. f_equal; lia.
Qed.

(** The handler of TEDS messages reads the word after the type of a request and
    of a response, and there is no third kind. *)
Lemma teds_short m s : (length (m_payload m) < 8)%nat → (Component.handleTEDSMessage m s).1.1 = Undefined.
Proof.
  intros Hl. unfold Component.handleTEDSMessage, TEDSHandler.handleTEDSMessage. cbv zeta.
  destruct (decide (length (m_payload m) < 4)%nat) as [Hs|Hs].
  { by rewrite (read_mem_out 0) by (unfold TEDS.HEADER_SIZE; lia). }
  rewrite (read_mem_in 0), bind_checked, is_request_negb by (unfold TEDS.HEADER_SIZE; lia).
  destruct (TEDS.is_response _) eqn:Hr; cbn [negb].
  - unfold TedsHandler.apply_value_from_payload, Component.bridge, Component.apply_value_from_payload,
      Component.response_value. by rewrite read_mem_out by (unfold TEDS.HEADER_SIZE, TEDS.PAYLOAD_SIZE; lia).
  - by rewrite read_mem_out by (unfold TEDS.HEADER_SIZE, TEDS.PAYLOAD_SIZE; lia).
Qed.
Lemma keeps_teds m : teds_readable (m_payload m) → keeps Fx comp_ok (Component.handleTEDSMessage m).
Proof.
  intros [Hl Hf]. unfold Component.handleTEDSMessage, TEDSHandler.handleTEDSMessage. cbv zeta.
  rewrite (read_mem_in 0) by (unfold TEDS.HEADER_SIZE; lia).
  eapply triple_eq; [intros s _; apply bind_checked|]. cbv beta. rewrite is_request_negb.
  change (slice 0 TEDS.HEADER_SIZE (m_payload m)) with (slice 0 4 (m_payload m)).
  destruct (TEDS.is_response _) eqn:Hr; cbn [negb].
  - cbn. unfold Component.apply_value_from_payload, Component.response_value.
    rewrite read_mem_in by (unfold TEDS.HEADER_SIZE, TEDS.PAYLOAD_SIZE; lia).
    destruct (to_int_cases (leval (slice 4 4 (m_payload m)))) as [Hu|[n Hn]]; [by destruct (Hf eq_refl)|].
    change (slice TEDS.HEADER_SIZE TEDS.PAYLOAD_SIZE (m_payload m)) with (slice 4 4 (m_payload m)). rewrite Hn.
    intros s Hs. rewrite (bind_pure _ _ _ _ _ (eq_refl : of_outcome (Ret n) s = (Ret n, s, []))).
    unfold on_smart, zoom, assign, Transducer.actuate. cbn. split; [constructor|]. by destruct s, Hs; split.
  - rewrite read_mem_in by (unfold TEDS.HEADER_SIZE, TEDS.PAYLOAD_SIZE; lia).
    eapply triple_eq; [intros s _; apply bind_checked|]. cbv beta zeta.
    apply keeps_bind; [apply triple_modify; by intros; apply comp_ok_subs|]. intros _. apply keeps_notify.
Qed.

(** What the handler of control messages finds: the envelope's type and, in a
    latency envelope, the fields of the header and where the time is. *)
Lemma envelope_type l : (5 ≤ length l)%nat →
  ControlEnvelope.type (ControlEnvelope.header_of_bytes (take 5 l)) = leval (slice 0 1 l).
Proof. intros ?. unfold slice. simpl. unfold slice. by rewrite !drop_0, take_take. Qed.
Lemma latency_fields n l : (16 ≤ n)%nat →
  LatencyTest.header_of_bytes (slice 0 16 (take n (drop 5 l)))
  = LatencyTest.mk_Header (leval (slice 5 4 l)) (leval (slice 13 8 l)).
Proof.
  intros ?. change (take n (drop 5 l)) with (slice 5 n l). unfold LatencyTest.header_of_bytes.
  by rewrite !slice_slice by lia.
Qed.

Definition copied (l : list Z) : Z := Z.min (leval (slice 1 4 l)) (Z.of_nat (length l) - 5).
Lemma length_copied l : bytes_ok l → (5 ≤ length l)%nat →
  length (take (Z.to_nat (copied l)) (drop 5 l)) = Z.to_nat (copied l) ∧ 0 ≤ copied l.
Proof.
  intros Hb Hl. unfold copied. assert (0 ≤ leval (slice 1 4 l)) by by apply leval_bound, slice_ok.
  rewrite length_take, length_drop. lia.
Qed.

Lemma control_unreadable e pad m s :
  bytes_ok (m_payload m) → ¬ control_readable (sender_id s) (m_payload m) →
  (Component.handleControlMessage e pad m s).1.1 = Undefined.
Proof.
  intros Hb Hn. unfold Component.handleControlMessage, LatencyTestHandler.handleControlMessage. mstep.
  set (l := m_payload m) in *. unfold control_readable in Hn. cbv zeta in Hn.
  destruct (decide (5 ≤ length l)%nat) as [Hl|Hl].
  2:{ unfold ControlEnvelope.from_buffer. by rewrite (read_mem_out 0) by (unfold ControlEnvelope.HEADER_SIZE; lia). }
  rewrite packet_length_le by done. fold (copied l) in *.
  destruct (length_copied l Hb Hl) as [Hlen H0].
  rewrite (bind_pure _ _ _ _ _ (eq_refl : of_outcome (Ret _) s = (Ret _, s, []))).
  cbn [ControlEnvelope.header ControlEnvelope.payload]. rewrite envelope_type by done.
  destruct (decide (leval (slice 0 1 l) = ControlEnvelope.LATENCY)) as [Ht|Ht]; [|by destruct Hn; split; [lia|]].
  cbv zeta. destruct (decide (16 ≤ copied l)) as [Hc|Hc].
  2:{ by rewrite (read_mem_out 0) by (rewrite Hlen; unfold LatencyTest.HEADER_SIZE; lia). }
  rewrite (read_mem_in 0), bind_checked by (rewrite Hlen; unfold LatencyTest.HEADER_SIZE; lia).
  unfold LatencyTest.HEADER_SIZE. rewrite latency_fields by lia.
  cbn [LatencyTest.type LatencyTest.sender_id].
  assert (leval (slice 5 4 l) = 1 ∨ leval (slice 5 4 l) = 2 ∧ leval (slice 13 8 l) = sender_id s) as Hwhich.
  { destruct (decide (leval (slice 5 4 l) = 1)); [by left|right].
    destruct (decide (leval (slice 5 4 l) = 2 ∧ leval (slice 13 8 l) = sender_id s)); [done|].
    destruct Hn. split; [lia|]. intros _. split; [done|]. by intros [?|?]. }
  assert (¬ 24 ≤ copied l) as Hshort by (intros ?; destruct Hn; split; [lia|by intros]).
  assert (read_mem 16 8 (take (Z.to_nat (copied l)) (drop 5 l)) = None) as -> by (apply read_mem_out; rewrite Hlen; lia).
  unfold LatencyTest.PING, LatencyTest.ECHO. case_decide; [done|]. by rewrite decide_True by (by destruct Hwhich).
Qed.

Lemma keeps_control e pad m s :
  bytes_ok pad → bytes_ok (m_payload m) → control_readable (sender_id s) (m_payload m) → comp_ok s →
  triple Fx (λ s', s' = s) (Component.handleControlMessage e pad m) (λ _, comp_ok) comp_ok.
Proof.
  intros Hpad Hb [Hl Hr] Hs. unfold Component.handleControlMessage, LatencyTestHandler.handleControlMessage.
  eapply triple_goto; [exact (bind_get _ s)|]. eapply (keeps_at _ comp_ok); [|exact Hs].
  set (l := m_payload m) in *. assert (5 ≤ length l)%nat as Hl' by lia.
  rewrite packet_length_le by done. fold (copied l) in *. destruct (length_copied l Hb Hl') as [Hlen H0].
  eapply triple_eq; [intros t _; exact (bind_pure _ _ t _ t eq_refl)|]. cbv beta.
  cbn [ControlEnvelope.header ControlEnvelope.payload]. rewrite envelope_type by done.
  case_decide as Ht; [|by apply triple_ret]. destruct (Hr Ht) as [Hc Htime]. cbv zeta.
  rewrite (read_mem_in 0) by (rewrite Hlen; unfold LatencyTest.HEADER_SIZE; lia).
  eapply triple_eq; [intros t _; apply bind_checked|]. cbv beta. unfold LatencyTest.HEADER_SIZE.
  rewrite latency_fields by lia. cbn [LatencyTest.type LatencyTest.sender_id].
  unfold LatencyTest.PING, LatencyTest.ECHO. case_decide as Hp.
  - rewrite (read_mem_in 16) by (rewrite Hlen; specialize (Htime (or_introl Hp)); lia).
    eapply triple_eq; [intros t _; apply bind_checked|]. cbv beta.
    apply keeps_bind; [|intros ?; by apply triple_ret]. apply keeps_send_packet; [|done].
    destruct (mac_eqb _ _); [apply (ping_destination false)|apply (ping_destination true)].
  - case_decide as He; [|by apply triple_ret].
    rewrite (read_mem_in 16) by (rewrite Hlen; specialize (Htime (or_intror He)); lia).
    eapply triple_eq; [intros t _; apply bind_checked|]. by apply triple_ret.
Qed.

Lemma undefined_bind {A B} (m : C A) (f : A → C B) s : (m s).1.1 = Undefined → ((m ≫= f) s).1.1 = Undefined.
Proof. unfold mbind, M_bind. by destruct (m s) as [[[] ?] ?]. Qed.

Lemma teds_unreadable m s :
  ¬ teds_readable (m_payload m) → (Component.handleTEDSMessage m s).1.1 = Undefined.
Proof.
  intros Hn. destruct (decide (length (m_payload m) < 8)%nat); [by apply teds_short|].
  unfold Component.handleTEDSMessage, TEDSHandler.handleTEDSMessage. cbv zeta.
  rewrite (read_mem_in 0), bind_checked, is_request_negb by (unfold TEDS.HEADER_SIZE; lia).
  change (slice 0 TEDS.HEADER_SIZE (m_payload m)) with (slice 0 4 (m_payload m)).
  destruct (TEDS.is_response _) eqn:Hr; cbn [negb]; [|by destruct Hn; split; [lia|congruence]].
  cbn. unfold Component.apply_value_from_payload, Component.response_value.
  rewrite read_mem_in by (unfold TEDS.HEADER_SIZE, TEDS.PAYLOAD_SIZE; lia).
  change (slice TEDS.HEADER_SIZE TEDS.PAYLOAD_SIZE (m_payload m)) with (slice 4 4 (m_payload m)).
  destruct (to_int_cases (leval (slice 4 4 (m_payload m)))) as [->|[k Hf]]; [done|].
  destruct Hn. split; [lia|]. by rewrite Hf.
Qed.

(** A computation that leaves a communicator its queue. *)
Definition leaves_queue {A} (id : nat) (m : P A) : Prop :=
  ∀ s, is_Some (queues s !! id) → is_Some (queues (m s).1.2 !! id).
Lemma leaves_queue_bind {A B} id (m : P A) (f : A → P B) :
  leaves_queue id m → (∀ a, leaves_queue id (f a)) → leaves_queue id (m ≫= f).
Proof.
  intros Hm Hf s Hs. specialize (Hm s Hs). unfold mbind, M_bind.
  destruct (m s) as [[o s'] es]. destruct o as [a|e| | |]; try done.
  specialize (Hf a s' Hm). by destruct (f a s') as [[o s''] es'].
Qed.
Lemma leaves_queue_nic {A} id (m : M nics effect A) : leaves_queue id (on_nic m).
Proof. intros s Hs. unfold on_nic, NIC.on_nics, zoom. by destruct (m (nic s)) as [[o n] es]. Qed.

Lemma leaves_queue_checked {A} id (o : option A) : leaves_queue id (checked o).
Proof. by destruct o; intros s Hs. Qed.

Lemma receive_leaves_queue c m : leaves_queue (c_id c) (Communicator.receive c m).
Proof.
  unfold Communicator.receive, Communicator.pop, Protocol.receive, Protocol.free.
  repeat first [apply leaves_queue_bind; [|intros ?] | apply leaves_queue_nic | apply leaves_queue_checked
    | progress cbv zeta | case_match | case_decide | by intros ? ?
    | by intros s Hs; simpl; rewrite lookup_insert_eq].
Qed.

Lemma keeps_receiver e pad s :
  bytes_ok pad → comp_ok s → ¬ misread (TReceive pad) s →
  triple Fx (λ s', s' = s) (Component.receiver_loop e pad) (λ _, comp_ok) comp_ok.
Proof.
  intros Hpad Hs Hm. unfold Component.receiver_loop. eapply triple_goto; [exact (bind_get _ s)|].
  pose proof (receive_safe p false base (comm s) (MessageOps.sized 1024) (proc s)
    (conj (cp_proc _ Hs) (cp_queue _ Hs))) as Hsafe.
  pose proof (receive_leaves_queue (comm s) (MessageOps.sized 1024) _ (cp_queue _ Hs)) as Hqueue.
  destruct (Communicator.receive _ _ _) as [[o q] es] eqn:E. simpl in Hqueue. destruct Hsafe as [Hes Ho].
  assert (on_proc (Communicator.receive (comm s) (MessageOps.sized 1024)) s = (o, set_proc q s, es)) as Hrun.
  { unfold on_proc, zoom. by rewrite E. }
  assert (proc_ok q → comp_ok (set_proc q s)) as Hok by (intros; destruct Hs; by split).
  apply triple_bind with (R := λ a s', s' = set_proc q s ∧ o = Ret a).
  { intros ? ->. rewrite Hrun. split; [done|]. destruct o; try done; by apply Hok. }
  intros [ok msg]. apply triple_at. intros ? [-> ->]. destruct Ho as [Hq Hb].
  specialize (Hb ltac:(apply Forall_replicate; lia)). simpl in Hb.
  destruct ok; [|by apply triple_ret; intros ? ->; apply Hok].
  assert (readable (sender_id s) msg) as Hread.
  { destruct (decide (readable (sender_id s) msg)); [done|]. destruct Hm. by exists msg, q, es. }
  unfold readable in Hread. destruct (m_type msg); try (apply triple_ret; intros ? ->; by apply Hok).
  - apply triple_bind with (R := λ _, comp_ok); [|intros ?; by apply triple_ret].
    by apply keeps_control; [..|apply Hok].
  - eapply (keeps_at _ comp_ok); [by apply keeps_teds|by apply Hok].
Qed.

Lemma misread_receiver e pad s :
  comp_ok s → misread (TReceive pad) s → (Component.receiver_loop e pad s).1.1 = Undefined.
Proof.
  intros Hs (m & q & es & E & Hn). unfold Component.receiver_loop. mstep.
  assert (on_proc (Communicator.receive (comm s) (MessageOps.sized 1024)) s = (Ret (true, m), set_proc q s, es))
    as Hrun by (unfold on_proc, zoom; by rewrite E).
  pose proof (receive_safe p false base (comm s) (MessageOps.sized 1024) (proc s)
    (conj (cp_proc _ Hs) (cp_queue _ Hs))) as Hsafe. rewrite E in Hsafe. destruct Hsafe as (_ & _ & Hb).
  specialize (Hb ltac:(apply Forall_replicate; lia)). simpl in Hb.
  rewrite (bind_run _ _ _ _ _ _ Hrun). unfold readable in Hn.
  assert (∀ r : outcome unit * component * list effect, r.1.1 = Undefined →
    (match r with (o, s'', es') => (o, s'', es ++ es') end).1.1 = Undefined) as Hlater by (by intros [[??]?]).
  destruct (m_type m); try done; apply Hlater.
  - apply undefined_bind. by apply control_unreadable.
  - by apply teds_unreadable.
Qed.

(** ** The constructor *)

(** A step of the process, the rest kept. *)
Lemma on_proc_safe {A} (I : smartdata → Prop) (pre : pstate → Prop) (m : P A) Q (X : pstate → Prop) :
  triple Fx pre m Q X →
  triple Fx (λ s, pre (proc s) ∧ I (smart s)) (on_proc m) (λ a s, Q a (proc s) ∧ I (smart s)) (λ s, X (proc s)).
Proof.
  intros Hm. eapply triple_zoom; [exact Hm|by intros s []|by intros s a t []|done].
Qed.

Lemma on_proc_pure {A B} (m : P A) (f : A → C B) s a q :
  m (proc s) = (Ret a, q, []) → (on_proc m ≫= f) s = f a (set_proc q s).
Proof. intros Hm. apply bind_pure. unfold on_proc, zoom. by rewrite Hm. Qed.
Lemma on_smart_pure {A B} (m : M smartdata effect A) (f : A → C B) s a d :
  m (smart s) = (Ret a, d, []) → (on_smart m ≫= f) s = f a (set_smart d s).
Proof. intros Hm. apply bind_pure. unfold on_smart, zoom. by rewrite Hm. Qed.

Definition wired (d : smartdata) : Prop := gen_obs d = attached tag ∧ tr_obs d = attached tag.

(** The part of the process the component's port waits in. *)
Lemma service_safe pid name type_id mac k j :
  since base j →
  triple Fx (λ s, s = registered_as p mac k j) (Component.registerAndGetPort pid name type_id)
    (λ port s, ∃ i, s = registered_as p mac k i ∧ since base i ∧ is_u 16 port) (ended base).
Proof.
  intros Hj. unfold Component.registerAndGetPort, NIC.registerComponentService.
  apply triple_bind with (R := λ port s, ∃ i, s = registered_as p mac k i ∧ since base i ∧ is_u 16 port).
  - intros ? ->. unfold on_nic, NIC.on_nics, on_ipc, zoom. cbn [nic registered_as set_nic ipc].
    pose proof (yields_registerService Fx base pid name type_id j Hj) as Hr.
    change (ipc (set_me k _)) with j.
    destruct (registerService pid name type_id j) as [[o i] es]. destruct Hr as [Hes Ho]. split; [done|].
    destruct o; try done. destruct Ho as [Hi Hp]. by exists i.
  - intros port. case_decide; [|by apply triple_ret]. apply triple_throw. by intros s (i & -> & Hi & _).
Qed.

(** Protocol and communicator are set up in either order. *)
Lemma set_up_safe id a mac k j :
  since base j → mac_ok mac → (k < 16)%nat → address_ok a →
  ∃ s c s', Communicator.construct id a (registered_as p mac k j) = (Ret c, s, []) ∧
    Protocol.init_component s = (Ret tt, s', []) ∧ proc_ok s' ∧ comm_ok c s' ∧ types s' = observed_empty.
Proof.
  intros Hj Hm Hk Ha.
  pose proof (component_safe p false base mac k j eq_refl Hj Hm Hk _ eq_refl) as Hc.
  assert (∃ s0, Protocol.init_component (registered_as p mac k j) = (Ret tt, s0, []) ∧
    queues s0 = ∅ ∧ ports s0 = observed_empty ∧ types s0 = observed_empty) as (s0 & E0 & Hq & Hpo & Ht).
  { eexists. by split. }
  rewrite E0 in Hc. destruct Hc as [_ Hs0].
  pose proof (construct_safe p false base id a Ha s0) as Hc.
  assert (proc_ok s0 ∧ queues s0 !! id = None ∧ matching (port a) (ports s0) = [] ∧
    (∀ n, id ∉ matching n (ports s0)) ∧ (∀ t, id ∉ matching t (types s0))) as Hpre.
  { rewrite Hq, Hpo, Ht. split; [done|]. repeat split; try done; intros c; apply not_elem_of_nil. }
  specialize (Hc Hpre). injection E0 as <-. cbn in Hc. do 3 eexists.
  split; [reflexivity|]. split; [reflexivity|]. by destruct Hc as (_ & ? & ?).
Qed.

(** The interest of an actuator. *)
Lemma keeps_interest e c t ms s0 :
  address_ok (c_address c) → keeps Fx (after s0) (Communicator.send_interest_message false e c t ms).
Proof.
  intros Hc. unfold Communicator.send_interest_message. cbv zeta.
  apply keeps_bind; [|intros ?; by apply triple_ret]. eapply keeps_protocol_send; [exact H|].
  apply (sendable_data (c_address c) (mk_Message Address_default (Address_broadcast TYPE_BASED_ROUTING_PORT)
    Segment.TEDS (TEDS.create_request_payload t ms) 0 0) Hc).
  split; cbn [m_destination m_payload].
  - apply broadcast_address_ok. by vm_compute.
  - rewrite request_payload_eq. apply Forall_app_2; apply lebytes_ok.
  - rewrite request_payload_eq, length_app, !length_lebytes. lia.
Qed.

Lemma subscriptions_safe e c kind ms s :
  proc_ok s → comm_ok c s → types s = observed_empty →
  triple Fx (λ s', s' = s)
    (match kind with
     | ACTUATOR => Communicator.subscribe_to_responses false e c (UnitTagType tag) ms
     | SENSOR => Communicator.subscribe_to_requests c (UnitTagType tag)
     end) (λ c s, proc_ok s ∧ is_Some (queues s !! c_id c) ∧ address_ok (c_address c)) proc_ok.
Proof.
  intros Hs Hc Ht.
  assert (∀ t, triple Fx (λ s', s' = s) (Communicator.subscribe_to_type c t) (λ c s, proc_ok s ∧ comm_ok c s) proc_ok)
    as Hsub.
  { intros t. eapply keeps_at; [apply (subscribe_safe p false base)|]. split; [done|]. split; [done|]. by rewrite Ht. }
  destruct kind.
  - unfold Communicator.subscribe_to_responses. eapply triple_bind; [apply Hsub|]. intros c'. apply triple_at.
    intros s1 [Hs1 []]. apply triple_bind with (R := λ _ s, after s1 s).
    + eapply triple_conseq; [by apply (keeps_interest e c' _ _ s1)|intros ? ->; by apply after_refl|done|
        by intros ? ?%after_proc].
    + intros ?. apply triple_ret. intros s2 H2. split; [by eapply after_proc|].
      by rewrite (af_queues _ _ _ _ _ H2).
  - eapply triple_conseq; [apply Hsub|done|by intros ? ? [? []]|done].
Qed.

(** The constructor leaves a well-formed component, or the memory well formed. *)
Lemma component_construct_safe e id pid name type_id sid early kind ms mac i :
  ipc_ok i → ipc_le base i → mac_ok mac →
  triple Fx (λ s, proc s = new_process p mac i)
    (Component.construct e id pid name type_id tag sid early kind ms) (λ _, comp_ok) (λ s, ended base (proc s)).
Proof.
  intros Hi Hle Hm. unfold Component.construct.
  eapply triple_bind.
  { eapply triple_conseq; [apply (on_proc_safe (λ _, True)), (register_safe p base pid mac i Hi Hle Hm)|
      by intros|intros ? ? Hr; exact Hr|done]. }
  intros k. apply triple_at. intros s [(j & Hs & Hj & Hk) _].
  eapply triple_goto.
  { refine (on_proc_pure _ _ s tt (registered_as p mac k j) _). by rewrite Hs. }
  eapply triple_bind.
  { eapply triple_conseq; [apply (on_proc_safe (λ _, True)), (service_safe pid name type_id mac k j Hj)|
      by intros ? ->|intros ? ? Hr; exact Hr|done]. }
  intros n. apply triple_at. intros s1 [(j1 & Hs1 & Hj1 & Hn) _]. clear s Hs.
  eapply triple_goto; [refine (on_proc_pure _ _ s1 LOCAL_ADDR (registered_as p mac k j1) _); by rewrite Hs1|].
  destruct (set_up_safe id (mk_Address LOCAL_ADDR n) mac k j1 Hj1 Hm Hk)
    as (q & c & q' & Hcomm & Hinit & Hq & Hc & Ht); [split; [apply local_ok|done]|].
  eapply triple_goto; [refine (on_proc_pure _ _ _ c q _); exact Hcomm|].
  destruct (construct_run (E := effect) tag early (smart s1)) as [d Hd].
  eapply triple_goto; [refine (on_smart_pure _ _ _ tt _ _); exact Hd|].
  eapply triple_goto; [refine (on_proc_pure _ _ _ tt q' _); exact Hinit|].
  set (s2 := set_proc q' _).
  apply triple_bind with (R := λ c s, (proc_ok (proc s) ∧ is_Some (queues (proc s) !! c_id c) ∧
    address_ok (c_address c)) ∧ wired (smart s)).
  - pose proof (subscriptions_safe e c kind ms q' Hq Hc Ht) as Hsub.
    destruct kind; (eapply triple_conseq; [exact (on_proc_safe wired _ _ _ _ Hsub)|by intros ? ->|done|
      intros s Hx; by apply (proc_ended p false)]).
  - intros c'. apply triple_modify. by intros s [(? & ? & ?) []].
Qed.

(** ** The NIC's thread *)

Lemma leaves_queue_notify {Ob} (f : Ob → P unit) (c : Z) (o : observed Ob Z) id :
  (∀ x, leaves_queue id (f x)) → leaves_queue id (notify f c o).
Proof.
  intros Hf. unfold notify. generalize false. generalize (conditions o).
  induction (observers o) as [|x os IH]; intros [|c' cs] b; try by intros ? ?.
  cbn [notify_loop]. case_decide; [|apply IH]. destruct x; [|apply IH].
  apply leaves_queue_bind; [apply Hf|]. intros _. apply IH.
Qed.
Lemma leaves_queue_incoming id obs buf : leaves_queue id (Protocol.queue_incoming_buffer obs buf).
Proof.
  intros s Hs. unfold Protocol.queue_incoming_buffer. mstep.
  destruct (queues s !! obs) as [q|] eqn:Hq; mstep; [|done].
  destruct (queue_update buf q) as [q'| | | |]; try done. simpl.
  destruct (decide (obs = id)) as [->|]; [by rewrite lookup_insert_eq|by rewrite lookup_insert_ne].
Qed.

Ltac leave known := repeat first [ apply known | apply leaves_queue_bind; [|intros ?] | apply leaves_queue_nic
  | apply leaves_queue_checked | apply leaves_queue_notify; intros ?
  | progress cbv zeta | case_match | case_decide | by intros ? ? ].

Lemma leaves_queue_update e id prot buf : leaves_queue id (Protocol.update false e SHM prot buf).
Proof.
  unfold Protocol.update, Protocol.update_local, Protocol.notify_communicator. leave leaves_queue_incoming.
Qed.
Lemma receiver_leaves_queue e eintr id : leaves_queue id (Protocol.receiver_turn false e eintr).
Proof.
  unfold Protocol.receiver_turn, NIC.receiver_turn, NIC.notify.
  leave leaves_queue_update.
Qed.

#[local] Instance misread_dec t s : Decision (misread t s).
Proof.
  destruct t; cbn [misread]; try (right; tauto); [|apply _].
  destruct (Communicator.receive _ _ _) as [[[[[] m]| | | |] q] es]; try (right; naive_solver).
  destruct (decide (readable (sender_id s) m)); [right|left]; naive_solver.
Qed.

Lemma turn_safe e t s :
  comp_ok s → turn_ok t → ¬ misread t s → triple Fx (λ s', s' = s) (run_turn e tag t) (λ _, comp_ok) comp_ok.
Proof.
  intros Hs Ht Hm. destruct t as [pad|pad draw ext| | |draw]; cbn [run_turn].
  - by apply keeps_receiver.
  - eapply (keeps_at _ comp_ok); [|exact Hs]. apply keeps_bind; [by apply keeps_active_send|].
    intros ?. by apply triple_ret.
  - apply triple_bind with (R := λ _, comp_ok); [by apply keeps_response|]. intros ?. by apply triple_ret.
  - eapply (keeps_at _ comp_ok); [apply keeps_cleanup|exact Hs].
  - eapply (keeps_at _ comp_ok); [apply keeps_sample|exact Hs].
Qed.

Lemma turn_misread e t s : comp_ok s → misread t s → (run_turn e tag t s).1.1 = Undefined.
Proof.
  intros Hs. destruct t; cbn [misread run_turn]; try done.
  - by apply misread_receiver.
  - intros [Hr Hv]. apply undefined_bind. unfold Component.response_turn. mstep. rewrite Hr.
    apply undefined_bind. unfold TEDSHandler.send_response. apply undefined_bind.
    exact (f_equal (λ r, r.1.1) (value_missing s Hv)).
Qed.

(** One turn, either way. *)
Lemma turn_result e t s out s' es :
  comp_ok s → turn_ok t → run_turn e tag t s = (out, s', es) →
  (out = Undefined ↔ misread t s) ∧ (out ≠ Undefined → comp_ok s' ∧ Forall effect_ok es).
Proof.
  intros Hs Ht Hr. destruct (decide (misread t s)) as [Hm|Hm].
  - pose proof (turn_misread e t s Hs Hm) as Hu. rewrite Hr in Hu. by subst.
  - destruct (triple_result _ _ _ _ _ _ _ _ _ (turn_safe e t s Hs Ht Hm) eq_refl Hr) as (Hu & Hs' & Hes).
    split; [done|]. intros _. split; [by destruct out|done].
Qed.

Lemma nic_turn e eintr s out q es :
  comp_ok s → room (proc s) → Protocol.receiver_turn false e eintr (proc s) = (out, q, es) →
  out ≠ Undefined ∧ comp_ok (set_proc q s) ∧ Forall effect_ok es.
Proof.
  intros Hs Hroom Hr.
  destruct (triple_result _ _ _ _ _ _ _ _ _ (receiver_turn_safe p false base e eintr)
    (conj (cp_proc _ Hs) Hroom) Hr) as (Hu & Hq & Hes).
  pose proof (receiver_leaves_queue e eintr _ _ (cp_queue _ Hs)) as Hqueue. rewrite Hr in Hqueue.
  split; [done|]. split; [|done]. destruct Hs. split; try done. by destruct out.
Qed.

Lemma memory_moves j s : comp_ok s → since (ipc (nic (proc s))) j → comp_ok (set_proc (seeing j (proc s)) s).
Proof. intros [] Hj. split; try done. by apply proc_ok_ipc. Qed.
End safety.

(** ** Runs of a component *)

(** A turn of one of its threads, or of the NIC's; or other processes change
    the shared memory, which goes on holding complete frames. *)
Inductive cstep (tag : Z) (s : component) : component → Prop :=
  | StepTurn e t out s' es :
      turn_ok t → run_turn e tag t s = (out, s', es) → out ≠ Undefined → cstep tag s s'
  | StepNic e eintr out q es :
      room (proc s) → Protocol.receiver_turn false e eintr (proc s) = (out, q, es) → cstep tag s (set_proc q s)
  | StepMemory j :
      since (ipc (nic (proc s))) j → cstep tag s (set_proc (seeing j (proc s)) s).

Lemma cstep_ok p `{MacLaws p} tag base s s' : comp_ok p tag base s → cstep tag s s' → comp_ok p tag base s'.
Proof.
  intros Hs Hstep. destruct Hstep as [e t out s' es Ht Hr Hu|e eintr out q es Hroom Hr|j Hj].
  - destruct (turn_result p tag base e t s out s' es Hs Ht Hr) as [_ Hok]. by apply Hok.
  - by destruct (nic_turn p tag base e eintr s out q es Hs Hroom Hr) as (_ & ? & _).
  - by apply memory_moves.
Qed.

(** ** Properties *)


(** A thermometer in a new vehicle, and an actuator that asks it. *)
Definition unborn (i : Ipc) : component :=
  mk_component (new_process XorCryptoProvider mac_a i) (mk_communicator 0 Address_default ∅) smart_start []
    0 false false 0 0 false.
Definition new_component (pid : Z) (kind : TransducerType) (i : Ipc) : outcome unit * component * list effect :=
  Component.construct nenv0 0 pid [84] 5 TEDS.TEMPERATURE 1 [] kind 1000 (unborn i).
Definition memory_of (s : component) : Ipc := ipc (nic (proc s)).

Definition thermometer : component := (new_component 100 SENSOR boot0).1.2.
Definition asked_memory : Ipc := memory_of (new_component 101 ACTUATOR (memory_of thermometer)).1.2.
Definition asked : component := set_proc (seeing asked_memory (proc thermometer)) thermometer.
Definition notified : component := set_proc (Protocol.receiver_turn false nenv0 false (proc asked)).1.2 asked.
Definition interested : component := (run_turn nenv0 TEDS.TEMPERATURE (TReceive []) notified).1.2.

Lemma new_component_ok pid kind i :
  ipc_ok i → (new_component pid kind i).1.1 = Ret tt →
  comp_ok XorCryptoProvider TEDS.TEMPERATURE i (new_component pid kind i).1.2.
Proof.
  intros Hi Hr. pose proof (component_construct_safe XorCryptoProvider TEDS.TEMPERATURE i nenv0 0 pid [84] 5 1 []
    kind 1000 mac_a i Hi ltac:(done) mac_a_ok (unborn i) eq_refl) as Hc.
  unfold new_component in *. destruct (Component.construct _ _ _ _ _ _ _ _ _ _ _) as [[o s] es].
  simpl in *. subst. by destruct Hc.
Qed.
Lemma thermometer_run :
  Component.construct nenv0 0 100 [84] 5 TEDS.TEMPERATURE 1 [] SENSOR 1000 (unborn boot0)
  = (Ret tt, thermometer, []).
Proof.
  unfold thermometer, new_component. apply (run_pairing (Component.construct _ _ _ _ _ _ _ _ _ _ _));
    vm_compute; reflexivity.
Qed.
Lemma thermometer_ok : comp_ok XorCryptoProvider TEDS.TEMPERATURE boot0 thermometer.
Proof. apply new_component_ok; [apply init_block_ok|]. vm_compute. reflexivity. Qed.
Lemma asked_memory_ok : since (memory_of thermometer) asked_memory.
Proof.
  destruct (new_component_ok 101 ACTUATOR (memory_of thermometer)) as [Hs _ _ _ _].
  - exact (po_ipc _ _ _ _ (cp_proc _ _ _ _ thermometer_ok)).
  - vm_compute. reflexivity.
  - split; apply Hs.
Qed.
Lemma asked_room : room (proc asked).
Proof.
  assert (queues (proc asked) = {[0%nat := mk_queue 0 []]}) as Hq by (vm_compute; reflexivity).
  intros c q. rewrite Hq. intros [_ <-]%lookup_singleton_Some. done.
Qed.

